(* ===== verification/_CoqProject ===== *)
-Q . S2P
Prelude.v
Binary.v
Sha256.v
Externals.v
Crypto.v
Format.v
FormatIO.v
Delta.v
Chunker.v
Codebook.v
Fractal.v
Merkle.v
Entropy.v
Search.v
Unpack.v
Pack.v
ChunkCodec.v
BlockCodec.v
RoundTrip.v
PackFile.v
Integrity.v
Archive.v
VfsCache.v
VfsReader.v
VfsRead.v
VfsMount.v
Edge.v
Mutation.v
Cloud.v
Sync.v
Bitswap.v
Transfer.v
Protocol.v
SyncRun.v
Handshake.v
Trainer.v
Training.v
TrainRun.v
Bpe.v
Grep.v
AutoBrain.v
CromFS.v
TreeFS.v
CromDb.v
WasmDb.v
VfsTree.v
Cli.v
CliRun.v
Gossip.v
Identity.v
Metrics.v
Info.v
Discovery.v
Pull.v
Watcher.v
Daemon.v
SharedBrain.v
Pager.v
Relay.v
Counters.v
Scripts.v
Examples.v
