(* ===== verification/Prelude.v ===== *)
(** * Crompressor: a verification library of the Go compressor

    Crompressor replaces the chunks of a file by references to the codewords of a shared "brain" (a
    [.cromdb] file) and keeps what differs as residuals; the result is a [.crom] file. This library
    models the Go packages that decide what those files contain and what the readers make of them.
    A definition keeps the name of the Go function it translates (methods as [Type_Method] where the
    plain name is taken) and its branches in the order of the code.

    ** How the code is modelled

    - Bytes are lists of integers in [0 .. 255]; an integer of width [w] is a [Z], reduced by [u8] ..
      [u64], [i64] where the code lets it wrap.
    - A function returns a [res]: [Ok], [Err] with the prefix of the message, or [Panic] where Go stops
      the goroutine (an index or slice out of range, a nil dereference, a division by zero). Proving [Ok] or
      [Err] therefore includes that the function does not panic.
    - Loops are structural where the data allows it and have fuel otherwise. The fuel is in the definition
      that calls the loop, is a length of its input, and theorems that give the result show that it suffices.
    - Randomness, clocks, Go's map order, unstable sorts and the schedule of goroutines are arguments; the
      theorems hold for all of them, or under the laws Go documents.
    - Code outside the repository is a type class: its operations ([Zstd], [Cipher], [XXHash], [MathLog2],
      [Files], [ReaderAt], [PageCache], [ZstdWire], [PubSub], the tables of SQLite, the JSON forms), and apart from
      them its laws ([ZstdLaws], [CipherLaws], [PubSubLaws] ...). Each has a concrete instance, on which the
      witnesses compute. SHA-256, HMAC, FNV-1a, paths and queries of URLs are functions of Go's standard library
      and are defined in full.

    ** The files

    - Foundations. [Prelude]: results, byte strings, tactics. [Binary]: [encoding/binary]. [Sha256].
      [Externals]: the classes above. [Crypto]: [internal/crypto].
    - Format. [Format]: [pkg/format/format.go], headers, block bounds and both chunk tables. [FormatIO]:
      [reader.go], [writer.go].
    - Parts of the packer. [Delta]: [internal/delta]. [Chunker]: [internal/chunker] and
      [internal/semantic], behind the class [Chunker]. [Codebook]: [internal/codebook]. [Fractal], [Merkle], [Entropy]
      and [Search]: the packages of these names.
    - Packing and unpacking. [Unpack]: [pkg/cromlib/unpacker.go], [unpack_bytes.go]. [Pack]: [compiler.go],
      [compiler_stream.go], [pack_bytes.go]; each packer is a pool of
      residuals and the file made of it. [Metrics]: the report a packer returns. [ChunkCodec], [BlockCodec],
      [RoundTrip] and [PackFile]: the proofs, by layers - a chunk (the class [Approximator] is what the blocks need of the three packing
      steps: each chunk is stored as something that stands for it; an [Encoder] is one where that is the chunk itself), a block, [PackStream]
      and [PackBytes], [Pack]. [Edge]: the packers in edge mode as approximators. [Integrity]: files nobody packed. [Counters]:
      [internal/metrics], what is counted of all this.
    - Random access. [Archive]: what a packed file is, for readers that do not start at the beginning.
      [VfsCache], [VfsReader]: [internal/vfs]; [VfsRead] and [VfsMount]: their proofs. [Mutation]:
      [pkg/cromlib/mutator.go] and [internal/vfs/writer.go]. [Cloud]: [internal/remote/cloud.go].
      [Grep]: [pkg/cromlib/grep.go]. [Watcher]: [internal/vfs/watcher.go], the goroutine that takes a mount down.
    - Files and directories. [TreeFS], [CromDb], [WasmDb]: [pkg/cromdb], the index over SQL and the one of the
      browser. [VfsTree]: [internal/vfs/tree.go] and the whole of [Mount]. [CromFS]: [internal/cromfs]. [Pager]:
      [pkg/cromlib/vfs].
    - Synchronisation. [Sync]: [pkg/sync/manifest.go]. [Bitswap], [Protocol], [Handshake]: [bitswap.go],
      [protocol.go] and [auth.go] of [internal/network].
      [Transfer] and [SyncRun]: their proofs.
      [Gossip]: [gossip.go], [fec.go]. [Identity]: [host.go], [identity.go], [discovery.go]; [Discovery]: what
      follows a handshake, and the peers that are found. [Relay]: pulls one after the other, and the mount of
      what arrives.
    - Training. [Trainer]: [internal/trainer]; [Training], [TrainRun] and [Bpe]: its proofs. [AutoBrain]: [internal/autobrain].
    - Commands, over a disk that maps paths to contents. [Cli], [CliRun]: [pack], [unpack], [verify], [train],
      [benchmark], the checks of [mount]. [Info]: [info]. [Pull]: [pull]. [Daemon]: [daemon], [share], [keys], [trust].
      [SharedBrain]: [shared-daemon] and [internal/autobrain/daemon.go]. [Scripts]: the generators of test data in
      [scripts]. [Examples]: the programs in [examples].

    ** What the theorems show

    - Round trips. [PackFile.Unpack_Pack], [RoundTrip.UnpackBytes_PackBytes] and
      [RoundTrip.Unpack_PackStream]: what the packers write unpacks to the input, for every option that the
      unpackers support. Underneath, the same for headers, chunk tables, manifests, edit scripts.
    - Edge mode. [Edge.Unpack_Pack_edge]: without residuals, what unpacks - and what a mount reads - has the length of the
      input, and differs from it only in chunks that came back as the beginning of a codeword.
    - Integrity. [Integrity.Unpack_integrity]: a strict unpack that succeeds gives bytes with the digest of
      the header. [Integrity.Unpack_damaged_block]: the tolerant mode replaces a damaged block by
      zeros, and nothing else. [FormatIO.ReadMetadata_no_panic]: no file makes the parser panic.
      [Merkle.Root_binding]: equal roots of equally many leaves mean equal leaves, or a collision.
    - Random access. [VfsMount.Mount_Pack]: a mounted file serves the input, in whatever order it is read,
      through caches of any size. [VfsCache.MemoryCache_lru]: the cache refines a list in order of use and
      keeps its budget. [Cloud.Cloud_ReadAt_range]: paged range requests give the range.
      [Mutation.wal_Close_log] and [Mutation.mounted_archive_intact]: the mutation log. [VfsTree.Mount_tree]: a whole
      mount, from the bytes of the archive to the reads of the one file below its root.
      [Watcher.watcher_unmounts]: when it goes down, and only then. [Grep.Grep_matches]: a search finds the
      chunks that hold the words.
    - Reports. [Metrics.Pack_metrics_ok], [Metrics.Pack_expansion]: what a packer reports is what it wrote, and how much
      longer than its input a file can be. [Info.info_Pack]: what [info] shows of a packed file.
    - Sessions. [CliRun.pack_unpack_verify_session], [CliRun.train_pack_unpack_session]: commands one after the
      other, over one disk; [Examples.examples_session]: the example programs likewise, after the training of their brain.
      [Scripts.generated_brain]: a training on what the generator writes. [Counters.counters_of_process]: what the counters say of a
      process. [SharedBrain.shared_daemon_session]: every client of the socket is answered, whatever
      the interleaving, and stopping leaves nothing. [Pull.pull_fetches]: a node is started, authenticates the peer that was named and fetches
      the file.
    - Network. [SyncRun.RequestSync_fetches]: a client that lacks chunks ends with an archive of the
      server's file, reading only what the two nodes send each other. [Handshake.handshake_completes]: two
      nodes with the same brain authenticate each other under every interleaving;
      [Handshake.handshake_sovereignty] and [Discovery.handshake_refused]: with different brains neither is, and both close
      the connection. [Gossip.read_message_verified]: what a
      proposal needs to count as signed. [Relay.relay_delivers]: a file pulled along a line of nodes arrives.
    - Search and chunking: every chunker tiles its input; the rolling-hash chunkers equal their definitions by
      the window; the optimised Hamming distance equals the portable one; the searches return codewords
      of the brain, and the nearest where they promise it.
    - Training. [TrainRun.Train_standard]: the brain of a training opens, and holds distinct chunks of its
      corpus. [TrainRun.Train_schedule]: it does not depend on the schedule. [TrainRun.selectPicked_greedy],
      [Bpe.bpe_Train_lossless]: selection and vocabulary.
    - Defects. The theorems of kind "error" compute inputs on which the code does something other than it
      means to; the lemmas next to the definitions hold more of them.

    ** Not modelled

    - What zstd does, its streaming [BrainWriter] and its C encoder included: they are operations of its class. The client library of
      Prometheus below its counters and histograms.
    - Progress, log lines, JSON forms, durations, errors of reading and writing files other
      than absence and end of file, and resource release, apart from [codebook.Close].
    - Locks: a method under a mutex is one step. Where a lock does not cover the effect ([Mutation]) or two
      parties interact ([Handshake]), there is a step relation.
    - The public packages that only pass their arguments on ([pkg/crypto], [pkg/delta], [pkg/vfs] ...), and the placeholder
      for CUDA, which returns a constant.
    - The transports of libp2p, mDNS and the DHT: a connection gives a peer or an error, and what the two ends send
      each other is modelled. SQLite below its tables, the FUSE servers below their handlers, the signals of the
      process, and the bindings for WASM.
    - Parsing of flags and what the commands print. *)

From stdpp Require Export base numbers list gmap strings.
From Stdlib Require Export ZArith Lia.

#[export] Set Default Goal Selector "!".

Declare Scope crom_scope.
Delimit Scope crom_scope with crom.
Global Open Scope Z_scope.
Global Open Scope crom_scope.

(** ** Results of Go code

    A Go function that can fail returns a value and an [error]; code that indexes out
    of range, slices out of bounds or dereferences nil panics instead.  [res] keeps the
    three outcomes apart.  Error values are the literal prefix of the message. *)

Inductive panic : Set :=
  | IndexOutOfRange
  | SliceBounds
  | NilDereference
  | DivideByZero
  | NilMapWrite
  | CloseOfClosedChannel.

Inductive res (A : Type) : Type :=
  | Ok (a : A)
  | Err (msg : string)
  | Panic (p : panic).
Arguments Ok {A} a.
Arguments Err {A} msg.
Arguments Panic {A} p.

#[export] Instance res_ret : MRet res := @Ok.
#[export] Instance res_bind : MBind res := fun A B f m =>
  match m with
  | Ok a => f a
  | Err e => Err e
  | Panic p => Panic p
  end.

Definition is_ok {A} (r : res A) : bool := match r with Ok _ => true | _ => false end.

(** [no_panic r]: the computation does not crash the process. *)
Definition no_panic {A} (r : res A) : Prop := match r with Panic _ => False | _ => True end.

(** [guard_err b msg]: [if b { return msg }]. *)
Definition guard_err (b : bool) (msg : string) : res unit := if b then Err msg else Ok tt.

(** A Go [if err != nil] that wraps the message of the callee keeps its own prefix. *)
Definition wrap_err {A} (msg : string) (r : res A) : res A :=
  match r with Err _ => Err msg | _ => r end.

Lemma bind_ok {A B} (r : res A) (f : A -> res B) b :
  (r ≫= f) = Ok b <-> exists a, r = Ok a /\ f a = Ok b.
Proof. destruct r; simpl; split; [eauto|by intros (?&[= ->]&?)|done|by intros (?&?&?)|done|by intros (?&?&?)]. Qed.

Lemma no_panic_bind {A B} (r : res A) (f : A -> res B) :
  no_panic r -> (forall a, r = Ok a -> no_panic (f a)) -> no_panic (r ≫= f).
Proof. destruct r; simpl; eauto. Qed.

Lemma no_panic_wrap {A} msg (r : res A) : no_panic r -> no_panic (wrap_err msg r).
Proof. by destruct r. Qed.

Lemma no_panic_guard b msg : no_panic (guard_err b msg).
Proof. by destruct b. Qed.

(** ** Machine integers

    A w-bit unsigned integer is a [Z] in [0, 2^w); arithmetic wraps explicitly. *)

Definition u8 (x : Z) : Z := x mod 2 ^ 8.
Definition u16 (x : Z) : Z := x mod 2 ^ 16.
Definition u32 (x : Z) : Z := x mod 2 ^ 32.
Definition u64 (x : Z) : Z := x mod 2 ^ 64.

(** [int64(x)] of a 64-bit pattern: two's complement. *)
Definition i64 (x : Z) : Z := (x + 2 ^ 63) mod 2 ^ 64 - 2 ^ 63.

Definition is_u8 (x : Z) : Prop := 0 <= x < 2 ^ 8.
Definition is_u16 (x : Z) : Prop := 0 <= x < 2 ^ 16.
Definition is_u32 (x : Z) : Prop := 0 <= x < 2 ^ 32.
Definition is_u64 (x : Z) : Prop := 0 <= x < 2 ^ 64.
Definition is_i64 (x : Z) : Prop := - 2 ^ 63 <= x < 2 ^ 63.

Definition b2z (b : bool) : Z := if b then 1 else 0.

Create HintDb crom.
Create Rewrite HintDb crom_u64.
Create Rewrite HintDb crom_len.

Ltac unfold_ints :=
  unfold is_u8, is_u16, is_u32, is_u64, is_i64, u8, u16, u32, u64, i64 in *.

(** Linear arithmetic over wrapped integers, with [div] and [mod] made explicit. *)
Ltac ulia := unfold_ints; Z.to_euclidean_division_equations; lia.

Lemma u64_small x : is_u64 x -> u64 x = x.
Proof. intros; apply Z.mod_small, H. Qed.
Lemma u32_small x : is_u32 x -> u32 x = x.
Proof. intros; apply Z.mod_small, H. Qed.
Lemma u16_small x : is_u16 x -> u16 x = x.
Proof. intros; apply Z.mod_small, H. Qed.
Lemma u8_small x : is_u8 x -> u8 x = x.
Proof. intros; apply Z.mod_small, H. Qed.
Lemma u64_range x : is_u64 (u64 x).
Proof. unfold is_u64, u64; apply Z.mod_pos_bound; lia. Qed.
Lemma u32_range x : is_u32 (u32 x).
Proof. unfold is_u32, u32; apply Z.mod_pos_bound; lia. Qed.
Lemma u8_range x : is_u8 (u8 x).
Proof. unfold is_u8, u8; apply Z.mod_pos_bound; lia. Qed.
Lemma i64_range x : is_i64 (i64 x).
Proof. unfold is_i64, i64. pose proof (Z.mod_pos_bound (x + 2^63) (2^64)). lia. Qed.

Lemma u64_u64 x : u64 (u64 x) = u64 x.
Proof. apply u64_small, u64_range. Qed.
Lemma u64_add_l x y : u64 (u64 x + y) = u64 (x + y).
Proof. unfold u64. apply Zplus_mod_idemp_l. Qed.
Lemma u64_add_r x y : u64 (x + u64 y) = u64 (x + y).
Proof. unfold u64. apply Zplus_mod_idemp_r. Qed.
Lemma u64_mul_l x y : u64 (u64 x * y) = u64 (x * y).
Proof. unfold u64. apply Zmult_mod_idemp_l. Qed.
Lemma u64_mul_r x y : u64 (x * u64 y) = u64 (x * y).
Proof. unfold u64. apply Zmult_mod_idemp_r. Qed.
Lemma u64_sub_l x y : u64 (u64 x - y) = u64 (x - y).
Proof. unfold u64. apply Zminus_mod_idemp_l. Qed.
Lemma u64_sub_r x y : u64 (x - u64 y) = u64 (x - y).
Proof. unfold u64. apply Zminus_mod_idemp_r. Qed.
Lemma u64_i64 x : u64 (i64 x) = u64 x.
Proof. ulia. Qed.
Lemma i64_u64 x : i64 (u64 x) = i64 x.
Proof. ulia. Qed.
Lemma i64_small x : is_i64 x -> i64 x = x.
Proof. ulia. Qed.

#[export] Hint Rewrite u64_u64 u64_add_l u64_add_r u64_mul_l u64_mul_r u64_sub_l u64_sub_r
  u64_i64 i64_u64 : crom_u64.
#[export] Hint Resolve u64_small u32_small u16_small u8_small u64_range u32_range u8_range
  i64_range : crom.

(** ** Bytes, slices and buffers *)

Abbreviation bytes := (list Z).

Definition zlen {A} (l : list A) : Z := Z.of_nat (length l).

Lemma zlen_nonneg {A} (l : list A) : 0 <= zlen l.
Proof. unfold zlen; lia. Qed.
Lemma zlen_app {A} (l k : list A) : zlen (l ++ k) = zlen l + zlen k.
Proof. unfold zlen; rewrite length_app; lia. Qed.
Lemma zlen_cons {A} (x : A) l : zlen (x :: l) = zlen l + 1.
Proof. unfold zlen; simpl; lia. Qed.
Lemma zlen_nil {A} : zlen (@nil A) = 0.
Proof. done. Qed.
Lemma zlen_singleton {A} (x : A) : zlen [x] = 1.
Proof. done. Qed.
Lemma zlen_0_nil {A} (l : list A) : zlen l = 0 -> l = [].
Proof. destruct l; [done|]. rewrite zlen_cons. pose proof (zlen_nonneg l). lia. Qed.
Lemma zlen_replicate {A} n (x : A) : zlen (replicate n x) = Z.of_nat n.
Proof. unfold zlen. by rewrite length_replicate. Qed.
#[export] Hint Rewrite @zlen_app @zlen_cons @zlen_nil @zlen_replicate : crom_len.

(** [ztake n l] and [zdrop n l] count in [Z], so that they evaluate on offsets of any size. *)
Fixpoint ztake {A} (n : Z) (l : list A) : list A :=
  match l with
  | [] => []
  | x :: l' => if n <=? 0 then [] else x :: ztake (n - 1) l'
  end.

Fixpoint zdrop {A} (n : Z) (l : list A) : list A :=
  match l with
  | [] => []
  | x :: l' => if n <=? 0 then l else zdrop (n - 1) l'
  end.

Lemma ztake_take {A} n (l : list A) : ztake n l = take (Z.to_nat n) l.
Proof.
  revert n; induction l as [|x l IH]; intros n; simpl; [by rewrite take_nil|].
  destruct (Z.leb_spec n 0); [by replace (Z.to_nat n) with 0%nat by lia|].
  replace (Z.to_nat n) with (S (Z.to_nat (n - 1))) by lia. by rewrite IH.
Qed.
Lemma zdrop_drop {A} n (l : list A) : zdrop n l = drop (Z.to_nat n) l.
Proof.
  revert n; induction l as [|x l IH]; intros n; simpl; [by rewrite drop_nil|].
  destruct (Z.leb_spec n 0); [by replace (Z.to_nat n) with 0%nat by lia|].
  replace (Z.to_nat n) with (S (Z.to_nat (n - 1))) by lia. by rewrite IH.
Qed.

Lemma ztake_zdrop {A} n (l : list A) : ztake n l ++ zdrop n l = l.
Proof. rewrite ztake_take, zdrop_drop. apply take_drop. Qed.
Lemma zlen_ztake {A} n (l : list A) : zlen (ztake n l) = Z.max 0 (Z.min n (zlen l)).
Proof. unfold zlen. rewrite ztake_take, length_take. lia. Qed.
Lemma zlen_zdrop {A} n (l : list A) : zlen (zdrop n l) = zlen l - Z.max 0 (Z.min n (zlen l)).
Proof. unfold zlen. rewrite zdrop_drop, length_drop. lia. Qed.
Lemma ztake_app {A} (l k : list A) : ztake (zlen l) (l ++ k) = l.
Proof. unfold zlen. rewrite ztake_take, Nat2Z.id. apply take_app_length. Qed.
Lemma zdrop_app {A} (l k : list A) : zdrop (zlen l) (l ++ k) = k.
Proof. unfold zlen. rewrite zdrop_drop, Nat2Z.id. apply drop_app_length. Qed.
Lemma ztake_app_eq {A} n (l k : list A) : zlen l = n -> ztake n (l ++ k) = l.
Proof. intros <-; apply ztake_app. Qed.
Lemma zdrop_app_eq {A} n (l k : list A) : zlen l = n -> zdrop n (l ++ k) = k.
Proof. intros <-; apply zdrop_app. Qed.
Lemma ztake_ge {A} n (l : list A) : zlen l <= n -> ztake n l = l.
Proof. unfold zlen. intros. rewrite ztake_take. apply take_ge. lia. Qed.
Lemma zdrop_0 {A} (l : list A) : zdrop 0 l = l.
Proof. by destruct l. Qed.
Lemma zdrop_zdrop {A} a b (l : list A) : 0 <= a -> 0 <= b -> zdrop a (zdrop b l) = zdrop (b + a) l.
Proof. intros. rewrite !zdrop_drop, drop_drop. f_equal. lia. Qed.
Lemma zdrop_app_ge {A} n (l k : list A) : zlen l <= n -> zdrop n (l ++ k) = zdrop (n - zlen l) k.
Proof. unfold zlen. intros. rewrite !zdrop_drop, drop_app_ge by lia. f_equal. lia. Qed.
#[export] Hint Rewrite @zlen_ztake @zlen_zdrop : crom_len.

(** [sub lo hi l] is the Go slice [l[lo:hi]] where the bounds are known to hold;
    [slice] checks them and panics as the runtime does. *)
Definition sub {A} (lo hi : Z) (l : list A) : list A := ztake (hi - lo) (zdrop lo l).

Definition slice {A} (l : list A) (lo hi : Z) : res (list A) :=
  if (0 <=? lo) && (lo <=? hi) && (hi <=? zlen l) then Ok (sub lo hi l) else Panic SliceBounds.

(** [l[i]] with its bounds check. *)
Definition index {A} (l : list A) (i : Z) : res A :=
  if 0 <=? i then
    match zdrop i l with x :: _ => Ok x | [] => Panic IndexOutOfRange end
  else Panic IndexOutOfRange.

Lemma slice_ok {A} (l : list A) lo hi :
  0 <= lo <= hi -> hi <= zlen l -> slice l lo hi = Ok (sub lo hi l).
Proof.
  intros. unfold slice.
  by rewrite (proj2 (Z.leb_le 0 lo)), (proj2 (Z.leb_le lo hi)), (proj2 (Z.leb_le hi _)) by lia.
Qed.

Lemma slice_panic {A} (l : list A) lo hi :
  ~ (0 <= lo <= hi /\ hi <= zlen l) -> slice l lo hi = Panic SliceBounds.
Proof.
  intros H. unfold slice.
  destruct (Z.leb_spec 0 lo), (Z.leb_spec lo hi), (Z.leb_spec hi (zlen l)); simpl; try done. lia.
Qed.

Lemma zlen_sub {A} lo hi (l : list A) :
  0 <= lo <= hi -> hi <= zlen l -> zlen (sub lo hi l) = hi - lo.
Proof. intros. unfold sub. rewrite zlen_ztake, zlen_zdrop. lia. Qed.

Lemma sub_app_mid {A} lo hi (pre mid post : list A) :
  zlen pre = lo -> zlen mid = hi - lo -> sub lo hi (pre ++ mid ++ post) = mid.
Proof. intros Hl Hm. unfold sub. rewrite zdrop_app_eq by done. by apply ztake_app_eq. Qed.

Lemma index_app_mid {A} i (pre : list A) x post :
  zlen pre = i -> index (pre ++ x :: post) i = Ok x.
Proof.
  intros Hl. unfold index. rewrite (proj2 (Z.leb_le 0 i)) by (pose proof (zlen_nonneg pre); lia).
  by rewrite zdrop_app_eq.
Qed.

(** Reading past a prefix of known length, and reading the field at the front: the steps
    by which the theorems on binary layouts walk over a concatenation of fields. *)
Lemma sub_skip {A} n (a l : list A) lo hi :
  zlen a = n -> n <= lo -> sub lo hi (a ++ l) = sub (lo - n) (hi - n) l.
Proof.
  intros Ha Hn. unfold sub. rewrite zdrop_app_ge by lia. f_equal; [lia|]. by rewrite Ha.
Qed.

Lemma slice_skip {A} n (a l : list A) lo hi :
  zlen a = n -> n <= lo -> slice (a ++ l) lo hi = slice l (lo - n) (hi - n).
Proof.
  intros Ha Hn. unfold slice. rewrite zlen_app, Ha, (sub_skip n) by done.
  pose proof (zlen_nonneg a).
  destruct (Z.leb_spec 0 lo), (Z.leb_spec lo hi), (Z.leb_spec hi (n + zlen l)),
    (Z.leb_spec 0 (lo - n)), (Z.leb_spec (lo - n) (hi - n)), (Z.leb_spec (hi - n) (zlen l));
    simpl; lia || done.
Qed.

Lemma slice_here {A} n (a l : list A) lo hi :
  zlen a = n -> lo = 0 -> hi = n -> slice (a ++ l) lo hi = Ok a.
Proof.
  intros Ha -> ->. pose proof (zlen_nonneg a). pose proof (zlen_nonneg l).
  rewrite slice_ok by (rewrite ?zlen_app; lia). f_equal. apply (sub_app_mid 0 n [] a l); [done|lia].
Qed.

Lemma slice_tail {A} n (l : list A) lo : 0 <= lo <= zlen l -> zlen l = n -> slice l lo n = Ok (zdrop lo l).
Proof.
  intros H <-. rewrite slice_ok by lia. f_equal. unfold sub. apply ztake_ge.
  rewrite zlen_zdrop. lia.
Qed.

Lemma index_skip {A} n (a l : list A) i :
  zlen a = n -> n <= i -> index (a ++ l) i = index l (i - n).
Proof.
  intros Ha Hn. pose proof (zlen_nonneg a). unfold index. rewrite zdrop_app_ge, Ha by lia.
  by rewrite (proj2 (Z.leb_le 0 i)), (proj2 (Z.leb_le 0 (i - n))) by lia.
Qed.

Lemma index_here {A} (x : A) l i : i = 0 -> index (x :: l) i = Ok x.
Proof. intros ->. unfold index. simpl. done. Qed.

Lemma index_cons {A} (x : A) l i : 1 <= i -> index (x :: l) i = index l (i - 1).
Proof. intros. by apply (index_skip 1 [x] l). Qed.

Lemma no_panic_slice {A} (l : list A) lo hi : 0 <= lo <= hi -> hi <= zlen l -> no_panic (slice l lo hi).
Proof. intros. by rewrite slice_ok. Qed.

Lemma index_ok {A} (l : list A) i : 0 <= i < zlen l -> exists x, index l i = Ok x.
Proof.
  intros H. unfold index. rewrite (proj2 (Z.leb_le 0 i)) by lia.
  destruct (zdrop i l) eqn:E; [|eauto].
  pose proof (zlen_zdrop i l) as Hz. rewrite E, zlen_nil in Hz. lia.
Qed.

Lemma no_panic_index {A} (l : list A) i : 0 <= i < zlen l -> no_panic (index l i).
Proof. intros [x ->]%index_ok. done. Qed.

(** [copy(buf[off:], src)] when [src] fits, and [buf[i] = v]. *)
Definition blit {A} (buf : list A) (off : Z) (src : list A) : list A :=
  ztake off buf ++ src ++ zdrop (off + zlen src) buf.

Lemma blit_mid {A} off (pre mid post src : list A) :
  zlen pre = off -> zlen mid = zlen src ->
  blit (pre ++ mid ++ post) off src = pre ++ src ++ post.
Proof.
  intros Hp Hm. unfold blit. rewrite ztake_app_eq by done. f_equal. f_equal.
  rewrite <-Hp, <-Hm, app_assoc, <-zlen_app. by rewrite zdrop_app.
Qed.

Lemma zlen_blit {A} off (buf src : list A) :
  0 <= off -> off + zlen src <= zlen buf -> zlen (blit buf off src) = zlen buf.
Proof.
  intros. unfold blit. pose proof (zlen_nonneg src).
  rewrite !zlen_app, zlen_ztake, zlen_zdrop. lia.
Qed.

(** [make([]byte, n)] *)
Definition make_bytes (n : Z) : bytes := replicate (Z.to_nat n) 0.

Lemma zlen_make n : 0 <= n -> zlen (make_bytes n) = n.
Proof. intros. unfold make_bytes. rewrite zlen_replicate. lia. Qed.
Lemma make_split a b : 0 <= a -> 0 <= b -> make_bytes (a + b) = make_bytes a ++ make_bytes b.
Proof. intros. unfold make_bytes. rewrite <-replicate_add. f_equal. lia. Qed.

(** Filling a fresh buffer from left to right is concatenation: the field [src] written at
    the end of what is already there. *)
Lemma blit_fill pre off n src :
  zlen pre = off -> zlen src <= n ->
  blit (pre ++ make_bytes n) off src = (pre ++ src) ++ make_bytes (n - zlen src).
Proof.
  intros Hp Hn. pose proof (zlen_nonneg src).
  replace n with (zlen src + (n - zlen src)) at 1 by lia.
  rewrite make_split by lia. rewrite blit_mid; [by rewrite <-app_assoc|done|].
  by rewrite zlen_make.
Qed.

(** [if b { buf[off] = 1 }] on the next byte of a fresh buffer. *)
Lemma blit_fill_if (b : bool) pre off n :
  zlen pre = off -> 1 <= n ->
  (if b then blit (pre ++ make_bytes n) off [1] else pre ++ make_bytes n) =
    (pre ++ [b2z b]) ++ make_bytes (n - 1).
Proof.
  intros Hp Hn. destruct b; [by rewrite blit_fill|].
  replace n with (1 + (n - 1)) at 1 by lia. rewrite make_split by lia.
  by rewrite <-app_assoc.
Qed.

Lemma make_bytes_0 n : n <= 0 -> make_bytes n = [].
Proof. intros. unfold make_bytes. by replace (Z.to_nat n) with 0%nat by lia. Qed.

Definition is_byte (b : Z) : Prop := is_u8 b.
Abbreviation bytes_ok := (Forall is_byte).

(** Exhaustive case analysis on a byte, for facts about bit operations. *)
Lemma byte_forall (P : Z -> bool) :
  forallb P (seqZ 0 256) = true -> forall b, is_byte b -> P b = true.
Proof.
  intros H b Hb. rewrite forallb_forall in H. apply H.
  apply list_elem_of_In, elem_of_seqZ. exact Hb.
Qed.

Lemma bytes_ok_sub lo hi l : bytes_ok l -> bytes_ok (sub lo hi l).
Proof. intros. unfold sub. rewrite ztake_take, zdrop_drop. by apply Forall_take, Forall_drop. Qed.

(** Prefixes of prefixes, and reads that stay inside a prefix. *)
Lemma ztake_app_ztake {A} a b (l : list A) :
  0 <= a -> 0 <= b -> ztake a l ++ ztake b (zdrop a l) = ztake (a + b) l.
Proof.
  intros. rewrite !ztake_take, zdrop_drop, Z2Nat.inj_add by lia. by rewrite take_take_drop.
Qed.

Lemma sub_ztake {A} n lo hi (l : list A) : 0 <= lo <= hi -> hi <= n -> sub lo hi (ztake n l) = sub lo hi l.
Proof.
  intros. unfold sub. rewrite !ztake_take, !zdrop_drop, skipn_firstn_comm, take_take.
  f_equal. lia.
Qed.

Lemma slice_ztake {A} n lo hi (l : list A) :
  hi <= n -> n <= zlen l -> slice (ztake n l) lo hi = slice l lo hi.
Proof.
  intros. unfold slice. rewrite zlen_ztake.
  destruct (Z.leb_spec 0 lo), (Z.leb_spec lo hi), (Z.leb_spec hi (Z.max 0 (Z.min n (zlen l)))),
    (Z.leb_spec hi (zlen l)); simpl; try done; try lia. by rewrite sub_ztake by lia.
Qed.

(** ** Sequential readers

    An [io.Reader] over the remaining bytes of a stream. *)

Definition reader (A : Type) : Type := bytes -> res (A * bytes).

(** [io.ReadFull(r, make([]byte, n))] *)
Definition ReadFull (msg : string) (n : Z) : reader bytes := fun r =>
  if zlen r <? n then Err msg else Ok (ztake n r, zdrop n r).

Lemma ReadFull_app msg n l rest : zlen l = n -> ReadFull msg n (l ++ rest) = Ok (l, rest).
Proof.
  intros H. unfold ReadFull. rewrite zlen_app.
  destruct (Z.ltb_spec (zlen l + zlen rest) n); [pose proof (zlen_nonneg rest); lia|].
  by rewrite ztake_app_eq, zdrop_app_eq.
Qed.

Lemma ReadFull_prefix msg n l rest :
  0 <= n <= zlen l -> ReadFull msg n (l ++ rest) = Ok (ztake n l, zdrop n l ++ rest).
Proof.
  intros Hn. rewrite <-(ztake_zdrop n l) at 1. rewrite <-app_assoc. apply ReadFull_app.
  rewrite zlen_ztake. lia.
Qed.

Lemma no_panic_ReadFull msg n r : no_panic (ReadFull msg n r).
Proof. unfold ReadFull. by destruct (_ <? _). Qed.

(** ASCII literals of the source as bytes. *)
Definition str (s : string) : bytes :=
  map (fun a => Z.of_N (Ascii.N_of_ascii a)) (String.list_ascii_of_string s).

#[global] Arguments str : simpl never.

(** Evaluate the comparisons between literals left in the goal. *)
Ltac eval_conds :=
  repeat match goal with
  | |- context [?a >=? ?b] =>
      let r := eval vm_compute in (a >=? b) in
      match r with true => idtac | false => idtac end; change (a >=? b) with r
  | |- context [?a <=? ?b] =>
      let r := eval vm_compute in (a <=? b) in
      match r with true => idtac | false => idtac end; change (a <=? b) with r
  | |- context [?a <? ?b] =>
      let r := eval vm_compute in (a <? b) in
      match r with true => idtac | false => idtac end; change (a <? b) with r
  | |- context [?a >? ?b] =>
      let r := eval vm_compute in (a >? b) in
      match r with true => idtac | false => idtac end; change (a >? b) with r
  | |- context [?a =? ?b] =>
      let r := eval vm_compute in (a =? b) in
      match r with true => idtac | false => idtac end; change (a =? b) with r
  end; cbn [orb andb negb].

(** Lengths of concatenations, from the length hypotheses in context. *)
Ltac len_lia := autorewrite with crom_len; lia.

(** Case on a boolean comparison of integers in the goal. *)
Ltac case_cmp :=
  match goal with
  | |- context [?a <? ?b] => destruct (Z.ltb_spec a b)
  | |- context [?a <=? ?b] => destruct (Z.leb_spec a b)
  | |- context [?a >? ?b] => destruct (Z.gtb_spec a b)
  | |- context [?a >=? ?b] => destruct (Z.geb_spec a b)
  | |- context [?a =? ?b] => destruct (Z.eqb_spec a b)
  end.

(** Safety of a monadic parser: every slice it takes is in bounds. *)
Ltac no_panic_step :=
  match goal with
  | |- no_panic (mbind _ _) => apply no_panic_bind; [|intros ??]
  | |- no_panic (slice _ _ _) => apply no_panic_slice; [lia|first [lia|len_lia]]
  | |- no_panic (index _ _) => apply no_panic_index; first [lia|len_lia]
  | |- no_panic (wrap_err _ _) => apply no_panic_wrap
  | |- no_panic (Ok _) => exact I
  | |- no_panic (Err _) => exact I
  | |- no_panic (ReadFull _ _ _) => apply no_panic_ReadFull
  | |- no_panic (let '(_, _) := ?p in _) => destruct p
  | |- no_panic (match ?p with (_, _) => _ end) => destruct p
  end.

(** Equality of byte strings, as [bytes.Equal]. *)
Definition bytes_eqb (a b : bytes) : bool := bool_decide (a = b).

Lemma bytes_eqb_refl a : bytes_eqb a a = true.
Proof. by apply bool_decide_eq_true_2. Qed.
Lemma bytes_eqb_true a b : bytes_eqb a b = true <-> a = b.
Proof. apply bool_decide_eq_true. Qed.

#[global] Opaque make_bytes.

(** ** Counting *)

Section counting.
Context {A : Type}.

Lemma elem_of_zlen (x : A) l : x ∈ l -> 0 < zlen l.
Proof. destruct l as [|y l]; [by intros ?%not_elem_of_nil|]. intros _. rewrite zlen_cons. pose proof (zlen_nonneg l). lia. Qed.

Lemma filter_le (P Q : A -> Prop) `{!forall x, Decision (P x)} `{!forall x, Decision (Q x)} l :
  (forall x, P x -> Q x) -> zlen (filter P l) <= zlen (filter Q l).
Proof.
  intros Himp. induction l as [|x l IH]; [done|]. rewrite !filter_cons. specialize (Himp x).
  repeat case_decide; rewrite ?zlen_cons; tauto || lia.
Qed.

Lemma zlen_filter_le (P : A -> Prop) `{!forall x, Decision (P x)} l : zlen (filter P l) <= zlen l.
Proof. unfold zlen. pose proof (length_filter P l). lia. Qed.

Lemma filter_map_count {B} (f : A -> B) (P : B -> Prop) `{!forall x, Decision (P x)} (Q : A -> Prop) `{!forall x, Decision (Q x)} l :
  (forall x, P (f x) <-> Q x) -> zlen (filter P (map f l)) = zlen (filter Q l).
Proof.
  intros Himp. induction l as [|x l IH]; [done|]. cbn [map]. rewrite !filter_cons. specialize (Himp x).
  repeat case_decide; rewrite ?zlen_cons; tauto || lia.
Qed.

(** [freq[key]++] along a slice. *)
Definition count_by (key : A -> Z) (l : list A) : gmap Z Z :=
  foldl (fun freq x => <[key x := default 0 (freq !! key x) + 1]> freq) ∅ l.

Lemma count_by_lookup key l k : default 0 (count_by key l !! k) = zlen (filter (fun x => key x = k) l).
Proof.
  unfold count_by. enough (forall freq, default 0 (foldl (fun freq x => <[key x := default 0 (freq !! key x) + 1]> freq) freq l !! k) =
    default 0 (freq !! k) + zlen (filter (fun x => key x = k) l)) as -> by done.
  induction l as [|x l IH]; intros freq; cbn [foldl]; [by rewrite filter_nil, Z.add_0_r|].
  rewrite IH, filter_cons. destruct (decide (key x = k)) as [<-|Hne].
  - rewrite lookup_insert_eq, zlen_cons. cbn [default from_option id]. lia.
  - by rewrite lookup_insert_ne.
Qed.

(** Only what occurs is counted. *)
Lemma count_by_some key l k c : count_by key l !! k = Some c -> c = zlen (filter (fun x => key x = k) l) /\ 0 < c.
Proof.
  intros E. split; [by rewrite <-count_by_lookup, E|]. revert E. unfold count_by.
  assert (H0 : map_Forall (fun _ c => 0 < c) (∅ : gmap Z Z)) by apply map_Forall_empty. revert H0. generalize (∅ : gmap Z Z).
  induction l as [|x l IH]; intros freq Hf; [apply Hf|]. apply IH. apply map_Forall_insert_2; [|done].
  destruct (freq !! key x) eqn:E; cbn; [apply Hf in E|]; lia.
Qed.

Lemma count_by_elem key l x : x ∈ l -> count_by key l !! key x = Some (zlen (filter (fun y => key y = key x) l)).
Proof.
  intros Hx. pose proof (count_by_lookup key l (key x)) as Hl.
  assert (0 < zlen (filter (fun y => key y = key x) l)) by by apply (elem_of_zlen x), list_elem_of_filter.
  destruct (count_by key l !! key x); cbn in Hl; [by rewrite Hl|lia].
Qed.
End counting.
