(* ===== verification/Binary.v ===== *)
(** Little-endian words and unsigned varints: the part of Go's [encoding/binary] that the
    [.crom], [.cromdb] and manifest formats are written with. *)

From S2P Require Import Prelude.

(** ** Fixed-width words *)

(** [binary.LittleEndian.PutUint{16,32,64}] of [w] bytes, and the matching reads. *)
Definition le_put (w : Z) (v : Z) : bytes := Z_to_little_endian w 8 v.
Definition le_get (l : bytes) : Z := little_endian_to_Z 8 l.

(** A read of [w] bytes at [off], with the slice bounds check. *)
Definition get_le (w : Z) (data : bytes) (off : Z) : res Z :=
  b ← slice data off (off + w); Ok (le_get b).

Lemma zlen_le_put w v : 0 <= w -> zlen (le_put w v) = w.
Proof. intros. unfold zlen, le_put. by apply length_Z_to_little_endian. Qed.

Lemma le_get_put w v : 0 <= w -> le_get (le_put w v) = v mod 2 ^ (w * 8).
Proof. intros. unfold le_get, le_put. apply little_endian_to_Z_to_little_endian; lia. Qed.

Lemma le_get_put_u64 v : is_u64 v -> le_get (le_put 8 v) = v.
Proof. intros. rewrite le_get_put by lia. by apply u64_small. Qed.
Lemma le_get_put_u32 v : is_u32 v -> le_get (le_put 4 v) = v.
Proof. intros. rewrite le_get_put by lia. by apply u32_small. Qed.
Lemma le_get_put_u16 v : is_u16 v -> le_get (le_put 2 v) = v.
Proof. intros. rewrite le_get_put by lia. by apply u16_small. Qed.

Lemma le_get_range l : bytes_ok l -> 0 <= le_get l < 2 ^ (zlen l * 8).
Proof.
  intros H. unfold le_get, zlen.
  apply little_endian_to_Z_bound; [lia|]. eapply Forall_impl; [exact H|]. done.
Qed.

Lemma bytes_ok_le_put w v : 0 <= w -> bytes_ok (le_put w v).
Proof.
  intros. unfold le_put. by apply Z_to_little_endian_bound.
Qed.

Lemma le_put_get w l : bytes_ok l -> zlen l = w -> le_put w (le_get l) = l.
Proof.
  intros H Hl. unfold le_put, le_get. apply Z_to_little_endian_to_Z; [by rewrite <-Hl|lia|exact H].
Qed.

Lemma get_le_app w v pre post off :
  0 <= w -> zlen pre = off -> get_le w (pre ++ le_put w v ++ post) off = Ok (v mod 2 ^ (w * 8)).
Proof.
  intros Hw Hp. unfold get_le. pose proof (zlen_nonneg pre). pose proof (zlen_nonneg post).
  rewrite slice_ok; [|lia|rewrite !zlen_app, zlen_le_put; lia].
  simpl. rewrite sub_app_mid; [by rewrite le_get_put|done|]. rewrite zlen_le_put; lia.
Qed.

Lemma get_le_skip w n a l off :
  zlen a = n -> n <= off -> get_le w (a ++ l) off = get_le w l (off - n).
Proof.
  intros. unfold get_le. rewrite (slice_skip n) by done.
  by replace (off + w - n) with (off - n + w) by lia.
Qed.

Lemma get_le_here w v l off :
  0 <= w -> off = 0 -> 0 <= v < 2 ^ (w * 8) -> get_le w (le_put w v ++ l) off = Ok v.
Proof.
  intros Hw -> Hv. unfold get_le. rewrite (slice_here w) by (rewrite ?zlen_le_put; lia).
  simpl. rewrite le_get_put, Z.mod_small by lia. done.
Qed.

Lemma get_le_ztake w n l off :
  off + w <= n -> n <= zlen l -> get_le w (ztake n l) off = get_le w l off.
Proof. intros. unfold get_le. by rewrite slice_ztake. Qed.

Lemma no_panic_get_le w data off :
  0 <= w -> 0 <= off -> off + w <= zlen data -> no_panic (get_le w data off).
Proof. intros. unfold get_le. by rewrite slice_ok by lia. Qed.

Ltac no_panic_tac :=
  repeat first [no_panic_step | apply no_panic_get_le; first [lia|len_lia]].

#[export] Hint Rewrite @zlen_le_put using lia : crom_len.
#[export] Hint Resolve bytes_ok_le_put : crom.

(** ** Bit facts used by varints and zigzag *)

Lemma lor_shiftl_add x y s :
  0 <= s -> 0 <= x < 2 ^ s -> Z.lor x (Z.shiftl y s) = x + y * 2 ^ s.
Proof.
  intros Hs Hx. rewrite <-Z.shiftl_mul_pow2 by lia. symmetry. apply Z.add_nocarry_lor.
  apply Z.bits_inj_0. intros n. rewrite Z.land_spec.
  destruct (Z.ltb_spec n 0); [by rewrite Z.testbit_neg_r|].
  destruct (Z.ltb_spec n s).
  - rewrite Z.shiftl_spec_low by lia. apply andb_false_r.
  - destruct (decide (x = 0)) as [->|]; [by rewrite Z.bits_0|].
    rewrite (Z.bits_above_log2 x); [done|lia|]. apply Z.log2_lt_pow2; [lia|].
    eapply Z.lt_le_trans; [apply Hx|]. apply Z.pow_le_mono_r; lia.
Qed.

Lemma lxor_ones_sub x n : 0 <= n -> 0 <= x < 2 ^ n -> Z.lxor x (Z.ones n) = Z.ones n - x.
Proof.
  intros Hn Hx. rewrite Z.sub_nocarry_ldiff.
  - apply Z.bits_inj'. intros k Hk. rewrite Z.lxor_spec, Z.ldiff_spec.
    destruct (Z.ltb_spec k n).
    + rewrite Z.ones_spec_low by lia. by destruct (Z.testbit x k).
    + rewrite Z.ones_spec_high by lia. rewrite <-(Z.mod_small x (2 ^ n)) by lia.
      by rewrite Z.mod_pow2_bits_high by lia.
  - destruct (decide (x = 0)) as [->|]; [apply Z.ldiff_0_l|].
    apply Z.ldiff_ones_r_low; [lia|]. apply Z.log2_lt_pow2; lia.
Qed.

(** ** Unsigned varints *)

(** [binary.AppendUvarint(nil, x)]; ten groups of seven bits hold 64 bits. *)
Fixpoint uvarint_put (fuel : nat) (x : Z) : bytes :=
  match fuel with
  | O => []
  | S fuel =>
      if x >=? 0x80 then Z.lor (u8 x) 0x80 :: uvarint_put fuel (Z.shiftr x 7) else [u8 x]
  end.

Definition AppendUvarint (buf : bytes) (x : Z) : bytes := buf ++ uvarint_put 10 x.

(** [binary.Uvarint]: the value and the number of bytes read; 0 when the buffer ends inside
    the number, negative on 64-bit overflow. *)
Fixpoint uvarint_get (buf : bytes) (i s x : Z) : Z * Z :=
  match buf with
  | [] => (0, 0)
  | b :: buf' =>
      if i =? 10 then (0, - (i + 1))
      else if b <? 0x80 then
        if (i =? 9) && (b >? 1) then (0, - (i + 1))
        else (Z.lor x (u64 (Z.shiftl b s)), i + 1)
      else uvarint_get buf' (i + 1) (s + 7) (Z.lor x (u64 (Z.shiftl (Z.land b 0x7f) s)))
  end.

Definition Uvarint (buf : bytes) : Z * Z := uvarint_get buf 0 0 0.

Lemma cont_byte_low x : Z.land (Z.lor (u8 x) 0x80) 0x7f = x mod 2 ^ 7.
Proof.
  rewrite Z.land_lor_distr_l. replace (Z.land 0x80 0x7f) with 0 by done.
  rewrite Z.lor_0_r. change 0x7f with (Z.ones 7). rewrite Z.land_ones by lia. ulia.
Qed.

Lemma cont_byte_high x : 0x80 <= Z.lor (u8 x) 0x80 < 256.
Proof.
  pose proof (byte_forall (fun y => (0x80 <=? Z.lor y 0x80) && (Z.lor y 0x80 <? 256))
    eq_refl (u8 x) (u8_range x)) as [?%Z.leb_le ?%Z.ltb_lt]%andb_true_iff. lia.
Qed.

Lemma uvarint_put_length fuel x : zlen (uvarint_put fuel x) <= Z.of_nat fuel.
Proof.
  revert x; induction fuel as [|fuel IH]; intros x; [done|].
  cbn [uvarint_put]. destruct (_ >=? _); rewrite zlen_cons; [|rewrite zlen_nil; lia].
  specialize (IH (Z.shiftr x 7)). lia.
Qed.

(** The reader inverts the writer at any position [i] of the number: [n] more groups fit. *)
Lemma uvarint_get_put fuel i x acc rest :
  0 <= i -> Z.of_nat fuel = 10 - i -> 0 <= x < 2 ^ (64 - 7 * i) -> 0 <= acc < 2 ^ (7 * i) ->
  uvarint_get (uvarint_put fuel x ++ rest) i (7 * i) acc =
    (acc + x * 2 ^ (7 * i), i + zlen (uvarint_put fuel x)).
Proof.
  revert i x acc; induction fuel as [|fuel IH]; intros i x acc Hi Hf Hx Hacc.
  { assert (i = 10) as -> by lia. simpl in Hx. lia. }
  assert (0 < 2 ^ (7 * i)) by (apply Z.pow_pos_nonneg; lia).
  cbn [uvarint_put]. destruct (Z.geb_spec x 0x80) as [Hge|Hlt].
  - assert (Hi9 : i <= 8).
    { destruct (decide (i = 9)) as [->|]; [simpl in Hx; lia|lia]. }
    cbn [app uvarint_get]. rewrite (proj2 (Z.eqb_neq i 10)) by lia.
    pose proof (cont_byte_high x). rewrite (proj2 (Z.ltb_ge _ 0x80)) by lia.
    rewrite cont_byte_low. replace (7 * i + 7) with (7 * (i + 1)) by lia.
    assert (0 <= x mod 2 ^ 7 < 2 ^ 7) by (apply Z.mod_pos_bound; lia).
    assert (Hp : 2 ^ (7 * (i + 1)) = 2 ^ 7 * 2 ^ (7 * i)) by (rewrite <-Z.pow_add_r by lia; f_equal; lia).
    assert (Hlow : u64 (Z.shiftl (x mod 2 ^ 7) (7 * i)) = Z.shiftl (x mod 2 ^ 7) (7 * i)).
    { apply u64_small. rewrite Z.shiftl_mul_pow2 by lia. unfold is_u64.
      assert (2 ^ (7 * (i + 1)) <= 2 ^ 64) by (apply Z.pow_le_mono_r; lia). nia. }
    rewrite Hlow, lor_shiftl_add by lia.
    rewrite IH; [|lia|lia| |nia].
    + rewrite zlen_cons, Z.shiftr_div_pow2 by lia. f_equal; [|lia].
      pose proof (Z.div_mod x (2 ^ 7)). rewrite Hp. nia.
    + rewrite Z.shiftr_div_pow2 by lia. split; [apply Z.div_pos; lia|].
      apply Z.div_lt_upper_bound; [lia|]. rewrite <-Z.pow_add_r by lia.
      replace (7 + (64 - 7 * (i + 1))) with (64 - 7 * i) by lia. lia.
  - cbn [app uvarint_get]. rewrite (proj2 (Z.eqb_neq i 10)) by lia.
    rewrite (u8_small x) by (unfold is_u8; lia). rewrite (proj2 (Z.ltb_lt x 0x80)) by lia.
    assert ((i =? 9) && (x >? 1) = false) as ->.
    { destruct (Z.eqb_spec i 9) as [->|]; [|done]. simpl in Hx. simpl.
      destruct (Z.gtb_spec x 1); [lia|done]. }
    rewrite u64_small, lor_shiftl_add by (try (rewrite Z.shiftl_mul_pow2 by lia); unfold is_u64;
      replace (2 ^ 64) with (2 ^ (64 - 7 * i) * 2 ^ (7 * i)) by
        (rewrite <-Z.pow_add_r by lia; f_equal; lia); nia).
    by rewrite zlen_cons, zlen_nil.
Qed.

Lemma Uvarint_put x rest :
  is_u64 x -> Uvarint (uvarint_put 10 x ++ rest) = (x, zlen (uvarint_put 10 x)).
Proof.
  intros H. unfold Uvarint. change 0 with (7 * 0) at 2.
  rewrite uvarint_get_put; [f_equal; lia|lia|lia|exact H|simpl; lia].
Qed.

Lemma uvarint_put_pos x : 0 < zlen (uvarint_put 10 x).
Proof.
  cbn [uvarint_put]. destruct (_ >=? _); rewrite zlen_cons; [|done].
  match goal with |- 0 < zlen ?l + 1 => pose proof (zlen_nonneg l) end. lia.
Qed.

(** A number of at most [7 * n] bits takes at most [n] bytes. *)
Lemma uvarint_put_small fuel n x :
  0 < n -> 0 <= x < 2 ^ (7 * n) -> zlen (uvarint_put fuel x) <= n.
Proof.
  revert n x; induction fuel as [|fuel IH]; intros n x Hn Hx; [simpl; rewrite zlen_nil; lia|].
  cbn [uvarint_put]. destruct (Z.geb_spec x 0x80); rewrite zlen_cons; [|rewrite zlen_nil; lia].
  destruct (decide (n = 1)) as [->|]; [simpl in Hx; lia|].
  enough (zlen (uvarint_put fuel (Z.shiftr x 7)) <= n - 1) by lia. apply IH; [lia|].
  rewrite Z.shiftr_div_pow2 by lia. split; [apply Z.div_pos; lia|].
  apply Z.div_lt_upper_bound; [lia|]. rewrite <-Z.pow_add_r by lia.
  replace (7 + 7 * (n - 1)) with (7 * n) by lia. lia.
Qed.

Lemma bytes_ok_uvarint fuel x : bytes_ok (uvarint_put fuel x).
Proof.
  revert x; induction fuel as [|fuel IH]; intros x; [constructor|].
  cbn [uvarint_put]. pose proof (cont_byte_high x).
  destruct (_ >=? _); constructor; auto; [unfold is_byte, is_u8; lia|apply u8_range].
Qed.

(** What [Uvarint] reports to have read never exceeds the buffer. *)
Lemma uvarint_get_bound buf i s x : 0 <= i -> (uvarint_get buf i s x).2 <= i + zlen buf.
Proof.
  revert i s x; induction buf as [|b buf IH]; intros i s x Hi; [simpl; unfold zlen; simpl; lia|].
  cbn [uvarint_get]. rewrite zlen_cons. pose proof (zlen_nonneg buf).
  destruct (i =? 10); [simpl; lia|]. destruct (b <? 0x80).
  - destruct ((i =? 9) && (b >? 1)); simpl; lia.
  - etrans; [apply IH; lia|lia].
Qed.

Lemma Uvarint_bound buf : (Uvarint buf).2 <= zlen buf.
Proof. apply (uvarint_get_bound buf 0 0 0). lia. Qed.

Lemma uvarint_get_nonneg buf i s x : 0 <= x -> 0 <= (uvarint_get buf i s x).1.
Proof.
  revert i s x; induction buf as [|b buf IH]; intros i s x Hx; [done|]. cbn [uvarint_get].
  assert (forall y, 0 <= Z.lor x (u64 y)) by (intros y; apply Z.lor_nonneg; split; [done|apply u64_range]).
  destruct (_ =? _); [simpl; lia|]. destruct (_ <? _); [|by apply IH].
  destruct (_ && _); simpl; [lia|auto].
Qed.

Lemma Uvarint_nonneg buf : 0 <= (Uvarint buf).1.
Proof. by apply uvarint_get_nonneg. Qed.

(** Walking over a binary layout: [read_field] evaluates the first read of the goal when the
    data is a concatenation whose field lengths are in context. *)
Ltac field_len := first [eassumption | apply zlen_le_put; lia | apply zlen_singleton | apply zlen_nil | apply zlen_make; lia].
Ltac skip_fields :=
  repeat first
    [ erewrite slice_skip; [|field_len|lia]
    | erewrite get_le_skip; [|field_len|lia]
    | erewrite index_skip; [|field_len|lia] ].
Ltac take_field :=
  first [ eapply slice_here; [field_len|lia|lia]
        | apply get_le_here; [lia|lia|first [lia|assumption]]
        | apply index_here; lia ].
Ltac read_field :=
  match goal with
  | |- context [slice ?d ?lo ?hi] =>
      let H := fresh in eassert (H : slice d lo hi = Ok _) by (skip_fields; take_field);
      rewrite H; clear H
  | |- context [get_le ?w ?d ?off] =>
      let H := fresh in eassert (H : get_le w d off = Ok _) by (skip_fields; take_field);
      rewrite H; clear H
  | |- context [index ?d ?i] =>
      let H := fresh in eassert (H : index d i = Ok _) by (skip_fields; take_field);
      rewrite H; clear H
  end; cbn [mbind res_bind].

(** [fill_field] evaluates the first write into the unwritten rest of a fresh buffer. *)
Ltac fill_field :=
  first [ rewrite blit_fill_if by len_lia | rewrite blit_fill by len_lia ].

#[global] Opaque le_put le_get uvarint_put.
