(* ===== verification/Sha256.v ===== *)
(** SHA-256, HMAC-SHA256 and FNV-1a from Go's standard library, as executable functions
    (FIPS 180-4, RFC 2104).  The program only relies on their being functions with a
    32-byte result; the definitions are here so that whole files can be computed. *)

From S2P Require Import Prelude Binary.

(** The constants are the first 32 bits of the fractional parts of the roots of the first primes. *)
Definition is_prime (n : Z) : bool :=
  (2 <=? n) && forallb (fun d => negb (n mod d =? 0)) (seqZ 2 (n - 2)).

Definition primes : list Z := Eval vm_compute in List.filter is_prime (seqZ 2 310).

(** The largest cube root of [n] with [bits] bits above [r]. *)
Fixpoint cube_root (bits : nat) (r n : Z) : Z :=
  match bits with
  | O => r
  | S b =>
      let r' := r + 2 ^ Z.of_nat b in
      cube_root b (if r' * r' * r' <=? n then r' else r) n
  end.

Definition round_constants : list Z :=
  Eval vm_compute in map (fun p => u32 (cube_root 36 0 (Z.shiftl p 96))) primes.

Definition rotr (n x : Z) : Z := Z.lor (Z.shiftr x n) (u32 (Z.shiftl x (32 - n))).
Definition small_sigma0 (x : Z) : Z := Z.lxor (rotr 7 x) (Z.lxor (rotr 18 x) (Z.shiftr x 3)).
Definition small_sigma1 (x : Z) : Z := Z.lxor (rotr 17 x) (Z.lxor (rotr 19 x) (Z.shiftr x 10)).
Definition big_sigma0 (x : Z) : Z := Z.lxor (rotr 2 x) (Z.lxor (rotr 13 x) (rotr 22 x)).
Definition big_sigma1 (x : Z) : Z := Z.lxor (rotr 6 x) (Z.lxor (rotr 11 x) (rotr 25 x)).
Definition choose (e f g : Z) : Z := Z.lxor (Z.land e f) (Z.land (0xffffffff - e) g).
Definition majority (a b c : Z) : Z :=
  Z.lxor (Z.land a b) (Z.lxor (Z.land a c) (Z.land b c)).

Record words8 := W8 { wa : Z; wb : Z; wc : Z; wd : Z; we : Z; wf : Z; wg : Z; wh : Z }.

Definition initial_state : words8 :=
  Eval vm_compute in
    let h i := u32 (Z.sqrt (Z.shiftl (nth i primes 0) 64)) in
    W8 (h 0%nat) (h 1%nat) (h 2%nat) (h 3%nat) (h 4%nat) (h 5%nat) (h 6%nat) (h 7%nat).

Definition sha_round (s : words8) (k w : Z) : words8 :=
  let t1 := wh s + big_sigma1 (we s) + choose (we s) (wf s) (wg s) + k + w in
  let t2 := big_sigma0 (wa s) + majority (wa s) (wb s) (wc s) in
  W8 (u32 (t1 + t2)) (wa s) (wb s) (wc s) (u32 (wd s + t1)) (we s) (wf s) (wg s).

(** The sixteen most recent schedule words slide over the rounds. *)
Fixpoint sha_rounds (ks : list Z) (window : list Z) (s : words8) : words8 :=
  match ks with
  | [] => s
  | k :: ks =>
      let w := nth 0 window 0 in
      let w' := u32 (small_sigma1 (nth 14 window 0) + nth 9 window 0
                     + small_sigma0 (nth 1 window 0) + w) in
      sha_rounds ks (drop 1 window ++ [w']) (sha_round s k w)
  end.

Definition add_words (s t : words8) : words8 :=
  W8 (u32 (wa s + wa t)) (u32 (wb s + wb t)) (u32 (wc s + wc t)) (u32 (wd s + wd t))
     (u32 (we s + we t)) (u32 (wf s + wf t)) (u32 (wg s + wg t)) (u32 (wh s + wh t)).

Definition be_get (l : bytes) : Z := le_get (rev l).
Definition be_put (w v : Z) : bytes := rev (le_put w v).

Definition block_words (block : bytes) : list Z :=
  map (fun i => be_get (sub (4 * i) (4 * i + 4) block)) (seqZ 0 16).

Fixpoint sha_blocks (fuel : nat) (msg : bytes) (s : words8) : words8 :=
  match fuel with
  | O => s
  | S fuel =>
      match msg with
      | [] => s
      | _ => sha_blocks fuel (zdrop 64 msg)
               (add_words s (sha_rounds round_constants (block_words (ztake 64 msg)) s))
      end
  end.

Definition sha_pad (msg : bytes) : bytes :=
  msg ++ [0x80] ++ make_bytes ((55 - zlen msg) mod 64) ++ be_put 8 (u64 (zlen msg * 8)).

Definition words_bytes (s : words8) : bytes :=
  be_put 4 (wa s) ++ be_put 4 (wb s) ++ be_put 4 (wc s) ++ be_put 4 (wd s) ++
  be_put 4 (we s) ++ be_put 4 (wf s) ++ be_put 4 (wg s) ++ be_put 4 (wh s).

(** [sha256.Sum256] *)
Definition Sum256 (msg : bytes) : bytes :=
  words_bytes (sha_blocks (length msg + 65) (sha_pad msg) initial_state).

Lemma zlen_be_put w v : 0 <= w -> zlen (be_put w v) = w.
Proof. intros. unfold zlen, be_put. rewrite length_rev. by apply zlen_le_put. Qed.

Lemma bytes_ok_be_put w v : 0 <= w -> bytes_ok (be_put w v).
Proof. intros. unfold be_put. apply Forall_rev. by apply bytes_ok_le_put. Qed.

Lemma zlen_Sum256 msg : zlen (Sum256 msg) = 32.
Proof. unfold Sum256, words_bytes. rewrite !zlen_app, !zlen_be_put by lia. done. Qed.

Lemma bytes_ok_Sum256 msg : bytes_ok (Sum256 msg).
Proof. unfold Sum256, words_bytes. rewrite !Forall_app. repeat split; by apply bytes_ok_be_put. Qed.

#[global] Opaque Sum256.
#[export] Hint Rewrite zlen_Sum256 : crom_len.
#[export] Hint Resolve bytes_ok_Sum256 : crom.

(** [hmac.New(sha256.New, key)] over [msg]. *)
Definition hmac_sha256 (key msg : bytes) : bytes :=
  let k := if 64 <? zlen key then Sum256 key else key in
  let padded := k ++ make_bytes (64 - zlen k) in
  Sum256 (map (Z.lxor 0x5c) padded ++ Sum256 (map (Z.lxor 0x36) padded ++ msg)).

Lemma zlen_hmac key msg : zlen (hmac_sha256 key msg) = 32.
Proof. apply zlen_Sum256. Qed.

(** [hash/fnv.New64a], also spelled out in [search/lsh.go] and [trainer/engine.go]. *)
Definition fnv_offset : Z := 14695981039346656037.
Definition fnv_prime : Z := 1099511628211.
Definition fnv1a (data : bytes) : Z :=
  fold_left (fun h b => u64 (Z.lxor h b * fnv_prime)) data fnv_offset.

(** Test vectors of FIPS 180-4 and RFC 4231. *)
Example sha256_abc : le_get (rev (Sum256 (str "abc"))) =
  0xba7816bf8f01cfea414140de5dae2223b00361a396177a9cb410ff61f20015ad.
Proof. vm_compute. reflexivity. Qed.
Example sha256_two_blocks : le_get (rev (Sum256
    (str "abcdbcdecdefdefgefghfghighijhijkijkljklmklmnlmnomnopnopq"))) =
  0x248d6a61d20638b8e5c026930c3e6039a33ce45964ff2167f6ecedd419db06c1.
Proof. vm_compute. reflexivity. Qed.
Example hmac_rfc4231 : le_get (rev (hmac_sha256 (str "Jefe") (str "what do ya want for nothing?"))) =
  0x5bdcc146bf60754e6a042426089575c75a003f089d2739839dec58b964ec3843.
Proof. vm_compute. reflexivity. Qed.
