(* ===== verification/Externals.v ===== *)
(** The code outside the repository that the model depends on, as type classes: the
    operations the source calls, and apart from them the documented laws that some
    theorems assume.  Each class has a concrete instance, used to evaluate the model and
    to show that the laws can hold. *)

From S2P Require Import Prelude Binary Sha256.

(** ** zstd (klauspost/compress and DataDog/zstd)

    A raw dictionary is a byte string, empty when there is none. [zstd_enc] is the Go
    encoder at its best level, [zstd_enc_max] the C encoder at level 19, [zstd_dec] the Go
    decoder, [None] standing for a decoding error. *)
Class Zstd := {
  zstd_enc : bytes -> bytes -> bytes;
  zstd_enc_max : bytes -> bytes -> bytes;
  zstd_dec : bytes -> bytes -> option bytes;
}.

(** Frames decode to what was encoded with the same dictionary, and an incompressible input
    grows by at most [ZSTD_compressBound]. *)
Class ZstdLaws (Z0 : Zstd) := {
  zstd_dec_enc dict pool : bytes_ok pool -> zstd_dec dict (zstd_enc dict pool) = Some pool;
  zstd_dec_enc_max dict pool : bytes_ok pool -> zstd_dec dict (zstd_enc_max dict pool) = Some pool;
  zstd_bound dict pool : zlen (zstd_enc dict pool) <= zlen pool + zlen pool / 256 + 64;
  zstd_bound_max dict pool : zlen (zstd_enc_max dict pool) <= zlen pool + zlen pool / 256 + 64;
  zstd_enc_nonempty dict pool : pool <> [] -> zstd_enc dict pool <> [];
  zstd_enc_max_nonempty dict pool : pool <> [] -> zstd_enc_max dict pool <> [];
  zstd_enc_ok dict pool : bytes_ok pool -> bytes_ok (zstd_enc dict pool);
  zstd_enc_max_ok dict pool : bytes_ok pool -> bytes_ok (zstd_enc_max dict pool);
}.

(** ** xxhash (cespare/xxhash) *)
Class XXHash := xxhash_Sum64 : bytes -> Z.

(** ** AES-GCM and PBKDF2

    [gcm_seal key nonce plaintext] returns the ciphertext followed by the 16-byte tag. *)
Class Cipher := {
  gcm_seal : bytes -> bytes -> bytes -> bytes;
  gcm_open : bytes -> bytes -> bytes -> option bytes;
  pbkdf2_Key : bytes -> bytes -> Z -> Z -> bytes;
}.

Class CipherLaws (C : Cipher) := {
  gcm_open_seal key nonce pt : gcm_open key nonce (gcm_seal key nonce pt) = Some pt;
  gcm_seal_len key nonce pt : zlen (gcm_seal key nonce pt) = zlen pt + 16;
  gcm_seal_ok key nonce pt : bytes_ok pt -> bytes_ok (gcm_seal key nonce pt);
  pbkdf2_len password salt iter n : 0 <= n -> zlen (pbkdf2_Key password salt iter n) = n;
}.

(** ** Instances *)

(** A zstd that stores: one tag byte, then the data. *)
#[export] Instance stored_zstd : Zstd := {
  zstd_enc _ pool := 0x28 :: pool;
  zstd_enc_max _ pool := 0x28 :: pool;
  zstd_dec _ frame := match frame with 0x28 :: pool => Some pool | _ => None end;
}.

#[export] Instance stored_zstd_laws : ZstdLaws stored_zstd.
Proof.
  assert (Hb : forall pool : bytes, zlen (0x28 :: pool) <= zlen pool + zlen pool / 256 + 64).
  { intros pool. rewrite zlen_cons. pose proof (zlen_nonneg pool).
    pose proof (Z.div_pos (zlen pool) 256). lia. }
  assert (Ho : forall pool, bytes_ok pool -> bytes_ok (0x28 :: pool)).
  { intros pool H. constructor; [unfold is_byte, is_u8; lia|done]. }
  split; simpl; auto; done.
Qed.

#[export] Instance fnv_xxhash : XXHash := fnv1a.

(** Authentication without secrecy: the plaintext and a keyed digest of it. *)
Definition mac16 (key nonce pt : bytes) : bytes := ztake 16 (hmac_sha256 key (nonce ++ pt)).

#[export] Instance mac_cipher : Cipher := {
  gcm_seal key nonce pt := pt ++ mac16 key nonce pt;
  gcm_open key nonce ct :=
    let pt := ztake (zlen ct - 16) ct in
    if bytes_eqb (zdrop (zlen ct - 16) ct) (mac16 key nonce pt) then Some pt else None;
  pbkdf2_Key password salt iter n :=
    let d := hmac_sha256 password salt in ztake n (d ++ make_bytes n);
}.

Lemma zlen_mac16 key nonce pt : zlen (mac16 key nonce pt) = 16.
Proof. unfold mac16. rewrite zlen_ztake, zlen_hmac. done. Qed.

#[export] Instance mac_cipher_laws : CipherLaws mac_cipher.
Proof.
  split; simpl; intros.
  - rewrite zlen_app, zlen_mac16. replace (zlen pt + 16 - 16) with (zlen pt) by lia.
    rewrite ztake_app, zdrop_app. unfold bytes_eqb. by rewrite bool_decide_eq_true_2.
  - by rewrite zlen_app, zlen_mac16.
  - apply Forall_app. split; [done|]. unfold mac16. rewrite ztake_take.
    apply Forall_take. apply bytes_ok_Sum256.
  - rewrite zlen_ztake, zlen_app, zlen_hmac, zlen_make by lia. lia.
Qed.
