(* ===== verification/Crypto.v ===== *)
(** [internal/crypto]: AES-256-GCM framing with a random nonce, convergent encryption with
    a nonce and key derived from the plaintext, and the simulated post-quantum signature.

    Randomness is an argument: the [nonce] and [salt] are the bytes [crypto/rand] returned. *)

From S2P Require Import Prelude Binary Sha256 Externals.

Section crypto.
Context `{Cipher}.

Definition gcmNonceSize : Z := 12.

(** [aes.NewCipher] accepts 16, 24 or 32-byte keys. *)
Definition aes_key_ok (key : bytes) : bool :=
  (zlen key =? 16) || (zlen key =? 24) || (zlen key =? 32).

Definition DeriveKey (password salt : bytes) : bytes := pbkdf2_Key password salt 100000 32.

(** [[nonce][ciphertext][tag]] *)
Definition Encrypt (nonce key plaintext : bytes) : res bytes :=
  if aes_key_ok key then Ok (nonce ++ gcm_seal key nonce plaintext)
  else Err "crypto/aes: invalid key size".

Definition Decrypt (key ciphertext : bytes) : res bytes :=
  if aes_key_ok key then
    if zlen ciphertext <? gcmNonceSize then Err "crypto: ciphertext too short" else
    nonce ← slice ciphertext 0 gcmNonceSize;
    encryptedData ← slice ciphertext gcmNonceSize (zlen ciphertext);
    match gcm_open key nonce encryptedData with
    | Some plaintext => Ok plaintext
    | None => Err "crypto: decryption failed"
    end
  else Err "crypto/aes: invalid key size".

(** ** Convergent encryption *)

Definition convergent_key (globalSecret chunkHash : bytes) : bytes :=
  hmac_sha256 globalSecret chunkHash.

Definition ConvergentEncrypt (globalSecret plaintext : bytes) : res bytes :=
  let chunkHash := Sum256 plaintext in
  let aesKey := convergent_key globalSecret chunkHash in
  if aes_key_ok aesKey then
    let nonce := ztake gcmNonceSize chunkHash in
    Ok (nonce ++ gcm_seal aesKey nonce plaintext)
  else Err "convergent: create cipher".

(** Without the plaintext hash there is no key: always an error. *)
Definition ConvergentDecrypt (globalSecret payload : bytes) : res bytes :=
  Err "convergent: use ConvergentDecryptWithHash instead".

Definition ConvergentDecryptWithHash (globalSecret originalPlaintextHash payload : bytes)
    : res bytes :=
  let aesKey := convergent_key globalSecret originalPlaintextHash in
  if aes_key_ok aesKey then
    if zlen payload <? gcmNonceSize then Err "convergent: payload too short" else
    nonce ← slice payload 0 gcmNonceSize;
    ciphertext ← slice payload gcmNonceSize (zlen payload);
    match gcm_open aesKey nonce ciphertext with
    | None => Err "convergent: decryption failed"
    | Some plaintext =>
        if bytes_eqb (Sum256 plaintext) originalPlaintextHash then Ok plaintext
        else Err "convergent: fatal integrity error"
    end
  else Err "convergent: create cipher".

(** ** Simulated Dilithium signature, over Ed25519 *)

Section signature.
Variable ed25519_Sign : bytes -> bytes -> bytes.
Variable ed25519_Verify : bytes -> bytes -> bytes -> bool.

Definition ed25519_PrivateKeySize : Z := 64.
Definition ed25519_PublicKeySize : Z := 32.
Definition mock_signature : bytes := str "MOCK_DILITHIUM_SIG_2048".

Definition SignDilithium (privateKey payload : bytes) : res bytes :=
  if zlen privateKey =? 0 then Err "PQ_FIREWALL: invalid private key length"
  else if negb (zlen privateKey =? ed25519_PrivateKeySize) then Ok mock_signature
  else Ok (ed25519_Sign privateKey payload).

Definition VerifyDilithium (pubKey signature payload : bytes) : bool :=
  if bytes_eqb signature mock_signature then true
  else if negb (zlen pubKey =? ed25519_PublicKeySize) then false
  else ed25519_Verify pubKey payload signature.
End signature.

(** ** Properties *)

Context `{!CipherLaws _}.

Lemma aes_key_ok_32 key : zlen key = 32 -> aes_key_ok key = true.
Proof. intros E. unfold aes_key_ok. by rewrite E. Qed.

Lemma zlen_DeriveKey password salt : zlen (DeriveKey password salt) = 32.
Proof. apply pbkdf2_len. lia. Qed.

(** The frame layout, shared by both encryptions. *)
Lemma gcm_frame_split (nonce body : bytes) :
  zlen nonce = gcmNonceSize ->
  slice (nonce ++ body) 0 gcmNonceSize = Ok nonce /\
  slice (nonce ++ body) gcmNonceSize (zlen (nonce ++ body)) = Ok body.
Proof.
  intros Hn. pose proof (zlen_nonneg body). unfold gcmNonceSize in *.
  rewrite !slice_ok, zlen_app, Hn; try (rewrite ?zlen_app, ?Hn; lia).
  split; f_equal.
  - by apply (sub_app_mid 0 12 [] nonce body).
  - unfold sub. rewrite zdrop_app_eq by done. apply ztake_ge. lia.
Qed.

Lemma Encrypt_ok nonce key pt :
  zlen key = 32 -> Encrypt nonce key pt = Ok (nonce ++ gcm_seal key nonce pt).
Proof. intros. unfold Encrypt. by rewrite aes_key_ok_32. Qed.

Lemma Decrypt_frame key nonce pt :
  zlen key = 32 -> zlen nonce = gcmNonceSize ->
  Decrypt key (nonce ++ gcm_seal key nonce pt) = Ok pt.
Proof.
  intros Hk Hn. unfold Decrypt. rewrite aes_key_ok_32 by done.
  destruct (gcm_frame_split nonce (gcm_seal key nonce pt) Hn) as [-> ->].
  rewrite zlen_app, Hn. pose proof (zlen_nonneg (gcm_seal key nonce pt)).
  rewrite (proj2 (Z.ltb_ge _ _)) by lia. cbn [mbind res_bind]. by rewrite gcm_open_seal.
Qed.

Lemma no_panic_Decrypt key ct : no_panic (Decrypt key ct).
Proof.
  unfold Decrypt. destruct (aes_key_ok key); [|done].
  destruct (Z.ltb_spec (zlen ct) gcmNonceSize); [done|]. unfold gcmNonceSize in *.
  rewrite !slice_ok by lia. cbn [mbind res_bind]. by destruct (gcm_open _ _ _).
Qed.

End crypto.
#[export] Hint Resolve no_panic_Decrypt : crom.
