(* ===== verification/Format.v ===== *)
(** [pkg/format/format.go]: the data and the binary layout of a [.crom] file.

    The header (ten versions), the chunk table in its fixed-width and column forms, the
    mutation record, and the grouping of chunks into 16 MB blocks. *)

From S2P Require Import Prelude Binary Externals Crypto.

(** ** Constants *)

Definition MagicString : bytes := str "CROM".
Definition MagicSize : Z := 4.
Definition HashSize : Z := 32.
Definition Version1 : Z := 1.
Definition Version2 : Z := 2.
Definition Version3 : Z := 3.
Definition Version4 : Z := 4.
Definition Version5 : Z := 5.
Definition Version6 : Z := 6.
Definition Version7 : Z := 7.
Definition Version8 : Z := 8.
Definition Version9 : Z := 9.
Definition HeaderSize : Z := MagicSize + 2 + HashSize + 8 + 4.
Definition HeaderSizeV2 : Z := 68.
Definition HeaderSizeV4 : Z := 80.
Definition HeaderSizeV5 : Z := 112.
Definition HeaderSizeV6 : Z := 137.
Definition HeaderSizeV7 : Z := 137.
Definition HeaderSizeV8 : Z := 141.
Definition EntrySizeV6 : Z := 24.
Definition EntrySizeV7 : Z := 25.
Definition LiteralCodebookIndex : Z := 255.
Definition MetamorphicCodebookIndex : Z := 254.
Definition FractalCodebookIndex : Z := 253.
Definition MaxMicroDictSize : Z := 32 * 1024 * 1024.
Definition BlockSize : Z := 16 * 1024 * 1024.
Definition FlagIsPatch : Z := 2 ^ 60.
Definition LiteralCodebookID : Z := 2 ^ 64 - 1.

(** ** Header *)

(** The WAL record at the end of a mutated file. *)
Record V9MutationHeader := {
  mh_Magic : bytes;
  mh_Timestamp : Z;
  mh_DiffPatchSize : Z;
}.

Record Header := {
  h_Version : Z;
  h_IsEncrypted : bool;
  h_IsPassthrough : bool;
  h_IsConvergentEncrypted : bool;
  h_IsLossy : bool;
  h_UsesBrainDict : bool;
  h_CompressedTable : bool;
  h_TableBytes : Z;
  h_Salt : bytes;
  h_OriginalHash : bytes;
  h_OriginalSize : Z;
  h_ChunkCount : Z;
  h_ChunkSize : Z;
  h_CodebookHash : bytes;
  h_CodebookHashes : bytes * bytes * bytes;
  h_MerkleRoot : bytes;
  h_MicroDictSize : Z;
  h_MicroDictionaryData : bytes;
  h_Mutations : list V9MutationHeader;
}.

(** [&Header{}] *)
Definition zero_header : Header := {|
  h_Version := 0; h_IsEncrypted := false; h_IsPassthrough := false;
  h_IsConvergentEncrypted := false; h_IsLossy := false; h_UsesBrainDict := false;
  h_CompressedTable := false; h_TableBytes := 0; h_Salt := make_bytes 16;
  h_OriginalHash := make_bytes 32; h_OriginalSize := 0; h_ChunkCount := 0; h_ChunkSize := 0;
  h_CodebookHash := make_bytes 8;
  h_CodebookHashes := (make_bytes 8, make_bytes 8, make_bytes 8);
  h_MerkleRoot := make_bytes 32; h_MicroDictSize := 0; h_MicroDictionaryData := [];
  h_Mutations := [] |}.

(** [h.Version = v] and [h.TableBytes = n] *)
Definition set_version (v : Z) (h : Header) : Header := {|
  h_Version := v; h_IsEncrypted := h_IsEncrypted h; h_IsPassthrough := h_IsPassthrough h;
  h_IsConvergentEncrypted := h_IsConvergentEncrypted h; h_IsLossy := h_IsLossy h;
  h_UsesBrainDict := h_UsesBrainDict h; h_CompressedTable := h_CompressedTable h;
  h_TableBytes := h_TableBytes h; h_Salt := h_Salt h; h_OriginalHash := h_OriginalHash h;
  h_OriginalSize := h_OriginalSize h; h_ChunkCount := h_ChunkCount h;
  h_ChunkSize := h_ChunkSize h; h_CodebookHash := h_CodebookHash h;
  h_CodebookHashes := h_CodebookHashes h; h_MerkleRoot := h_MerkleRoot h;
  h_MicroDictSize := h_MicroDictSize h; h_MicroDictionaryData := h_MicroDictionaryData h;
  h_Mutations := h_Mutations h |}.

Definition set_table_bytes (n : Z) (h : Header) : Header := {|
  h_Version := h_Version h; h_IsEncrypted := h_IsEncrypted h;
  h_IsPassthrough := h_IsPassthrough h; h_IsConvergentEncrypted := h_IsConvergentEncrypted h;
  h_IsLossy := h_IsLossy h; h_UsesBrainDict := h_UsesBrainDict h;
  h_CompressedTable := h_CompressedTable h; h_TableBytes := n; h_Salt := h_Salt h;
  h_OriginalHash := h_OriginalHash h; h_OriginalSize := h_OriginalSize h;
  h_ChunkCount := h_ChunkCount h; h_ChunkSize := h_ChunkSize h;
  h_CodebookHash := h_CodebookHash h; h_CodebookHashes := h_CodebookHashes h;
  h_MerkleRoot := h_MerkleRoot h; h_MicroDictSize := h_MicroDictSize h;
  h_MicroDictionaryData := h_MicroDictionaryData h; h_Mutations := h_Mutations h |}.

(** ** Mutation records *)

Definition V9MutationHeaderSize : Z := 16.

Definition V9MutationHeader_Bytes (v : V9MutationHeader) : bytes :=
  let buf := make_bytes V9MutationHeaderSize in
  let buf := blit buf 0 (mh_Magic v) in
  let buf := blit buf 4 (le_put 8 (u64 (mh_Timestamp v))) in
  blit buf 12 (le_put 4 (mh_DiffPatchSize v)).

Definition ParseV9MutationHeader (data : bytes) : res V9MutationHeader :=
  if zlen data <? V9MutationHeaderSize then Err "format: mutation header too small" else
  magic ← slice data 0 4;
  if negb (bytes_eqb magic (str "CMUT")) then Err "format: invalid mutation magic" else
  timestamp ← get_le 8 data 4;
  size ← get_le 4 data 12;
  Ok {| mh_Magic := magic; mh_Timestamp := i64 timestamp; mh_DiffPatchSize := size |}.

(** ** Parsing *)

(** The fixed part of a header of version 2 to 9. *)
Definition header_min_size (version : Z) : Z :=
  if version =? Version4 then HeaderSizeV4
  else if version =? Version5 then HeaderSizeV5
  else if (version =? Version6) || (version =? Version7) then HeaderSizeV6
  else if (version =? Version8) || (version =? Version9) then HeaderSizeV8
  else HeaderSizeV2.

Definition supported_version (version : Z) : bool := (Version2 <=? version) && (version <=? Version9).

Definition flag (flags mask : Z) : bool := negb (Z.land flags mask =? 0).

(** [if cond { field = read }], zero otherwise. *)
Definition when_read {A} (cond : bool) (default : A) (r : res A) : res A :=
  if cond then r else Ok default.

Definition ParseHeader_v1 (data : bytes) : res Header :=
  originalHash ← slice data 6 38;
  originalSize ← get_le 8 data 38;
  chunkCount ← get_le 4 data 46;
  Ok {| h_Version := Version1; h_IsEncrypted := false; h_IsPassthrough := false;
        h_IsConvergentEncrypted := false; h_IsLossy := false; h_UsesBrainDict := false;
        h_CompressedTable := false; h_TableBytes := 0; h_Salt := make_bytes 16;
        h_OriginalHash := originalHash; h_OriginalSize := originalSize;
        h_ChunkCount := chunkCount; h_ChunkSize := 0; h_CodebookHash := make_bytes 8;
        h_CodebookHashes := (make_bytes 8, make_bytes 8, make_bytes 8);
        h_MerkleRoot := make_bytes 32; h_MicroDictSize := 0; h_MicroDictionaryData := [];
        h_Mutations := [] |}.

(** The embedded brain of version 8: size, cap, payload. *)
Definition ParseHeader_micro (data : bytes) : res (Z * bytes) :=
  size ← get_le 4 data 137;
  if size >? MaxMicroDictSize then Err "format: v8 micro-dict size exceeds safety cap" else
  if size >? 0 then
    if zlen data <? HeaderSizeV8 + size then Err "format: header too small for v8 micro-dict payload"
    else payload ← slice data 141 (141 + size); Ok (size, payload)
  else Ok (size, []).

Definition ParseHeader_v2 (version : Z) (data : bytes) : res Header :=
  if zlen data <? header_min_size version then Err "format: header too small for version" else
  enc ← index data 6;
  flags ← when_read (version >=? Version3) 0 (index data 7);
  salt ← slice data 8 24;
  originalHash ← slice data 24 56;
  originalSize ← get_le 8 data 56;
  chunkCount ← get_le 4 data 64;
  chunkSize ← when_read (version >=? Version4) 0 (get_le 4 data 68);
  legacyHash ← when_read (version >=? Version4) (make_bytes 8) (slice data 72 80);
  merkleRoot ← when_read (version >=? Version5) (make_bytes 32) (slice data 80 112);
  convergent ← when_read (version >=? Version6) 0 (index data 112);
  hash0 ← when_read (version >=? Version6) (make_bytes 8) (slice data 113 121);
  hash1 ← when_read (version >=? Version6) (make_bytes 8) (slice data 121 129);
  hash2 ← when_read (version >=? Version6) (make_bytes 8) (slice data 129 137);
  micro ← when_read (version >=? Version8) (0, []) (ParseHeader_micro data);
  Ok {| h_Version := version;
        h_IsEncrypted := enc =? 1;
        h_IsPassthrough := flag flags 1;
        h_IsConvergentEncrypted := convergent =? 1;
        h_IsLossy := flag flags 2;
        h_UsesBrainDict := flag flags 4;
        h_CompressedTable := flag flags 8;
        h_TableBytes := 0;
        h_Salt := salt;
        h_OriginalHash := originalHash;
        h_OriginalSize := originalSize;
        h_ChunkCount := chunkCount;
        h_ChunkSize := chunkSize;
        h_CodebookHash := if version >=? Version6 then hash0 else legacyHash;
        h_CodebookHashes := (hash0, hash1, hash2);
        h_MerkleRoot := merkleRoot;
        h_MicroDictSize := fst micro;
        h_MicroDictionaryData := snd micro;
        h_Mutations := [] |}.

Definition ParseHeader (data : bytes) : res Header :=
  if zlen data <? HeaderSize then Err "format: header too small" else
  magic ← slice data 0 MagicSize;
  if negb (bytes_eqb magic MagicString) then Err "format: invalid magic" else
  version ← get_le 2 data 4;
  if version =? Version1 then ParseHeader_v1 data
  else if supported_version version then ParseHeader_v2 version data
  else Err "format: unsupported version".

(** ** Serializing *)

(** [copy(buf[lo:hi], src)] *)
Definition copy_into (buf : bytes) (lo hi : Z) (src : bytes) : bytes :=
  blit buf lo (ztake (hi - lo) src).

Definition Serialize_v1 (h : Header) : bytes :=
  let buf := make_bytes HeaderSize in
  let buf := copy_into buf 0 MagicSize MagicString in
  let buf := blit buf 4 (le_put 2 (h_Version h)) in
  let buf := copy_into buf 6 38 (h_OriginalHash h) in
  let buf := blit buf 38 (le_put 8 (h_OriginalSize h)) in
  blit buf 46 (le_put 4 (h_ChunkCount h)).

(** [buf[7]] after the four conditional [|=]. *)
Definition flag_byte (h : Header) : Z :=
  Z.lor (Z.lor (Z.lor (if h_IsPassthrough h then 1 else 0) (if h_IsLossy h then 2 else 0))
    (if h_UsesBrainDict h then 4 else 0)) (if h_CompressedTable h then 8 else 0).

Definition header_size (h : Header) : Z :=
  let version := h_Version h in
  if version =? Version4 then HeaderSizeV4
  else if version =? Version5 then HeaderSizeV5
  else if (version =? Version6) || (version =? Version7) then HeaderSizeV6
  else if version >=? Version8 then HeaderSizeV8 + h_MicroDictSize h
  else HeaderSizeV2.

Definition Serialize_v2 (h : Header) : bytes :=
  let version := h_Version h in
  let '(hash0, hash1, hash2) := h_CodebookHashes h in
  let buf := make_bytes (header_size h) in
  let buf := copy_into buf 0 MagicSize MagicString in
  let buf := blit buf 4 (le_put 2 version) in
  let buf := if h_IsEncrypted h then blit buf 6 [1] else buf in
  let buf := blit buf 7 [flag_byte h] in
  let buf := copy_into buf 8 24 (h_Salt h) in
  let buf := copy_into buf 24 56 (h_OriginalHash h) in
  let buf := blit buf 56 (le_put 8 (h_OriginalSize h)) in
  let buf := blit buf 64 (le_put 4 (h_ChunkCount h)) in
  let buf :=
    if version >=? Version4 then
      copy_into (blit buf 68 (le_put 4 (h_ChunkSize h))) 72 80
        (if version >=? Version6 then hash0 else h_CodebookHash h)
    else buf in
  let buf := if version >=? Version5 then copy_into buf 80 112 (h_MerkleRoot h) else buf in
  let buf :=
    if version >=? Version6 then
      let buf := if h_IsConvergentEncrypted h then blit buf 112 [1] else buf in
      let buf := copy_into buf 113 121 hash0 in
      let buf := copy_into buf 121 129 hash1 in
      copy_into buf 129 137 hash2
    else buf in
  if version >=? Version8 then
    let buf := blit buf 137 (le_put 4 (h_MicroDictSize h)) in
    if h_MicroDictSize h >? 0 then
      copy_into buf 141 (141 + h_MicroDictSize h) (h_MicroDictionaryData h)
    else buf
  else buf.

(** An unset or too new version becomes version 8, in the receiver too. *)
Definition default_version (h : Header) : Header :=
  if (h_Version h <? Version2) || (h_Version h >? Version8) then set_version Version8 h else h.

Definition Serialize (h : Header) : Header * bytes :=
  if h_Version h =? Version1 then (h, Serialize_v1 h)
  else let h := default_version h in (h, Serialize_v2 h).

(** ** Blocks *)

Definition NumBlocks (h : Header) : Z :=
  if h_ChunkCount h =? 0 then 0
  else if h_OriginalSize h =? 0 then 1
  else u32 (u64 (h_OriginalSize h + BlockSize - 1) / BlockSize).

Record ChunkEntry := {
  e_CodebookID : Z;
  e_DeltaOffset : Z;
  e_DeltaSize : Z;
  e_OriginalSize : Z;
  e_CodebookIndex : Z;
}.

#[export] Instance ChunkEntry_eq_dec : EqDecision ChunkEntry.
Proof. solve_decision. Defined.

(** [BlockStarts]: the loop from chunk [i] with [filled] bytes in the current block. *)
Fixpoint block_starts_from (i filled : Z) (entries : list ChunkEntry) : list Z :=
  match entries with
  | [] => []
  | e :: entries =>
      let rest :=
        let filled := u64 (filled + e_OriginalSize e) in
        block_starts_from (i + 1) (if filled >=? BlockSize then 0 else filled) entries in
      if filled =? 0 then i :: rest else rest
  end.

Definition BlockStarts (entries : list ChunkEntry) : list Z := block_starts_from 0 0 entries.

Definition BlockRange (starts : list Z) (i numEntries : Z) : res (Z * Z) :=
  end_ ← (if i + 1 <? zlen starts then index starts (i + 1) else Ok numEntries);
  start ← index starts i;
  Ok (start, end_).

(** ** Chunk table, fixed width *)

Definition GetEntrySize (version : Z) : Z :=
  if version >=? Version7 then EntrySizeV7 else EntrySizeV6.

Definition parse_entry (version : Z) (data : bytes) (offset : Z) : res ChunkEntry :=
  codebookID ← get_le 8 data offset;
  deltaOffset ← get_le 8 data (offset + 8);
  deltaSize ← get_le 4 data (offset + 16);
  originalSize ← get_le 4 data (offset + 20);
  codebookIndex ← when_read (version >=? Version7) 0 (index data (offset + 24));
  Ok {| e_CodebookID := codebookID; e_DeltaOffset := deltaOffset; e_DeltaSize := deltaSize;
        e_OriginalSize := originalSize; e_CodebookIndex := codebookIndex |}.

Fixpoint parse_entries (version : Z) (data : bytes) (i : Z) (n : nat) : res (list ChunkEntry) :=
  match n with
  | O => Ok []
  | S n =>
      e ← parse_entry version data (i * GetEntrySize version);
      rest ← parse_entries version data (i + 1) n;
      Ok (e :: rest)
  end.

Definition ParseChunkTable (data : bytes) (count version : Z) : res (list ChunkEntry) :=
  let expectedLen := count * GetEntrySize version in
  if zlen data <? expectedLen then Err "format: chunk table data too short"
  else parse_entries version data 0 (Z.to_nat count).

Definition serialize_entry (version : Z) (buf : bytes) (offset : Z) (e : ChunkEntry) : bytes :=
  let buf := blit buf offset (le_put 8 (e_CodebookID e)) in
  let buf := blit buf (offset + 8) (le_put 8 (e_DeltaOffset e)) in
  let buf := blit buf (offset + 16) (le_put 4 (e_DeltaSize e)) in
  let buf := blit buf (offset + 20) (le_put 4 (e_OriginalSize e)) in
  if version >=? Version7 then blit buf (offset + 24) [e_CodebookIndex e] else buf.

Fixpoint serialize_entries (version : Z) (buf : bytes) (i : Z) (entries : list ChunkEntry) : bytes :=
  match entries with
  | [] => buf
  | e :: entries =>
      serialize_entries version (serialize_entry version buf (i * GetEntrySize version) e)
        (i + 1) entries
  end.

Definition SerializeChunkTable (entries : list ChunkEntry) (version : Z) : bytes :=
  serialize_entries version (make_bytes (zlen entries * GetEntrySize version)) 0 entries.

(** ** Chunk table, in columns *)

Definition zigzag (v : Z) : Z := Z.lxor (u64 (Z.shiftl v 1)) (u64 (Z.shiftr v 63)).
Definition unzigzag (u : Z) : Z := i64 (Z.lxor (Z.shiftr u 1) (- Z.land u 1)).

Record columns := {
  col_ids : bytes;
  col_offsets : bytes;
  col_deltaSizes : bytes;
  col_sizes : bytes;
  col_indexes : bytes;
}.

Definition no_columns : columns :=
  {| col_ids := []; col_offsets := []; col_deltaSizes := []; col_sizes := []; col_indexes := [] |}.

(** The identifier column of one entry, and the identifier expected next. *)
Definition encode_id (prevID : Z) (e : ChunkEntry) : bytes * Z :=
  if e_CodebookID e =? LiteralCodebookID then ([0], prevID)
  else (AppendUvarint [] (u64 (zigzag (i64 (u64 (e_CodebookID e - prevID))) + 1)),
        u64 (e_CodebookID e + 1)).

(** The loop appends each entry to the five columns. *)
Fixpoint encode_columns (entries : list ChunkEntry) (prevID nextOffset : Z) : columns :=
  match entries with
  | [] => no_columns
  | e :: entries =>
      let '(id, prevID) := encode_id prevID e in
      let offset := AppendUvarint [] (zigzag (i64 (u64 (e_DeltaOffset e - nextOffset)))) in
      let rest := encode_columns entries prevID (u64 (e_DeltaOffset e + e_DeltaSize e)) in
      {| col_ids := id ++ col_ids rest;
         col_offsets := offset ++ col_offsets rest;
         col_deltaSizes := AppendUvarint [] (e_DeltaSize e) ++ col_deltaSizes rest;
         col_sizes := AppendUvarint [] (e_OriginalSize e) ++ col_sizes rest;
         col_indexes := e_CodebookIndex e :: col_indexes rest |}
  end.

Definition put_column (col : bytes) : bytes := AppendUvarint [] (zlen col) ++ col.

Definition encodeTableColumns (entries : list ChunkEntry) : bytes :=
  let c := encode_columns entries 0 0 in
  put_column (col_ids c) ++ put_column (col_offsets c) ++ put_column (col_deltaSizes c)
    ++ put_column (col_sizes c) ++ col_indexes c.

Definition malformed : string := "format: malformed chunk table".

(** One length-prefixed column, and what follows it. *)
Definition get_column (data : bytes) : res (bytes * bytes) :=
  let '(size, n) := Uvarint data in
  if (n <=? 0) || (size >? zlen data - n) then Err malformed
  else
    col ← slice data n (n + size);
    rest ← slice data (n + size) (zlen data);
    Ok (col, rest).

(** [next(col)]: one value, and the column without it. *)
Definition next_value (col : bytes) : res (Z * bytes) :=
  let '(v, n) := Uvarint col in
  if n <=? 0 then Err malformed
  else rest ← slice col n (zlen col); Ok (v, rest).

Definition decode_id (prevID v : Z) : Z * Z :=
  if v =? 0 then (LiteralCodebookID, prevID)
  else let id := u64 (prevID + u64 (unzigzag (u64 (v - 1)))) in (id, u64 (id + 1)).

(** The loop over the entries; [indexes] holds one byte per entry. *)
Fixpoint decode_columns (indexes ids offsets deltaSizes sizes : bytes) (prevID nextOffset : Z)
    : res (list ChunkEntry) :=
  match indexes with
  | [] => Ok []
  | ix :: indexes =>
      '(v0, ids) ← next_value ids;
      '(v1, offsets) ← next_value offsets;
      '(v2, deltaSizes) ← next_value deltaSizes;
      '(v3, sizes) ← next_value sizes;
      let '(id, prevID) := decode_id prevID v0 in
      let e := {| e_CodebookID := id; e_DeltaOffset := u64 (nextOffset + u64 (unzigzag v1));
                  e_DeltaSize := u32 v2; e_OriginalSize := u32 v3; e_CodebookIndex := ix |} in
      rest ← decode_columns indexes ids offsets deltaSizes sizes prevID
               (u64 (e_DeltaOffset e + e_DeltaSize e));
      Ok (e :: rest)
  end.

Definition decodeTableColumns (data : bytes) (count : Z) : res (list ChunkEntry) :=
  '(ids, data) ← get_column data;
  '(offsets, data) ← get_column data;
  '(deltaSizes, data) ← get_column data;
  '(sizes, data) ← get_column data;
  if negb (zlen data =? count) then Err malformed
  else decode_columns data ids offsets deltaSizes sizes 0 0.

(** [EncodeCompressedTable]: [[uint32 size][zstd frame, encrypted with the key]]. *)
Definition EncodeCompressedTable `{Zstd, Cipher} (nonce : bytes) (entries : list ChunkEntry)
    (version : Z) (key : option bytes) : res bytes :=
  let blob := zstd_enc [] (encodeTableColumns entries) in
  blob ← match key with
         | Some key => wrap_err "format: encrypt chunk table" (Encrypt nonce key blob)
         | None => Ok blob
         end;
  Ok (blit (blit (make_bytes (4 + zlen blob)) 0 (le_put 4 (u32 (zlen blob)))) 4 blob).

(** ** Header: layout and round trip *)

Ltac simpl_header := cbn [h_Version h_IsEncrypted h_IsPassthrough h_IsConvergentEncrypted h_IsLossy
  h_UsesBrainDict h_CompressedTable h_TableBytes h_Salt h_OriginalHash h_OriginalSize h_ChunkCount
  h_ChunkSize h_CodebookHash h_CodebookHashes h_MerkleRoot h_MicroDictSize h_MicroDictionaryData
  h_Mutations fst snd] in *.

(** The fields of the Go struct have fixed widths. *)
Record wf_header (h : Header) : Prop := {
  wf_salt : zlen (h_Salt h) = 16;
  wf_hash : zlen (h_OriginalHash h) = 32;
  wf_size : is_u64 (h_OriginalSize h);
  wf_count : is_u32 (h_ChunkCount h);
  wf_chunk : is_u32 (h_ChunkSize h);
  wf_cbhash : zlen (h_CodebookHash h) = 8;
  wf_cbhash0 : zlen (h_CodebookHashes h).1.1 = 8;
  wf_cbhash1 : zlen (h_CodebookHashes h).1.2 = 8;
  wf_cbhash2 : zlen (h_CodebookHashes h).2 = 8;
  wf_merkle : zlen (h_MerkleRoot h) = 32;
  wf_micro : zlen (h_MicroDictionaryData h) = h_MicroDictSize h;
  wf_micro_cap : h_MicroDictSize h <= MaxMicroDictSize;
}.

(** The bytes of a version 2 to 8 header, field by field. *)
Definition header_image (h : Header) : bytes :=
  let v := h_Version h in
  let '(hash0, hash1, hash2) := h_CodebookHashes h in
  MagicString ++ le_put 2 v ++ [b2z (h_IsEncrypted h)] ++ [flag_byte h] ++ h_Salt h
  ++ h_OriginalHash h ++ le_put 8 (h_OriginalSize h) ++ le_put 4 (h_ChunkCount h)
  ++ (if v >=? 4 then le_put 4 (h_ChunkSize h) ++ (if v >=? 6 then hash0 else h_CodebookHash h) else [])
  ++ (if v >=? 5 then h_MerkleRoot h else [])
  ++ (if v >=? 6 then [b2z (h_IsConvergentEncrypted h)] ++ hash0 ++ hash1 ++ hash2 else [])
  ++ (if v >=? 8 then le_put 4 (h_MicroDictSize h) ++ h_MicroDictionaryData h else []).

#[global] Arguments header_image : simpl never.
#[global] Arguments MagicString : simpl never.

Lemma copy_into_full buf lo hi src : zlen src = hi - lo -> copy_into buf lo hi src = blit buf lo src.
Proof. intros H. unfold copy_into. by rewrite ztake_ge by lia. Qed.

Lemma version_cases v : 2 <= v <= 8 -> v = 2 \/ v = 3 \/ v = 4 \/ v = 5 \/ v = 6 \/ v = 7 \/ v = 8.
Proof. lia. Qed.

Lemma Serialize_v2_image h :
  wf_header h -> 2 <= h_Version h <= 8 -> Serialize_v2 h = header_image h.
Proof.
  intros [] Hv. destruct h as [v enc pt conv lossy dict ct tb salt hash size count cs cbh
    [[h0 h1] h2] root ms micro mut]; simpl in *. unfold Serialize_v2, header_size, header_image,
    Version2, Version4, Version5, Version6, Version7, Version8,
    HeaderSizeV2, HeaderSizeV4, HeaderSizeV5, HeaderSizeV6, HeaderSizeV8; cbn [h_Version
    h_IsEncrypted h_IsConvergentEncrypted h_Salt h_OriginalHash h_OriginalSize h_ChunkCount
    h_ChunkSize h_CodebookHash h_CodebookHashes h_MerkleRoot h_MicroDictSize h_MicroDictionaryData].
  pose proof (zlen_nonneg micro).
  destruct (version_cases v Hv) as [->|[->|[->|[->|[->|[->| ->]]]]]]; eval_conds; cbv iota.
  all: rewrite !copy_into_full by (first [done|lia]).
  all: match goal with |- context [blit (make_bytes ?n) 0 _] =>
         change (make_bytes n) with ([] ++ make_bytes n) end.
  all: assert (zlen MagicString = 4) by done.
  all: try destruct (Z.gtb_spec ms 0).
  all: repeat fill_field.
  all: try (assert (micro = []) as -> by (apply zlen_0_nil; lia)).
  all: rewrite make_bytes_0 by len_lia; rewrite ?app_nil_r, <-?app_assoc; done.
Qed.

(** What a header of each version keeps; the rest reads back as zero. *)
Definition stored_header (h : Header) : Header :=
  let v := h_Version h in
  let '(hash0, hash1, hash2) := h_CodebookHashes h in
  let zero8 := make_bytes 8 in
  {| h_Version := v;
     h_IsEncrypted := (v >=? 2) && h_IsEncrypted h;
     h_IsPassthrough := (v >=? 3) && h_IsPassthrough h;
     h_IsConvergentEncrypted := (v >=? 6) && h_IsConvergentEncrypted h;
     h_IsLossy := (v >=? 3) && h_IsLossy h;
     h_UsesBrainDict := (v >=? 3) && h_UsesBrainDict h;
     h_CompressedTable := (v >=? 3) && h_CompressedTable h;
     h_TableBytes := 0;
     h_Salt := if v >=? 2 then h_Salt h else make_bytes 16;
     h_OriginalHash := h_OriginalHash h;
     h_OriginalSize := h_OriginalSize h;
     h_ChunkCount := h_ChunkCount h;
     h_ChunkSize := if v >=? 4 then h_ChunkSize h else 0;
     h_CodebookHash := if v >=? 6 then hash0 else if v >=? 4 then h_CodebookHash h else zero8;
     h_CodebookHashes := if v >=? 6 then (hash0, hash1, hash2) else (zero8, zero8, zero8);
     h_MerkleRoot := if v >=? 5 then h_MerkleRoot h else make_bytes 32;
     h_MicroDictSize := if v >=? 8 then h_MicroDictSize h else 0;
     h_MicroDictionaryData := if v >=? 8 then h_MicroDictionaryData h else [];
     h_Mutations := [] |}.

Lemma flag_byte_bits h :
  flag (flag_byte h) 1 = h_IsPassthrough h /\ flag (flag_byte h) 2 = h_IsLossy h /\
  flag (flag_byte h) 4 = h_UsesBrainDict h /\ flag (flag_byte h) 8 = h_CompressedTable h.
Proof.
  unfold flag_byte.
  by destruct (h_IsPassthrough h), (h_IsLossy h), (h_UsesBrainDict h), (h_CompressedTable h).
Qed.

Lemma Serialize_v1_image h :
  wf_header h -> Serialize_v1 h =
    MagicString ++ le_put 2 (h_Version h) ++ h_OriginalHash h ++ le_put 8 (h_OriginalSize h)
    ++ le_put 4 (h_ChunkCount h).
Proof.
  intros []. unfold Serialize_v1. assert (zlen MagicString = 4) by done.
  rewrite !copy_into_full by (first [done|lia]). change (make_bytes HeaderSize) with ([] ++ make_bytes 50).
  repeat fill_field. rewrite make_bytes_0 by len_lia. by rewrite app_nil_r, <-!app_assoc.
Qed.

Lemma b2z_eqb_1 b : (b2z b =? 1) = b.
Proof. by destruct b. Qed.

Lemma b2z_range b : is_u8 (b2z b).
Proof. destruct b; unfold is_u8; simpl; lia. Qed.

(** The bounds in the forms the readers ask for. *)
Lemma is_u64_8 v : is_u64 v -> 0 <= v < 2 ^ (8 * 8).
Proof. done. Qed.
Lemma is_u32_4 v : is_u32 v -> 0 <= v < 2 ^ (4 * 8).
Proof. done. Qed.

Lemma ParseHeader_image h rest :
  wf_header h -> 2 <= h_Version h <= 8 ->
  ParseHeader (header_image h ++ rest) = Ok (stored_header h).
Proof.
  intros [] Hv. destruct (flag_byte_bits h) as (Hf1 & Hf2 & Hf4 & Hf8).
  set (fb := flag_byte h) in *.
  destruct h as [v enc pt conv lossy dict ct tb salt hash size count cs cbh
    [[h0 h1] h2] root ms micro mut].
  assert (Hmg : zlen MagicString = 4) by done. unfold ParseHeader, header_image.
  set (magic := MagicString) in *. clearbody magic. fold fb. clearbody fb. simpl_header.
  pose proof (zlen_nonneg micro). pose proof (zlen_nonneg rest).
  apply is_u64_8 in wf_size0. apply is_u32_4 in wf_count0, wf_chunk0.
  assert (Hms : 0 <= ms < 2 ^ (4 * 8)) by (unfold MaxMicroDictSize in *; lia).
  rewrite <-!app_assoc. rewrite (proj2 (Z.ltb_ge _ _)) by (unfold HeaderSize, MagicSize, HashSize;
    destruct (v >=? 4), (v >=? 5), (v >=? 6), (v >=? 8); len_lia).
  unfold MagicSize. read_field. rewrite bytes_eqb_refl. cbn [negb].
  destruct (version_cases v Hv) as [->|[->|[->|[->|[->|[->| ->]]]]]]; read_field;
    unfold Version1, supported_version, Version2, Version9; eval_conds; cbv iota;
    unfold ParseHeader_v2, when_read, stored_header, header_min_size, Version3, Version4, Version5,
      Version6, Version7, Version8, HeaderSizeV2, HeaderSizeV4, HeaderSizeV5, HeaderSizeV6,
      HeaderSizeV8; eval_conds; cbv iota;
    (rewrite (proj2 (Z.ltb_ge _ _)) by len_lia); rewrite <-?app_assoc.
  all: repeat read_field.
  all: simpl_header; rewrite ?b2z_eqb_1, ?Hf1, ?Hf2, ?Hf4, ?Hf8; cbn [andb]; try done.
  unfold ParseHeader_micro. read_field. rewrite Z.gtb_ltb, (proj2 (Z.ltb_ge _ _)) by lia.
  destruct (Z.gtb_spec ms 0).
  - rewrite (proj2 (Z.ltb_ge _ _)) by (unfold HeaderSizeV8; len_lia). by read_field.
  - assert (micro = []) as -> by (apply zlen_0_nil; lia). rewrite zlen_nil in *. by subst ms.
Qed.


Definition sample_header : Header :=
  set_version Version8 {| h_Version := 0; h_IsEncrypted := true; h_IsPassthrough := false;
    h_IsConvergentEncrypted := true; h_IsLossy := true; h_UsesBrainDict := false;
    h_CompressedTable := true; h_TableBytes := 77; h_Salt := make_bytes 16;
    h_OriginalHash := make_bytes 32; h_OriginalSize := 2 ^ 40 + 5; h_ChunkCount := 70000;
    h_ChunkSize := 4096; h_CodebookHash := make_bytes 8;
    h_CodebookHashes := (make_bytes 8, make_bytes 8, make_bytes 8);
    h_MerkleRoot := make_bytes 32; h_MicroDictSize := 3; h_MicroDictionaryData := [7; 8; 9];
    h_Mutations := [] |}.

Lemma wf_sample_header : wf_header sample_header.
Proof. constructor; vm_compute; try done; split; done. Qed.


(** Parsing a header never indexes out of its input: a short, foreign or hostile file is
    rejected with an error. *)
Lemma no_panic_ParseHeader data : no_panic (ParseHeader data).
Proof.
  unfold ParseHeader. destruct (Z.ltb_spec (zlen data) HeaderSize) as [|Hlen]; [done|].
  change HeaderSize with 50 in Hlen. unfold MagicSize. no_panic_step; [no_panic_step|].
  destruct (negb _); [done|]. no_panic_step; [apply no_panic_get_le; lia|].
  rename a0 into version. destruct (version =? Version1); [unfold ParseHeader_v1; no_panic_tac|].
  destruct (supported_version version) eqn:Hs; [|done]. unfold supported_version in Hs.
  apply andb_true_iff in Hs as [Hs1%Z.leb_le Hs2%Z.leb_le]. unfold Version2, Version9 in *.
  unfold ParseHeader_v2. destruct (Z.ltb_spec (zlen data) (header_min_size version)) as [|Hmin]; [done|].
  assert (Hv : version = 9 \/ 2 <= version <= 8) by lia.
  destruct Hv as [->|Hv]; [|destruct (version_cases version Hv) as [->|[->|[->|[->|[->|[->| ->]]]]]]].
  all: match type of Hmin with ?m <= _ => let r := eval vm_compute in m in change m with r in Hmin end.
  all: unfold when_read, Version3, Version4, Version5, Version6, Version8; eval_conds; cbv iota.
  all: no_panic_tac.
  all: unfold ParseHeader_micro, HeaderSizeV8; no_panic_step; [no_panic_tac|].
  all: rename a13 into size; destruct (size >? MaxMicroDictSize); [done|].
  all: destruct (Z.gtb_spec size 0); [|done].
  all: destruct (Z.ltb_spec (zlen data) (141 + size)); [done|no_panic_tac].
Qed.

(** A mutation record read back from its 16 bytes is the record written, for any 64-bit
    timestamp, negative ones included. *)
Lemma ParseV9MutationHeader_Bytes v rest :
  mh_Magic v = str "CMUT" -> is_i64 (mh_Timestamp v) -> is_u32 (mh_DiffPatchSize v) ->
  ParseV9MutationHeader (V9MutationHeader_Bytes v ++ rest) = Ok v.
Proof.
  destruct v as [m t n]; cbn [mh_Magic mh_Timestamp mh_DiffPatchSize]. intros -> Ht Hn.
  assert (Hm : zlen (str "CMUT") = 4) by done.
  assert (V9MutationHeader_Bytes {| mh_Magic := str "CMUT"; mh_Timestamp := t;
      mh_DiffPatchSize := n |} = str "CMUT" ++ le_put 8 (u64 t) ++ le_put 4 n) as ->.
  { unfold V9MutationHeader_Bytes. cbn [mh_Magic mh_Timestamp mh_DiffPatchSize].
    set (magic := str "CMUT") in *. clearbody magic.
    change (make_bytes V9MutationHeaderSize) with ([] ++ make_bytes 16).
    repeat fill_field. rewrite make_bytes_0 by len_lia. by rewrite app_nil_r, <-!app_assoc. }
  apply is_u32_4 in Hn. pose proof (u64_range t) as Ht'. apply is_u64_8 in Ht'.
  unfold ParseV9MutationHeader, V9MutationHeaderSize. set (magic := str "CMUT") in *. clearbody magic.
  rewrite <-!app_assoc. pose proof (zlen_nonneg rest).
  rewrite (proj2 (Z.ltb_ge _ _)) by len_lia.
  read_field. rewrite bytes_eqb_refl. cbn [negb]. repeat read_field.
  by rewrite i64_u64, i64_small.
Qed.

(** ** Chunk table *)

Record wf_entry (e : ChunkEntry) : Prop := {
  wf_id : is_u64 (e_CodebookID e);
  wf_offset : is_u64 (e_DeltaOffset e);
  wf_delta : is_u32 (e_DeltaSize e);
  wf_orig : is_u32 (e_OriginalSize e);
  wf_index : is_u8 (e_CodebookIndex e);
}.

Lemma GetEntrySize_cases v :
  ((v >=? Version7) = true /\ GetEntrySize v = 25) \/
  ((v >=? Version7) = false /\ GetEntrySize v = 24).
Proof. unfold GetEntrySize. destruct (v >=? Version7); auto. Qed.

(** One fixed-width row. *)
Definition entry_image (version : Z) (e : ChunkEntry) : bytes :=
  le_put 8 (e_CodebookID e) ++ le_put 8 (e_DeltaOffset e) ++ le_put 4 (e_DeltaSize e)
  ++ le_put 4 (e_OriginalSize e) ++ (if version >=? Version7 then [e_CodebookIndex e] else []).

Lemma zlen_entry_image v e : zlen (entry_image v e) = GetEntrySize v.
Proof. unfold entry_image. destruct (GetEntrySize_cases v) as [[-> ->]|[-> ->]]; len_lia. Qed.

Lemma serialize_entries_image v es pre i n :
  zlen pre = i * GetEntrySize v -> n = zlen es * GetEntrySize v ->
  serialize_entries v (pre ++ make_bytes n) i es = pre ++ concat (map (entry_image v) es).
Proof.
  revert pre i n; induction es as [|e es IH]; intros pre i n Hp ->.
  { by rewrite (make_bytes_0 (zlen [] * _)) by done. }
  pose proof (zlen_nonneg es). cbn [serialize_entries map concat].
  assert (serialize_entry v (pre ++ make_bytes (zlen (e :: es) * GetEntrySize v))
            (i * GetEntrySize v) e =
          (pre ++ entry_image v e) ++ make_bytes (zlen es * GetEntrySize v)) as ->.
  { unfold serialize_entry, entry_image. rewrite zlen_cons.
    destruct (GetEntrySize_cases v) as [[Hv Hs]|[Hv Hs]]; rewrite Hv, Hs in *;
      repeat fill_field; rewrite <-!app_assoc; cbn [app]; do 5 f_equal;
      try f_equal; f_equal; len_lia. }
  rewrite IH; [by rewrite <-app_assoc| |done].
  rewrite zlen_app, zlen_entry_image. lia.
Qed.

Lemma parse_entry_image v e pre post off :
  wf_entry e -> zlen pre = off ->
  parse_entry v (pre ++ entry_image v e ++ post) off =
    Ok {| e_CodebookID := e_CodebookID e; e_DeltaOffset := e_DeltaOffset e;
          e_DeltaSize := e_DeltaSize e; e_OriginalSize := e_OriginalSize e;
          e_CodebookIndex := if v >=? Version7 then e_CodebookIndex e else 0 |}.
Proof.
  intros [] Hp. apply is_u64_8 in wf_id0, wf_offset0. apply is_u32_4 in wf_delta0, wf_orig0.
  pose proof (zlen_nonneg pre). unfold parse_entry, entry_image, when_read. rewrite <-!app_assoc.
  repeat read_field. destruct (v >=? Version7); [|done]. by read_field.
Qed.

Lemma parse_entries_image v es pre i rest :
  Forall wf_entry es -> zlen pre = i * GetEntrySize v ->
  parse_entries v (pre ++ concat (map (entry_image v) es) ++ rest) i (length es) =
    Ok (map (fun e => {| e_CodebookID := e_CodebookID e; e_DeltaOffset := e_DeltaOffset e;
                         e_DeltaSize := e_DeltaSize e; e_OriginalSize := e_OriginalSize e;
                         e_CodebookIndex := if v >=? Version7 then e_CodebookIndex e else 0 |}) es).
Proof.
  revert pre i; induction es as [|e es IH]; intros pre i Hes Hp; [done|].
  inversion Hes as [|? ? He Hes']; subst. cbn [parse_entries length map concat].
  rewrite <-app_assoc, parse_entry_image by done. cbn [mbind res_bind].
  rewrite app_assoc, IH; [done|done|].
  rewrite zlen_app, zlen_entry_image. lia.
Qed.

(** The fixed-width chunk table reads back as written, except that tables before version 7
    have no room for the codebook index. *)
Theorem ParseChunkTable_Serialize es version rest :
  Forall wf_entry es ->
  ParseChunkTable (SerializeChunkTable es version ++ rest) (zlen es) version =
    Ok (map (fun e => {| e_CodebookID := e_CodebookID e; e_DeltaOffset := e_DeltaOffset e;
                         e_DeltaSize := e_DeltaSize e; e_OriginalSize := e_OriginalSize e;
                         e_CodebookIndex := if version >=? Version7 then e_CodebookIndex e else 0 |}) es).
Proof.
  intros Hes. unfold SerializeChunkTable, ParseChunkTable.
  change (make_bytes ?n) with ([] ++ make_bytes n).
  rewrite serialize_entries_image by (rewrite ?zlen_nil; lia). cbn [app].
  assert (Hlen : zlen (concat (map (entry_image version) es)) = zlen es * GetEntrySize version).
  { clear Hes. induction es as [|e es IH]; [done|]. cbn [map concat].
    rewrite zlen_app, IH, zlen_cons, zlen_entry_image. lia. }
  rewrite zlen_app, Hlen. pose proof (zlen_nonneg rest). rewrite (proj2 (Z.ltb_ge _ _)) by lia.
  unfold zlen at 1. rewrite Nat2Z.id. clear Hlen.
  apply (parse_entries_image version es [] 0 rest); done.
Qed.

Definition sample_entries : list ChunkEntry := [
  {| e_CodebookID := 7; e_DeltaOffset := 0; e_DeltaSize := 0; e_OriginalSize := 128; e_CodebookIndex := 0 |};
  {| e_CodebookID := LiteralCodebookID; e_DeltaOffset := 0; e_DeltaSize := 100; e_OriginalSize := 100;
     e_CodebookIndex := LiteralCodebookIndex |};
  {| e_CodebookID := FlagIsPatch + 3; e_DeltaOffset := 100; e_DeltaSize := 12; e_OriginalSize := 128;
     e_CodebookIndex := 0 |} ].

Lemma wf_sample_entries : Forall wf_entry sample_entries.
Proof. repeat constructor; vm_compute; done. Qed.

Lemma ParseChunkTable_Serialize_witness :
  ParseChunkTable (SerializeChunkTable sample_entries 5 ++ [9; 9]) 3 5 =
    Ok (map (fun e => {| e_CodebookID := e_CodebookID e; e_DeltaOffset := e_DeltaOffset e;
                         e_DeltaSize := e_DeltaSize e; e_OriginalSize := e_OriginalSize e;
                         e_CodebookIndex := if 5 >=? Version7 then e_CodebookIndex e else 0 |})
          sample_entries).
Proof. exact (ParseChunkTable_Serialize sample_entries 5 [9; 9] wf_sample_entries). Defined.

(** ** Columns *)

Lemma zigzag_nonneg v : 0 <= v < 2 ^ 63 -> zigzag v = 2 * v.
Proof.
  intros Hv. unfold zigzag. rewrite Z.shiftl_mul_pow2, (Z.shiftr_div_pow2 v 63), Z.div_small by lia.
  rewrite Z.lxor_0_r. ulia.
Qed.

Lemma zigzag_neg v : - 2 ^ 63 <= v < 0 -> zigzag v = - 2 * v - 1.
Proof.
  intros Hv. unfold zigzag. rewrite Z.shiftl_mul_pow2, Z.shiftr_div_pow2 by lia.
  assert (v / 2 ^ 63 = -1) as -> by ulia.
  change (u64 (-1)) with (Z.ones 64). assert (u64 (v * 2 ^ 1) = v * 2 + 2 ^ 64) as -> by ulia.
  rewrite lxor_ones_sub by lia. change (Z.ones 64) with (2 ^ 64 - 1). lia.
Qed.

Lemma zigzag_range v : is_i64 v -> is_u64 (zigzag v).
Proof.
  unfold is_i64, is_u64. intros. destruct (Z.ltb_spec v 0);
    [rewrite zigzag_neg by lia|rewrite zigzag_nonneg by lia]; lia.
Qed.

Lemma zigzag_top v : is_i64 v -> zigzag v = 2 ^ 64 - 1 -> v = - 2 ^ 63.
Proof.
  unfold is_i64. intros Hv. destruct (Z.ltb_spec v 0);
    [rewrite zigzag_neg by lia|rewrite zigzag_nonneg by lia]; lia.
Qed.

Lemma unzigzag_even v : 0 <= v < 2 ^ 63 -> unzigzag (2 * v) = v.
Proof.
  intros Hv. unfold unzigzag. rewrite Z.shiftr_div_pow2 by lia.
  change (Z.land (2 * v) 1) with (Z.land (2 * v) (Z.ones 1)). rewrite Z.land_ones by lia.
  assert ((2 * v) mod 2 ^ 1 = 0) as -> by ulia. assert (2 * v / 2 ^ 1 = v) as -> by ulia.
  rewrite Z.lxor_0_r. apply i64_small. unfold is_i64. lia.
Qed.

Lemma unzigzag_odd v : - 2 ^ 63 <= v < 0 -> unzigzag (- 2 * v - 1) = v.
Proof.
  intros Hv. unfold unzigzag. rewrite Z.shiftr_div_pow2 by lia.
  change (Z.land (- 2 * v - 1) 1) with (Z.land (- 2 * v - 1) (Z.ones 1)).
  rewrite Z.land_ones by lia.
  assert ((- 2 * v - 1) mod 2 ^ 1 = 1) as -> by ulia.
  assert ((- 2 * v - 1) / 2 ^ 1 = - v - 1) as -> by ulia.
  change (- (1)) with (-1). rewrite Z.lxor_m1_r.
  assert (Z.lnot (- v - 1) = v) as -> by (unfold Z.lnot; lia).
  apply i64_small. unfold is_i64. lia.
Qed.

Lemma unzigzag_zigzag v : is_i64 v -> unzigzag (zigzag v) = v.
Proof.
  unfold is_i64. intros. destruct (Z.ltb_spec v 0).
  - rewrite zigzag_neg by lia. apply unzigzag_odd. lia.
  - rewrite zigzag_nonneg by lia. apply unzigzag_even. lia.
Qed.

Lemma next_value_put x rest : is_u64 x -> next_value (AppendUvarint [] x ++ rest) = Ok (x, rest).
Proof.
  intros Hx. unfold next_value, AppendUvarint. cbn [app]. rewrite Uvarint_put by done.
  pose proof (uvarint_put_pos x). rewrite (proj2 (Z.leb_gt _ _)) by lia.
  pose proof (zlen_nonneg rest).
  rewrite (slice_tail (zlen (uvarint_put 10 x ++ rest))) by (rewrite ?zlen_app; lia).
  cbn [mbind res_bind]. by rewrite zdrop_app.
Qed.

Lemma get_column_put col rest : zlen col < 2 ^ 64 -> get_column (put_column col ++ rest) = Ok (col, rest).
Proof.
  intros Hc. pose proof (zlen_nonneg col). pose proof (zlen_nonneg rest).
  unfold get_column, put_column, AppendUvarint. cbn [app]. rewrite <-app_assoc, Uvarint_put
    by (unfold is_u64; lia).
  set (p := uvarint_put 10 (zlen col)). assert (0 < zlen p) by apply uvarint_put_pos.
  rewrite !zlen_app. rewrite (proj2 (Z.leb_gt _ _)), Z.gtb_ltb, (proj2 (Z.ltb_ge _ _)) by lia. cbn [orb].
  rewrite (slice_skip (zlen p) p (col ++ rest) (zlen p)) by lia.
  rewrite (slice_here (zlen col) col rest) by (first [done|lia]). cbn [mbind res_bind].
  rewrite slice_tail by (rewrite ?zlen_app; lia). cbn [mbind res_bind].
  by rewrite app_assoc, zdrop_app_eq by (rewrite zlen_app; lia).
Qed.

(** A brain entry whose number is exactly 2^63 away from the expected one has no code of its
    own: its zigzag value is the largest one, and adding 1 wraps to the literal marker. *)
Definition id_codable (prevID : Z) (e : ChunkEntry) : bool :=
  (e_CodebookID e =? LiteralCodebookID) || negb (u64 (e_CodebookID e - prevID) =? 2 ^ 63).

Fixpoint ids_codable (prevID : Z) (es : list ChunkEntry) : bool :=
  match es with
  | [] => true
  | e :: es => id_codable prevID e && ids_codable (encode_id prevID e).2 es
  end.

Lemma decode_encode_id prev e rest :
  wf_entry e -> id_codable prev e = true ->
  exists v, next_value ((encode_id prev e).1 ++ rest) = Ok (v, rest) /\
    decode_id prev v = (e_CodebookID e, (encode_id prev e).2).
Proof.
  intros [Hid _ _ _ _] Hc. unfold encode_id, id_codable in *.
  destruct (Z.eqb_spec (e_CodebookID e) LiteralCodebookID) as [Hl|Hl]; cbn [fst snd].
  - exists 0. split; [by apply (next_value_put 0 rest)|]. unfold decode_id. by rewrite Hl.
  - cbn [orb] in Hc. apply negb_true_iff, Z.eqb_neq in Hc.
    set (d := u64 (e_CodebookID e - prev)) in *. pose proof (u64_range (e_CodebookID e - prev)).
    fold d in H. pose proof (i64_range d) as Hi. pose proof (zigzag_range _ Hi) as Hz.
    assert (zigzag (i64 d) <> 2 ^ 64 - 1) by (intros Ht; apply zigzag_top in Ht; [clearbody d; ulia|exact Hi]).
    rewrite u64_small by (unfold is_u64 in *; lia).
    exists (zigzag (i64 d) + 1). split; [apply next_value_put; unfold is_u64 in *; lia|].
    unfold decode_id. rewrite (proj2 (Z.eqb_neq _ _)) by (unfold is_u64 in Hz; lia).
    rewrite Z.add_simpl_r, (u64_small (zigzag _)), unzigzag_zigzag, u64_i64, (u64_small d) by done.
    assert (u64 (prev + d) = e_CodebookID e) as ->; [|done]. unfold d.
    rewrite u64_add_r. replace (prev + (e_CodebookID e - prev)) with (e_CodebookID e) by lia.
    by apply u64_small.
Qed.

Lemma decode_encode_offset next e :
  wf_entry e -> u64 (next + u64 (unzigzag (zigzag (i64 (u64 (e_DeltaOffset e - next))))))
    = e_DeltaOffset e.
Proof.
  intros [_ Hoff _ _ _]. rewrite unzigzag_zigzag by apply i64_range.
  rewrite u64_i64, u64_u64, u64_add_r.
  replace (next + (e_DeltaOffset e - next)) with (e_DeltaOffset e) by lia. by apply u64_small.
Qed.

Lemma decode_encode_columns es prev next :
  Forall wf_entry es -> ids_codable prev es = true ->
  let c := encode_columns es prev next in
  decode_columns (col_indexes c) (col_ids c) (col_offsets c) (col_deltaSizes c) (col_sizes c)
    prev next = Ok es.
Proof.
  revert prev next; induction es as [|e es IH]; intros prev next Hes Hids; [done|].
  inversion Hes as [|? ? He Hes']; subst. cbn [ids_codable] in Hids.
  apply andb_true_iff in Hids as [Hid Hids]. cbn [encode_columns].
  destruct (encode_id prev e) as [id prev'] eqn:Eid.
  cbn [col_ids col_offsets col_deltaSizes col_sizes col_indexes decode_columns].
  destruct (decode_encode_id prev e (col_ids (encode_columns es prev' (u64 (e_DeltaOffset e + e_DeltaSize e))))
    He Hid) as (v & Hv & Hd). rewrite Eid in Hv, Hd. cbn [fst snd] in Hv, Hd.
  rewrite Hv. cbn [mbind res_bind].
  pose proof He as [_ _ Hds Hos _]. unfold is_u32 in Hds, Hos.
  repeat (rewrite next_value_put by (first [apply zigzag_range, i64_range | unfold is_u64; lia]);
    cbn [mbind res_bind]).
  rewrite Hd, decode_encode_offset, !u32_small by done. cbn [e_DeltaOffset e_DeltaSize].
  cbn [snd] in Hids.
  rewrite IH by done. cbn [mbind res_bind]. by destruct e.
Qed.

(** Each entry takes at most 10 + 10 + 5 + 5 + 1 bytes over the columns. *)
Lemma encode_columns_bound es prev next :
  Forall wf_entry es ->
  let c := encode_columns es prev next in
  zlen (col_ids c) <= 10 * zlen es /\ zlen (col_offsets c) <= 10 * zlen es /\
  zlen (col_deltaSizes c) <= 5 * zlen es /\ zlen (col_sizes c) <= 5 * zlen es /\
  zlen (col_indexes c) = zlen es.
Proof.
  revert prev next; induction es as [|e es IH]; intros prev next Hes; [done|].
  inversion Hes as [|? ? He Hes']; subst. cbn [encode_columns].
  destruct (encode_id prev e) as [id prev'] eqn:Eid.
  cbn [col_ids col_offsets col_deltaSizes col_sizes col_indexes].
  assert (zlen id <= 10).
  { unfold encode_id in Eid. destruct (_ =? _); simplify_eq; [done|]. apply (uvarint_put_length 10). }
  destruct (IH prev' (u64 (e_DeltaOffset e + e_DeltaSize e)) Hes') as (?&?&?&?&?).
  destruct He as [_ _ Hds Hos _]. unfold is_u32 in Hds, Hos.
  rewrite !zlen_app, !zlen_cons. unfold AppendUvarint. cbn [app].
  pose proof (uvarint_put_length 10 (zigzag (i64 (u64 (e_DeltaOffset e - next))))).
  pose proof (uvarint_put_small 10 5 (e_DeltaSize e)).
  pose proof (uvarint_put_small 10 5 (e_OriginalSize e)). repeat split; lia.
Qed.

(** The column form decodes to the table that was encoded. *)
Lemma decode_encodeTableColumns es :
  Forall wf_entry es -> ids_codable 0 es = true -> zlen es < 2 ^ 32 ->
  decodeTableColumns (encodeTableColumns es) (zlen es) = Ok es.
Proof.
  intros Hes Hids Hn. pose proof (encode_columns_bound es 0 0 Hes) as (?&?&?&?&Hix).
  unfold decodeTableColumns, encodeTableColumns.
  do 4 (rewrite get_column_put by lia; cbn [mbind res_bind]).
  rewrite Hix, Z.eqb_refl. cbn [negb]. by apply decode_encode_columns.
Qed.

Lemma zlen_put_column col : zlen (put_column col) <= zlen col + 10.
Proof.
  unfold put_column, AppendUvarint. rewrite !zlen_app, zlen_nil.
  pose proof (uvarint_put_length 10 (zlen col)). lia.
Qed.

Lemma encodeTableColumns_bound es : Forall wf_entry es -> zlen (encodeTableColumns es) <= 31 * zlen es + 40.
Proof.
  intros Hes. pose proof (encode_columns_bound es 0 0 Hes) as (?&?&?&?&?).
  unfold encodeTableColumns. set (c := encode_columns es 0 0) in *. rewrite !zlen_app.
  pose proof (zlen_put_column (col_ids c)). pose proof (zlen_put_column (col_offsets c)).
  pose proof (zlen_put_column (col_deltaSizes c)). pose proof (zlen_put_column (col_sizes c)). lia.
Qed.

(** [C29] The column form of the chunk table decodes to the table that was encoded: identifiers
    and offsets survive being stored as wrapped 64-bit differences, for every table without an
    identifier exactly 2^63 past the expected one. And it stays below the 31 bytes per entry
    that the reader accepts before it calls a table oversized. *)
Theorem decodeTableColumns_encode es :
  Forall wf_entry es -> ids_codable 0 es = true -> zlen es < 2 ^ 32 ->
  decodeTableColumns (encodeTableColumns es) (zlen es) = Ok es /\
  zlen (encodeTableColumns es) <= 31 * zlen es + 40.
Proof. intros. split; [by apply decode_encodeTableColumns|by apply encodeTableColumns_bound]. Qed.

Lemma decodeTableColumns_encode_witness :
  decodeTableColumns (encodeTableColumns sample_entries) 3 = Ok sample_entries /\
  zlen (encodeTableColumns sample_entries) <= 31 * 3 + 40.
Proof.
  exact (decodeTableColumns_encode sample_entries wf_sample_entries eq_refl eq_refl).
Defined.

Lemma encode_columns_bytes es prev next :
  Forall wf_entry es ->
  let c := encode_columns es prev next in
  bytes_ok (col_ids c) /\ bytes_ok (col_offsets c) /\ bytes_ok (col_deltaSizes c) /\
  bytes_ok (col_sizes c) /\ bytes_ok (col_indexes c).
Proof.
  revert prev next; induction es as [|e es IH]; intros prev next Hes; [by repeat split|].
  inversion Hes as [|? ? He Hes']; subst. cbn [encode_columns].
  destruct (encode_id prev e) as [id prev'] eqn:Eid.
  cbn [col_ids col_offsets col_deltaSizes col_sizes col_indexes].
  assert (bytes_ok id).
  { unfold encode_id in Eid. destruct (_ =? _); simplify_eq; [by repeat constructor|].
    apply bytes_ok_uvarint. }
  destruct (IH prev' (u64 (e_DeltaOffset e + e_DeltaSize e)) Hes') as (?&?&?&?&?).
  unfold AppendUvarint. cbn [app]. destruct He.
  repeat split; try (apply Forall_app; split); try constructor; auto using bytes_ok_uvarint.
Qed.

Lemma encodeTableColumns_bytes es : Forall wf_entry es -> bytes_ok (encodeTableColumns es).
Proof.
  intros Hes. destruct (encode_columns_bytes es 0 0 Hes) as (?&?&?&?&?).
  unfold encodeTableColumns, put_column, AppendUvarint. cbn [app].
  repeat (apply Forall_app; split); auto using bytes_ok_uvarint.
Qed.

(** ** Safety of the table parsers *)

Lemma no_panic_parse_entries v data i n :
  0 <= i -> (i + Z.of_nat n) * GetEntrySize v <= zlen data -> no_panic (parse_entries v data i n).
Proof.
  revert i; induction n as [|n IH]; intros i Hi Hl; [done|]. cbn [parse_entries].
  destruct (GetEntrySize_cases v) as [[Hv Hs]|[Hv Hs]]; rewrite Hs in *;
    (no_panic_step; [|no_panic_step; [apply IH; lia|done]]);
    unfold parse_entry, when_read; rewrite Hv; no_panic_tac.
Qed.

Lemma ParseChunkTable_no_panic data count version : no_panic (ParseChunkTable data count version).
Proof.
  unfold ParseChunkTable. destruct (Z.ltb_spec (zlen data) (count * GetEntrySize version)); [done|].
  pose proof (zlen_nonneg data).
  apply no_panic_parse_entries; [lia|].
  destruct (GetEntrySize_cases version) as [[_ Hs]|[_ Hs]]; rewrite Hs in *; lia.
Qed.

Lemma no_panic_next_value col : no_panic (next_value col).
Proof.
  unfold next_value. pose proof (Uvarint_bound col) as Hb. destruct (Uvarint col) as [v n].
  destruct (Z.leb_spec n 0); [done|]. cbn [snd] in Hb.
  no_panic_step; [apply no_panic_slice; lia|done].
Qed.

Lemma no_panic_get_column data : no_panic (get_column data).
Proof.
  unfold get_column. pose proof (Uvarint_bound data) as Hb. pose proof (Uvarint_nonneg data) as Hp.
  destruct (Uvarint data) as [size n]. cbn [fst snd] in *.
  destruct (Z.leb_spec n 0); [done|]. destruct (Z.gtb_spec size (zlen data - n)); [done|]. cbn [orb].
  no_panic_tac.
Qed.

Lemma no_panic_decode_columns indexes ids offsets deltaSizes sizes prevID nextOffset :
  no_panic (decode_columns indexes ids offsets deltaSizes sizes prevID nextOffset).
Proof.
  revert ids offsets deltaSizes sizes prevID nextOffset.
  induction indexes as [|ix indexes IH]; intros; [done|]. cbn [decode_columns].
  do 4 (no_panic_step; [apply no_panic_next_value|]; case_match).
  case_match. no_panic_step; [apply IH|done].
Qed.

Lemma decodeTableColumns_no_panic data count : no_panic (decodeTableColumns data count).
Proof.
  unfold decodeTableColumns.
  do 4 (no_panic_step; [apply no_panic_get_column|]; case_match).
  destruct (negb _); [done|]. apply no_panic_decode_columns.
Qed.

(** The exception is real: a one-entry table whose identifier is 2^63 decodes as a literal. *)
Theorem decodeTableColumns_id_2_63 :
  let e := {| e_CodebookID := 2 ^ 63; e_DeltaOffset := 0; e_DeltaSize := 4; e_OriginalSize := 4;
              e_CodebookIndex := 2 |} in
  decodeTableColumns (encodeTableColumns [e]) 1 =
    Ok [{| e_CodebookID := LiteralCodebookID; e_DeltaOffset := 0; e_DeltaSize := 4;
           e_OriginalSize := 4; e_CodebookIndex := 2 |}].
Proof. vm_compute. reflexivity. Qed.

(** ** Blocks *)

Definition block_bytes (b : list ChunkEntry) : Z := foldr (fun e n => e_OriginalSize e + n) 0 b.

(** The chunks of a file, block by block: every block is full, but for the last one. *)
Inductive wf_blocks : list (list ChunkEntry) -> Prop :=
  | wf_blocks_nil : wf_blocks []
  | wf_blocks_last b :
      b <> [] -> Forall (fun e => 0 < e_OriginalSize e) b -> block_bytes b <= BlockSize ->
      wf_blocks [b]
  | wf_blocks_cons b bs :
      b <> [] -> Forall (fun e => 0 < e_OriginalSize e) b -> block_bytes b = BlockSize ->
      wf_blocks bs -> wf_blocks (b :: bs).

(** The chunk number at which each block starts. *)
Fixpoint starts_of (i : Z) (bs : list (list ChunkEntry)) : list Z :=
  match bs with
  | [] => []
  | b :: bs => i :: starts_of (i + zlen b) bs
  end.

Lemma block_bytes_app b c : block_bytes (b ++ c) = block_bytes b + block_bytes c.
Proof. unfold block_bytes. induction b as [|e b IH]; cbn [app foldr]; lia. Qed.

Lemma block_bytes_pos b :
  Forall (fun e => 0 < e_OriginalSize e) b -> 0 <= block_bytes b /\ (b <> [] -> 0 < block_bytes b).
Proof.
  unfold block_bytes. induction 1 as [|e b He Hb [IH _]]; [done|]. cbn [foldr]. split; [|intros _]; lia.
Qed.

(** Within a block, no chunk but the first one starts a block. *)
Lemma block_starts_inner i filled b es :
  0 <= filled -> Forall (fun e => 0 < e_OriginalSize e) b -> filled + block_bytes b <= BlockSize ->
  block_starts_from i filled (b ++ es) =
    (if (filled =? 0) && negb (zlen b =? 0) then [i] else []) ++
    block_starts_from (i + zlen b)
      (if (filled + block_bytes b =? BlockSize) && negb (zlen b =? 0) then 0 else filled + block_bytes b) es.
Proof.
  intros Hf Hb. revert i filled Hf; induction Hb as [|e b He Hb IH]; intros i filled Hf Hs.
  { rewrite andb_false_r, andb_false_r. cbn [app block_bytes foldr]. rewrite zlen_nil. do 2 f_equal; lia. }
  destruct (block_bytes_pos b Hb) as [Hnn Hpos].
  change (block_bytes (e :: b)) with (e_OriginalSize e + block_bytes b) in *.
  pose proof (zlen_nonneg b). rewrite zlen_cons. cbn [app block_starts_from].
  rewrite u64_small by (unfold is_u64, BlockSize in *; lia).
  rewrite (proj2 (Z.eqb_neq (zlen b + 1) 0)) by lia. cbn [negb]. rewrite !andb_true_r.
  assert (Hrest : block_starts_from (i + 1)
     (if filled + e_OriginalSize e >=? BlockSize then 0 else filled + e_OriginalSize e) (b ++ es) =
     block_starts_from (i + (zlen b + 1))
       (if filled + (e_OriginalSize e + block_bytes b) =? BlockSize then 0
        else filled + (e_OriginalSize e + block_bytes b)) es).
  { replace (i + (zlen b + 1)) with (i + 1 + zlen b) by lia.
    destruct (Z.geb_spec (filled + e_OriginalSize e) BlockSize) as [Hge|Hlt].
    - assert (b = []) as -> by (destruct b; [done|]; specialize (Hpos ltac:(done)); lia).
      cbn [app block_bytes foldr] in *. rewrite (proj2 (Z.eqb_eq _ _)) by lia.
      f_equal. unfold zlen; simpl; lia.
    - rewrite IH by lia. rewrite (proj2 (Z.eqb_neq (filled + e_OriginalSize e) 0)) by lia.
      cbn [andb app]. rewrite <-?Z.add_assoc.
      destruct (Z.eqb_spec (filled + (e_OriginalSize e + block_bytes b)) BlockSize); [|done].
      destruct (Z.eqb_spec (zlen b) 0) as [Hz%zlen_0_nil|]; [|done].
      subst b. cbn [block_bytes foldr] in *. lia. }
  rewrite Hrest. destruct (filled =? 0); done.
Qed.

Lemma block_starts_concat bs i :
  wf_blocks bs -> block_starts_from i 0 (concat bs) = starts_of i bs.
Proof.
  intros Hbs. revert i; induction Hbs as [|b Hne Hpos Hsz|b bs Hne Hpos Hsz Hbs IH]; intros i; [done| |].
  - cbn [concat starts_of]. rewrite block_starts_inner by (done || lia).
    rewrite (proj2 (Z.eqb_neq (zlen b) 0)) by (intros ?%zlen_0_nil; done). done.
  - cbn [concat starts_of]. rewrite block_starts_inner by (done || lia).
    rewrite (proj2 (Z.eqb_neq (zlen b) 0)) by (intros ?%zlen_0_nil; done). cbn [negb andb].
    rewrite Z.add_0_l, Hsz, Z.eqb_refl. cbn [andb app Z.eqb]. by rewrite IH.
Qed.

Lemma zlen_starts_of i bs : zlen (starts_of i bs) = zlen bs.
Proof. revert i; induction bs as [|b bs IH]; intros i; [done|]. cbn [starts_of]. by rewrite !zlen_cons, IH. Qed.

Lemma wf_blocks_bytes bs :
  wf_blocks bs -> bs <> [] ->
  BlockSize * (zlen bs - 1) < block_bytes (concat bs) <= BlockSize * zlen bs.
Proof.
  intros Hbs Hne. induction Hbs as [|b Hb Hpos Hsz|b bs Hb Hpos Hsz Hbs IH]; [done| |].
  - cbn [concat]. rewrite app_nil_r. change (zlen [b]) with 1. destruct (block_bytes_pos b Hpos) as [_ Hp].
    specialize (Hp Hb). lia.
  - cbn [concat]. rewrite block_bytes_app, zlen_cons, Hsz. destruct bs as [|c bs].
    + cbn [concat]. change (zlen []) with 0. unfold BlockSize. simpl. lia.
    + specialize (IH ltac:(done)). lia.
Qed.

(** The header of a file cut in such blocks announces as many blocks as there are. *)
Lemma NumBlocks_blocks h bs :
  wf_blocks bs -> bs <> [] -> h_OriginalSize h = block_bytes (concat bs) ->
  h_ChunkCount h <> 0 -> zlen bs < 2 ^ 32 -> NumBlocks h = zlen bs.
Proof.
  intros Hbs Hne Hsz Hc Hlt. pose proof (wf_blocks_bytes bs Hbs Hne) as Hb.
  assert (1 <= zlen bs) by (destruct bs; [done|rewrite zlen_cons; pose proof (zlen_nonneg bs); lia]).
  unfold NumBlocks. unfold BlockSize in *.
  rewrite (proj2 (Z.eqb_neq _ _)), (proj2 (Z.eqb_neq (h_OriginalSize h) 0)), Hsz by lia.
  rewrite u64_small by (unfold is_u64; lia).
  assert ((block_bytes (concat bs) + 16 * 1024 * 1024 - 1) / (16 * 1024 * 1024) = zlen bs) as ->.
  { symmetry. apply Z.div_unique with (block_bytes (concat bs) + 16 * 1024 * 1024 - 1 - 16 * 1024 * 1024 * zlen bs); lia. }
  apply u32_small. unfold is_u32. lia.
Qed.

Lemma index_starts_of bs1 bs2 b i :
  index (starts_of i (bs1 ++ b :: bs2)) (zlen bs1) = Ok (i + zlen (concat bs1)).
Proof.
  revert i; induction bs1 as [|c bs1 IH]; intros i.
  - cbn [app starts_of concat]. rewrite zlen_nil, Z.add_0_r. by apply index_here.
  - cbn [app starts_of concat]. pose proof (zlen_nonneg bs1). rewrite zlen_cons.
    pose proof (index_skip 1 [i] (starts_of (i + zlen c) (bs1 ++ b :: bs2)) (zlen bs1 + 1)) as Hs.
    cbn [app] in Hs. rewrite Hs by (done || lia). replace (zlen bs1 + 1 - 1) with (zlen bs1) by lia.
    rewrite IH, zlen_app. f_equal. lia.
Qed.

Lemma BlockRange_concat bs1 b bs2 :
  let bs := bs1 ++ b :: bs2 in
  wf_blocks bs ->
  BlockRange (BlockStarts (concat bs)) (zlen bs1) (zlen (concat bs)) =
    Ok (zlen (concat bs1), zlen (concat bs1) + zlen b).
Proof.
  intros bs Hbs. unfold BlockStarts. rewrite block_starts_concat by done.
  unfold BlockRange. rewrite zlen_starts_of. unfold bs.
  rewrite index_starts_of, zlen_app, zlen_cons, Z.add_0_l. pose proof (zlen_nonneg bs2).
  destruct bs2 as [|c bs2].
  - rewrite zlen_nil, (proj2 (Z.ltb_ge _ _)) by lia. cbn [mbind res_bind].
    rewrite concat_app. cbn [concat]. by rewrite app_nil_r, zlen_app.
  - rewrite zlen_cons. pose proof (zlen_nonneg bs2). rewrite (proj2 (Z.ltb_lt _ _)) by lia.
    replace (bs1 ++ b :: c :: bs2) with ((bs1 ++ [b]) ++ c :: bs2) by by rewrite <-app_assoc.
    replace (zlen bs1 + 1) with (zlen (bs1 ++ [b])) by by rewrite zlen_app.
    rewrite index_starts_of, concat_app. cbn [concat mbind res_bind].
    by rewrite app_nil_r, zlen_app.
Qed.

(** A file with blocks has chunks. *)
Lemma wf_blocks_nonempty bs : wf_blocks bs -> bs <> [] -> concat bs <> [].
Proof. destruct 1 as [|b Hb|b bs Hb]; [done| |]; by destruct b. Qed.

(** Writer and reader agree on the blocks of a file.  When every 16 MB block but the last
    is full, the readers find from the chunk table alone exactly as many blocks as the header
    announces, and [BlockRange] of each block is the range of chunks the writer put there. *)
Theorem BlockRange_blocks h bs1 b bs2 :
  let bs := bs1 ++ b :: bs2 in
  let starts := BlockStarts (concat bs) in
  wf_blocks bs -> h_OriginalSize h = block_bytes (concat bs) -> h_ChunkCount h = zlen (concat bs) ->
  zlen bs < 2 ^ 32 ->
  NumBlocks h = zlen starts /\
  BlockRange starts (zlen bs1) (zlen (concat bs)) =
    Ok (zlen (concat bs1), zlen (concat bs1) + zlen b).
Proof.
  intros bs starts Hbs Hsz Hc Hlt. split; [|by apply BlockRange_concat].
  assert (Hne : bs <> []) by (unfold bs; by destruct bs1).
  unfold starts, BlockStarts. rewrite block_starts_concat, zlen_starts_of by done.
  apply NumBlocks_blocks; try done. rewrite Hc. intros E%zlen_0_nil. by apply (wf_blocks_nonempty bs).
Qed.

Lemma BlockRange_blocks_witness :
  let e n := {| e_CodebookID := 1; e_DeltaOffset := 0; e_DeltaSize := 0; e_OriginalSize := n; e_CodebookIndex := 0 |} in
  let bs := [[e (BlockSize - 7); e 7]; [e 5; e 6]] in
  let h := {| h_Version := 7; h_IsEncrypted := false; h_IsPassthrough := false;
    h_IsConvergentEncrypted := false; h_IsLossy := false; h_UsesBrainDict := false;
    h_CompressedTable := true; h_TableBytes := 0; h_Salt := []; h_OriginalHash := [];
    h_OriginalSize := BlockSize + 11; h_ChunkCount := 4; h_ChunkSize := 0; h_CodebookHash := [];
    h_CodebookHashes := ([], [], []); h_MerkleRoot := []; h_MicroDictSize := 0;
    h_MicroDictionaryData := []; h_Mutations := [] |} in
  NumBlocks h = 2 /\ BlockRange (BlockStarts (concat bs)) 1 4 = Ok (2, 4).
Proof.
  intros e bs h.
  destruct (BlockRange_blocks h [[e (BlockSize - 7); e 7]] [e 5; e 6] []) as [Hn Hr].
  - constructor; [done|repeat constructor; done|done|].
    constructor; [done|repeat constructor; done|done].
  - reflexivity.
  - reflexivity.
  - reflexivity.
  - split; [exact Hn|exact Hr].
Defined.
