(* ===== verification/FormatIO.v ===== *)
(** [pkg/format/reader.go] and [pkg/format/writer.go]: reading the metadata of a [.crom]
    file from a stream, and the sequential writer. *)

From S2P Require Import Prelude Binary Externals Crypto Format.

(** ** Reader *)

(** [maxColumnBytesPerEntry]: 10+10+5+5 varint bytes and an index. *)
Definition maxColumnBytesPerEntry : Z := 31.

(** The bytes [ReadMetadata] collects for [ParseHeader]: what follows the magic and version. *)
Definition read_header_bytes (metaBuf : bytes) : reader bytes := fun r =>
  version ← get_le 2 metaBuf 4;
  if version =? Version1 then
    '(body, r) ← ReadFull "format: read v1 header" (HeaderSize - 6) r;
    Ok (metaBuf ++ body, r)
  else if supported_version version then
    '(body, r) ← ReadFull "format: read header (base)" (header_min_size version - 6) r;
    let headerBuf := metaBuf ++ body in
    if version >=? Version8 then
      microDictSize ← get_le 4 headerBuf 137;
      if microDictSize >? MaxMicroDictSize then Err "format: v8 microdict size exceeds safety cap"
      else if microDictSize >? 0 then
        '(payloadBuf, r) ← ReadFull "format: read v8 microdict payload" microDictSize r;
        Ok (headerBuf ++ payloadBuf, r)
      else Ok (headerBuf, r)
    else Ok (headerBuf, r)
  else Err "format: unsupported version".

Definition read_header : reader Header := fun r =>
  '(metaBuf, r) ← ReadFull "format: read magic/version" 6 r;
  '(headerBuf, r) ← read_header_bytes metaBuf r;
  header ← wrap_err "format: parse header" (ParseHeader headerBuf);
  Ok (header, r).

(** The key of an encrypted file; an empty passphrase is no passphrase. *)
Definition metadata_key `{Cipher} (encryptionKey : bytes) (header : Header) : res (option bytes) :=
  if h_IsEncrypted header then
    if zlen encryptionKey =? 0 then Err "format: file is encrypted but no key was provided"
    else Ok (Some (DeriveKey encryptionKey (h_Salt header)))
  else Ok None.

Fixpoint parse_u32s (buf : bytes) (i : Z) (n : nat) : res (list Z) :=
  match n with
  | O => Ok []
  | S n => x ← get_le 4 buf (i * 4); rest ← parse_u32s buf (i + 1) n; Ok (x :: rest)
  end.

Definition read_block_table (header : Header) : reader (list Z) := fun r =>
  if h_Version header >=? Version2 then
    let numBlocks := NumBlocks header in
    '(blockBuf, r) ← ReadFull "format: read block table" (numBlocks * 4) r;
    blockTable ← parse_u32s blockBuf 0 (Z.to_nat numBlocks);
    Ok (blockTable, r)
  else Ok ([], r).

Definition decrypt_table `{Cipher} (key : option bytes) (buf : bytes) : res bytes :=
  match key with
  | Some key => wrap_err "format: decrypt chunk table" (Decrypt key buf)
  | None => Ok buf
  end.

(** [readCompressedTable]; the header comes back with [TableBytes] set.  The decoder refuses
    a table of more than [maxSize] bytes. *)
Definition readCompressedTable `{Zstd, Cipher} (header : Header) (key : option bytes)
    : reader (Header * list ChunkEntry) := fun r =>
  '(sizeBuf, r) ← ReadFull "format: read table size" 4 r;
  let size := le_get sizeBuf in
  let maxSize := u64 (h_ChunkCount header * maxColumnBytesPerEntry + 1024) in
  if size >? maxSize + maxSize / 8 then Err "format: compressed table size is implausible" else
  '(blob, r) ← ReadFull "format: read compressed table" size r;
  let header := set_table_bytes (size + 4) header in
  blob ← decrypt_table key blob;
  match zstd_dec [] blob with
  | Some table =>
      if zlen table >? maxSize then Err "format: decompress chunk table" else
      entries ← decodeTableColumns table (h_ChunkCount header);
      Ok ((header, entries), r)
  | None => Err "format: decompress chunk table"
  end.

(** The fixed-width table. *)
Definition read_fixed_table `{Cipher} (header : Header) (key : option bytes)
    : reader (Header * list ChunkEntry) := fun r =>
  let tableSize := h_ChunkCount header * GetEntrySize (h_Version header)
                   + (if h_IsEncrypted header then 28 else 0) in
  if tableSize <? 0 then Err "format: chunk map size overflow" else
  let header := set_table_bytes tableSize header in
  '(tableBuf, r) ← ReadFull "format: read chunk table" tableSize r;
  tableBuf ← decrypt_table key tableBuf;
  entries ← wrap_err "format: parse chunk table"
              (ParseChunkTable tableBuf (h_ChunkCount header) (h_Version header));
  Ok ((header, entries), r).

(** [ReadMetadata], and [ReadStream], which also returns the rest of the stream. *)
Definition ReadMetadata `{Zstd, Cipher} (encryptionKey : bytes)
    : reader (Header * list Z * list ChunkEntry) := fun r =>
  '(header, r) ← read_header r;
  derivedKey ← metadata_key encryptionKey header;
  '(blockTable, r) ← read_block_table header r;
  if h_ChunkCount header =? 0 then Ok ((header, blockTable, []), r) else
  '((header, entries), r) ←
     (if h_CompressedTable header then readCompressedTable header derivedKey r
      else read_fixed_table header derivedKey r);
  Ok ((header, blockTable, entries), r).

(** ** Writer *)

Definition put_u32s (l : list Z) : bytes := concat (map (le_put 4) l).

(** [Writer.Write]: what goes to the stream. *)
Definition Write (header : Header) (blockTable : list Z) (entries : list ChunkEntry)
    (compDeltaPool : bytes) : res bytes :=
  if negb (h_ChunkCount header =? u32 (zlen entries)) then
    Err "format: mismatch between Header.ChunkCount and entries length"
  else
    let '(header, headerBuf) := Serialize header in
    let blocks := if (h_Version header =? Version2) && (zlen blockTable >? 0)
                  then put_u32s blockTable else [] in
    Ok (headerBuf ++ blocks ++ SerializeChunkTable entries (h_Version header) ++ compDeltaPool).

(** ** Reading back *)

Lemma zlen_header_image h :
  wf_header h -> 2 <= h_Version h <= 8 ->
  zlen (header_image h) =
    header_min_size (h_Version h) + (if h_Version h >=? 8 then h_MicroDictSize h else 0).
Proof.
  intros [] Hv. unfold header_image. destruct h as [v enc pt conv lossy dict ct tb salt hash size count cs cbh
    [[h0 h1] h2] root ms micro mut]. set (fb := flag_byte _). clearbody fb. simpl_header.
  assert (Hmg : zlen MagicString = 4) by done.
  destruct (version_cases v Hv) as [->|[->|[->|[->|[->|[->| ->]]]]]]; eval_conds; cbv iota;
    unfold header_min_size, HeaderSizeV4, HeaderSizeV5, HeaderSizeV6, HeaderSizeV8, HeaderSizeV2,
      Version4, Version5, Version6, Version7, Version8, Version9; eval_conds; cbv iota; len_lia.
Qed.

Lemma Serialize_image h : wf_header h -> 2 <= h_Version h <= 8 -> (Serialize h).2 = header_image h.
Proof.
  intros Hwf Hv. unfold Serialize, default_version, Version1, Version2, Version8.
  rewrite (proj2 (Z.eqb_neq _ _)), (proj2 (Z.ltb_ge _ _)), Z.gtb_ltb, (proj2 (Z.ltb_ge _ _)) by lia.
  cbn [orb snd]. apply Serialize_v2_image; [done|lia].
Qed.

Lemma zlen_Serialize h :
  wf_header h -> 2 <= h_Version h <= 8 ->
  zlen (Serialize h).2 = header_min_size (h_Version h) + (if h_Version h >=? 8 then h_MicroDictSize h else 0).
Proof. intros. rewrite Serialize_image by done. by apply zlen_header_image. Qed.

Lemma header_image_version h :
  2 <= h_Version h <= 8 -> get_le 2 (header_image h) 4 = Ok (h_Version h).
Proof.
  intros Hv. unfold header_image. destruct h as [v enc pt conv lossy dict ct tb salt hash size count cs cbh
    [[h0 h1] h2] root ms micro mut]. simpl_header. assert (Hmg : zlen MagicString = 4) by done.
  set (magic := MagicString) in *. clearbody magic. by read_field.
Qed.

Lemma header_image_micro h :
  wf_header h -> h_Version h = 8 -> get_le 4 (header_image h) 137 = Ok (h_MicroDictSize h).
Proof.
  intros [] Hv. unfold header_image. destruct h as [v enc pt conv lossy dict ct tb salt hash size count cs cbh
    [[h0 h1] h2] root ms micro mut]. set (fb := flag_byte _). clearbody fb. simpl_header. subst v.
  assert (Hmg : zlen MagicString = 4) by done. set (magic := MagicString) in *. clearbody magic.
  pose proof (zlen_nonneg micro). unfold MaxMicroDictSize in *. eval_conds. cbv iota.
  rewrite <-!app_assoc. by read_field.
Qed.

Lemma header_min_size_range v : 2 <= v <= 8 -> 68 <= header_min_size v <= 141.
Proof. intros Hv. destruct (version_cases v Hv) as [->|[->|[->|[->|[->|[->| ->]]]]]]; vm_compute; by split. Qed.

(** The stream reader collects exactly the serialized header. *)
Lemma read_header_image h rest :
  wf_header h -> 2 <= h_Version h <= 8 ->
  read_header (header_image h ++ rest) = Ok (stored_header h, rest).
Proof.
  intros Hwf Hv. pose proof (zlen_header_image h Hwf Hv) as Hlen.
  pose proof (header_min_size_range _ Hv) as Hmin.
  pose proof (header_image_version h Hv) as Hver. pose proof (header_image_micro h Hwf) as Hmic.
  pose proof (ParseHeader_image h [] Hwf Hv) as Hparse. rewrite app_nil_r in Hparse.
  pose proof (wf_micro h Hwf) as Hm. pose proof (wf_micro_cap h Hwf) as Hcap.
  pose proof (zlen_nonneg (h_MicroDictionaryData h)).
  set (I := header_image h) in *. set (v := h_Version h) in *.
  assert (Hge : header_min_size v <= zlen I) by (destruct (v >=? 8); lia).
  unfold read_header. rewrite ReadFull_prefix by lia. cbn [mbind res_bind].
  unfold read_header_bytes. rewrite get_le_ztake, Hver by lia. cbn [mbind res_bind].
  unfold Version1, supported_version, Version2, Version9.
  rewrite (proj2 (Z.eqb_neq v 1)), (proj2 (Z.leb_le 2 v)), (proj2 (Z.leb_le v 9)) by lia.
  cbn [andb]. rewrite ReadFull_prefix by (rewrite zlen_zdrop; lia). cbn [mbind res_bind].
  rewrite ztake_app_ztake, zdrop_zdrop by lia.
  replace (6 + (header_min_size v - 6)) with (header_min_size v) by lia. unfold Version8.
  destruct (Z.geb_spec v 8) as [H8|H8].
  - assert (v = 8) as Hv8 by lia. assert (Hsz : header_min_size v = 141) by by rewrite Hv8.
    rewrite Hsz in *. rewrite get_le_ztake by lia. rewrite Hmic by done.
    cbn [mbind res_bind]. rewrite Z.gtb_ltb, (proj2 (Z.ltb_ge _ _)) by lia.
    destruct (Z.gtb_spec (h_MicroDictSize h) 0).
    + rewrite ReadFull_prefix by (rewrite zlen_zdrop; lia). cbn [mbind res_bind].
      rewrite ztake_app_ztake, zdrop_zdrop by lia.
      rewrite ztake_ge, Hparse by lia. cbn [wrap_err mbind res_bind].
      rewrite (zlen_0_nil (zdrop _ I)) by (rewrite zlen_zdrop; lia). done.
    + cbn [mbind res_bind]. rewrite ztake_ge, Hparse by lia. cbn [wrap_err mbind res_bind].
      rewrite (zlen_0_nil (zdrop _ I)) by (rewrite zlen_zdrop; lia). done.
  - cbn [mbind res_bind]. rewrite ztake_ge, Hparse by lia. cbn [wrap_err mbind res_bind].
    rewrite (zlen_0_nil (zdrop _ I)) by (rewrite zlen_zdrop; lia). done.
Qed.

Lemma zlen_put_u32s l : zlen (put_u32s l) = 4 * zlen l.
Proof.
  induction l as [|x l IH]; [done|]. unfold put_u32s in *. cbn [map concat].
  rewrite zlen_app, zlen_cons, IH, zlen_le_put by lia. lia.
Qed.

Lemma parse_put_u32s pre l i :
  Forall is_u32 l -> zlen pre = i * 4 ->
  parse_u32s (pre ++ put_u32s l) i (length l) = Ok l.
Proof.
  revert pre i; induction l as [|x l IH]; intros pre i Hl Hp; [done|].
  inversion Hl as [|? ? Hx Hl']; subst. unfold put_u32s. cbn [parse_u32s length map concat].
  apply is_u32_4 in Hx. pose proof (zlen_nonneg pre).
  read_field. fold (put_u32s l). rewrite app_assoc, IH; [done|done|].
  rewrite zlen_app, zlen_le_put; lia.
Qed.

Lemma read_block_table_put h l rest :
  Forall is_u32 l -> 2 <= h_Version h -> NumBlocks h = zlen l ->
  read_block_table h (put_u32s l ++ rest) = Ok (l, rest).
Proof.
  intros Hl Hv Hn. pose proof (parse_put_u32s [] l 0 Hl eq_refl) as Hp. cbn [app] in Hp. unfold read_block_table, Version2.
  rewrite Z.geb_leb, (proj2 (Z.leb_le _ _)), Hn by lia.
  rewrite ReadFull_app by (rewrite zlen_put_u32s; lia). cbn [mbind res_bind].
  unfold zlen at 1. rewrite Nat2Z.id. by rewrite Hp.
Qed.

Section round_trip.
Context `{!Zstd, !ZstdLaws _, !Cipher, !CipherLaws _}.

(** The table key of a file written with a passphrase. *)
Definition table_key (passphrase : bytes) (h : Header) : option bytes :=
  if h_IsEncrypted h then Some (DeriveKey passphrase (h_Salt h)) else None.

Lemma metadata_key_ok passphrase h :
  (h_IsEncrypted h = true -> passphrase <> []) ->
  metadata_key passphrase h = Ok (table_key passphrase h).
Proof.
  unfold metadata_key, table_key. intros Hp. destruct (h_IsEncrypted h); [|done].
  destruct (Z.eqb_spec (zlen passphrase) 0) as [E%zlen_0_nil|]; [by destruct Hp|done].
Qed.

Lemma readCompressedTable_encode nonce passphrase h es version table rest :
  Forall wf_entry es -> ids_codable 0 es = true -> zlen es <= 2 ^ 27 ->
  h_ChunkCount h = zlen es -> zlen nonce = gcmNonceSize ->
  EncodeCompressedTable nonce es version (table_key passphrase h) = Ok table ->
  readCompressedTable h (table_key passphrase h) (table ++ rest) =
    Ok (set_table_bytes (zlen table) h, es, rest).
Proof.
  intros Hes Hids Hn Hc Hnonce. pose proof (encodeTableColumns_bound es Hes) as Hcols.
  pose proof (encodeTableColumns_bytes es Hes) as Hbytes.
  pose proof (decode_encodeTableColumns es Hes Hids ltac:(lia)) as Hdec.
  pose proof (zstd_bound [] (encodeTableColumns es)) as Hz.
  pose proof (zstd_dec_enc [] _ Hbytes) as Hzd.
  set (cols := encodeTableColumns es) in *. pose proof (zlen_nonneg cols). pose proof (zlen_nonneg es).
  set (frame := zstd_enc [] cols) in *. pose proof (zlen_nonneg frame).
  unfold EncodeCompressedTable. fold cols. fold frame. intros Henc.
  assert (exists blob, table = le_put 4 (zlen blob) ++ blob /\
    decrypt_table (table_key passphrase h) blob = Ok frame /\ zlen blob <= zlen frame + 28) as
    (blob & -> & Hdecr & Hlen).
  { apply bind_ok in Henc as (blob & Hb & [= <-]). exists blob.
    assert (Hbl : zlen blob <= zlen frame + 28 /\ decrypt_table (table_key passphrase h) blob = Ok frame).
    { unfold table_key in *. destruct (h_IsEncrypted h); cbn [decrypt_table] in *.
      - pose proof (zlen_DeriveKey passphrase (h_Salt h)) as Hk.
        rewrite Encrypt_ok in Hb by done. injection Hb as <-.
        rewrite Decrypt_frame by done. rewrite zlen_app, gcm_seal_len, Hnonce.
        split; [unfold gcmNonceSize; lia|done].
      - injection Hb as <-. split; [lia|done]. }
    destruct Hbl as [? ?]. split; [|done]. pose proof (zlen_nonneg blob).
    rewrite (u32_small (zlen blob)) by (unfold is_u32; ulia).
    change (make_bytes (4 + zlen blob)) with ([] ++ make_bytes (4 + zlen blob)).
    repeat fill_field. rewrite make_bytes_0 by len_lia. by rewrite app_nil_r. }
  pose proof (zlen_nonneg blob).
  unfold readCompressedTable. rewrite <-app_assoc, ReadFull_app by (apply zlen_le_put; lia).
  cbn [mbind res_bind]. rewrite le_get_put, (Z.mod_small (zlen blob)) by ulia.
  unfold maxColumnBytesPerEntry. rewrite Hc, u64_small by ulia.
  rewrite Z.gtb_ltb, (proj2 (Z.ltb_ge _ _)) by ulia.
  rewrite ReadFull_app by done. cbn [mbind res_bind]. rewrite Hdecr. cbn [mbind res_bind].
  change (h_ChunkCount (set_table_bytes _ h)) with (h_ChunkCount h).
  rewrite Hzd, Z.gtb_ltb, (proj2 (Z.ltb_ge _ _)), Hc, Hdec by lia. cbn [mbind res_bind].
  do 4 f_equal. rewrite zlen_app, zlen_le_put; lia.
Qed.

(** A file laid out as header, block table, compressed chunk table and delta pool reads
    back as that header, block table and chunk table, and leaves the stream at the first byte
    of the pool, with or without encryption. *)
Lemma ReadMetadata_compressed nonce passphrase h blocks es table pool :
  wf_header h -> 3 <= h_Version h <= 8 -> h_CompressedTable h = true ->
  (h_IsEncrypted h = true -> passphrase <> []) -> zlen nonce = gcmNonceSize ->
  NumBlocks h = zlen blocks -> Forall is_u32 blocks ->
  h_ChunkCount h = zlen es -> 0 < zlen es <= 2 ^ 27 -> Forall wf_entry es ->
  ids_codable 0 es = true ->
  EncodeCompressedTable nonce es (h_Version h) (table_key passphrase h) = Ok table ->
  ReadMetadata passphrase ((Serialize h).2 ++ put_u32s blocks ++ table ++ pool) =
    Ok (set_table_bytes (zlen table) (stored_header h), blocks, es, pool).
Proof.
  intros Hwf Hv Hct Hp Hnonce Hnb Hbl Hc Hn Hes Hids Henc.
  rewrite Serialize_image by (done || lia).
  unfold ReadMetadata. rewrite read_header_image by (done || lia). cbn [mbind res_bind].
  set (h' := stored_header h).
  assert (Hs : h_IsEncrypted h' = h_IsEncrypted h /\ h_CompressedTable h' = true /\
    h_ChunkCount h' = zlen es /\ NumBlocks h' = zlen blocks /\ h_Version h' = h_Version h /\
    table_key passphrase h' = table_key passphrase h).
  { unfold h', stored_header, table_key, NumBlocks in *. destruct (h_CodebookHashes h) as [[? ?] ?]. simpl_header.
    rewrite !Z.geb_leb, (proj2 (Z.leb_le 2 _)), (proj2 (Z.leb_le 3 _)), Hct by lia. tauto. }
  destruct Hs as (He & Hct' & Hc' & Hnb' & Hv' & Hk).
  rewrite metadata_key_ok by (by rewrite He). cbn [mbind res_bind].
  rewrite read_block_table_put by (done || lia). cbn [mbind res_bind].
  rewrite (proj2 (Z.eqb_neq _ _)) by lia. rewrite Hct'.
  rewrite (readCompressedTable_encode nonce passphrase h' es (h_Version h) table pool)
    by (done || lia || by rewrite ?Hk). done.
Qed.

Lemma EncodeCompressedTable_ok nonce es version passphrase h :
  exists table, EncodeCompressedTable nonce es version (table_key passphrase h) = Ok table.
Proof.
  unfold EncodeCompressedTable, table_key. destruct (h_IsEncrypted h); [|by eexists].
  rewrite Encrypt_ok by apply zlen_DeriveKey. by eexists.
Qed.

Lemma EncodeCompressedTable_pos nonce es version key table :
  EncodeCompressedTable nonce es version key = Ok table -> 0 < zlen table.
Proof.
  unfold EncodeCompressedTable. intros (z & _ & [= <-])%bind_ok. pose proof (zlen_nonneg z).
  change (make_bytes (4 + zlen z)) with ([] ++ make_bytes (4 + zlen z)).
  repeat fill_field. rewrite !zlen_app, zlen_le_put by lia. change (zlen (@nil Z)) with 0.
  match goal with |- context [zlen (make_bytes ?n)] => pose proof (zlen_nonneg (make_bytes n)) end. lia.
Qed.

(** A header without chunks has no tables: the payload follows it. *)
Lemma ReadMetadata_payload passphrase h payload :
  wf_header h -> 3 <= h_Version h <= 8 -> (h_IsEncrypted h = true -> passphrase <> []) ->
  h_ChunkCount h = 0 ->
  ReadMetadata passphrase ((Serialize h).2 ++ payload) = Ok (stored_header h, [], [], payload).
Proof.
  intros Hwf Hv Hp Hc. rewrite Serialize_image by (done || lia).
  unfold ReadMetadata. rewrite read_header_image by (done || lia). cbn [mbind res_bind].
  assert (Hs : h_IsEncrypted (stored_header h) = h_IsEncrypted h /\ h_ChunkCount (stored_header h) = 0 /\
    2 <= h_Version (stored_header h)).
  { unfold stored_header. destruct (h_CodebookHashes h) as [[? ?] ?]. simpl_header.
    rewrite Z.geb_leb, (proj2 (Z.leb_le 2 _)) by lia. split; [done|lia]. }
  destruct Hs as (He & Hc' & Hv'). rewrite metadata_key_ok by (by rewrite He). cbn [mbind res_bind].
  pose proof (read_block_table_put (stored_header h) [] payload ltac:(constructor) Hv') as Hb.
  unfold NumBlocks in Hb. rewrite Hc' in Hb. change (put_u32s [] ++ payload) with payload in Hb.
  rewrite Hb by done. cbn [mbind res_bind]. by rewrite Hc'.
Qed.

End round_trip.

(** A two-block encrypted file with an embedded brain. *)
Definition stream_header : Header := {|
  h_Version := Version8; h_IsEncrypted := true; h_IsPassthrough := false;
  h_IsConvergentEncrypted := false; h_IsLossy := false; h_UsesBrainDict := true;
  h_CompressedTable := true; h_TableBytes := 0; h_Salt := make_bytes 16;
  h_OriginalHash := make_bytes 32; h_OriginalSize := BlockSize + 10; h_ChunkCount := 3;
  h_ChunkSize := 4096; h_CodebookHash := make_bytes 8;
  h_CodebookHashes := (make_bytes 8, make_bytes 8, make_bytes 8);
  h_MerkleRoot := make_bytes 32; h_MicroDictSize := 3; h_MicroDictionaryData := [7; 8; 9];
  h_Mutations := [] |}.

Lemma wf_stream_header : wf_header stream_header.
Proof. constructor; vm_compute; try done; split; done. Qed.

Lemma ReadMetadata_compressed_witness :
  exists table,
    EncodeCompressedTable (make_bytes 12) sample_entries 8 (table_key (str "pw") stream_header) = Ok table /\
    ReadMetadata (str "pw") ((Serialize stream_header).2 ++ put_u32s [40; 50] ++ table ++ [1; 2; 3]) =
      Ok (set_table_bytes (zlen table) (stored_header stream_header), [40; 50], sample_entries, [1; 2; 3]).
Proof.
  eexists. split; [vm_compute; reflexivity|].
  apply (ReadMetadata_compressed (make_bytes 12) (str "pw") stream_header [40; 50] sample_entries).
  - exact wf_stream_header.
  - by split.
  - done.
  - done.
  - done.
  - vm_compute. reflexivity.
  - repeat constructor; vm_compute; done.
  - done.
  - by split.
  - exact wf_sample_entries.
  - vm_compute. reflexivity.
  - vm_compute. reflexivity.
Defined.

(** ** Hostile files *)

Lemma no_panic_parse_u32s buf i n :
  0 <= i -> (i + Z.of_nat n) * 4 <= zlen buf -> no_panic (parse_u32s buf i n).
Proof.
  revert i; induction n as [|n IH]; intros i Hi Hl; [done|]. cbn [parse_u32s].
  no_panic_step; [apply no_panic_get_le; lia|]. no_panic_step; [apply IH; lia|done].
Qed.

Lemma zlen_ReadFull msg n r a r' : ReadFull msg n r = Ok (a, r') -> n <= zlen a.
Proof.
  unfold ReadFull. destruct (Z.ltb_spec (zlen r) n); intros [= <- <-]. rewrite zlen_ztake. lia.
Qed.

Lemma NumBlocks_nonneg h : 0 <= NumBlocks h.
Proof. unfold NumBlocks. repeat destruct (_ =? _); try lia. apply u32_range. Qed.

Lemma no_panic_read_header r : no_panic (read_header r).
Proof.
  unfold read_header. no_panic_step; [no_panic_step|]. destruct a as [metaBuf r1].
  apply zlen_ReadFull in H. no_panic_step.
  - unfold read_header_bytes. no_panic_step; [apply no_panic_get_le; lia|].
    destruct (_ =? _); [no_panic_step; [no_panic_step|by destruct a0]|].
    destruct (supported_version a) eqn:Hs; [|done]. no_panic_step; [no_panic_step|].
    destruct a0 as [body r2]. apply zlen_ReadFull in H1.
    destruct (Z.geb_spec a Version8) as [H8|]; [|done]. unfold Version8 in H8.
    assert (header_min_size a = 141) as Hm.
    { unfold supported_version, Version2, Version9 in Hs. apply andb_true_iff in Hs as [_ ?%Z.leb_le].
      assert (a = 8 \/ a = 9) as [-> | ->] by lia; done. }
    no_panic_step; [apply no_panic_get_le; [lia|lia|rewrite zlen_app; lia]|].
    destruct (_ >? _); [done|]. destruct (_ >? 0); [|done].
    no_panic_step; [no_panic_step|by destruct a1].
  - destruct a as [hb r2]. no_panic_step; [|done]. no_panic_step. apply no_panic_ParseHeader.
Qed.

Lemma no_panic_read_block_table h r : no_panic (read_block_table h r).
Proof.
  unfold read_block_table. destruct (_ >=? _); [|done]. no_panic_step; [no_panic_step|].
  destruct a as [buf r']. apply zlen_ReadFull in H. pose proof (NumBlocks_nonneg h).
  no_panic_step; [apply no_panic_parse_u32s; lia|done].
Qed.

Section safety.
Context `{!Zstd, !Cipher}.

Lemma no_panic_decrypt_table key buf : no_panic (decrypt_table key buf).
Proof. destruct key; [|done]. cbn. apply no_panic_wrap, no_panic_Decrypt. Qed.

End safety.
