(* ===== verification/Delta.v ===== *)
(** [internal/delta]: residuals between a chunk and a pattern, as a byte-wise XOR or as an
    edit script, and the compressed pool of residuals of a block. *)

From S2P Require Import Prelude Externals.

(** ** XOR residuals ([xor.go]) *)

(** The loop over [original]; past the pattern its bytes are kept. *)
Fixpoint XOR (original pattern : bytes) : bytes :=
  match original, pattern with
  | o :: original, p :: pattern => Z.lxor o p :: XOR original pattern
  | _, _ => original
  end.

Fixpoint apply_loop (pattern delta : bytes) : bytes :=
  match delta, pattern with
  | d :: delta, p :: pattern => Z.lxor p d :: apply_loop pattern delta
  | _, _ => delta
  end.

(** An empty delta stands for the pattern itself. *)
Definition Apply (pattern delta : bytes) : bytes :=
  if zlen delta =? 0 then pattern else apply_loop pattern delta.

(** ** Edit scripts ([patch.go]) *)

Definition OpEqual : Z := 0.
Definition OpInsert : Z := 1.
Definition OpDelete : Z := 2.

(** Row [i] of the table, from column [j] on: [left] is [dp[i][j-1]] and [prev] the row above
    from column [j-1] on. *)
Fixpoint dp_row (o : Z) (pattern : bytes) (left : Z) (prev : list Z) : list Z :=
  match pattern, prev with
  | p :: pattern, diag :: ((up :: _) as prev) =>
      let m :=
        if o =? p then diag
        else
          let m := up + 1 in
          let m := if left + 1 <? m then left + 1 else m in
          if diag + 1 <? m then diag + 2 else m in
      m :: dp_row o pattern m prev
  | _, _ => []
  end.

Fixpoint dp_rows (i : Z) (prev : list Z) (original pattern : bytes) : list (list Z) :=
  match original with
  | [] => []
  | o :: original =>
      let row := i :: dp_row o pattern i prev in
      row :: dp_rows (i + 1) row original pattern
  end.

Definition dp_table (original pattern : bytes) : list (list Z) :=
  let row0 := seqZ 0 (zlen pattern + 1) in
  row0 :: dp_rows 1 row0 original pattern.

Definition dp_at (dp : list (list Z)) (i j : nat) : Z := default 0 (dp !! i ≫= fun row => row !! j).

Definition at_eq (original pattern : bytes) (i j : nat) : bool :=
  bool_decide (original !! i = pattern !! j).

(** The backtracking loop from cell [(i, j)]: operations and inserted bytes, last first. *)
Fixpoint backtrack (fuel : nat) (dp : list (list Z)) (original pattern : bytes) (i j : nat)
    : list Z * bytes :=
  match fuel with
  | O => ([], [])
  | S fuel =>
      match i, j with
      | O, O => ([], [])
      | S i', S j' =>
          let o := default 0 (original !! i') in
          if at_eq original pattern i' j' then
            let '(ops, data) := backtrack fuel dp original pattern i' j' in
            (OpEqual :: ops, data)
          else if dp_at dp i j =? dp_at dp i' j' + 2 then
            let '(ops, data) := backtrack fuel dp original pattern i' j' in
            (OpDelete :: OpInsert :: ops, o :: data)
          else if dp_at dp i j =? dp_at dp i' j + 1 then
            let '(ops, data) := backtrack fuel dp original pattern i' j in
            (OpInsert :: ops, o :: data)
          else
            let '(ops, data) := backtrack fuel dp original pattern i j' in
            (OpDelete :: ops, data)
      | S i', O =>
          let o := default 0 (original !! i') in
          let '(ops, data) := backtrack fuel dp original pattern i' j in
          (OpInsert :: ops, o :: data)
      | O, S j' =>
          let '(ops, data) := backtrack fuel dp original pattern i j' in
          (OpDelete :: ops, data)
      end
  end.

(** The number of further operations equal to [op], up to 255 in a run. *)
Fixpoint run_length (op : Z) (ops : list Z) (count : nat) : nat :=
  match ops with
  | op' :: ops => if (op' =? op) && (count <? 255)%nat then S (run_length op ops (S count)) else O
  | [] => O
  end.

(** Run-length encoding of the operations, each insertion followed by its bytes. *)
Fixpoint encode_script (fuel : nat) (ops : list Z) (data : bytes) : bytes :=
  match fuel, ops with
  | S fuel, op :: ops =>
      let more := run_length op ops 1 in
      let count := S more in
      [op; Z.of_nat count] ++
      (if op =? OpInsert
       then take count data ++ encode_script fuel (drop more ops) (drop count data)
       else encode_script fuel (drop more ops) data)
  | _, _ => []
  end.

Definition Diff (original pattern : bytes) : bytes :=
  let dp := dp_table original pattern in
  let '(ops, data) := backtrack (length original + length pattern) dp original pattern
                        (length original) (length pattern) in
  let ops := reverse ops in
  let data := reverse data in
  encode_script (length ops) ops data.

(** [ApplyPatch]: [script] is what is left of the script from [scrIdx] on. *)
Fixpoint apply_script (fuel : nat) (pattern : bytes) (patIdx : Z) (script : bytes) : res bytes :=
  match fuel with
  | O => Err "delta: out of fuel"
  | S fuel =>
      match script with
      | [] => Ok []
      | op :: _ =>
          count ← index script 1;
          script ← slice script 2 (zlen script);
          if op =? OpEqual then
            let end_ := patIdx + count in
            if end_ >? zlen pattern then Err "bytes.Buffer: too large" else
            piece ← slice pattern patIdx end_;
            rest ← apply_script fuel pattern end_ script;
            Ok (piece ++ rest)
          else if op =? OpInsert then
            piece ← slice script 0 count;
            script ← slice script count (zlen script);
            rest ← apply_script fuel pattern patIdx script;
            Ok (piece ++ rest)
          else if op =? OpDelete then apply_script fuel pattern (patIdx + count) script
          else apply_script fuel pattern patIdx script
      end
  end.

(** Every step consumes at least the two bytes of an operation. *)
Definition ApplyPatch (pattern script : bytes) : res bytes :=
  apply_script (S (length script)) pattern 0 script.

(** ** Compressed pools ([compress.go]) *)

Section pools.
Context `{!Zstd}.

Definition CompressPool (pool : bytes) : bytes := zstd_enc [] pool.

Definition DecompressPool (compressed : bytes) : res bytes :=
  match zstd_dec [] compressed with
  | Some out => Ok out
  | None => Err "delta: decompress pool"
  end.

Definition CompressPoolDict (pool dict : bytes) : bytes :=
  if zlen pool =? 0 then [] else zstd_enc dict pool.

Definition DecompressPoolDict (compressed dict : bytes) : res bytes :=
  if zlen compressed =? 0 then Ok []
  else match zstd_dec dict compressed with
       | Some out => Ok out
       | None => Err "delta: decompress pool"
       end.

(** The two builds of the maximal level: with the C encoder, and without it. *)
Definition CompressPoolMax (pool dict : bytes) : bytes :=
  if zlen pool =? 0 then [] else zstd_enc_max dict pool.

Definition CompressPoolMax_nocgo (pool dict : bytes) : res bytes :=
  Err "delta: --max-compression exige um binário compilado com CGO".

Definition CompressPoolMax_built (cgo : bool) (pool dict : bytes) : res bytes :=
  if cgo then Ok (CompressPoolMax pool dict) else CompressPoolMax_nocgo pool dict.

Definition DecompressPoolLimit (compressed : bytes) (maxSize : Z) : res bytes :=
  match zstd_dec [] compressed with
  | Some out => if zlen out >? maxSize then Err "delta: decompressed data exceeds limit" else Ok out
  | None => Err "delta: decompress"
  end.

(** The encoder is kept between calls, under the address of the first byte of its dictionary. *)
Definition encoder_cache : Type := option (option Z * bytes).

Definition CompressPoolDict_cached (cache : encoder_cache) (pool : bytes) (addr : Z) (dict : bytes)
    : bytes * encoder_cache :=
  if zlen pool =? 0 then ([], cache)
  else
    let key := if zlen dict >? 0 then Some addr else None in
    match cache with
    | Some (key', dict') =>
        if bool_decide (key' = key) then (zstd_enc dict' pool, cache)
        else (zstd_enc dict pool, Some (key, dict))
    | None => (zstd_enc dict pool, Some (key, dict))
    end.

End pools.
(** ** XOR residuals round trip *)

Lemma apply_XOR_loop original pattern : apply_loop pattern (XOR original pattern) = original.
Proof.
  revert pattern; induction original as [|o original IH]; intros [|p pattern]; try done.
  cbn [XOR apply_loop]. rewrite IH. f_equal.
  rewrite (Z.lxor_comm o p), <-Z.lxor_assoc, Z.lxor_nilpotent. apply Z.lxor_0_l.
Qed.

Lemma zlen_XOR original pattern : zlen (XOR original pattern) = zlen original.
Proof.
  revert pattern; induction original as [|o original IH]; intros [|p pattern]; try done.
  cbn [XOR]. by rewrite !zlen_cons, IH.
Qed.

(** A chunk is its XOR residual applied to the pattern it was compared with, whatever
    the two lengths; the residual is as long as the chunk. *)
Theorem Apply_XOR original pattern :
  original <> [] ->
  Apply pattern (XOR original pattern) = original /\ zlen (XOR original pattern) = zlen original.
Proof.
  intros Hne. split; [|apply zlen_XOR]. unfold Apply. rewrite zlen_XOR.
  destruct (Z.eqb_spec (zlen original) 0) as [E%zlen_0_nil|]; [done|]. apply apply_XOR_loop.
Qed.

Lemma Apply_XOR_witness :
  Apply [1; 2] (XOR [7; 2; 9] [1; 2]) = [7; 2; 9] /\ zlen (XOR [7; 2; 9] [1; 2]) = 3.
Proof. apply (Apply_XOR [7; 2; 9] [1; 2]). done. Defined.

Lemma bytes_ok_XOR a b : bytes_ok a -> bytes_ok b -> bytes_ok (XOR a b).
Proof.
  intros Ha. revert b; induction Ha as [|x a Hx Ha IH]; intros b Hb; [done|].
  destruct Hb as [|y b Hy Hb]; [by constructor|]. cbn [XOR]. constructor; [|by apply IH].
  unfold is_byte, is_u8 in *. split; [apply Z.lxor_nonneg; lia|].
  destruct (decide (Z.lxor x y = 0)) as [->|]; [done|].
  apply Z.log2_lt_pow2; [pose proof (Z.lxor_nonneg x y); lia|].
  assert (Hl : forall z, 0 <= z < 2 ^ 8 -> Z.log2 z < 8).
  { intros z Hz. destruct (decide (z = 0)) as [->|]; [done|]. apply Z.log2_lt_pow2; lia. }
  pose proof (Z.log2_lxor x y). pose proof (Hl x Hx). pose proof (Hl y Hy). lia.
Qed.

(** ** Edit scripts: what the operations mean *)

(** [script_of ops data pattern original]: the operations consume all of [pattern] and of the
    inserted bytes [data], and produce [original]. *)
Inductive script_of : list Z -> bytes -> bytes -> bytes -> Prop :=
  | so_nil : script_of [] [] [] []
  | so_equal ops data pat orig x :
      script_of ops data pat orig -> script_of (OpEqual :: ops) data (x :: pat) (x :: orig)
  | so_insert ops data pat orig x :
      script_of ops data pat orig -> script_of (OpInsert :: ops) (x :: data) pat (x :: orig)
  | so_delete ops data pat orig x :
      script_of ops data pat orig -> script_of (OpDelete :: ops) data (x :: pat) orig.
#[local] Hint Constructors script_of : core.

Lemma script_of_app ops1 data1 pat1 orig1 ops2 data2 pat2 orig2 :
  script_of ops1 data1 pat1 orig1 -> script_of ops2 data2 pat2 orig2 ->
  script_of (ops1 ++ ops2) (data1 ++ data2) (pat1 ++ pat2) (orig1 ++ orig2).
Proof. induction 1; intros; cbn [app]; auto. Qed.

(** Edits of a script: its insertions and deletions. *)
Definition is_edit (op : Z) : Z := if op =? OpEqual then 0 else 1.
Definition edits (ops : list Z) : Z := foldr (fun op n => is_edit op + n) 0 ops.

Lemma edits_app a b : edits (a ++ b) = edits a + edits b.
Proof. unfold edits. induction a as [|x a IH]; cbn [app foldr]; lia. Qed.
Lemma edits_reverse a : edits (reverse a) = edits a.
Proof.
  induction a as [|x a IH]; [done|]. rewrite reverse_cons, edits_app, IH.
  change (edits (x :: a)) with (is_edit x + edits a). change (edits [x]) with (is_edit x + 0). lia.
Qed.

(** ** Edit distance: the reference definition

    The least number of insertions and deletions between two strings, from their last bytes. *)

Fixpoint indel (a : bytes) : bytes -> Z :=
  fix indel_a (b : bytes) : Z :=
    match a, b with
    | [], _ => zlen b
    | _, [] => zlen a
    | x :: a', y :: b' =>
        if x =? y then indel a' b' else 1 + Z.min (indel a' b) (indel_a b')
    end.

Lemma indel_nil_r a : indel a [] = zlen a.
Proof. by destruct a. Qed.
Lemma indel_nil_l b : indel [] b = zlen b.
Proof. by destruct b. Qed.
Lemma indel_cons x a y b :
  indel (x :: a) (y :: b) = if x =? y then indel a b else 1 + Z.min (indel a (y :: b)) (indel (x :: a) b).
Proof. done. Qed.

Lemma indel_nonneg a b : 0 <= indel a b.
Proof.
  revert b; induction a as [|x a IHa]; intros b; [rewrite indel_nil_l; apply zlen_nonneg|].
  induction b as [|y b IHb]; [rewrite indel_nil_r; apply zlen_nonneg|].
  rewrite indel_cons. destruct (x =? y); [done|]. specialize (IHa (y :: b)). lia.
Qed.

Lemma indel_lipschitz a b :
  (forall x, indel (x :: a) b <= 1 + indel a b /\ indel a b <= 1 + indel (x :: a) b) /\
  (forall y, indel a (y :: b) <= 1 + indel a b /\ indel a b <= 1 + indel a (y :: b)).
Proof.
  remember (length a + length b)%nat as n eqn:Hn. revert a b Hn.
  induction n as [n IH] using lt_wf_ind; intros a b ->.
  assert (Hz : forall (x : Z) l, zlen (x :: l) = zlen l + 1) by (intros; apply zlen_cons).
  split.
  - intros x. destruct b as [|y b]; [rewrite !indel_nil_r, Hz; lia|]. rewrite indel_cons.
    destruct (IH (length a + length b)%nat ltac:(simpl; lia) a b eq_refl) as [H1 H2].
    specialize (H1 x). specialize (H2 y).
    destruct (x =? y); lia.
  - intros y. destruct a as [|x a]; [rewrite !indel_nil_l, Hz; lia|]. rewrite indel_cons.
    destruct (IH (length a + length b)%nat ltac:(simpl; lia) a b eq_refl) as [H1 H2].
    specialize (H1 x). specialize (H2 y).
    destruct (x =? y); lia.
Qed.

(** It is a lower bound on every script. *)
Lemma indel_min ops data pat orig :
  script_of ops data pat orig -> indel orig pat <= edits ops.
Proof.
  induction 1 as [|? ? pat orig x _ IH|? ? pat orig x _ IH|? ? pat orig x _ IH];
    unfold edits in *; cbn [foldr]; [done| | |].
  - rewrite indel_cons, Z.eqb_refl. change (is_edit OpEqual) with 0. lia.
  - destruct (indel_lipschitz orig pat) as [H _]. specialize (H x).
    change (is_edit OpInsert) with 1. lia.
  - destruct (indel_lipschitz orig pat) as [_ H]. specialize (H x).
    change (is_edit OpDelete) with 1. lia.
Qed.

Lemma script_of_reverse ops data pat orig :
  script_of ops data pat orig -> script_of (reverse ops) (reverse data) (reverse pat) (reverse orig).
Proof.
  induction 1; [constructor|..]; rewrite !reverse_cons.
  - rewrite <-(app_nil_r (reverse data)). apply script_of_app; auto.
  - rewrite <-(app_nil_r (reverse pat)). apply script_of_app; auto.
  - rewrite <-(app_nil_r (reverse data)), <-(app_nil_r (reverse orig)). apply script_of_app; auto.
Qed.

(** ** The table *)

(** Row of the string [ro] from a column on; [rd] is what is left of the column, reversed. *)
Fixpoint row_from (ro rd todo : bytes) : list Z :=
  indel ro rd :: match todo with [] => [] | p :: todo => row_from ro (p :: rd) todo end.

Lemma row_from_cons ro rd todo :
  row_from ro rd todo = indel ro rd :: match todo with [] => [] | p :: todo => row_from ro (p :: rd) todo end.
Proof. by destruct todo. Qed.

Lemma dp_row_from o ro rd todo :
  indel (o :: ro) rd :: dp_row o todo (indel (o :: ro) rd) (row_from ro rd todo) = row_from (o :: ro) rd todo.
Proof.
  revert rd; induction todo as [|p todo IH]; intros rd; [done|].
  rewrite (row_from_cons (o :: ro)). f_equal. rewrite <-IH. cbn [row_from].
  rewrite (row_from_cons ro (p :: rd) todo). cbn [dp_row]. cbv zeta.
  match goal with |- ?m :: _ = _ => assert (m = indel (o :: ro) (p :: rd)) as -> end.
  - rewrite indel_cons. destruct (indel_lipschitz ro rd) as [H1 H2]. specialize (H1 o). specialize (H2 p).
    destruct (o =? p); [done|].
    destruct (Z.ltb_spec (indel (o :: ro) rd + 1) (indel ro (p :: rd) + 1)); case_cmp; lia.
  - by rewrite <-(row_from_cons ro (p :: rd) todo).
Qed.

Lemma row_from_lookup ro rd todo j :
  (j <= length todo)%nat -> row_from ro rd todo !! j = Some (indel ro (reverse (take j todo) ++ rd)).
Proof.
  revert rd j; induction todo as [|p todo IH]; intros rd j Hj.
  { simpl in Hj. by assert (j = 0)%nat as -> by lia. }
  rewrite row_from_cons. destruct j as [|j]; [done|]. cbn [lookup list_lookup]. simpl in Hj.
  change (row_from ro (p :: rd) todo !! j = Some (indel ro (reverse (p :: take j todo) ++ rd))).
  rewrite IH by lia. by rewrite reverse_cons, <-app_assoc.
Qed.

Lemma dp_rows_lookup i ro original pattern k :
  i = zlen ro + 1 -> (k < length original)%nat ->
  dp_rows i (row_from ro [] pattern) original pattern !! k =
    Some (row_from (reverse (take (S k) original) ++ ro) [] pattern).
Proof.
  revert i ro k; induction original as [|o original IH]; intros i ro k Hi Hk; [simpl in Hk; lia|].
  cbn [dp_rows].
  assert (i :: dp_row o pattern i (row_from ro [] pattern) = row_from (o :: ro) [] pattern) as ->.
  { rewrite <-dp_row_from, indel_nil_r, zlen_cons. by subst i. }
  destruct k as [|k]; [done|]. simpl in Hk.
  change (dp_rows (i + 1) (row_from (o :: ro) [] pattern) original pattern !! k =
    Some (row_from (reverse (o :: take (S k) original) ++ ro) [] pattern)).
  rewrite IH by (rewrite ?zlen_cons; lia). by rewrite reverse_cons, <-app_assoc.
Qed.

Lemma row0_from rd pattern : seqZ (zlen rd) (zlen pattern + 1) = row_from [] rd pattern.
Proof.
  revert rd; induction pattern as [|p pattern IH]; intros rd.
  - rewrite zlen_nil, seqZ_cons by lia. cbn [row_from]. rewrite indel_nil_l. done.
  - rewrite row_from_cons, indel_nil_l, <-IH, !zlen_cons. pose proof (zlen_nonneg pattern).
    rewrite seqZ_cons by lia. f_equal. f_equal; lia.
Qed.

(** Cell [(i, j)] is the edit distance of the two prefixes. *)
Lemma dp_at_indel original pattern i j :
  (i <= length original)%nat -> (j <= length pattern)%nat ->
  dp_at (dp_table original pattern) i j = indel (reverse (take i original)) (reverse (take j pattern)).
Proof.
  intros Hi Hj. unfold dp_at, dp_table. rewrite (row0_from [] pattern : seqZ 0 _ = _).
  destruct i as [|i].
  - cbn. rewrite row_from_lookup by done. cbn. by rewrite app_nil_r.
  - change (default 0 ((dp_rows 1 (row_from [] [] pattern) original pattern !! i) ≫= fun row => row !! j) =
      indel (reverse (take (S i) original)) (reverse (take j pattern))).
    rewrite dp_rows_lookup by (done || lia). cbn [mbind option_bind].
    rewrite row_from_lookup by done. cbn [default]. by rewrite !app_nil_r.
Qed.

(** ** Backtracking *)

Lemma take_snoc (l : bytes) i x : l !! i = Some x -> take (S i) l = take i l ++ [x].
Proof. apply take_S_r. Qed.

Lemma backtrack_script original pattern fuel i j :
  (i <= length original)%nat -> (j <= length pattern)%nat -> (i + j <= fuel)%nat ->
  let dp := dp_table original pattern in
  let '(ops, data) := backtrack fuel dp original pattern i j in
  script_of ops data (reverse (take j pattern)) (reverse (take i original)) /\
  edits ops = indel (reverse (take i original)) (reverse (take j pattern)).
Proof.
  revert i j; induction fuel as [|fuel IH]; intros i j Hi Hj Hf; cbv zeta.
  { assert (i = 0 /\ j = 0)%nat as [-> ->] by lia. cbn [backtrack take]. by split; [constructor|]. }
  assert (Ho : forall i', i = S i' -> exists o, original !! i' = Some o /\
    reverse (take i original) = o :: reverse (take i' original)).
  { intros i' ->. destruct (lookup_lt_is_Some_2 original i' ltac:(lia)) as [o Eo].
    exists o. split; [done|]. by rewrite (take_snoc _ _ _ Eo), reverse_snoc. }
  assert (Hp : forall j', j = S j' -> exists p, pattern !! j' = Some p /\
    reverse (take j pattern) = p :: reverse (take j' pattern)).
  { intros j' ->. destruct (lookup_lt_is_Some_2 pattern j' ltac:(lia)) as [p Ep].
    exists p. split; [done|]. by rewrite (take_snoc _ _ _ Ep), reverse_snoc. }
  cbn [backtrack]. destruct i as [|i'], j as [|j'].
  - cbn [take]. by split; [constructor|].
  - destruct (Hp j' eq_refl) as (p & Ep & ->). specialize (IH 0%nat j' ltac:(lia) ltac:(lia) ltac:(lia)).
    cbv zeta in IH. destruct (backtrack _ _ _ _ _ _) as [ops data]. destruct IH as [IH1 IH2].
    split; [by constructor|]. change (edits (OpDelete :: ops)) with (1 + edits ops). rewrite IH2.
    cbn [take]. rewrite !indel_nil_l, zlen_cons. lia.
  - destruct (Ho i' eq_refl) as (o & Eo & ->). specialize (IH i' 0%nat ltac:(lia) ltac:(lia) ltac:(lia)).
    cbv zeta in IH. destruct (backtrack _ _ _ _ _ _) as [ops data]. destruct IH as [IH1 IH2].
    rewrite Eo. cbn [default]. split; [by constructor|].
    change (edits (OpInsert :: ops)) with (1 + edits ops). rewrite IH2.
    cbn [take]. rewrite !indel_nil_r, zlen_cons. lia.
  - destruct (Ho i' eq_refl) as (o & Eo & Hro), (Hp j' eq_refl) as (p & Ep & Hrp).
    rewrite !dp_at_indel by lia. rewrite Hro, Hrp, Eo. cbn [default]. rewrite indel_cons.
    unfold at_eq. rewrite Eo, Ep.
    pose proof (IH i' j' ltac:(lia) ltac:(lia) ltac:(lia)) as IHd.
    pose proof (IH i' (S j') ltac:(lia) ltac:(lia) ltac:(lia)) as IHu.
    pose proof (IH (S i') j' ltac:(lia) ltac:(lia) ltac:(lia)) as IHl.
    cbv zeta in IHd, IHu, IHl. rewrite Hro in IHl. rewrite Hrp in IHu.
    set (ro := reverse (take i' original)) in *. set (rp := reverse (take j' pattern)) in *.
    destruct (Z.eqb_spec o p) as [->|Hne].
    { rewrite bool_decide_eq_true_2 by done. destruct (backtrack _ _ _ _ i' j') as [ops data].
      destruct IHd. split; [by constructor|]. change (edits (OpEqual :: ops)) with (0 + edits ops). lia. }
    rewrite bool_decide_eq_false_2 by congruence.
    destruct (Z.eqb_spec (1 + Z.min (indel ro (p :: rp)) (indel (o :: ro) rp)) (indel ro rp + 2)).
    { destruct (backtrack _ _ _ _ i' j') as [ops data]. destruct IHd. split; [by do 2 constructor|].
      change (edits (OpDelete :: OpInsert :: ops)) with (1 + (1 + edits ops)). lia. }
    destruct (Z.eqb_spec (1 + Z.min (indel ro (p :: rp)) (indel (o :: ro) rp)) (indel ro (p :: rp) + 1)).
    { destruct (backtrack _ _ _ _ i' (S j')) as [ops data]. destruct IHu. split; [by constructor|].
      change (edits (OpInsert :: ops)) with (1 + edits ops). lia. }
    destruct (backtrack _ _ _ _ (S i') j') as [ops data]. destruct IHl. split; [by constructor|].
    change (edits (OpDelete :: ops)) with (1 + edits ops). lia.
Qed.

(** The operations of [Diff], in order. *)
Definition diff_ops (original pattern : bytes) : list Z * bytes :=
  let '(ops, data) := backtrack (length original + length pattern) (dp_table original pattern)
                        original pattern (length original) (length pattern) in
  (reverse ops, reverse data).

Lemma diff_ops_script original pattern :
  script_of (diff_ops original pattern).1 (diff_ops original pattern).2 pattern original /\
  edits (diff_ops original pattern).1 = indel (reverse original) (reverse pattern).
Proof.
  unfold diff_ops.
  pose proof (backtrack_script original pattern (length original + length pattern)
    (length original) (length pattern) ltac:(lia) ltac:(lia) ltac:(lia)) as H.
  cbv zeta in H. destruct (backtrack _ _ _ _ _ _) as [ops data]. cbn [fst snd].
  rewrite !firstn_all in H. destruct H as [H He]. rewrite edits_reverse. split; [|done].
  apply script_of_reverse in H. by rewrite !reverse_involutive in H.
Qed.

(** ** The run-length encoded script *)

Definition is_op (op : Z) : Prop := op = OpEqual \/ op = OpInsert \/ op = OpDelete.

Lemma script_of_ops ops data pat orig : script_of ops data pat orig -> Forall is_op ops.
Proof. induction 1; constructor; unfold is_op; tauto. Qed.

(** A run of one operation, and what is left after it. *)
Lemma script_of_run op n ops data pat orig :
  script_of (replicate n op ++ ops) data pat orig -> is_op op ->
  let p := if op =? OpInsert then 0%nat else n in
  let d := if op =? OpInsert then n else 0%nat in
  (p <= length pat)%nat /\ (d <= length data)%nat /\
  exists orig', script_of ops (drop d data) (drop p pat) orig' /\
    orig = (if op =? OpEqual then take n pat else if op =? OpInsert then take n data else []) ++ orig'.
Proof.
  intros H Hop. revert data pat orig H; induction n as [|n IH]; intros data pat orig H; cbv zeta.
  { split; [destruct (_ =? _); lia|]. split; [destruct (_ =? _); lia|]. exists orig.
    split; [destruct (op =? OpInsert); by rewrite !drop_0|]. destruct (op =? OpEqual), (op =? OpInsert); done. }
  cbn [replicate app] in H. cbv zeta in IH.
  inversion H as [|ops' data' pat' orig' x Hs|ops' data' pat' orig' x Hs|ops' data' pat' orig' x Hs]; subst;
    destruct (IH _ _ _ Hs) as (Hpl & Hdl & o' & Hs' & ->); cbn in *;
    (split; [lia|]); (split; [lia|]); exists o'; done.
Qed.

Lemma run_length_spec op ops count :
  (1 <= count <= 255)%nat ->
  let more := run_length op ops count in
  ops = replicate more op ++ drop more ops /\ (count + more <= 255)%nat.
Proof.
  revert count; induction ops as [|op' ops IH]; intros count Hc; cbn [run_length]; [split; [done|lia]|].
  destruct (Z.eqb_spec op' op) as [->|]; [|cbn; split; [done|lia]].
  destruct (Nat.ltb_spec count 255); [|cbn; split; [done|lia]].
  cbn [andb]. destruct (IH (S count) ltac:(lia)) as [H1 H2]. cbn [replicate drop app]. split; [|lia].
  by f_equal.
Qed.

Lemma zlen_take n (l : bytes) : (n <= length l)%nat -> zlen (take n l) = Z.of_nat n.
Proof. intros. unfold zlen. rewrite length_take. lia. Qed.

(** Applying the encoded script from position [pre] of the pattern. *)
Lemma apply_encode_script ops fuel afuel data pre pat orig :
  script_of ops data pat orig -> (length ops <= fuel)%nat ->
  (length (encode_script fuel ops data) < afuel)%nat ->
  apply_script afuel (pre ++ pat) (zlen pre) (encode_script fuel ops data) = Ok orig.
Proof.
  revert fuel ops data pre pat orig; induction afuel as [|afuel IH];
    intros fuel ops data pre pat orig H Hfuel Ha; [lia|].
  destruct ops as [|op ops].
  { inversion H; subst. by destruct fuel. }
  destruct fuel as [|fuel]; [simpl in Hfuel; lia|].
  pose proof (script_of_ops _ _ _ _ H) as Hops. inversion Hops as [|? ? Hop _]; subst.
  cbn [encode_script] in *. destruct (run_length_spec op ops 1 ltac:(lia)) as [Hrun Hmore].
  set (more := run_length op ops 1) in *.
  assert (Hscript : script_of (replicate (S more) op ++ drop more ops) data pat orig).
  { cbn [replicate app]. by rewrite <-Hrun. }
  apply script_of_run in Hscript as (Hpat & Hdata & orig' & Hs & ->); [|done].
  pose proof (length_drop ops more). simpl in Hfuel.
  set (tail := if op =? OpInsert
    then take (S more) data ++ encode_script fuel (drop more ops) (drop (S more) data)
    else encode_script fuel (drop more ops) data) in *.
  assert (index ([op; Z.of_nat (S more)] ++ tail) 1 = Ok (Z.of_nat (S more))) as Hidx
    by by apply (index_app_mid 1 [op]).
  pose proof (zlen_nonneg tail).
  assert (slice ([op; Z.of_nat (S more)] ++ tail) 2 (zlen ([op; Z.of_nat (S more)] ++ tail)) = Ok tail) as Hsl.
  { rewrite slice_tail; [by rewrite zdrop_app_eq|rewrite zlen_app; unfold zlen in *; simpl; lia|done]. }
  assert (Hlt : (length tail < afuel)%nat) by (cbn [app length] in Ha; lia).
  cbn [apply_script app]. cbn [app] in Hidx, Hsl. rewrite Hidx. cbn [mbind res_bind]. rewrite Hsl. cbn [mbind res_bind].
  pose proof (zlen_nonneg pre).
  destruct Hop as [-> | [-> | ->]]; cbn [Z.eqb OpEqual OpInsert OpDelete Pos.eqb] in *; subst tail.
  - rewrite zlen_app. rewrite Z.gtb_ltb, (proj2 (Z.ltb_ge _ _)) by (unfold zlen; lia).
    assert (Hsplit : pre ++ pat = (pre ++ take (S more) pat) ++ drop (S more) pat)
      by by rewrite <-app_assoc, take_drop.
    assert (slice (pre ++ pat) (zlen pre) (zlen pre + Z.of_nat (S more)) = Ok (take (S more) pat)) as ->.
    { rewrite slice_ok by (rewrite ?zlen_app; unfold zlen in *; lia). f_equal.
      rewrite <-(take_drop (S more) pat) at 1. apply sub_app_mid; [done|]. rewrite zlen_take; lia. }
    cbn [mbind res_bind].
    replace (zlen pre + Z.of_nat (S more)) with (zlen (pre ++ take (S more) pat))
      by (rewrite zlen_app, zlen_take; lia).
    rewrite Hsplit, IH with (orig := orig'); [done|by rewrite drop_0 in Hs|lia|lia].
  - rewrite drop_0 in Hs. rewrite length_app in Hlt.
    pose proof (zlen_take (S more) data ltac:(lia)) as Hz.
    rewrite (slice_here _ _ _ 0 _ Hz eq_refl eq_refl). cbn [mbind res_bind].
    pose proof (zlen_nonneg (encode_script fuel (drop more ops) (drop (S more) data))).
    rewrite slice_tail by (done || (rewrite zlen_app; lia)). cbn [mbind res_bind].
    rewrite zdrop_app_eq by done. by rewrite IH with (orig := orig') by (done || lia).
  - assert (Hsplit : pre ++ pat = (pre ++ take (S more) pat) ++ drop (S more) pat)
      by by rewrite <-app_assoc, take_drop.
    replace (zlen pre + Z.of_nat (S more)) with (zlen (pre ++ take (S more) pat))
      by (rewrite zlen_app, zlen_take; lia).
    rewrite Hsplit, IH with (orig := orig'); [done|by rewrite drop_0 in Hs|lia|lia].
Qed.

Lemma ApplyPatch_Diff_ok original pattern : ApplyPatch pattern (Diff original pattern) = Ok original.
Proof.
  pose proof (diff_ops_script original pattern) as [H _]. unfold diff_ops in H. unfold ApplyPatch, Diff.
  destruct (backtrack _ _ _ _ _ _) as [ops data]. cbn [fst snd] in H.
  apply (apply_encode_script (reverse ops) (length (reverse ops)) _ (reverse data) [] pattern original); [done|lia|lia].
Qed.

(** A script is made of bytes: opcodes, counts up to 255 and bytes of the chunk. *)
Lemma script_of_bytes ops data pat orig : script_of ops data pat orig -> bytes_ok orig -> bytes_ok data.
Proof.
  induction 1; intros Ho; auto; inversion Ho; subst; [by auto|constructor; auto].
Qed.

Lemma bytes_ok_encode_script fuel ops data :
  Forall is_op ops -> bytes_ok data -> bytes_ok (encode_script fuel ops data).
Proof.
  revert ops data; induction fuel as [|fuel IH]; intros ops data Hops Hd; [constructor|].
  destruct Hops as [|op ops Hop Hops]; [constructor|]. cbn [encode_script].
  destruct (run_length_spec op ops 1 ltac:(lia)) as [_ Hn]. cbv zeta in Hn.
  set (more := run_length op ops 1) in *. pose proof (Forall_drop is_op more ops Hops) as Hrest.
  cbn [app]. constructor; [destruct Hop as [->|[->| ->]]; done|].
  constructor; [unfold is_byte, is_u8; lia|]. destruct (op =? OpInsert); [|by apply IH].
  apply Forall_app. split; [by apply Forall_take|]. apply IH; [done|by apply Forall_drop].
Qed.

Lemma bytes_ok_Diff original pattern : bytes_ok original -> bytes_ok (Diff original pattern).
Proof.
  intros Ho. pose proof (diff_ops_script original pattern) as [H _]. unfold diff_ops in H. unfold Diff.
  destruct (backtrack _ _ _ _ _ _) as [ops data]. cbn [fst snd] in H.
  apply bytes_ok_encode_script; [by eapply script_of_ops|by eapply script_of_bytes].
Qed.



(** A script cut after an opcode crashes the reader: [ApplyPatch] has no bounds check of
    its own on the count byte or on the inserted bytes. *)
Theorem ApplyPatch_truncated pattern :
  ApplyPatch pattern [OpDelete] = Panic IndexOutOfRange /\
  ApplyPatch pattern [OpInsert; 3; 7] = Panic SliceBounds.
Proof. done. Qed.

(** ** Pools round trip *)

Section pool_round_trip.
Context `{!Zstd, !ZstdLaws _}.

Lemma DecompressPool_Compress pool : bytes_ok pool -> DecompressPool (CompressPool pool) = Ok pool.
Proof. intros. unfold DecompressPool, CompressPool. by rewrite zstd_dec_enc. Qed.

(** Either encoder, read by the one decoder with the same dictionary; an empty pool is stored
    as no bytes at all, and only an empty pool is. *)
Lemma DecompressPoolDict_Compress pool dict :
  bytes_ok pool ->
  DecompressPoolDict (CompressPoolDict pool dict) dict = Ok pool /\
  DecompressPoolDict (CompressPoolMax pool dict) dict = Ok pool.
Proof.
  intros Hok. unfold DecompressPoolDict, CompressPoolDict, CompressPoolMax.
  destruct (Z.eqb_spec (zlen pool) 0) as [->%zlen_0_nil|Hne]; [done|].
  assert (pool <> []) by by intros ->.
  rewrite zstd_dec_enc, zstd_dec_enc_max by done.
  split; rewrite (proj2 (Z.eqb_neq _ _)); try done; intros E%zlen_0_nil; revert E;
    [by apply zstd_enc_nonempty|by apply zstd_enc_max_nonempty].
Qed.

(** Whatever the build, a pool that the maximal level has compressed is read back; without the C encoder there is
    none. *)
Lemma CompressPoolMax_built_ok cgo pool dict frame :
  bytes_ok pool -> CompressPoolMax_built cgo pool dict = Ok frame -> cgo = true /\ DecompressPoolDict frame dict = Ok pool.
Proof.
  intros Hok. destruct cgo; [|done]. intros [= <-]. split; [done|]. by apply DecompressPoolDict_Compress.
Qed.

Lemma zlen_CompressPoolDict pool dict :
  zlen (CompressPoolDict pool dict) <= zlen pool + zlen pool / 256 + 64 /\
  zlen (CompressPoolMax pool dict) <= zlen pool + zlen pool / 256 + 64.
Proof.
  unfold CompressPoolDict, CompressPoolMax. pose proof (zlen_nonneg pool).
  destruct (_ =? _); [|split; [apply zstd_bound|apply zstd_bound_max]].
  rewrite zlen_nil. pose proof (Z.div_pos (zlen pool) 256). lia.
Qed.

(** The kept encoder changes nothing as long as memory does not: if the bytes at the cached
    address are still the ones its dictionary was built from, a call returns what an encoder
    built afresh returns, and the cache stays consistent. *)
Definition cache_current (memory : Z -> option bytes) (cache : encoder_cache) : Prop :=
  match cache with
  | None => True
  | Some (None, dict) => dict = []
  | Some (Some addr, dict) => memory addr = Some dict
  end.

Lemma CompressPoolDict_cached_eq memory cache pool addr dict :
  cache_current memory cache -> (zlen dict > 0 -> memory addr = Some dict) ->
  let '(out, cache') := CompressPoolDict_cached cache pool addr dict in
  out = CompressPoolDict pool dict /\ cache_current memory cache'.
Proof.
  intros Hc Hm. unfold CompressPoolDict_cached, CompressPoolDict. destruct (_ =? 0); [done|].
  assert (Hnew : cache_current memory (Some (if zlen dict >? 0 then Some addr else None, dict))).
  { cbn. destruct (Z.gtb_spec (zlen dict) 0); [auto with lia|].
    apply zlen_0_nil. pose proof (zlen_nonneg dict). lia. }
  destruct cache as [[key' dict']|]; [|done].
  destruct (bool_decide_reflect (key' = if zlen dict >? 0 then Some addr else None)) as [->|]; [|done].
  split; [|done]. f_equal. cbn in Hc, Hnew. destruct (zlen dict >? 0); congruence.
Qed.

End pool_round_trip.
