(* ===== verification/Chunker.v ===== *)
(** [internal/chunker] and [internal/semantic/chunker.go]: the strategies that cut a block of
    the input into chunks, behind the interface [Chunker].

    Every strategy is a [Split] function; the class [ChunkerLaws] is what the packers rely on:
    the chunks tile the block, in order and without empty chunks. *)

From S2P Require Import Prelude Externals.

Definition DefaultChunkSize : Z := 128.

Record Chunk := {
  c_Data : bytes;
  c_Offset : Z;
  c_Size : Z;
  c_Hash : Z;
}.

(** The Go interface. *)
Class Chunker := Split : bytes -> list Chunk.

(** The bytes of the chunks, one after the other; the running total only sizes the buffer. *)
Definition Reassemble (chunks : list Chunk) : bytes := concat (map c_Data chunks).

Section chunkers.
Context {hash64 : XXHash}.

(** [makeChunk], and the chunk literals of the other strategies. *)
Definition makeChunk (data : bytes) (start end_ : Z) : Chunk :=
  let slice := sub start end_ data in
  {| c_Data := slice; c_Offset := start; c_Size := u32 (zlen slice); c_Hash := xxhash_Sum64 slice |}.

(** ** Tilings *)

(** [tiles data start chunks]: the chunks cover [data] from [start] to its end. *)
Inductive tiles (data : bytes) : Z -> list Chunk -> Prop :=
  | tiles_nil start : start = zlen data -> tiles data start []
  | tiles_cons start end_ chunks :
      start < end_ <= zlen data -> tiles data end_ chunks ->
      tiles data start (makeChunk data start end_ :: chunks).

(** The contract of a chunking strategy. *)
Class ChunkerLaws (C : Chunker) := Split_tiles data : tiles data 0 (C data).

(** ** Fixed size ([fixed.go]) *)

Definition NewFixedChunker (chunkSize : Z) : Z :=
  if chunkSize <=? 0 then DefaultChunkSize else chunkSize.

Fixpoint fixed_loop (fuel : nat) (chunkSize : Z) (data : bytes) (offset : Z) : list Chunk :=
  match fuel with
  | O => []
  | S fuel =>
      if offset <? zlen data then
        let end_ := offset + chunkSize in
        let end_ := if end_ >? zlen data then zlen data else end_ in
        makeChunk data offset end_ :: fixed_loop fuel chunkSize data (offset + chunkSize)
      else []
  end.

Definition FixedChunker_Split (chunkSize : Z) (data : bytes) : list Chunk :=
  fixed_loop (length data) chunkSize data 0.

(** ** FastCDC ([fastcdc.go]) *)

Definition gearTable (b : Z) : Z := xxhash_Sum64 [b].

Record FastCDCChunker := { fc_targetSize : Z; fc_minSize : Z; fc_maxSize : Z; fc_mask : Z }.

Definition NewFastCDCChunker (targetSize : Z) : FastCDCChunker :=
  let targetSize := if targetSize <=? 0 then DefaultChunkSize else targetSize in
  {| fc_targetSize := targetSize; fc_minSize := targetSize / 4; fc_maxSize := targetSize * 4;
     fc_mask := u64 (targetSize - 1) |}.

Definition gear_step (hash b : Z) : Z := u64 (u64 (Z.shiftl hash 1) + gearTable b).

(** The loop at byte [i]; [rest] is [data[i:]]. *)
Fixpoint fastcdc_loop (c : FastCDCChunker) (data : bytes) (start hash i : Z) (rest : bytes)
    : list Chunk :=
  match rest with
  | [] => if start <? zlen data then [makeChunk data start (zlen data)] else []
  | b :: rest =>
      let hash := gear_step hash b in
      let chunkLen := i - start + 1 in
      if (chunkLen >=? fc_minSize c) &&
         ((chunkLen >=? fc_maxSize c) || (Z.land hash (fc_mask c) =? 0))
      then makeChunk data start (i + 1) :: fastcdc_loop c data (i + 1) 0 (i + 1) rest
      else fastcdc_loop c data start hash (i + 1) rest
  end.

Definition FastCDC_Split (c : FastCDCChunker) (data : bytes) : list Chunk :=
  if zlen data =? 0 then []
  else if zlen data <=? fc_minSize c then [makeChunk data 0 (zlen data)]
  else fastcdc_loop c data 0 0 0 data.

(** ** CDC with a rolling hash ([cdc.go]) *)

Definition CDCWindowSize : Z := 8.
Definition prime64 : Z := 1099511628211.
Definition primePower : Z := Z.iter CDCWindowSize (fun p => u64 (p * prime64)) 1.

Record CDCChunker := { cdc_targetSize : Z; cdc_minSize : Z; cdc_maxSize : Z }.

Definition NewCDCChunker (targetSize : Z) : CDCChunker :=
  {| cdc_targetSize := targetSize; cdc_minSize := Z.quot targetSize 4; cdc_maxSize := targetSize * 2 |}.

(** [data[i]], known to be in range. *)
Definition byte_at (data : bytes) (i : Z) : Z := default 0 (data !! Z.to_nat i).

(** The new hash at [offset]: the byte leaving the window is subtracted once it is full. *)
Definition roll (data : bytes) (start offset rollHash : Z) : Z :=
  if offset >=? start + CDCWindowSize then
    u64 (rollHash * prime64 + byte_at data offset - u64 (byte_at data (offset - CDCWindowSize) * primePower))
  else u64 (rollHash * prime64 + byte_at data offset).

(** The loop at [offset]; [None] when the fuel runs out. *)
Fixpoint cdc_loop (fuel : nat) (c : CDCChunker) (data : bytes) (start offset rollHash : Z)
    : option (list Chunk) :=
  match fuel with
  | O => None
  | S fuel =>
      if offset <? zlen data then
        let chunkLen := offset - start in
        if chunkLen >=? cdc_maxSize c then
          rest ← cdc_loop fuel c data offset offset 0;
          Some (makeChunk data start offset :: rest)
        else
          let rollHash := roll data start offset rollHash in
          if (chunkLen >=? cdc_minSize c) && (offset >=? start + CDCWindowSize)
             && (rollHash mod u64 (cdc_targetSize c) =? 0)
          then
            rest ← cdc_loop fuel c data (offset + 1) (offset + 1) 0;
            Some (makeChunk data start (offset + 1) :: rest)
          else cdc_loop fuel c data start (offset + 1) rollHash
      else Some (if start <? zlen data then [makeChunk data start (zlen data)] else [])
  end.

Definition CDC_Split (fuel : nat) (c : CDCChunker) (data : bytes) : option (list Chunk) :=
  if zlen data =? 0 then Some []
  else if zlen data <=? cdc_minSize c then Some [makeChunk data 0 (zlen data)]
  else cdc_loop fuel c data 0 0 0.

(** ** Delimiters ([acac.go]) *)

Definition SemanticChunker_maxSize (maxSize : Z) : Z := if maxSize <=? 0 then 1024 else maxSize.

(** [bytes.IndexByte], -1 when absent. *)
Fixpoint index_byte (l : bytes) (b : Z) (i : Z) : Z :=
  match l with
  | [] => -1
  | x :: l => if x =? b then i else index_byte l b (i + 1)
  end.

Fixpoint semantic_loop (fuel : nat) (delimiter maxSize : Z) (data : bytes) (start : Z) : list Chunk :=
  match fuel with
  | O => []
  | S fuel =>
      if start <? zlen data then
        let end_ := start + maxSize in
        let end_ := if end_ >? zlen data then zlen data else end_ in
        let delimIdx := index_byte (sub start end_ data) delimiter 0 in
        let chunkLen := if negb (delimIdx =? -1) then delimIdx + 1 else end_ - start in
        makeChunk data start (start + chunkLen)
          :: semantic_loop fuel delimiter maxSize data (start + chunkLen)
      else []
  end.

Definition SemanticChunker_Split (delimiter maxSize : Z) (data : bytes) : list Chunk :=
  semantic_loop (length data) delimiter maxSize data 0.

(** ** File types ([semantic/chunker.go]) *)

Inductive file_type := UNKNOWN | ELF | ZIP | PNG | JSON | JSONL | LINES.

#[export] Instance file_type_eq_dec : EqDecision file_type.
Proof. solve_decision. Defined.

Definition newline : Z := 10.
Definition is_delim (fileType : file_type) (b : Z) : bool :=
  match fileType with
  | JSON => (b =? 125) || (b =? 44)
  | _ => b =? newline
  end.

(** The scan from [i] to [maxRight] for the end of the chunk; [rest] is [data[i:]]. *)
Fixpoint scan_delim (fileType : file_type) (i maxRight : Z) (rest : bytes) : option Z :=
  match rest with
  | [] => None
  | b :: rest =>
      if i <? maxRight then
        if is_delim fileType b then Some (i + 1) else scan_delim fileType (i + 1) maxRight rest
      else None
  end.

Definition contextual_minSize : Z := 32.

Fixpoint contextual_loop (fuel : nat) (fileType : file_type) (maxSize : Z) (data : bytes) (left : Z)
    : list Chunk :=
  match fuel with
  | O => []
  | S fuel =>
      let length := zlen data in
      if left <? length then
        let right := left + contextual_minSize in
        let right :=
          if right >=? length then length
          else
            let maxRight := left + maxSize in
            let maxRight := if maxRight >? length then length else maxRight in
            default maxRight (scan_delim fileType right maxRight (zdrop right data)) in
        makeChunk data left right :: contextual_loop fuel fileType maxSize data right
      else []
  end.

Definition ContextualChunker_Split (fileType : file_type) (maxSize : Z) (data : bytes) : list Chunk :=
  if zlen data =? 0 then []
  else if bool_decide (fileType = UNKNOWN \/ fileType = ELF \/ fileType = ZIP \/ fileType = PNG)
  then FixedChunker_Split (NewFixedChunker maxSize) data
  else contextual_loop (length data) fileType maxSize data 0.

(** ** Tilings: what they give *)

Lemma zdrop_sub_zdrop {A} (l : list A) lo hi :
  0 <= lo <= hi -> zdrop lo l = sub lo hi l ++ zdrop hi l.
Proof.
  intros. unfold sub. rewrite <-(ztake_zdrop (hi - lo) (zdrop lo l)) at 1.
  rewrite zdrop_zdrop by lia. do 2 f_equal. lia.
Qed.

Lemma tiles_bound data start chunks : tiles data start chunks -> start <= zlen data.
Proof. induction 1; lia. Qed.

Lemma tiles_concat data start chunks :
  0 <= start -> tiles data start chunks -> Reassemble chunks = zdrop start data.
Proof.
  intros Hs H. revert Hs. induction H as [start ->|start end_ chunks Hse H IH]; intros Hs.
  - symmetry. apply zlen_0_nil. rewrite zlen_zdrop. lia.
  - unfold Reassemble in *. cbn [map concat makeChunk c_Data]. rewrite IH by lia.
    symmetry. apply zdrop_sub_zdrop. lia.
Qed.

Lemma tiles_offsets data start chunks i c :
  0 <= start -> tiles data start chunks -> chunks !! i = Some c ->
  start <= c_Offset c /\ c_Data c = sub (c_Offset c) (c_Offset c + zlen (c_Data c)) data /\
  0 < zlen (c_Data c) <= zlen data - c_Offset c /\ c_Size c = u32 (zlen (c_Data c)).
Proof.
  intros Hs H. revert i Hs. induction H as [|start end_ chunks Hse H IH]; intros i Hs Hi; [done|].
  destruct i as [|i]; simpl in Hi.
  - injection Hi as <-. cbn [makeChunk c_Offset c_Data c_Size]. rewrite !zlen_sub by lia.
    replace (start + (end_ - start)) with end_ by lia. repeat split; lia || done.
  - destruct (IH i ltac:(lia) Hi) as (?&?&?&?). repeat split; try done; lia.
Qed.

(** What every packer relies on, for any chunking strategy that meets its contract: putting
    the chunks back together gives the block, no chunk is empty, and each one is the piece of
    the block at the offset and of the size it records. *)
Theorem Reassemble_Split (C : Chunker) `{!ChunkerLaws C} data :
  Reassemble (C data) = data /\
  Forall (fun c => c_Data c <> [] /\ c_Size c = u32 (zlen (c_Data c)) /\
                   c_Data c = sub (c_Offset c) (c_Offset c + zlen (c_Data c)) data) (C data).
Proof.
  pose proof (Split_tiles data) as H. split; [rewrite (tiles_concat data 0) by done; apply zdrop_0|].
  apply Forall_lookup. intros i c Hi. destruct (tiles_offsets data 0 _ i c ltac:(lia) H Hi) as (?&?&?&?).
  repeat split; try done. intros E. assert (zlen (c_Data c) = 0) by by rewrite E. lia.
Qed.

(** ** Fixed size *)

Lemma fixed_loop_tiles fuel cs data offset :
  0 < cs -> 0 <= offset -> zlen data - offset <= Z.of_nat fuel ->
  tiles data (Z.min offset (zlen data)) (fixed_loop fuel cs data offset).
Proof.
  intros Hcs. revert offset; induction fuel as [|fuel IH]; intros offset Ho Hf; cbn [fixed_loop].
  { constructor. lia. }
  destruct (Z.ltb_spec offset (zlen data)); [|constructor; lia].
  specialize (IH (offset + cs) ltac:(lia) ltac:(lia)).
  replace (Z.min offset (zlen data)) with offset by lia.
  destruct (Z.gtb_spec (offset + cs) (zlen data)); constructor; try lia.
  - by replace (Z.min (offset + cs) (zlen data)) with (zlen data) in IH by lia.
  - by replace (Z.min (offset + cs) (zlen data)) with (offset + cs) in IH by lia.
Qed.

Lemma NewFixedChunker_pos n : 0 < NewFixedChunker n.
Proof. unfold NewFixedChunker. destruct (Z.leb_spec n 0); [done|lia]. Qed.

#[export] Instance FixedChunker_laws cs : TCEq (0 <? cs) true -> ChunkerLaws (FixedChunker_Split cs).
Proof.
  intros Hcs%TCEq_eq data. apply Z.ltb_lt in Hcs. pose proof (zlen_nonneg data).
  pose proof (fixed_loop_tiles (length data) cs data 0 Hcs ltac:(lia) ltac:(unfold zlen; lia)) as Ht.
  by replace (Z.min 0 (zlen data)) with 0 in Ht by lia.
Qed.

(** Full chunks have the chunk size, the last one what is left. *)
Lemma fixed_loop_sizes fuel cs data offset i c :
  0 < cs -> 0 <= offset -> fixed_loop fuel cs data offset !! i = Some c ->
  c_Offset c = offset + cs * Z.of_nat i /\ zlen (c_Data c) = Z.min cs (zlen data - c_Offset c).
Proof.
  intros Hcs. revert offset i; induction fuel as [|fuel IH]; intros offset i Ho Hi; [done|].
  cbn [fixed_loop] in Hi. destruct (Z.ltb_spec offset (zlen data)); [|done].
  destruct i as [|i]; simpl in Hi.
  - injection Hi as <-. cbn [makeChunk c_Offset c_Data]. split; [lia|].
    destruct (Z.gtb_spec (offset + cs) (zlen data)); rewrite zlen_sub; lia.
  - destruct (IH (offset + cs) i ltac:(lia) Hi) as [-> ->]. lia.
Qed.

(** ** FastCDC *)

Lemma zdrop_cons_next {A} i (l : list A) b rest :
  0 <= i -> b :: rest = zdrop i l -> rest = zdrop (i + 1) l /\ i < zlen l.
Proof.
  intros Hi E. pose proof (zlen_zdrop i l) as Hz. rewrite <-E, zlen_cons in Hz.
  pose proof (zlen_nonneg rest). split; [|lia].
  replace (i + 1) with (i + 1) by lia. rewrite <-(zdrop_zdrop 1 i) by lia. by rewrite <-E, <-(zdrop_0 rest) at 1.
Qed.

Lemma zdrop_nil_end {A} i (l : list A) : 0 <= i <= zlen l -> [] = zdrop i l -> i = zlen l.
Proof. intros Hi E. pose proof (zlen_zdrop i l) as Hz. rewrite <-E, zlen_nil in Hz. lia. Qed.

Lemma fastcdc_loop_tiles c data start hash i rest :
  0 <= start <= i -> i <= zlen data -> rest = zdrop i data ->
  tiles data start (fastcdc_loop c data start hash i rest).
Proof.
  revert start hash i; induction rest as [|b rest IH]; intros start hash i Hs Hi E; cbn [fastcdc_loop].
  - apply zdrop_nil_end in E; [|lia]. subst i.
    destruct (Z.ltb_spec start (zlen data)); [|constructor; lia].
    apply tiles_cons; [lia|]. by constructor.
  - apply zdrop_cons_next in E as [E Hlt]; [|lia].
    destruct (_ && _); [|apply IH; [lia|lia|done]].
    apply tiles_cons; [lia|]. apply IH; [lia|lia|done].
Qed.

#[export] Instance FastCDC_laws c : ChunkerLaws (FastCDC_Split c).
Proof.
  intros data. unfold FastCDC_Split. pose proof (zlen_nonneg data).
  destruct (Z.eqb_spec (zlen data) 0); [by constructor|].
  destruct (_ <=? _); [apply tiles_cons; [lia|by constructor]|].
  apply fastcdc_loop_tiles; [lia|lia|by rewrite zdrop_0].
Qed.

(** Sizes: between the minimum and the maximum, but for the last chunk, which may be short. *)
Definition chunk_sizes_ok (min max : Z) (chunks : list Chunk) : Prop :=
  Forall (fun ck => zlen (c_Data ck) <= max) chunks /\
  Forall (fun ck => min <= zlen (c_Data ck)) (removelast chunks).

Lemma chunk_sizes_ok_cons min max ck chunks :
  zlen (c_Data ck) <= max -> min <= zlen (c_Data ck) -> chunk_sizes_ok min max chunks ->
  chunk_sizes_ok min max (ck :: chunks).
Proof.
  intros H1 H2 [H3 H4]. split; [by constructor|]. destruct chunks; [constructor|]. by constructor.
Qed.

Lemma chunk_sizes_ok_last min max ck : zlen (c_Data ck) <= max -> chunk_sizes_ok min max [ck].
Proof. intros. split; by repeat constructor. Qed.

Lemma chunk_sizes_ok_nil min max : chunk_sizes_ok min max [].
Proof. split; constructor. Qed.

Lemma fastcdc_loop_sizes c data start hash i rest :
  0 <= start <= i -> i <= zlen data -> rest = zdrop i data ->
  fc_minSize c <= fc_maxSize c -> i - start < Z.max 1 (fc_maxSize c) -> 0 < fc_maxSize c ->
  chunk_sizes_ok (fc_minSize c) (fc_maxSize c) (fastcdc_loop c data start hash i rest).
Proof.
  intros Hs Hi E Hmm Hmax Hpos. revert start hash i Hs Hi E Hmax;
    induction rest as [|b rest IH]; intros start hash i Hs Hi E Hmax; cbn [fastcdc_loop].
  - apply zdrop_nil_end in E; [|lia]. subst i.
    destruct (Z.ltb_spec start (zlen data)); [|apply chunk_sizes_ok_nil].
    apply chunk_sizes_ok_last. cbn [makeChunk c_Data]. rewrite zlen_sub; lia.
  - apply zdrop_cons_next in E as [E Hlt]; [|lia].
    destruct (Z.geb_spec (i - start + 1) (fc_minSize c)); cbn [andb].
    + destruct (Z.geb_spec (i - start + 1) (fc_maxSize c)); cbn [orb];
        [|destruct (_ =? 0); [|apply IH; (done || lia)]];
        (apply chunk_sizes_ok_cons; [| |apply IH; (done || lia)]);
        cbn [makeChunk c_Data]; rewrite zlen_sub; lia.
    + apply IH; (done || lia).
Qed.

(** FastCDC keeps its bounds: for any target, every chunk has at most four times the target
    and every chunk but the last at least a quarter of it. *)
Theorem FastCDC_bounds targetSize data :
  let c := NewFastCDCChunker targetSize in
  chunk_sizes_ok (fc_minSize c) (fc_maxSize c) (FastCDC_Split c data).
Proof.
  intros c. assert (Ht : 0 < fc_targetSize c /\ fc_minSize c = fc_targetSize c / 4 /\
    fc_maxSize c = fc_targetSize c * 4).
  { unfold c, NewFastCDCChunker. cbn. destruct (Z.leb_spec targetSize 0); unfold DefaultChunkSize; lia. }
  destruct Ht as (Ht & Hmin & Hmax). assert (fc_minSize c <= fc_targetSize c) by ulia.
  unfold FastCDC_Split. pose proof (zlen_nonneg data).
  destruct (_ =? _); [apply chunk_sizes_ok_nil|]. destruct (Z.leb_spec (zlen data) (fc_minSize c)).
  - apply chunk_sizes_ok_last. cbn [makeChunk c_Data]. rewrite zlen_sub; lia.
  - apply fastcdc_loop_sizes; rewrite ?zdrop_0; (done || lia).
Qed.

(** The gear hash forgets: after 64 more bytes nothing is left of the state it started from. *)
Lemma gear_step_mod hash b : gear_step hash b = u64 (2 * hash + gearTable b).
Proof. unfold gear_step. rewrite u64_add_l, Z.shiftl_mul_pow2 by lia. f_equal. lia. Qed.

Lemma gear_fold_shift w h1 h2 :
  exists k, foldl gear_step h1 w - foldl gear_step h2 w = 2 ^ zlen w * (h1 - h2) + k * 2 ^ 64.
Proof.
  revert h1 h2; induction w as [|b w IH]; intros h1 h2.
  { exists 0. cbn [foldl]. rewrite zlen_nil. lia. }
  cbn [foldl]. destruct (IH (gear_step h1 b) (gear_step h2 b)) as [k ->].
  rewrite !gear_step_mod, zlen_cons, Z.pow_add_r by (lia || apply zlen_nonneg).
  unfold u64. rewrite !Z.mod_eq by lia.
  exists (k - 2 ^ zlen w * ((2 * h1 + gearTable b) / 2 ^ 64 - (2 * h2 + gearTable b) / 2 ^ 64)). ring.
Qed.

Lemma gear_fold_range w h : is_u64 h -> is_u64 (foldl gear_step h w).
Proof. revert h; induction w as [|b w IH]; intros h Hh; [done|]. apply IH, u64_range. Qed.

(** FastCDC boundaries are content-defined: the hash that decides a boundary depends on the
    last 64 bytes only, so an insertion earlier in the file moves later boundaries with the
    content. *)
Theorem gear_hash_local pre1 pre2 w :
  64 <= zlen w -> foldl gear_step 0 (pre1 ++ w) = foldl gear_step 0 (pre2 ++ w).
Proof.
  intros Hw. rewrite !foldl_app.
  set (h1 := foldl gear_step 0 pre1). set (h2 := foldl gear_step 0 pre2).
  assert (Hr : forall pre, is_u64 (foldl gear_step 0 pre)) by (intros; apply gear_fold_range; done).
  pose proof (gear_fold_range w h1 (Hr pre1)) as H1. pose proof (gear_fold_range w h2 (Hr pre2)) as H2.
  destruct (gear_fold_shift w h1 h2) as [k Hk].
  replace (zlen w) with (64 + (zlen w - 64)) in Hk by lia. rewrite Z.pow_add_r in Hk by lia.
  unfold is_u64 in H1, H2. set (q := 2 ^ (zlen w - 64)) in *.
  assert (foldl gear_step h1 w - foldl gear_step h2 w = 2 ^ 64 * (q * (h1 - h2) + k)) as E by (rewrite Hk; ring).
  nia.
Qed.

(** ** CDC: the rolling hash *)

(** The hash of a window, computed from scratch. *)
Definition poly_step (h b : Z) : Z := u64 (h * prime64 + b).
Definition window_hash (data : bytes) (lo hi : Z) : Z := foldl poly_step 0 (sub lo hi data).

Lemma poly_fold_shift w h :
  foldl poly_step h w = u64 (h * prime64 ^ zlen w + foldl poly_step 0 w) \/ w = [].
Proof.
  destruct w as [|b w]; [by right|left]. revert h b; induction w as [|b' w IH]; intros h b.
  - cbn [foldl]. unfold poly_step. rewrite Z.mul_0_l, Z.add_0_l, u64_add_r, zlen_singleton.
    by rewrite Z.pow_1_r.
  - change (foldl poly_step h (b :: b' :: w)) with (foldl poly_step (poly_step h b) (b' :: w)).
    change (foldl poly_step 0 (b :: b' :: w)) with (foldl poly_step (poly_step 0 b) (b' :: w)).
    rewrite (IH (poly_step h b)), (IH (poly_step 0 b)), u64_add_r.
    set (l := b' :: w). set (P := foldl poly_step 0 l). unfold poly_step.
    rewrite zlen_cons, Z.pow_add_r by (lia || apply zlen_nonneg). rewrite Z.pow_1_r.
    set (q := prime64 ^ zlen l). rewrite Z.mul_0_l, Z.add_0_l.
    rewrite <-(u64_add_l (u64 (h * prime64 + b) * q)), u64_mul_l, u64_add_l.
    rewrite Z.add_assoc. rewrite <-(u64_add_l (h * (q * prime64) + _)).
    rewrite <-(u64_add_r (h * (q * prime64))), u64_mul_l, u64_add_r, u64_add_l. f_equal. lia.
Qed.

Lemma sub_snoc lo hi data :
  0 <= lo <= hi -> hi < zlen data -> sub lo (hi + 1) data = sub lo hi data ++ [byte_at data hi].
Proof.
  intros Hl Hh. unfold sub, byte_at. rewrite !ztake_take, !zdrop_drop.
  replace (Z.to_nat (hi + 1 - lo)) with (S (Z.to_nat (hi - lo))) by lia.
  destruct (lookup_lt_is_Some_2 data (Z.to_nat hi)) as [x Hx]; [unfold zlen in Hh; lia|].
  rewrite Hx. apply take_S_r. rewrite lookup_drop. change (default 0 (Some x)) with x.
  rewrite <-Hx. f_equal. lia.
Qed.

Lemma sub_head lo hi data :
  0 <= lo < hi -> hi <= zlen data -> sub lo hi data = byte_at data lo :: sub (lo + 1) hi data.
Proof.
  intros Hl Hh. unfold sub, byte_at. rewrite !ztake_take, !zdrop_drop.
  destruct (lookup_lt_is_Some_2 data (Z.to_nat lo)) as [x Hx]; [unfold zlen in Hh; lia|].
  rewrite Hx, (drop_S _ _ _ Hx). replace (Z.to_nat (hi - lo)) with (S (Z.to_nat (hi - (lo + 1)))) by lia.
  cbn [firstn default]. do 3 f_equal. lia.
Qed.

Lemma primePower_eq : primePower = u64 (prime64 ^ 8).
Proof. reflexivity. Qed.

(** One step of the rolling hash slides the window by one byte. *)
Lemma roll_window data start offset :
  0 <= start <= offset -> offset < zlen data ->
  roll data start offset (window_hash data (Z.max start (offset - CDCWindowSize)) offset) =
    window_hash data (Z.max start (offset + 1 - CDCWindowSize)) (offset + 1).
Proof.
  intros Hs Ho. unfold roll, window_hash, CDCWindowSize.
  destruct (Z.geb_spec offset (start + 8)).
  - replace (Z.max start (offset - 8)) with (offset - 8) by lia.
    replace (Z.max start (offset + 1 - 8)) with (offset - 7) by lia.
    rewrite (sub_head (offset - 8) offset) by lia. replace (offset - 8 + 1) with (offset - 7) by lia.
    rewrite (sub_snoc (offset - 7) offset) by lia. rewrite foldl_snoc.
    set (w := sub (offset - 7) offset data). set (b0 := byte_at data (offset - 8)).
    assert (Hw : zlen w = 7) by (unfold w; rewrite zlen_sub; lia).
    change (foldl poly_step 0 (b0 :: w)) with (foldl poly_step (poly_step 0 b0) w).
    destruct (poly_fold_shift w (poly_step 0 b0)) as [-> | ->]; [|done]. rewrite Hw, primePower_eq.
    set (P := foldl poly_step 0 w). set (b := byte_at data offset). unfold poly_step.
    rewrite Z.mul_0_l, Z.add_0_l, u64_mul_r, u64_sub_r.
    rewrite <-(u64_add_l (u64 b0 * _) P), u64_mul_l, u64_add_l.
    replace (u64 (b0 * prime64 ^ 7 + P) * prime64 + b - b0 * prime64 ^ 8)
      with (u64 (b0 * prime64 ^ 7 + P) * prime64 + (b - b0 * prime64 ^ 8)) by lia.
    rewrite <-(u64_add_l (u64 _ * prime64)), u64_mul_l, u64_add_l. f_equal.
    change (prime64 ^ 8) with (prime64 ^ 7 * prime64). lia.
  - replace (Z.max start (offset - 8)) with start by lia.
    replace (Z.max start (offset + 1 - 8)) with start by lia.
    rewrite (sub_snoc start offset) by lia. by rewrite foldl_snoc.
Qed.

(** The reference: no state but the position, the hash of the last eight bytes recomputed. *)
Fixpoint cdc_ref (fuel : nat) (c : CDCChunker) (data : bytes) (start offset : Z) : option (list Chunk) :=
  match fuel with
  | O => None
  | S fuel =>
      if offset <? zlen data then
        if offset - start >=? cdc_maxSize c then
          rest ← cdc_ref fuel c data offset offset;
          Some (makeChunk data start offset :: rest)
        else if (offset - start >=? cdc_minSize c) && (offset >=? start + CDCWindowSize)
                && (window_hash data (offset + 1 - CDCWindowSize) (offset + 1) mod u64 (cdc_targetSize c) =? 0)
        then
          rest ← cdc_ref fuel c data (offset + 1) (offset + 1);
          Some (makeChunk data start (offset + 1) :: rest)
        else cdc_ref fuel c data start (offset + 1)
      else Some (if start <? zlen data then [makeChunk data start (zlen data)] else [])
  end.

Lemma window_hash_empty data i : window_hash data i i = 0.
Proof. unfold window_hash, sub. rewrite Z.sub_diag, ztake_take. done. Qed.

Lemma cdc_loop_ref fuel c data start offset :
  0 <= start <= offset ->
  cdc_loop fuel c data start offset (window_hash data (Z.max start (offset - CDCWindowSize)) offset) =
    cdc_ref fuel c data start offset.
Proof.
  revert start offset; induction fuel as [|fuel IH]; intros start offset Hs; [done|].
  cbn [cdc_loop cdc_ref]. destruct (Z.ltb_spec offset (zlen data)); [|done].
  assert (Hrestart : forall p, 0 <= p -> cdc_loop fuel c data p p 0 = cdc_ref fuel c data p p).
  { intros p Hp. rewrite <-IH by lia. unfold CDCWindowSize.
    replace (Z.max p (p - 8)) with p by lia. by rewrite window_hash_empty. }
  destruct (_ >=? cdc_maxSize c); [by rewrite Hrestart by lia|].
  rewrite roll_window by lia. rewrite IH, Hrestart by lia.
  destruct (_ >=? cdc_minSize c); [|done]. cbn [andb].
  destruct (Z.geb_spec offset (start + CDCWindowSize)); [|done]. cbn [andb].
  by replace (Z.max start (offset + 1 - CDCWindowSize)) with (offset + 1 - CDCWindowSize)
    by (unfold CDCWindowSize in *; lia).
Qed.

(** The rolling hash is the hash of the last eight bytes: [CDCChunker] cuts exactly where the
    definition without state cuts. *)
Theorem CDC_Split_ref fuel c data :
  0 < zlen data -> cdc_minSize c < zlen data ->
  CDC_Split fuel c data = cdc_ref fuel c data 0 0.
Proof.
  intros Hn Hm. unfold CDC_Split. rewrite (proj2 (Z.eqb_neq _ _)), (proj2 (Z.leb_gt _ _)) by lia.
  rewrite <-cdc_loop_ref by lia. unfold CDCWindowSize. by rewrite window_hash_empty.
Qed.

(** Termination: a cut at the maximum size revisits its byte once. *)
Lemma cdc_loop_tiles fuel c data start offset rollHash :
  0 < cdc_maxSize c -> 0 <= start <= offset -> offset <= zlen data ->
  2 * (zlen data - offset) + (if offset - start >=? cdc_maxSize c then 1 else 0) < Z.of_nat fuel ->
  exists chunks, cdc_loop fuel c data start offset rollHash = Some chunks /\ tiles data start chunks.
Proof.
  intros Hmax. revert start offset rollHash; induction fuel as [|fuel IH]; intros start offset rollHash Hs Ho Hf.
  { destruct (_ >=? _); lia. }
  cbn [cdc_loop]. destruct (Z.ltb_spec offset (zlen data)).
  - destruct (Z.geb_spec (offset - start) (cdc_maxSize c)).
    + destruct (IH offset offset 0) as (chunks & -> & Ht); [lia|lia|destruct (_ >=? _) eqn:E; lia|].
      eexists. split; [done|]. by apply tiles_cons; [lia|].
    + set (r := roll _ _ _ _). destruct (_ && _).
      * destruct (IH (offset + 1) (offset + 1) 0) as (chunks & -> & Ht); [lia|lia|destruct (_ >=? _) eqn:E; lia|].
        eexists. split; [done|]. by apply tiles_cons; [lia|].
      * destruct (IH start (offset + 1) r) as (chunks & -> & Ht); [lia|lia|destruct (_ >=? _); lia|].
        by eexists.
  - eexists. split; [done|]. destruct (Z.ltb_spec start (zlen data)); [|constructor; lia].
    apply tiles_cons; [lia|by constructor].
Qed.

Definition cdc_fuel (data : bytes) : nat := S (S (2 * length data)).

(** [C36] With a positive target [CDCChunker] terminates and its chunks tile the data; built with
    a target of zero it never returns, on any data. *)
Theorem CDC_Split_total targetSize data :
  (0 < targetSize -> exists chunks,
     CDC_Split (cdc_fuel data) (NewCDCChunker targetSize) data = Some chunks /\ tiles data 0 chunks) /\
  (data <> [] -> forall fuel, CDC_Split fuel (NewCDCChunker 0) data = None).
Proof.
  pose proof (zlen_nonneg data). split.
  - intros Ht. unfold CDC_Split. destruct (Z.eqb_spec (zlen data) 0).
    { eexists; split; [done|by constructor]. }
    destruct (_ <=? _). { eexists; split; [done|]. apply tiles_cons; [lia|by constructor]. }
    apply cdc_loop_tiles; cbn [NewCDCChunker cdc_maxSize]; [lia|lia|lia|].
    unfold cdc_fuel, zlen. destruct (_ >=? _); lia.
  - intros Hne fuel. assert (0 < zlen data).
    { destruct (decide (zlen data = 0)) as [?%zlen_0_nil|]; [done|lia]. }
    unfold CDC_Split. cbn [NewCDCChunker cdc_minSize]. change (Z.quot 0 4) with 0.
    rewrite (proj2 (Z.eqb_neq _ _)), (proj2 (Z.leb_gt _ _)) by lia.
    induction fuel as [|fuel IH]; [done|]. cbn [cdc_loop]. rewrite (proj2 (Z.ltb_lt _ _)) by lia.
    change (0 - 0 >=? cdc_maxSize (NewCDCChunker 0)) with true. cbv iota. by rewrite IH.
Qed.

(** ** Delimiters *)

Lemma index_byte_bound l b i :
  index_byte l b i = -1 \/ (i <= index_byte l b i < i + zlen l).
Proof.
  revert i; induction l as [|x l IH]; intros i; [by left|]. cbn [index_byte]. rewrite zlen_cons.
  pose proof (zlen_nonneg l). destruct (x =? b); [right; lia|]. destruct (IH (i + 1)); [by left|right; lia].
Qed.

Lemma semantic_loop_tiles fuel delimiter maxSize data start :
  0 < maxSize -> 0 <= start <= zlen data -> zlen data - start <= Z.of_nat fuel ->
  tiles data start (semantic_loop fuel delimiter maxSize data start).
Proof.
  intros Hm. revert start; induction fuel as [|fuel IH]; intros start Hs Hf; cbn [semantic_loop].
  { constructor. lia. }
  destruct (Z.ltb_spec start (zlen data)); [|constructor; lia].
  set (end_ := if _ >? _ then _ else _).
  assert (Hend : start < end_ <= zlen data) by (unfold end_; case_cmp; lia). clearbody end_.
  pose proof (index_byte_bound (sub start end_ data) delimiter 0) as Hi.
  rewrite zlen_sub in Hi by lia. set (len := if negb _ then _ else _).
  assert (Hlen : 0 < len /\ start + len <= zlen data).
  { unfold len. destruct (Z.eqb_spec (index_byte (sub start end_ data) delimiter 0) (-1)); cbn [negb]; lia. }
  apply tiles_cons; [lia|]. apply IH; lia.
Qed.

Lemma scan_delim_bound ft i maxRight rest r :
  scan_delim ft i maxRight rest = Some r -> i < r <= maxRight.
Proof.
  revert i; induction rest as [|b rest IH]; intros i; cbn [scan_delim]; [done|].
  destruct (Z.ltb_spec i maxRight); [|done]. destruct (is_delim ft b); [intros [= <-]; lia|].
  intros ?%IH. lia.
Qed.

Lemma contextual_loop_tiles fuel ft maxSize data left :
  0 < maxSize -> 0 <= left <= zlen data -> zlen data - left <= Z.of_nat fuel ->
  tiles data left (contextual_loop fuel ft maxSize data left).
Proof.
  intros Hm. revert left; induction fuel as [|fuel IH]; intros left Hl Hf; cbn [contextual_loop].
  { constructor. lia. }
  destruct (Z.ltb_spec left (zlen data)); [|constructor; lia]. unfold contextual_minSize.
  set (right := if _ >=? _ then _ else _).
  assert (Hr : left < right <= zlen data).
  { unfold right. destruct (Z.geb_spec (left + 32) (zlen data)); [lia|].
    set (maxRight := if _ >? _ then _ else _).
    assert (left < maxRight <= zlen data) by (unfold maxRight; case_cmp; lia).
    destruct (scan_delim ft (left + 32) maxRight _) eqn:E; cbn [from_option id]; [apply scan_delim_bound in E|]; lia. }
  apply tiles_cons; [lia|]. apply IH; lia.
Qed.

Lemma FixedChunker_tiles n data : tiles data 0 (FixedChunker_Split (NewFixedChunker n) data).
Proof. apply FixedChunker_laws. apply TCEq_eq, Z.ltb_lt, NewFixedChunker_pos. Qed.

Lemma SemanticChunker_tiles delimiter n data :
  tiles data 0 (SemanticChunker_Split delimiter (SemanticChunker_maxSize n) data).
Proof.
  pose proof (zlen_nonneg data). apply semantic_loop_tiles; [|lia|unfold zlen; lia].
  unfold SemanticChunker_maxSize. destruct (Z.leb_spec n 0); lia.
Qed.

Lemma ContextualChunker_tiles ft n data : 0 < n -> tiles data 0 (ContextualChunker_Split ft n data).
Proof.
  intros Hs. pose proof (zlen_nonneg data). unfold ContextualChunker_Split.
  destruct (Z.eqb_spec (zlen data) 0); [by constructor|].
  destruct (bool_decide _); [apply FixedChunker_tiles|]. apply contextual_loop_tiles; [done|lia|unfold zlen; lia].
Qed.

(** [C35] Every strategy meets the contract, for the sizes its constructor allows: fixed-size
    blocks, lines and the content-defined cuts for any requested size, file-type aware chunks
    for any positive maximum. *)
Theorem Split_strategies data size delimiter ft :
  tiles data 0 (FixedChunker_Split (NewFixedChunker size) data) /\
  tiles data 0 (SemanticChunker_Split delimiter (SemanticChunker_maxSize size) data) /\
  tiles data 0 (FastCDC_Split (NewFastCDCChunker size) data) /\
  (0 < size -> tiles data 0 (ContextualChunker_Split ft size data)).
Proof.
  split; [apply FixedChunker_tiles|]. split; [apply SemanticChunker_tiles|].
  split; [apply FastCDC_laws|apply ContextualChunker_tiles].
Qed.

End chunkers.

(** ** Guessing the file type ([semantic/detector.go]) *)

Fixpoint starts_json (sample : bytes) : bool :=
  match sample with
  | [] => false
  | b :: sample =>
      if (b =? 123) || (b =? 91) then true
      else if negb (b =? 32) && negb (b =? 9) && negb (b =? 10) && negb (b =? 13) then false
      else starts_json sample
  end.

Definition has_prefix (l p : bytes) : bool := bytes_eqb (ztake (zlen p) l) p.

(** [bytes.Contains] *)
Fixpoint contains (l p : bytes) : bool :=
  has_prefix l p || match l with [] => false | _ :: l => contains l p end.

Definition count_bytes (f : Z -> bool) (l : bytes) : Z := zlen (filter (fun b => f b = true) l).

Definition is_nonprintable (b : Z) : bool :=
  (b <? 32) && negb (b =? 10) && negb (b =? 13) && negb (b =? 9).

Definition DetectHeuristicExtension (sample : bytes) : file_type :=
  if zlen sample =? 0 then UNKNOWN
  else if (zlen sample >=? 4) && has_prefix sample [127; 69; 76; 70] then ELF
  else if (zlen sample >=? 4) && has_prefix sample [80; 75; 3; 4] then ZIP
  else if (zlen sample >=? 4) && has_prefix sample [137; 80; 78; 71] then PNG
  else
    let hasNewlines := existsb (fun b => b =? newline) sample in
    if starts_json sample then
      if hasNewlines && contains sample [125; newline; 123] then JSONL else JSON
    else
      let newlineCount := count_bytes (fun b => b =? newline) sample in
      let nonPrintable := count_bytes is_nonprintable sample in
      if (newlineCount >? 5) && (nonPrintable <? zlen sample / 10) then LINES else UNKNOWN.

(** ** Witnesses *)

Lemma Reassemble_Split_witness :
  let C := FixedChunker_Split 4 in
  Reassemble (C (seqZ 0 10)) = seqZ 0 10 /\
  Forall (fun c => c_Data c <> [] /\ c_Size c = u32 (zlen (c_Data c)) /\
    c_Data c = sub (c_Offset c) (c_Offset c + zlen (c_Data c)) (seqZ 0 10)) (C (seqZ 0 10)).
Proof. exact (Reassemble_Split (FixedChunker_Split 4) (seqZ 0 10)). Defined.

Lemma gear_hash_local_witness :
  foldl gear_step 0 ([1; 2; 3] ++ seqZ 0 64) = foldl gear_step 0 ([9] ++ seqZ 0 64).
Proof. exact (gear_hash_local [1; 2; 3] [9] (seqZ 0 64) ltac:(vm_compute; discriminate)). Defined.

Lemma CDC_Split_ref_witness :
  let c := NewCDCChunker 16 in
  CDC_Split 200 c (seqZ 0 80) = cdc_ref 200 c (seqZ 0 80) 0 0.
Proof. exact (CDC_Split_ref 200 (NewCDCChunker 16) (seqZ 0 80) eq_refl eq_refl). Defined.
