(* ===== verification/Codebook.v ===== *)
(** [internal/codebook]: the brain, a [.cromdb] file of fixed-size codewords - its header,
    opening and validating it, looking codewords up, closing, and the eviction of cold entries. *)

From S2P Require Import Prelude Binary Externals Crypto.
#[local] Set Warnings "-clear-no-such-hyp".

(** The files the process can read: contents by path. *)
Class Files := read_file : bytes -> option bytes.

Module codebook.

(** ** Header ([codebook.go]) *)

Definition HeaderSize : Z := 512.
Definition MagicString : bytes := str "CROMDB".
Definition Version1 : Z := 1.

Record Header := {
  Magic : bytes;
  Version : Z;
  CodewordSize : Z;
  CodewordCount : Z;
  DataOffset : Z;
  BuildHash : bytes;
}.

Definition ParseHeader (data : bytes) : res Header :=
  if zlen data <? HeaderSize then Err "codebook: data too short for header" else
  magic ← slice data 0 6;
  if negb (bytes_eqb magic MagicString) then Err "codebook: invalid magic" else
  version ← get_le 2 data 6;
  if negb (version =? Version1) then Err "codebook: unsupported version" else
  codewordSize ← get_le 2 data 8;
  if codewordSize =? 0 then Err "codebook: codeword size cannot be zero" else
  codewordCount ← get_le 8 data 10;
  dataOffset ← get_le 8 data 18;
  if dataOffset <? HeaderSize then Err "codebook: data offset is within header region" else
  buildHash ← slice data 26 58;
  Ok {| Magic := magic; Version := version; CodewordSize := codewordSize;
        CodewordCount := codewordCount; DataOffset := dataOffset; BuildHash := buildHash |}.

Definition Serialize (h : Header) : bytes :=
  let buf := make_bytes HeaderSize in
  let buf := blit buf 0 (ztake 6 (Magic h)) in
  let buf := blit buf 6 (le_put 2 (Version h)) in
  let buf := blit buf 8 (le_put 2 (CodewordSize h)) in
  let buf := blit buf 10 (le_put 8 (CodewordCount h)) in
  let buf := blit buf 18 (le_put 8 (DataOffset h)) in
  blit buf 26 (ztake 32 (BuildHash h)).

(** ** Reader ([reader.go], [mmap.go], [lookup.go]) *)

Record Reader := {
  data : bytes;
  header : Header;
}.

(** The size check of both [Open]s, in the 64-bit arithmetic they use. *)
Definition expectedSize (h : Header) : Z :=
  u64 (DataOffset h + u64 (CodewordSize h * CodewordCount h)).

Definition OpenFromBytes (data : bytes) : res Reader :=
  if zlen data <? HeaderSize then Err "codebook: data too small" else
  header ← wrap_err "codebook: parse header" (ParseHeader data);
  if zlen data <? expectedSize header then Err "codebook: data truncated"
  else Ok {| data := data; header := header |}.

(** [Open]: the mapped region is the file. *)
Definition Open `{Files} (path : bytes) : res Reader :=
  match read_file path with
  | None => Err "codebook: open file"
  | Some data =>
      if zlen data <? HeaderSize then Err "codebook: file too small" else
      header ← wrap_err "codebook: parse header" (ParseHeader data);
      if zlen data <? expectedSize header then Err "codebook: file truncated"
      else Ok {| data := data; header := header |}
  end.

Definition count (r : Reader) : Z := CodewordCount (header r).
Definition size (r : Reader) : Z := CodewordSize (header r).

Definition maxDictionarySize : Z := 32 * 1024 * 1024 - 1024.

Definition Dictionary (r : Reader) : res bytes :=
  data ← slice (data r) (DataOffset (header r)) (zlen (data r));
  if zlen data >? maxDictionarySize
  then slice data (zlen data - maxDictionarySize) (zlen data)
  else Ok data.

Definition codeword_offset (r : Reader) (id : Z) : Z :=
  u64 (DataOffset (header r) + u64 (id * size r)).

Definition Lookup (r : Reader) (id : Z) : res bytes :=
  if id >=? count r then Err "codebook: lookup out of bounds" else
  let offset := codeword_offset r id in
  let end_ := u64 (offset + size r) in
  if end_ >? zlen (data r) then Err "codebook: lookup would read past end of file"
  else slice (data r) offset end_.

Definition LookupUnsafe (r : Reader) (id : Z) : res bytes :=
  let offset := codeword_offset r id in
  slice (data r) offset (u64 (offset + size r)).

(** [Close]: a reader of a file unmaps it, and keeps its region when that fails; a reader of bytes lets go of
    them. [munmaps] and [closes] say whether the two system calls succeed. *)
Definition Close (of_file munmaps closes : bool) (r : Reader) : Reader * res unit :=
  if negb (zlen (data r) =? 0) && of_file && negb munmaps then (r, Err "codebook: munmap failed")
  else ({| data := []; header := header r |}, if of_file && negb closes then Err "close" else Ok tt).

(** The browser build ([mmap_wasm.go]) has nothing to map: it reads the file, and checks what it has read. *)
Definition wasm_Open `{Files} (path : bytes) : res Reader :=
  match read_file path with
  | None => Err "codebook: read file"
  | Some data =>
      if zlen data <? HeaderSize then Err "codebook: data too small" else
      header ← wrap_err "codebook: parse header" (ParseHeader data);
      if zlen data <? expectedSize header then Err "codebook: data truncated"
      else Ok {| data := data; header := header |}
  end.

Definition wasm_Close (r : Reader) : Reader * res unit := ({| data := []; header := header r |}, Ok tt).

(** ** Loading every pattern ([extract.go]) *)

Fixpoint read_patterns (data : bytes) (offset cwSize i : Z) (n : nat) : res (list bytes) :=
  match n with
  | O => Ok []
  | S n =>
      let start := u64 (offset + u64 (i * cwSize)) in
      p ← slice data start (u64 (start + cwSize));
      rest ← read_patterns data offset cwSize (i + 1) n;
      Ok (p :: rest)
  end.

Definition ReadPatterns `{Files} (path : bytes) : res (list bytes) :=
  match read_file path with
  | None => Err "codebook: read file"
  | Some data =>
      header ← wrap_err "codebook: parse header" (ParseHeader data);
      if zlen data <? expectedSize header then Err "codebook: file truncated"
      else read_patterns data (DataOffset header) (CodewordSize header) 0 (Z.to_nat (CodewordCount header))
  end.

(** ** The brain of a file ([forfile.go]) *)

Definition OpenForFile `{Files, Zstd, Cipher} (microSize : Z) (micro : bytes) (encrypted : bool)
    (salt path encryptionKey : bytes) : res Reader :=
  if microSize =? 0 then
    if zlen path =? 0 then Err "este arquivo precisa do cérebro usado no pack (--codebook)"
    else wrap_err "failed to open codebook" (Open path)
  else
    micro ← (if encrypted
             then wrap_err "decrypt embedded brain" (Decrypt (DeriveKey encryptionKey salt) micro)
             else Ok micro);
    match zstd_dec [] micro with
    | Some brain => OpenFromBytes brain
    | None => Err "decompress embedded brain"
    end.

(** ** Decay ([decay.go])

    Times are Unix seconds; [lruCache] is [None] while the reader has no page cache. *)

Record DecayEngine := {
  heatmap : gmap Z Z;
  lruCache : option (gmap Z bytes);
}.

Definition Touch (now chunkID : Z) (d : DecayEngine) : DecayEngine :=
  {| heatmap := <[chunkID := now]> (heatmap d); lruCache := lruCache d |}.

Definition is_cold (now decayWindow ts : Z) : bool := now - ts >? decayWindow.

Definition cold_ids (now decayWindow : Z) (d : DecayEngine) : list Z :=
  map fst (filter (fun kv => is_cold now decayWindow kv.2 = true) (map_to_list (heatmap d))).

(** One tick: every cold chunk leaves the heat map and, when there is one, the page cache. *)
Definition decay (now decayWindow : Z) (d : DecayEngine) : DecayEngine :=
  {| heatmap := foldr delete (heatmap d) (cold_ids now decayWindow d);
     lruCache := (fun c => foldr delete c (cold_ids now decayWindow d)) <$> lruCache d |}.

(** [NewDecayEngine] for a reader whose page cache is [c], and what happens to the engine until its goroutine returns: chunks
    are touched, and the ticker that [Start] waits for fires. *)
Definition NewDecayEngine (c : option (gmap Z bytes)) : DecayEngine := {| heatmap := ∅; lruCache := c |}.

Inductive decay_event := Touched (now chunkID : Z) | Ticked (now : Z).

Definition decay_on (decayWindow : Z) (d : DecayEngine) (e : decay_event) : DecayEngine :=
  match e with Touched now chunkID => Touch now chunkID d | Ticked now => decay now decayWindow d end.

Definition decay_run (decayWindow : Z) (es : list decay_event) (d : DecayEngine) : DecayEngine :=
  foldl (decay_on decayWindow) d es.

(** ** Header layout *)

Record wf_header (h : Header) : Prop := {
  wf_magic : Magic h = MagicString;
  wf_version : Version h = Version1;
  wf_size : 0 < CodewordSize h < 2 ^ 16;
  wf_count : is_u64 (CodewordCount h);
  wf_offset : HeaderSize <= DataOffset h < 2 ^ 64;
  wf_hash : zlen (BuildHash h) = 32;
}.

Lemma Serialize_brain_image h :
  zlen (Magic h) = 6 -> zlen (BuildHash h) = 32 ->
  Serialize h = Magic h ++ le_put 2 (Version h) ++ le_put 2 (CodewordSize h)
    ++ le_put 8 (CodewordCount h) ++ le_put 8 (DataOffset h) ++ BuildHash h ++ make_bytes 454.
Proof.
  intros Hm Hb. unfold Serialize. rewrite !ztake_ge by lia.
  change (make_bytes HeaderSize) with ([] ++ make_bytes 512).
  repeat fill_field. rewrite <-!app_assoc. cbn [app]. do 6 f_equal. f_equal. len_lia.
Qed.

(** The header of a brain reads back from the first 512 bytes of its file, whatever
    follows. *)
Theorem ParseHeader_brain h rest : wf_header h -> ParseHeader (Serialize h ++ rest) = Ok h.
Proof.
  intros [Hm Hv Hs Hc Ho Hb]. assert (Hmag : zlen MagicString = 6) by done.
  rewrite Serialize_brain_image by (rewrite ?Hm; done). destruct h as [m v s c o b]; cbn [Magic Version
    CodewordSize CodewordCount DataOffset BuildHash] in *. subst m v.
  unfold HeaderSize in *. unfold is_u64 in Hc.
  pose proof (zlen_nonneg rest). unfold ParseHeader. set (magic := MagicString) in *. clearbody magic.
  assert (zlen (make_bytes 454) = 454) by by rewrite zlen_make.
  rewrite <-!app_assoc. rewrite (proj2 (Z.ltb_ge _ _)) by (unfold HeaderSize; len_lia).
  unfold Version1. repeat read_field. rewrite bytes_eqb_refl. cbn [negb]. repeat read_field.
  eval_conds. cbv iota. rewrite (proj2 (Z.eqb_neq _ _)) by lia. unfold HeaderSize.
  by rewrite (proj2 (Z.ltb_ge _ _)) by lia.
Qed.

Definition sample_header : Header :=
  {| Magic := MagicString; Version := 1; CodewordSize := 4; CodewordCount := 2; DataOffset := 512;
     BuildHash := make_bytes 32 |}.

Lemma wf_sample_brain_header : wf_header sample_header.
Proof. constructor; vm_compute; try done; split; done. Qed.

Lemma ParseHeader_brain_witness :
  wf_header sample_header /\ ParseHeader (Serialize sample_header ++ [1; 2; 3; 4; 5; 6; 7; 8]) = Ok sample_header.
Proof. split; [exact wf_sample_brain_header|exact (ParseHeader_brain sample_header _ wf_sample_brain_header)]. Defined.

Lemma no_panic_ParseHeader_brain d : no_panic (ParseHeader d).
Proof.
  unfold ParseHeader. destruct (Z.ltb_spec (zlen d) HeaderSize) as [|Hl]; [done|].
  unfold HeaderSize in *.
  repeat match goal with
  | |- no_panic (if ?c then Err _ else _) => destruct c; [done|]
  | _ => no_panic_step
  end; no_panic_tac.
Qed.

(** ** Readers whose size check did not overflow *)

Record wf_reader (r : Reader) : Prop := {
  wfr_size : 0 < size r;
  wfr_count : 0 <= count r;
  wfr_offset : 0 <= DataOffset (header r);
  wfr_fits : DataOffset (header r) + size r * count r <= zlen (data r);
  wfr_len : zlen (data r) < 2 ^ 60;
}.

(** Codeword [id] of the data section. *)
Definition codeword (r : Reader) (id : Z) : bytes :=
  sub (DataOffset (header r) + id * size r) (DataOffset (header r) + id * size r + size r) (data r).

Lemma codeword_fits r id :
  wf_reader r -> 0 <= id < count r ->
  0 <= DataOffset (header r) + id * size r /\
  DataOffset (header r) + id * size r + size r <= zlen (data r).
Proof. intros [] Hid. nia. Qed.

Lemma codeword_offset_eq r id :
  wf_reader r -> 0 <= id < count r ->
  codeword_offset r id = DataOffset (header r) + id * size r /\
  u64 (codeword_offset r id + size r) = DataOffset (header r) + id * size r + size r.
Proof.
  intros Hwf Hid. destruct (codeword_fits r id Hwf Hid). destruct Hwf. unfold codeword_offset.
  rewrite u64_add_r, !u64_small; unfold is_u64; nia.
Qed.

Lemma zlen_codeword r id : wf_reader r -> 0 <= id < count r -> zlen (codeword r id) = size r.
Proof.
  intros Hwf Hid. destruct (codeword_fits r id Hwf Hid). destruct Hwf.
  unfold codeword. rewrite zlen_sub; lia.
Qed.

Lemma LookupUnsafe_ok r id :
  wf_reader r -> 0 <= id < count r -> LookupUnsafe r id = Ok (codeword r id).
Proof.
  intros Hwf Hid. destruct (codeword_fits r id Hwf Hid), (codeword_offset_eq r id Hwf Hid) as [E1 E2].
  unfold LookupUnsafe. rewrite E2, E1. destruct Hwf. rewrite slice_ok by lia. done.
Qed.

Lemma Lookup_ok r id : wf_reader r -> 0 <= id < count r -> Lookup r id = Ok (codeword r id).
Proof.
  intros Hwf Hid. pose proof (LookupUnsafe_ok r id Hwf Hid) as HU. unfold LookupUnsafe in HU.
  destruct (codeword_fits r id Hwf Hid), (codeword_offset_eq r id Hwf Hid) as [E1 E2].
  unfold Lookup. rewrite Z.geb_leb, (proj2 (Z.leb_gt _ _)) by lia.
  by rewrite Z.gtb_ltb, (proj2 (Z.ltb_ge _ _)) by lia.
Qed.

(** On a brain whose declared size fits its file, [Lookup] returns the codeword for every
    number below the count, an error above, and never panics; the unchecked variant used by the
    searchers agrees with it. *)
Theorem Lookup_spec r id :
  wf_reader r -> 0 <= id ->
  (id < count r -> Lookup r id = Ok (codeword r id) /\ LookupUnsafe r id = Ok (codeword r id) /\
                   zlen (codeword r id) = size r) /\
  (count r <= id -> Lookup r id = Err "codebook: lookup out of bounds").
Proof.
  intros Hwf Hid. split; intros Hlt.
  - split; [by apply Lookup_ok|]. split; [by apply LookupUnsafe_ok|by apply zlen_codeword].
  - unfold Lookup. by rewrite Z.geb_leb, (proj2 (Z.leb_le _ _)) by lia.
Qed.

(** What the opened reader is. *)
Lemma OpenFromBytes_inv d r :
  OpenFromBytes d = Ok r ->
  data r = d /\ ParseHeader d = Ok (header r) /\ expectedSize (header r) <= zlen d.
Proof.
  unfold OpenFromBytes. destruct (_ <? _); [done|]. destruct (ParseHeader d); cbn; try done.
  destruct (Z.ltb_spec (zlen d) (expectedSize a)); [done|]. by intros [= <-].
Qed.

Lemma Open_inv `{Files} path r :
  Open path = Ok r -> exists d, read_file path = Some d /\ OpenFromBytes d = Ok r.
Proof.
  unfold Open, OpenFromBytes. destruct (read_file path) as [d|]; [|done]. intros Ho. exists d. split; [done|].
  destruct (_ <? _); [done|]. destruct (ParseHeader d); cbn in *; try done. by destruct (_ <? _).
Qed.

(** The two builds open the same files. *)
Lemma wasm_Open_spec `{Files} path :
  match Open path, wasm_Open path with Ok r, Ok r' => r = r' | Err _, Err _ => True | Panic _, Panic _ => True | _, _ => False end.
Proof.
  unfold Open, wasm_Open. destruct (read_file path) as [d|]; [|done]. destruct (_ <? _); [done|].
  destruct (wrap_err _ (ParseHeader d)); cbn; [|done|done]. by destruct (_ <? _).
Qed.

(** A closed brain still says how many codewords it had, but none can be looked up: the checked lookup
    returns an error, the unchecked one and the dictionary panic. *)
Lemma closed_brain of_file munmaps closes r r' id :
  Close of_file munmaps closes r = (r', Ok tt) -> wf_reader r -> 0 < DataOffset (header r) -> 0 <= id < count r ->
  count r' = count r /\ Lookup r' id = Err "codebook: lookup would read past end of file" /\
  LookupUnsafe r' id = Panic SliceBounds /\ Dictionary r' = Panic SliceBounds.
Proof.
  intros Hc Hwf Ho Hid. destruct (codeword_fits r id Hwf Hid), (codeword_offset_eq r id Hwf Hid) as [E1 E2].
  unfold Close in Hc. destruct (negb _ && of_file && negb munmaps); [done|]. injection Hc as <- _.
  unfold codeword_offset, count, size in *. destruct Hwf as [Hs _ _ _ _]. unfold size in Hs.
  split; [done|]. unfold Lookup, LookupUnsafe, Dictionary, codeword_offset, count, size. cbn [header data].
  rewrite E2, E1. change (zlen (@nil Z)) with 0.
  rewrite Z.geb_leb, (proj2 (Z.leb_gt _ _)), Z.gtb_ltb, (proj2 (Z.ltb_lt _ _)) by lia.
  split_and!; [done|rewrite slice_panic by (change (zlen (@nil Z)) with 0; lia); done|].
  rewrite slice_panic by (change (zlen (@nil Z)) with 0; lia). done.
Qed.

Lemma ParseHeader_inv d h :
  bytes_ok d -> ParseHeader d = Ok h ->
  0 < CodewordSize h < 2 ^ 16 /\ is_u64 (CodewordCount h) /\ HeaderSize <= DataOffset h < 2 ^ 64 /\
  zlen (BuildHash h) = 32 /\ Magic h = MagicString /\ Version h = Version1.
Proof.
  intros Hd. unfold ParseHeader.
  destruct (Z.ltb_spec (zlen d) HeaderSize) as [|Hl]; [done|]. unfold HeaderSize in *.
  assert (Hget : forall w off v, 0 <= w -> get_le w d off = Ok v -> 0 <= v < 2 ^ (w * 8)).
  { intros w off v Hw. unfold get_le, slice.
    destruct (0 <=? off) eqn:?, (off <=? off + w) eqn:?, (off + w <=? zlen d) eqn:?; cbn; try done.
    intros [= <-]. pose proof (le_get_range _ (bytes_ok_sub off (off + w) d Hd)) as Hr.
    rewrite (zlen_sub off (off + w) d) in Hr by lia. by replace (off + w - off) with w in Hr by lia. }
  rewrite !slice_ok by lia. cbn [mbind res_bind].
  destruct (bytes_eqb _ MagicString) eqn:Em; [|done]. apply bytes_eqb_true in Em. cbn [negb].
  destruct (get_le 2 d 6) as [v| |]; cbn [mbind res_bind]; try done.
  destruct (Z.eqb_spec v Version1); [|done]. cbn [negb].
  destruct (get_le 2 d 8) as [s| |] eqn:Es; cbn [mbind res_bind]; try done.
  destruct (Z.eqb_spec s 0); [done|].
  destruct (get_le 8 d 10) as [c| |] eqn:Ec; cbn [mbind res_bind]; try done.
  destruct (get_le 8 d 18) as [o| |] eqn:Eo; cbn [mbind res_bind]; try done.
  destruct (Z.ltb_spec o 512); [done|]. intros [= <-].
  cbn [CodewordSize CodewordCount DataOffset BuildHash Magic Version].
  apply Hget in Es, Ec, Eo; try lia. rewrite zlen_sub by lia. unfold is_u64. simpl in *. repeat split; lia || done.
Qed.

(** What opening has checked, when the declared total size is below 2^64. *)
Lemma OpenFromBytes_valid d r :
  bytes_ok d -> zlen d < 2 ^ 60 -> OpenFromBytes d = Ok r ->
  DataOffset (header r) + size r * count r < 2 ^ 64 -> wf_reader r.
Proof.
  intros Hd Hl Ho Hno. destruct (OpenFromBytes_inv d r Ho) as (<- & Hp & He).
  destruct (ParseHeader_inv _ _ Hd Hp) as (Hs & Hc & Hof & _). unfold expectedSize, size, count, is_u64, HeaderSize in *.
  rewrite u64_add_r, u64_small in He by (unfold is_u64; nia).
  constructor; unfold size, count; lia.
Qed.

Lemma Dictionary_ok r :
  wf_reader r -> exists d, Dictionary r = Ok d /\ zlen d <= maxDictionarySize.
Proof.
  intros []. assert (0 <= size r * count r) by nia. unfold Dictionary.
  rewrite slice_tail by (done || lia). cbn [mbind res_bind].
  destruct (Z.gtb_spec (zlen (zdrop (DataOffset (header r)) (data r))) maxDictionarySize).
  - eexists. split; [apply slice_tail; [unfold maxDictionarySize in *; lia|done]|].
    rewrite zlen_zdrop. unfold maxDictionarySize in *. lia.
  - by eexists.
Qed.

(** A two-codeword brain. *)
Definition sample_brain : bytes := Serialize sample_header ++ [1; 2; 3; 4; 5; 6; 7; 8].
Definition sample_reader : Reader := {| data := sample_brain; header := sample_header |}.

Lemma wf_sample_reader : wf_reader sample_reader.
Proof. constructor; vm_compute; congruence. Qed.

Lemma bytes_ok_dec (l : bytes) : forallb (fun b => (0 <=? b) && (b <? 256)) l = true -> bytes_ok l.
Proof.
  intros H. apply Forall_forall. intros b Hb. rewrite forallb_forall in H.
  apply list_elem_of_In, H, andb_true_iff in Hb as [?%Z.leb_le ?%Z.ltb_lt]. unfold is_byte, is_u8. lia.
Qed.

(** [C38] Opening a brain validates it, provided the declared total size is below 2^64: every
    later lookup of a declared codeword then succeeds, and its dictionary is available. *)
Theorem OpenFromBytes_wf d r id :
  bytes_ok d -> zlen d < 2 ^ 60 -> OpenFromBytes d = Ok r ->
  DataOffset (header r) + size r * count r < 2 ^ 64 -> 0 <= id < count r ->
  is_ok (Lookup r id) = true /\ is_ok (Dictionary r) = true.
Proof.
  intros Hd Hl Ho Hno Hid. pose proof (OpenFromBytes_valid d r Hd Hl Ho Hno) as Hwf.
  rewrite Lookup_ok by done. split; [done|]. by destruct (Dictionary_ok r Hwf) as (dict & -> & _).
Qed.

Lemma OpenFromBytes_wf_witness :
  OpenFromBytes sample_brain = Ok sample_reader /\
  is_ok (Lookup sample_reader 1) = true /\ is_ok (Dictionary sample_reader) = true.
Proof.
  assert (Ho : OpenFromBytes sample_brain = Ok sample_reader) by (vm_compute; reflexivity).
  split; [exact Ho|]. apply (OpenFromBytes_wf sample_brain sample_reader 1); try exact Ho.
  - apply bytes_ok_dec. vm_compute. reflexivity.
  - vm_compute. reflexivity.
  - vm_compute. reflexivity.
  - vm_compute. split; congruence.
Defined.

Lemma Lookup_spec_witness :
  Lookup sample_reader 1 = Ok [5; 6; 7; 8] /\ Lookup sample_reader 2 = Err "codebook: lookup out of bounds".
Proof.
  destruct (Lookup_spec sample_reader 1 wf_sample_reader ltac:(lia)) as [H1 _].
  destruct (Lookup_spec sample_reader 2 wf_sample_reader ltac:(lia)) as [_ H2].
  split; [exact (proj1 (H1 ltac:(vm_compute; reflexivity)))|exact (H2 ltac:(vm_compute; discriminate))].
Defined.

(** A brain whose declared size wraps around 2^64. *)
Definition overflow_header : Header :=
  {| Magic := MagicString; Version := 1; CodewordSize := 1; CodewordCount := 1024;
     DataOffset := 2 ^ 64 - 512; BuildHash := make_bytes 32 |}.
Definition overflow_brain : Reader := {| data := Serialize overflow_header; header := overflow_header |}.

(** Without that proviso the check can be defeated: the declared size is computed modulo
    2^64, so a 512-byte file passes as a brain of 1024 codewords; one lookup crashes with an
    inverted slice, another returns a byte of the header, and taking the dictionary crashes. *)
Theorem OpenFromBytes_overflow :
  OpenFromBytes (Serialize overflow_header) = Ok overflow_brain /\
  Lookup overflow_brain 511 = Panic SliceBounds /\
  Lookup overflow_brain 512 = Ok (str "C") /\
  Dictionary overflow_brain = Panic SliceBounds.
Proof. repeat split; vm_compute; reflexivity. Qed.

(** The dictionary of a valid brain is the tail of the data section that fits the window. *)
Lemma read_patterns_ok r i n :
  wf_reader r -> 0 <= i -> i + Z.of_nat n <= count r ->
  read_patterns (data r) (DataOffset (header r)) (CodewordSize (header r)) i n =
    Ok (map (codeword r) (seqZ i (Z.of_nat n))).
Proof.
  intros Hwf. revert i; induction n as [|n IH]; intros i Hi Hn; [done|]. cbn [read_patterns].
  pose proof (LookupUnsafe_ok r i Hwf ltac:(lia)) as HU. unfold LookupUnsafe, codeword_offset, size in HU.
  rewrite HU. cbn [mbind res_bind]. rewrite IH by lia. cbn [mbind res_bind].
  rewrite (seqZ_cons i) by lia. cbn [map]. do 4 f_equal; lia.
Qed.

(** The trainer loads exactly the codewords lookups would return, in order. *)
Theorem ReadPatterns_Lookup `{Files} path d r :
  bytes_ok d -> zlen d < 2 ^ 60 -> read_file path = Some d -> OpenFromBytes d = Ok r ->
  DataOffset (header r) + size r * count r < 2 ^ 64 ->
  exists ps, ReadPatterns path = Ok ps /\ zlen ps = count r /\
    forall id, 0 <= id < count r -> exists p, ps !! Z.to_nat id = Some p /\ Lookup r id = Ok p.
Proof.
  intros Hd Hl Hf Ho Hno. pose proof (OpenFromBytes_valid d r Hd Hl Ho Hno) as Hwf.
  destruct (OpenFromBytes_inv d r Ho) as (<- & Hp & He).
  pose proof (wfr_count r Hwf) as Hc.
  exists (map (codeword r) (seqZ 0 (count r))). split; [|split].
  - unfold ReadPatterns. rewrite Hf, Hp. cbn [wrap_err mbind res_bind].
    rewrite (proj2 (Z.ltb_ge _ _)) by lia. fold (count r).
    rewrite read_patterns_ok by (done || lia). do 3 f_equal. lia.
  - unfold zlen. rewrite length_map, length_seqZ. lia.
  - intros id Hid. exists (codeword r id). split; [|by apply Lookup_ok].
    rewrite list_lookup_fmap. rewrite lookup_seqZ_lt by lia. cbn [fmap option_fmap option_map].
    do 2 f_equal. lia.
Qed.

Lemma ReadPatterns_Lookup_witness :
  let F : Files := fun _ => Some sample_brain in
  exists ps, ReadPatterns (str "b") = Ok ps /\ zlen ps = 2 /\
    forall id, 0 <= id < 2 -> exists p, ps !! Z.to_nat id = Some p /\ Lookup sample_reader id = Ok p.
Proof.
  intros F. apply (ReadPatterns_Lookup (str "b") sample_brain sample_reader).
  - apply bytes_ok_dec. vm_compute. reflexivity.
  - vm_compute. reflexivity.
  - reflexivity.
  - vm_compute. reflexivity.
  - vm_compute. reflexivity.
Defined.

(** ** Decay *)

Lemma elem_of_cold_ids now w d id :
  id ∈ cold_ids now w d <-> exists ts, heatmap d !! id = Some ts /\ is_cold now w ts = true.
Proof.
  unfold cold_ids. rewrite list_elem_of_fmap. setoid_rewrite list_elem_of_filter.
  setoid_rewrite elem_of_map_to_list'. split; [intros ([i ts] & -> & ? & ?); eauto|].
  intros (ts & ? & ?). exists (id, ts). eauto.
Qed.

Lemma lookup_foldr_delete {A} (m : gmap Z A) ids id :
  foldr delete m ids !! id = if decide (id ∈ ids) then None else m !! id.
Proof.
  induction ids as [|i ids IH]; [by rewrite decide_False by apply not_elem_of_nil|].
  cbn [foldr]. destruct (decide (i = id)) as [->|].
  - rewrite lookup_delete_eq. by rewrite decide_True by set_solver.
  - rewrite lookup_delete_ne, IH by done. destruct (decide (id ∈ ids)), (decide (id ∈ i :: ids)); set_solver.
Qed.

(** A decay tick evicts exactly the chunks not touched within the window, from the heat map
    and from the page cache alike, and a chunk touched at the time of the tick survives it. *)
Theorem decay_spec now w d id :
  (heatmap (decay now w d) !! id =
     match heatmap d !! id with Some ts => if is_cold now w ts then None else Some ts | None => None end) /\
  (forall c, lruCache d = Some c -> exists c', lruCache (decay now w d) = Some c' /\
     c' !! id = match heatmap d !! id with
                | Some ts => if is_cold now w ts then None else c !! id
                | None => c !! id
                end) /\
  (0 <= w -> heatmap (decay now w (Touch now id d)) !! id = Some now).
Proof.
  assert (Hh : forall d, heatmap (decay now w d) !! id =
     match heatmap d !! id with Some ts => if is_cold now w ts then None else Some ts | None => None end).
  { intros d'. cbn [decay heatmap]. rewrite lookup_foldr_delete.
    destruct (decide (id ∈ cold_ids now w d')) as [Hc|Hc]; rewrite elem_of_cold_ids in Hc.
    - destruct Hc as (ts & -> & ->). done.
    - destruct (heatmap d' !! id) as [ts|]; [|done]. destruct (is_cold now w ts) eqn:E; [|done].
      destruct Hc. eauto. }
  split; [apply Hh|]. split.
  - intros c Hc. cbn [decay lruCache]. rewrite Hc. eexists. split; [done|].
    rewrite lookup_foldr_delete.
    destruct (decide (id ∈ cold_ids now w d)) as [Hi|Hi]; rewrite elem_of_cold_ids in Hi.
    + destruct Hi as (ts & -> & ->). done.
    + destruct (heatmap d !! id) as [ts|]; [|done]. destruct (is_cold now w ts) eqn:E; [|done].
      destruct Hi. eauto.
  - intros Hw. rewrite Hh. cbn [Touch heatmap]. rewrite lookup_insert_eq. unfold is_cold.
    by rewrite Z.gtb_ltb, (proj2 (Z.ltb_ge _ _)) by lia.
Qed.

(** What the heat map holds, whatever happened before: the time at which a chunk was last touched, as long as no later tick came
    more than the window after it. *)
Theorem decay_run_heatmap w es c id ts :
  heatmap (decay_run w es (NewDecayEngine c)) !! id = Some ts <->
  exists before after, es = before ++ Touched ts id :: after /\ (forall now, Touched now id ∉ after) /\
    (forall now, Ticked now ∈ after -> now - ts <= w).
Proof.
  unfold decay_run. revert ts; induction es as [|e es IH] using rev_ind; intros ts.
  { cbn. rewrite lookup_empty. split; [done|]. by intros ([] & ? & ? & _). }
  rewrite foldl_snoc. set (d := foldl _ _ es) in *. assert (Hsnoc : forall before after,
    es ++ [e] = before ++ Touched ts id :: after ->
    (after = [] /\ e = Touched ts id /\ before = es) \/ exists after', after = after' ++ [e] /\ es = before ++ Touched ts id :: after').
  { intros before after E. destruct after as [|x after _] using rev_ind.
    - left. by apply app_inj_tail in E as [-> ->].
    - right. exists after. rewrite app_comm_cons, app_assoc in E. by apply app_inj_tail in E as [-> ->]. }
  destruct e as [now i|now]; cbn [decay_on].
  - cbn [Touch heatmap]. destruct (decide (i = id)) as [->|Hne].
    + rewrite lookup_insert_eq. split.
      * intros [= ->]. exists es, []. split; [done|]. split; intros ?; [|intros H]; set_solver.
      * intros (before & after & E & Hno & _). destruct (Hsnoc _ _ E) as [(_ & [= ->] & _)|(after' & -> & _)]; [done|].
        destruct (Hno now). set_solver.
    + rewrite lookup_insert_ne, IH by done. split.
      * intros (before & after & -> & Hno & Ht). exists before, (after ++ [Touched now i]). rewrite <-app_assoc. split; [done|].
        split; intros now'; [|intros Hin; apply Ht; set_solver]. intros [H|[[= _ <-]|[]%elem_of_nil]%elem_of_cons]%elem_of_app; [by destruct (Hno now')|done].
      * intros (before & after & E & Hno & Ht). destruct (Hsnoc _ _ E) as [(_ & [= _ ->] & _)|(after' & -> & ->)]; [done|].
        exists before, after'. split; [done|]. split; [|set_solver]. intros now' H. apply (Hno now'). set_solver.
  - rewrite (proj1 (decay_spec now w d id)). split.
    + destruct (heatmap d !! id) as [ts'|] eqn:Ed in |- *; [|done]. destruct (is_cold now w ts') eqn:Ec; [done|]. intros [= ->].
      apply IH in Ed as (before & after & -> & Hno & Ht). exists before, (after ++ [Ticked now]). rewrite <-app_assoc. split; [done|].
      unfold is_cold in Ec. split; intros now'; [intros H; apply (Hno now'); set_solver|].
      intros [H|[[= ->]|[]%elem_of_nil]%elem_of_cons]%elem_of_app; [by apply Ht|lia].
    + intros (before & after & E & Hno & Ht). destruct (Hsnoc _ _ E) as [(_ & ? & _)|(after' & -> & Ees)]; [done|].
      assert (heatmap d !! id = Some ts) as ->.
      { apply IH. exists before, after'. split; [done|]. split; [|set_solver]. intros now' H. apply (Hno now'). set_solver. }
      assert (is_cold now w ts = false) as ->; [|done]. unfold is_cold. pose proof (Ht now ltac:(set_solver)). lia.
Qed.

End codebook.
