(* ===== verification/Fractal.v ===== *)
(** [internal/fractal/generator.go]: chunks that are the values of a quadratic polynomial
    modulo 256 travel as a 24-bit seed. *)

From S2P Require Import Prelude Binary.

(** [out[i]] of [GeneratePolynomial]: [x] is a [uint64]. *)
Definition poly_at (a b c i : Z) : Z := u8 (u64 (u64 (u64 (u64 (a * i) * i) + u64 (b * i)) + c)).

Definition GeneratePolynomial (seed length : Z) : bytes :=
  let a := Z.land seed 0xFF in
  let b := Z.land (Z.shiftr seed 8) 0xFF in
  let c := Z.land (Z.shiftr seed 16) 0xFF in
  map (poly_at a b c) (seqZ 0 length).

(** The inner loop, in byte arithmetic. *)
Fixpoint poly_matches (aa bb c i : Z) (rest : bytes) : bool :=
  match rest with
  | [] => true
  | t :: rest =>
      let x := u8 i in
      let val := u8 (u8 (u8 (u8 (aa * x) * x) + u8 (bb * x)) + c) in
      (val =? t) && poly_matches aa bb c (i + 1) rest
  end.

(** The loop over the leading coefficient. *)
Fixpoint find_a (candidates : list Z) (c t1 : Z) (rest : bytes) : option Z :=
  match candidates with
  | [] => None
  | a :: candidates =>
      let bb := u8 (t1 - c - a) in
      let aa := u8 a in
      if poly_matches aa bb c 2 rest
      then Some (Z.lor (Z.lor aa (Z.shiftl bb 8)) (Z.shiftl c 16))
      else find_a candidates c t1 rest
  end.

Definition FindPolynomial (targetChunk : bytes) : option Z :=
  match targetChunk with
  | [] => None
  | [c] => Some (Z.shiftl c 16)
  | c :: t1 :: rest => find_a (seqZ 0 256) c t1 rest
  end.

(** [FindGeneratingSeed], which no packer calls. [pseudo_Read seed n] is what [math/rand] reads into [n] bytes from a seed. *)
Section seed.
Variable pseudo_Read : Z -> Z -> bytes.

Fixpoint seed_loop (n : nat) (i : Z) (targetChunk : bytes) : Z * bool :=
  match n with
  | O => (0, false)
  | S n => if bytes_eqb (pseudo_Read i (zlen targetChunk)) targetChunk then (i, true) else seed_loop n (i + 1) targetChunk
  end.

Definition FindGeneratingSeed (targetChunk : bytes) (maxIterations : Z) : Z * bool :=
  seed_loop (Z.to_nat maxIterations) 0 targetChunk.

Lemma seed_loop_spec n i chunk :
  match seed_loop n i chunk with
  | (s, true) => i <= s < i + Z.of_nat n /\ pseudo_Read s (zlen chunk) = chunk /\ forall j, i <= j < s -> pseudo_Read j (zlen chunk) <> chunk
  | (s, false) => s = 0 /\ forall j, i <= j < i + Z.of_nat n -> pseudo_Read j (zlen chunk) <> chunk
  end.
Proof.
  revert i; induction n as [|n IH]; intros i; cbn [seed_loop]; [split; [done|lia]|].
  destruct (bytes_eqb _ chunk) eqn:E.
  - apply bytes_eqb_true in E. split; [lia|]. split; [done|lia].
  - assert (Hne : pseudo_Read i (zlen chunk) <> chunk) by (intros H; by rewrite H, bytes_eqb_refl in E).
    specialize (IH (i + 1)). destruct (seed_loop n (i + 1) chunk) as [s []].
    + destruct IH as (? & ? & Hj). split; [lia|]. split; [done|]. intros j ?. destruct (decide (j = i)) as [->|]; [done|apply Hj; lia].
    + destruct IH as [? Hj]. split; [done|]. intros j ?. destruct (decide (j = i)) as [->|]; [done|apply Hj; lia].
Qed.

(** The search finds the least seed below the limit that generates the chunk, and says so if there is none. *)
Theorem FindGeneratingSeed_least chunk maxIterations :
  match FindGeneratingSeed chunk maxIterations with
  | (s, true) => 0 <= s < maxIterations /\ pseudo_Read s (zlen chunk) = chunk /\ forall j, 0 <= j < s -> pseudo_Read j (zlen chunk) <> chunk
  | (s, false) => s = 0 /\ forall j, 0 <= j < maxIterations -> pseudo_Read j (zlen chunk) <> chunk
  end.
Proof.
  unfold FindGeneratingSeed. pose proof (seed_loop_spec (Z.to_nat maxIterations) 0 chunk) as H.
  destruct (seed_loop _ 0 chunk) as [s []]; destruct H as [H1 H2].
  - split; [lia|done].
  - split; [done|]. intros j Hj. apply H2. lia.
Qed.
End seed.

(** ** Arithmetic modulo 256 *)

Lemma u8_u64 x : u8 (u64 x) = u8 x.
Proof.
  unfold u8, u64. change (2 ^ 64) with (2 ^ 8 * 2 ^ 56).
  rewrite Z.rem_mul_r by lia. rewrite <-Z.add_mod_idemp_r by lia.
  rewrite (Z.mul_comm (2 ^ 8)), Z.mod_mul, Z.add_0_r by lia. apply Z.mod_mod. lia.
Qed.
Lemma u8_u8 x : u8 (u8 x) = u8 x.
Proof. apply Z.mod_mod. lia. Qed.
Lemma u8_add_l x y : u8 (u8 x + y) = u8 (x + y).
Proof. apply Zplus_mod_idemp_l. Qed.
Lemma u8_add_r x y : u8 (x + u8 y) = u8 (x + y).
Proof. apply Zplus_mod_idemp_r. Qed.
Lemma u8_mul_l x y : u8 (u8 x * y) = u8 (x * y).
Proof. apply Zmult_mod_idemp_l. Qed.
Lemma u8_mul_r x y : u8 (x * u8 y) = u8 (x * y).
Proof. apply Zmult_mod_idemp_r. Qed.

(** Both loops compute the polynomial modulo 256. *)
Lemma poly_at_eq a b c i : poly_at a b c i = u8 (a * i * i + b * i + c).
Proof.
  unfold poly_at. rewrite u64_add_l, u64_mul_l, <-Z.add_assoc, u64_add_l.
  replace (a * i * i + (u64 (b * i) + c)) with (a * i * i + c + u64 (b * i)) by lia.
  rewrite u64_add_r, u8_u64. f_equal. lia.
Qed.

Lemma byte_val_eq a b c i :
  u8 (u8 (u8 (u8 (a * u8 i) * u8 i) + u8 (b * u8 i)) + c) = u8 (a * i * i + b * i + c).
Proof.
  rewrite !u8_mul_r, !u8_mul_l, u8_add_l, <-Z.add_assoc, u8_add_l.
  replace (a * i * i + (u8 (b * i) + c)) with (a * i * i + c + u8 (b * i)) by lia.
  rewrite u8_add_r. f_equal. lia.
Qed.

(** The three coefficients of a seed. *)
Lemma seed_fields a b c :
  is_byte a -> is_byte b -> is_byte c ->
  let seed := Z.lor (Z.lor a (Z.shiftl b 8)) (Z.shiftl c 16) in
  Z.land seed 0xFF = a /\ Z.land (Z.shiftr seed 8) 0xFF = b /\
  Z.land (Z.shiftr seed 16) 0xFF = c /\ 0 <= seed < 2 ^ 24.
Proof.
  intros Ha Hb Hc seed. unfold is_byte, is_u8 in Ha, Hb, Hc.
  assert (Hs : seed = a + b * 2 ^ 8 + c * 2 ^ 16).
  { unfold seed. by rewrite (lor_shiftl_add a b 8), (lor_shiftl_add _ c 16) by lia. }
  change 0xFF with (Z.ones 8). rewrite !Z.land_ones, !Z.shiftr_div_pow2 by lia. rewrite Hs.
  repeat split; ulia.
Qed.

Lemma GeneratePolynomial_coeffs a b c seed n :
  Z.land seed 0xFF = a -> Z.land (Z.shiftr seed 8) 0xFF = b -> Z.land (Z.shiftr seed 16) 0xFF = c ->
  GeneratePolynomial seed n = map (fun i => u8 (a * i * i + b * i + c)) (seqZ 0 n).
Proof.
  intros <- <- <-. unfold GeneratePolynomial. apply map_ext. intros i. apply poly_at_eq.
Qed.

Lemma poly_matches_spec a b c i rest :
  poly_matches a b c i rest = true <->
  rest = map (fun j => u8 (a * j * j + b * j + c)) (seqZ i (zlen rest)).
Proof.
  revert i; induction rest as [|t rest IH]; intros i; [done|]. cbn [poly_matches]. rewrite byte_val_eq.
  pose proof (zlen_nonneg rest). rewrite zlen_cons, (seqZ_cons i) by lia. cbn [map].
  rewrite andb_true_iff, Z.eqb_eq, IH. unfold Z.succ. replace (Z.pred (zlen rest + 1)) with (zlen rest) by lia.
  split; [by intros [<- <-]|]. intros [= E1 E2]. by split.
Qed.

Lemma find_a_sound cands c t1 rest seed :
  find_a cands c t1 rest = Some seed ->
  exists a, is_byte a /\ seed = Z.lor (Z.lor a (Z.shiftl (u8 (t1 - c - a)) 8)) (Z.shiftl c 16) /\
    poly_matches a (u8 (t1 - c - a)) c 2 rest = true.
Proof.
  induction cands as [|a cands IH]; cbn [find_a]; [done|].
  destruct (poly_matches _ _ _ _ _) eqn:E; [|done]. intros [= <-]. exists (u8 a).
  assert (Hb : u8 (t1 - c - u8 a) = u8 (t1 - c - a)) by (unfold u8; apply Zminus_mod_idemp_r).
  rewrite Hb. split; [apply u8_range|done].
Qed.

Lemma find_a_complete cands c t1 rest a :
  a ∈ cands -> is_byte a -> poly_matches a (u8 (t1 - c - a)) c 2 rest = true ->
  find_a cands c t1 rest <> None.
Proof.
  intros Ha Hb Hm. induction cands as [|a' cands IH]; [set_solver|]. cbn [find_a].
  destruct (poly_matches (u8 a') _ _ _ _) eqn:E; [done|].
  apply elem_of_cons in Ha as [<-|Ha]; [|by apply IH].
  rewrite (u8_small a) in E by exact Hb. congruence.
Qed.

(** The seed of a found polynomial generates the chunk, in full. *)
Lemma poly_chunk a b c t1 rest :
  is_byte c -> is_byte t1 -> b = u8 (t1 - c - a) ->
  poly_matches a b c 2 rest = true ->
  c :: t1 :: rest = map (fun i => u8 (a * i * i + b * i + c)) (seqZ 0 (zlen (c :: t1 :: rest))).
Proof.
  intros Hc Ht -> Hm. apply poly_matches_spec in Hm. pose proof (zlen_nonneg rest).
  rewrite !zlen_cons, !(seqZ_cons _ (_ + 1 + 1)), (seqZ_cons _ (Z.pred _)) by lia. cbn [map].
  f_equal; [rewrite !Z.mul_0_r, u8_small; [lia|exact Hc]|]. f_equal.
  - change (Z.succ 0) with 1. rewrite !Z.mul_1_r.
    replace (a + u8 (t1 - c - a) + c) with (a + c + u8 (t1 - c - a)) by lia.
    rewrite u8_add_r. replace (a + c + (t1 - c - a)) with t1 by lia. symmetry. by apply u8_small.
  - change (Z.succ (Z.succ 0)) with 2. by replace (Z.pred (Z.pred (zlen rest + 1 + 1))) with (zlen rest) by lia.
Qed.

(** A seed found for a chunk regenerates it, and fits 24 bits. *)
Lemma FindPolynomial_sound chunk seed :
  bytes_ok chunk -> FindPolynomial chunk = Some seed ->
  GeneratePolynomial seed (zlen chunk) = chunk /\ 0 <= seed < 2 ^ 24.
Proof.
  intros Hok. destruct chunk as [|c [|t1 rest]]; [done| |].
  - intros [= <-]. inversion Hok as [|? ? Hc _]; subst.
    destruct (seed_fields 0 0 c ltac:(by split) ltac:(by split) Hc) as (H1 & H2 & H3 & H4).
    change (Z.lor (Z.lor 0 (Z.shiftl 0 8)) (Z.shiftl c 16)) with (Z.shiftl c 16) in *.
    split; [|done]. rewrite (GeneratePolynomial_coeffs 0 0 c) by done.
    change (zlen [c]) with 1. change (seqZ 0 1) with [0]. cbn [map].
    f_equal. etrans; [|exact (u8_small c Hc)]. done.
  - intros Hf. apply find_a_sound in Hf as (a & Ha & -> & Hm).
    inversion Hok as [|? ? Hc Hok']; subst. inversion Hok' as [|? ? Ht _]; subst.
    destruct (seed_fields a (u8 (t1 - c - a)) c Ha (u8_range _) Hc) as (H1 & H2 & H3 & H4).
    split; [|done]. rewrite (GeneratePolynomial_coeffs a (u8 (t1 - c - a)) c) by done.
    symmetry. by apply poly_chunk.
Qed.

(** Every non-empty chunk that some seed generates is recognised. *)
Lemma FindPolynomial_found seed n : 0 < n -> FindPolynomial (GeneratePolynomial seed n) <> None.
Proof.
  intros Hn. set (chunk := GeneratePolynomial seed n).
  assert (Hlen : zlen chunk = n).
  { unfold chunk, GeneratePolynomial, zlen. rewrite length_map, length_seqZ. lia. }
  assert (Hrange : forall x, is_byte (Z.land x 0xFF)).
  { intros x. change 0xFF with (Z.ones 8). rewrite Z.land_ones by lia. apply u8_range. }
  set (a := Z.land seed 0xFF) in *. set (b := Z.land (Z.shiftr seed 8) 0xFF) in *.
  set (c := Z.land (Z.shiftr seed 16) 0xFF) in *.
  assert (Hc : chunk = map (fun i => u8 (a * i * i + b * i + c)) (seqZ 0 n)).
  { by apply GeneratePolynomial_coeffs. }
  clearbody chunk. destruct chunk as [|c' [|t1 rest]]; [rewrite zlen_nil in Hlen; lia|done|].
  pose proof (zlen_nonneg rest). rewrite !zlen_cons in Hlen.
  rewrite (seqZ_cons 0), (seqZ_cons (Z.succ 0)) in Hc by lia. cbn [map] in Hc.
  injection Hc as Hc0 Hc1 Hrest. rewrite !Z.mul_0_r, (u8_small (0 + 0 + c)) in Hc0 by (apply Hrange).
  apply (find_a_complete _ _ _ _ a).
  - apply elem_of_seqZ. pose proof (Hrange seed) as Ha. unfold is_byte, is_u8 in Ha. fold a in Ha. lia.
  - apply Hrange.
  - apply poly_matches_spec. rewrite Hrest at 1.
    replace (Z.pred (Z.pred n)) with (zlen rest) by lia. change (Z.succ (Z.succ 0)) with 2.
    apply map_ext. intros j. subst c' t1.
    assert (Hb : u8 (u8 (a * Z.succ 0 * Z.succ 0 + b * Z.succ 0 + c) - (0 + 0 + c) - a) = b).
    { change (Z.succ 0) with 1. rewrite !Z.mul_1_r.
      replace (u8 (a + b + c) - (0 + 0 + c) - a) with (u8 (a + b + c) + (- c - a)) by lia.
      rewrite u8_add_l. replace (a + b + c + (- c - a)) with b by lia. apply u8_small, Hrange. }
    by rewrite Hb.
Qed.

(** The search for a polynomial decides the question. A seed it returns regenerates the
    chunk byte for byte at its length, and fits 24 bits, so that the identifier it travels as
    never collides with the patch flag; and when it returns none, no 64-bit seed at all
    generates the chunk. *)
Theorem FindPolynomial_correct chunk :
  bytes_ok chunk -> chunk <> [] ->
  match FindPolynomial chunk with
  | Some seed => GeneratePolynomial seed (zlen chunk) = chunk /\ 0 <= seed < 2 ^ 24
  | None => forall seed, GeneratePolynomial seed (zlen chunk) <> chunk
  end.
Proof.
  intros Hok Hne. destruct (FindPolynomial chunk) as [seed|] eqn:Ef; [by apply FindPolynomial_sound|].
  intros seed Hg. assert (0 < zlen chunk) by (destruct chunk; [done|rewrite zlen_cons; pose proof (zlen_nonneg chunk); lia]).
  apply (FindPolynomial_found seed (zlen chunk)); [done|]. by rewrite Hg.
Qed.

Lemma FindPolynomial_correct_witness :
  let chunk := GeneratePolynomial 0x0A0B0C 6 in
  FindPolynomial chunk = Some 658188 /\ GeneratePolynomial 658188 6 = chunk /\ 0 <= 658188 < 2 ^ 24.
Proof.
  intros chunk. assert (Hf : FindPolynomial chunk = Some 658188) by (vm_compute; reflexivity).
  split; [exact Hf|]. assert (Hok : bytes_ok chunk) by (repeat constructor; vm_compute; congruence).
  pose proof (FindPolynomial_correct chunk Hok ltac:(vm_compute; discriminate)) as H.
  rewrite Hf in H. exact H.
Defined.
