(* ===== verification/Merkle.v ===== *)
(** [internal/merkle/tree.go]: the hash tree over the compressed blocks of a file. *)

From S2P Require Import Prelude Binary Sha256.

(** [nodes] holds the padded leaves first, then every level up to the root. *)
Record MerkleTree := {
  t_Nodes : list bytes;
  t_LeafCount : Z;
}.

Definition hashNode (left right : bytes) : bytes := Sum256 (left ++ right).

(** The parents of one level; an odd node at the end is carried over. *)
Fixpoint next_level (level : list bytes) : list bytes :=
  match level with
  | a :: b :: level => hashNode a b :: next_level level
  | _ => level
  end.

(** [append(l, l[len(l)-1])] on an odd length. *)
Definition pad_odd (l : list bytes) : list bytes :=
  if Nat.odd (length l) then l ++ [default [] (last l)] else l.

(** A level that is not the root is made even. *)
Definition pad_level (l : list bytes) : list bytes := if (1 <? length l)%nat then pad_odd l else l.

(** The loop [for len(level) > 1]. *)
Fixpoint build_levels (fuel : nat) (level : list bytes) : list bytes :=
  match fuel with
  | O => []
  | S fuel =>
      if (1 <? length level)%nat then
        let nextLevel := pad_level (next_level level) in
        nextLevel ++ build_levels fuel nextLevel
      else []
  end.

Definition BuildFromHashes (leaves : list bytes) : MerkleTree :=
  match leaves with
  | [] => {| t_Nodes := []; t_LeafCount := 0 |}
  | _ =>
      let level := pad_odd leaves in
      {| t_Nodes := level ++ build_levels (length level) level; t_LeafCount := zlen leaves |}
  end.

Definition BuildFromChunks (chunks : list bytes) : MerkleTree := BuildFromHashes (map Sum256 chunks).

(** [copy(root[:], last)]: 32 bytes, zero-filled. *)
Definition Root (t : MerkleTree) : bytes :=
  match last (t_Nodes t) with
  | None => make_bytes 32
  | Some n => let r := ztake 32 n in r ++ make_bytes (32 - zlen r)
  end.

Lemma zlen_Root t : zlen (Root t) = 32.
Proof.
  unfold Root. destruct (last (t_Nodes t)) as [n|]; [|by rewrite zlen_make]. cbv zeta.
  rewrite zlen_app, zlen_ztake, zlen_make; pose proof (zlen_nonneg n); lia.
Qed.

(** The indices below the leaf count at which the two node arrays differ; every index when the
    arrays have different lengths. *)
Definition Diff (t other : MerkleTree) : list Z :=
  if (zlen (t_Nodes t) =? 0) || (zlen (t_Nodes other) =? 0) then []
  else if negb (zlen (t_Nodes t) =? zlen (t_Nodes other)) then seqZ 0 (t_LeafCount t)
  else filter (fun i => negb (bytes_eqb (default [] (t_Nodes t !! Z.to_nat i))
                                (default [] (t_Nodes other !! Z.to_nat i))) = true)
         (seqZ 0 (t_LeafCount t)).

(** ** The loop reaches a root *)

Lemma pairs_ind (P : list bytes -> Prop) :
  P [] -> (forall a, P [a]) -> (forall a b l, P l -> P (a :: b :: l)) -> forall l, P l.
Proof.
  intros H0 H1 H2 l. assert (Hn : P l /\ forall a, P (a :: l)) by (induction l as [|b l [IH1 IH2]]; auto).
  apply Hn.
Qed.

Lemma length_next_level l : length (next_level l) = Nat.div2 (S (length l)).
Proof. induction l as [|a|a b l IH] using pairs_ind; simpl; [done|done|]. by rewrite IH. Qed.

Lemma length_pad_odd l : length (pad_odd l) = if Nat.odd (length l) then S (length l) else length l.
Proof. unfold pad_odd. destruct (Nat.odd _); [|done]. rewrite length_app. simpl. lia. Qed.

Lemma even_div2 n : Nat.odd n = false -> (2 * Nat.div2 n = n)%nat.
Proof. intros Ho. pose proof (Nat.div2_odd n) as H. rewrite Ho in H. simpl in *. lia. Qed.
Lemma odd_div2 n : Nat.odd n = true -> (2 * Nat.div2 n + 1 = n)%nat.
Proof. intros Ho. pose proof (Nat.div2_odd n) as H. rewrite Ho in H. simpl in *. lia. Qed.

(** An even level of more than two nodes gets shorter, one of two nodes becomes the root. *)
Lemma length_next l :
  Nat.odd (length l) = false -> (1 < length l)%nat ->
  let n := length (pad_level (next_level l)) in
  (n = 1 \/ (Nat.odd n = false /\ 1 < n))%nat /\ (n < length l)%nat.
Proof.
  intros He Hl n. pose proof (even_div2 _ He) as Hd.
  assert (Hn : length (next_level l) = Nat.div2 (length l)).
  { rewrite length_next_level. destruct (Nat.odd (S (length l))) eqn:Eo.
    - apply odd_div2 in Eo. lia.
    - rewrite Nat.odd_succ, <-Nat.negb_odd, He in Eo. done. }
  unfold n, pad_level. destruct (Nat.ltb_spec 1 (length (next_level l))); [|lia].
  rewrite length_pad_odd. destruct (Nat.odd (length (next_level l))) eqn:Eo.
  - pose proof (odd_div2 _ Eo). split; [right; split; [|lia]|lia].
    by rewrite Nat.odd_succ, <-Nat.negb_odd, Eo.
  - split; [right; split; [done|lia]|lia].
Qed.

(** The root a level leads to. *)
Fixpoint top (fuel : nat) (level : list bytes) : bytes :=
  match fuel with
  | O => default [] (last level)
  | S fuel =>
      if (1 <? length level)%nat then top fuel (pad_level (next_level level))
      else default [] (last level)
  end.

Definition good_level (l : list bytes) : Prop := length l = 1%nat \/ (Nat.odd (length l) = false /\ (1 < length l)%nat).

Lemma last_build_levels fuel level :
  good_level level -> (length level <= fuel)%nat ->
  last (level ++ build_levels fuel level) = Some (top fuel level).
Proof.
  revert level; induction fuel as [|fuel IH]; intros level Hg Hf.
  { destruct Hg as [Hg|[_ Hg]]; lia. }
  cbn [build_levels top]. destruct Hg as [Hg|[He Hg]].
  - rewrite Hg. cbn. rewrite app_nil_r. destruct level as [|a [|b l]]; done.
  - rewrite (proj2 (Nat.ltb_lt _ _)) by lia. destruct (length_next level He Hg) as [Hn Hlt].
    rewrite last_app. rewrite IH; [done|exact Hn|lia].
Qed.

(** Every 32-byte node. *)
Definition hashes (l : list bytes) : Prop := Forall (fun h => zlen h = 32) l.

Lemma hashes_next_level l : hashes l -> hashes (next_level l).
Proof.
  induction l as [|a|a b l IH] using pairs_ind; intros H; [done|done|].
  inversion H as [|? ? _ H']; inversion H' as [|? ? _ H'']; subst. constructor; [apply zlen_Sum256|by apply IH].
Qed.

Lemma hashes_pad_odd l : hashes l -> hashes (pad_odd l).
Proof.
  intros H. unfold pad_odd. destruct (Nat.odd (length l)) eqn:E; [|done]. apply Forall_app. split; [done|].
  constructor; [|constructor]. destruct (last l) as [x|] eqn:El; [|by apply last_None in El; subst].
  cbn. apply last_Some_elem_of in El. by eapply Forall_forall in H.
Qed.

Lemma hashes_pad_level l : hashes l -> hashes (pad_level l).
Proof. intros H. unfold pad_level. destruct (_ <? _)%nat; [by apply hashes_pad_odd|done]. Qed.

Lemma top_hash fuel l : hashes l -> l <> [] -> zlen (top fuel l) = 32.
Proof.
  assert (Hlast : forall l, hashes l -> l <> [] -> zlen (default [] (last l)) = 32).
  { intros k Hk Hne. destruct (last k) as [x|] eqn:El; [|by apply last_None in El].
    apply last_Some_elem_of in El. cbn. by eapply Forall_forall in Hk. }
  revert l; induction fuel as [|fuel IH]; intros l H Hne; cbn [top]; [by apply Hlast|].
  destruct (Nat.ltb_spec 1 (length l)); [|by apply Hlast].
  apply IH; [by apply hashes_pad_level, hashes_next_level|].
  assert (next_level l <> []) by (destruct l as [|a [|b k]]; simpl in *; (lia || done)).
  unfold pad_level, pad_odd. repeat case_match; try done. by intros [? _]%app_nil.
Qed.

Lemma good_level_leaves leaves : leaves <> [] -> good_level (pad_odd leaves).
Proof.
  intros Hne. right. rewrite length_pad_odd. destruct leaves as [|a l]; [done|].
  destruct (Nat.odd (length (a :: l))) eqn:E.
  - split; [by rewrite Nat.odd_succ, <-Nat.negb_odd, E|simpl; lia].
  - split; [done|]. destruct l; [done|simpl; lia].
Qed.

Lemma Root_top leaves :
  leaves <> [] -> hashes leaves -> Root (BuildFromHashes leaves) = top (length (pad_odd leaves)) (pad_odd leaves).
Proof.
  intros Hne Hh. pose proof (good_level_leaves leaves Hne) as Hg.
  unfold Root, BuildFromHashes. destruct leaves as [|a l]; [done|]. cbn [t_Nodes].
  rewrite last_build_levels by (done || lia).
  assert (Ht : zlen (top (length (pad_odd (a :: l))) (pad_odd (a :: l))) = 32).
  { apply top_hash; [by apply hashes_pad_odd|]. intros E. rewrite E in Hg.
    destruct Hg as [Hg|[_ Hg]]; simpl in Hg; lia. }
  rewrite ztake_ge by lia. rewrite Ht, make_bytes_0 by lia. apply app_nil_r.
Qed.

(** ** Binding: equal roots mean equal leaves, or a collision among the hashed nodes *)

(** The strings hashed on the way from a level to the root. *)
Fixpoint pair_inputs (level : list bytes) : list bytes :=
  match level with
  | a :: b :: level => (a ++ b) :: pair_inputs level
  | _ => []
  end.

Fixpoint inputs (fuel : nat) (level : list bytes) : list bytes :=
  match fuel with
  | O => []
  | S fuel =>
      if (1 <? length level)%nat then pair_inputs level ++ inputs fuel (pad_level (next_level level))
      else []
  end.

Definition node_inputs (leaves : list bytes) : list bytes :=
  inputs (length (pad_odd leaves)) (pad_odd leaves).

Definition collision (xs ys : list bytes) : Prop :=
  exists a b, a ∈ xs /\ b ∈ ys /\ a <> b /\ Sum256 a = Sum256 b.

Lemma collision_app_l xs ys xs' ys' : collision xs ys -> collision (xs ++ xs') (ys ++ ys').
Proof. intros (a&b&Ha&Hb&Hc). exists a, b. split; [|split; [|done]]; apply elem_of_app; by left. Qed.
Lemma collision_app_r xs ys xs' ys' : collision xs' ys' -> collision (xs ++ xs') (ys ++ ys').
Proof. intros (a&b&Ha&Hb&Hc). exists a, b. split; [|split; [|done]]; apply elem_of_app; by right. Qed.

Lemma next_level_inj l1 l2 :
  hashes l1 -> hashes l2 -> length l1 = length l2 -> Nat.odd (length l1) = false ->
  next_level l1 = next_level l2 -> l1 = l2 \/ collision (pair_inputs l1) (pair_inputs l2).
Proof.
  revert l2; induction l1 as [|a|a b l1 IH] using pairs_ind; intros l2 H1 H2 Hlen He E.
  { left. by destruct l2. }
  { done. }
  destruct l2 as [|a' [|b' l2]]; try (simpl in Hlen; lia).
  inversion H1 as [|? ? Ha H1']; inversion H1' as [|? ? Hb H1'']; subst.
  inversion H2 as [|? ? Ha' H2']; inversion H2' as [|? ? Hb' H2'']; subst.
  cbn [next_level] in E. pose proof (f_equal (hd []) E) as Eh. pose proof (f_equal tail E) as El. clear E.
  cbn [hd tail] in Eh, El. cbn [pair_inputs]. unfold hashNode in Eh.
  destruct (decide (a ++ b = a' ++ b')) as [Eab|Hne].
  - apply app_inj_1 in Eab as [-> ->]; [|unfold zlen in *; lia].
    destruct (IH l2 H1'' H2'' ltac:(simpl in Hlen; lia) He El) as [-> | Hc]; [by left|right].
    by apply (collision_app_r [a' ++ b'] [a' ++ b']).
  - right. exists (a ++ b), (a' ++ b'). split; [apply list_elem_of_here|]. by split; [apply list_elem_of_here|].
Qed.

Lemma pad_odd_inj l1 l2 : length l1 = length l2 -> pad_odd l1 = pad_odd l2 -> l1 = l2.
Proof.
  intros Hl. unfold pad_odd. rewrite Hl. destruct (Nat.odd _); [|done].
  intros E. by apply app_inj_1 in E as [-> _].
Qed.

Lemma length_next_level_eq l1 l2 : length l1 = length l2 -> length (next_level l1) = length (next_level l2).
Proof. intros E. by rewrite !length_next_level, E. Qed.

Lemma length_pad_odd_eq l1 l2 : length l1 = length l2 -> length (pad_odd l1) = length (pad_odd l2).
Proof. intros E. by rewrite !length_pad_odd, E. Qed.

Lemma pad_level_inj l1 l2 : length l1 = length l2 -> pad_level l1 = pad_level l2 -> l1 = l2.
Proof. intros Hl. unfold pad_level. rewrite Hl. destruct (_ <? _)%nat; [by apply pad_odd_inj|done]. Qed.

Lemma length_pad_level_eq l1 l2 : length l1 = length l2 -> length (pad_level l1) = length (pad_level l2).
Proof. intros Hl. unfold pad_level. rewrite Hl. destruct (_ <? _)%nat; [by apply length_pad_odd_eq|done]. Qed.

Lemma top_inj fuel l1 l2 :
  hashes l1 -> hashes l2 -> length l1 = length l2 -> good_level l1 -> (length l1 <= fuel)%nat ->
  top fuel l1 = top fuel l2 -> l1 = l2 \/ collision (inputs fuel l1) (inputs fuel l2).
Proof.
  revert l1 l2; induction fuel as [|fuel IH]; intros l1 l2 H1 H2 Hlen Hg Hf E.
  { destruct Hg as [Hg|[_ Hg]]; lia. }
  cbn [top inputs] in *. rewrite <-Hlen in *. destruct Hg as [Hg|[He Hg]].
  - rewrite Hg in *. cbn in E. destruct l1 as [|a [|? ?]], l2 as [|b [|? ?]]; try done.
    cbn in E. subst. by left.
  - rewrite (proj2 (Nat.ltb_lt 1 _)) in * by lia. destruct (length_next l1 He Hg) as [Hn Hlt].
    pose proof (length_next_level_eq l1 l2 Hlen) as Hnl.
    destruct (IH (pad_level (next_level l1)) (pad_level (next_level l2))) as [Ep|Hc]; try done.
    + by apply hashes_pad_level, hashes_next_level.
    + by apply hashes_pad_level, hashes_next_level.
    + by apply length_pad_level_eq.
    + lia.
    + apply pad_level_inj in Ep; [|done]. destruct (next_level_inj l1 l2 H1 H2 Hlen He Ep) as [?|Hc]; [by left|right].
      by apply collision_app_l.
    + right. by apply collision_app_r.
Qed.

(** The root binds the leaves: two lists of as many block hashes with the same root are
    equal, unless two different strings hashed while building the trees have the same SHA-256. *)
Theorem Root_binding xs ys :
  hashes xs -> hashes ys -> length xs = length ys ->
  Root (BuildFromHashes xs) = Root (BuildFromHashes ys) ->
  xs = ys \/ collision (node_inputs xs) (node_inputs ys).
Proof.
  intros Hx Hy Hlen E. destruct xs as [|x xs].
  { left. by destruct ys. }
  assert (Hxn : x :: xs <> []) by done. assert (Hyn : ys <> []) by by destruct ys.
  rewrite !Root_top in E by done. unfold node_inputs.
  pose proof (length_pad_odd_eq _ _ Hlen) as Hpl. rewrite <-Hpl in E. rewrite <-Hpl.
  destruct (top_inj (length (pad_odd (x :: xs))) (pad_odd (x :: xs)) (pad_odd ys)) as [Ep|Hc]; try done.
  - by apply hashes_pad_odd.
  - by apply hashes_pad_odd.
  - by apply good_level_leaves.
  - left. by apply pad_odd_inj.
  - by right.
Qed.

Definition leaf (n : Z) : bytes := Sum256 [n].

Lemma Root_binding_witness :
  let xs := [leaf 1; leaf 2; leaf 3] in
  xs = xs \/ collision (node_inputs xs) (node_inputs xs).
Proof.
  intros xs. apply (Root_binding xs xs); try reflexivity;
    repeat constructor; apply zlen_Sum256.
Defined.

(** The root does not bind the number of leaves: an odd last leaf is duplicated, so three
    blocks and the same three with the last one repeated share their root. *)
Theorem Root_padding_ambiguous a b c :
  Root (BuildFromHashes [a; b; c]) = Root (BuildFromHashes [a; b; c; c]).
Proof. reflexivity. Qed.

(** ** Comparing trees *)

Definition nodes (leaves : list bytes) : list bytes :=
  pad_odd leaves ++ build_levels (length (pad_odd leaves)) (pad_odd leaves).

Lemma BuildFromHashes_nodes leaves :
  leaves <> [] -> BuildFromHashes leaves = {| t_Nodes := nodes leaves; t_LeafCount := zlen leaves |}.
Proof. by destruct leaves. Qed.

Lemma length_build_levels_eq fuel l1 l2 :
  length l1 = length l2 -> length (build_levels fuel l1) = length (build_levels fuel l2).
Proof.
  revert l1 l2; induction fuel as [|fuel IH]; intros l1 l2 El; [done|]. cbn [build_levels].
  rewrite El. case_match; [|done]. rewrite !length_app.
  pose proof (length_pad_level_eq _ _ (length_next_level_eq _ _ El)) as E. rewrite E. f_equal. by apply IH.
Qed.

Lemma zlen_nodes_eq xs ys : length xs = length ys -> zlen (nodes xs) = zlen (nodes ys).
Proof.
  intros Hl. pose proof (length_pad_odd_eq xs ys Hl) as Hp. unfold nodes, zlen.
  rewrite !length_app, Hp. do 2 f_equal. by apply length_build_levels_eq.
Qed.

(** The leaves are the first nodes. *)
Lemma nodes_lookup xs k : (k < length xs)%nat -> nodes xs !! k = xs !! k.
Proof.
  intros Hk. unfold nodes, pad_odd. destruct (Nat.odd _); rewrite <-?app_assoc; by rewrite lookup_app_l.
Qed.

Lemma nodes_nonempty xs : xs <> [] -> (zlen (nodes xs) =? 0) = false.
Proof.
  intros Hz. apply Z.eqb_neq. intros E%zlen_0_nil. apply app_nil in E as [E _].
  unfold pad_odd in E. destruct (Nat.odd _); [by apply app_nil in E as [? _]|done].
Qed.

Lemma elem_of_Diff xs ys i :
  length xs = length ys ->
  i ∈ Diff (BuildFromHashes xs) (BuildFromHashes ys) <->
    0 <= i < zlen xs /\ xs !! Z.to_nat i <> ys !! Z.to_nat i.
Proof.
  intros Hlen. destruct (decide (xs = [])) as [->|Hx].
  { destruct ys; [|done]. change (Diff _ _) with (@nil Z). change (zlen (@nil bytes)) with 0.
    split; [by intros ?%not_elem_of_nil|intros [Hj _]; lia]. }
  assert (Hy : ys <> []) by by destruct xs, ys.
  rewrite !BuildFromHashes_nodes by done. unfold Diff. cbn [t_Nodes t_LeafCount].
  rewrite !nodes_nonempty, (zlen_nodes_eq xs ys), Z.eqb_refl by done. cbn [orb negb].
  rewrite list_elem_of_filter, elem_of_seqZ, Z.add_0_l.
  assert (Hcell : 0 <= i < zlen xs ->
    (negb (bytes_eqb (default [] (nodes xs !! Z.to_nat i)) (default [] (nodes ys !! Z.to_nat i))) = true <->
     xs !! Z.to_nat i <> ys !! Z.to_nat i)).
  { intros Hi. unfold zlen in Hi. rewrite !nodes_lookup by lia.
    destruct (lookup_lt_is_Some_2 xs (Z.to_nat i) ltac:(lia)) as [p ->].
    destruct (lookup_lt_is_Some_2 ys (Z.to_nat i) ltac:(lia)) as [q ->].
    cbn [default from_option id]. rewrite negb_true_iff. unfold bytes_eqb.
    rewrite bool_decide_eq_false. split; [by intros Hne [= ->]|by intros Hne ->]. }
  tauto.
Qed.

(** For trees over as many leaves, [Diff] is exactly the list of the blocks that differ; it
    is empty only for equal leaves. *)
Theorem Diff_spec xs ys :
  length xs = length ys ->
  (forall i, i ∈ Diff (BuildFromHashes xs) (BuildFromHashes ys) <->
     0 <= i < zlen xs /\ xs !! Z.to_nat i <> ys !! Z.to_nat i) /\
  (Diff (BuildFromHashes xs) (BuildFromHashes ys) = [] <-> xs = ys).
Proof.
  intros Hlen. pose proof (fun i => elem_of_Diff xs ys i Hlen) as Hmem. split; [done|]. split.
  - intros E. apply list_eq. intros k. destruct (decide (k < length xs)%nat) as [Hk|Hk].
    + destruct (decide (xs !! k = ys !! k)) as [|Hne]; [done|].
      assert (Z.of_nat k ∈ Diff (BuildFromHashes xs) (BuildFromHashes ys)) as Hin.
      { apply Hmem. rewrite Nat2Z.id. split; [unfold zlen; lia|done]. }
      rewrite E in Hin. by apply not_elem_of_nil in Hin.
    + rewrite !lookup_ge_None_2 by lia. done.
  - intros ->. destruct (Diff _ _) as [|j l] eqn:E; [done|]. specialize (Hmem j).
    destruct Hmem as [Hmem _]. destruct Hmem as [_ []]; [apply list_elem_of_here|done].
Qed.

Lemma Diff_spec_witness :
  1 ∈ Diff (BuildFromHashes [[1]; [2]; [3]]) (BuildFromHashes [[1]; [9]; [3]]).
Proof.
  refine (proj2 (proj1 (Diff_spec [[1]; [2]; [3]] [[1]; [9]; [3]] eq_refl) 1) _).
  split; [split; vm_compute; congruence|]. vm_compute. congruence.
Defined.
