(* ===== verification/Entropy.v ===== *)
(** [internal/entropy/analyzer.go], over IEEE 754 binary64 arithmetic: Shannon entropy of a
    sample and the magic-byte heuristics that keep compressed files out of the pipeline.

    A [float64] is a [spec_float] of the Standard Library, and every operation rounds to
    nearest even as the hardware does. [math.Log2] is a parameter, and so is the order in which
    [range] visits a map. *)

From S2P Require Import Prelude.
#[local] Set Warnings "-clear-no-such-hyp".
From Stdlib Require Import SpecFloat.

(** ** binary64 *)

Definition float64 : Type := spec_float.
Definition f64_of_int (n : Z) : float64 := binary_normalize 53 1024 n 0 false.
Definition f64_add (x y : float64) : float64 := SFadd 53 1024 x y.
Definition f64_sub (x y : float64) : float64 := SFsub 53 1024 x y.
Definition f64_mul (x y : float64) : float64 := SFmul 53 1024 x y.
Definition f64_div (x y : float64) : float64 := SFdiv 53 1024 x y.
Definition f64_ltb (x y : float64) : bool := SFltb x y.
Definition f64_leb (x y : float64) : bool := SFleb x y.
Definition f64_eqb (x y : float64) : bool := SFeqb x y.

(** A decimal literal [n/d]: the nearest double, since [n] and [d] are exact. *)
Definition f64_lit (n d : Z) : float64 := f64_div (f64_of_int n) (f64_of_int d).

(** [math.Log2], and the iteration order of a Go map of byte counts. *)
Class MathLog2 := math_Log2 : float64 -> float64.
Class MapOrder := map_order : gmap Z Z -> list (Z * Z).

(** [range] visits every key once. *)
Class MapOrderLaws (O : MapOrder) := map_order_perm (m : gmap Z Z) : map_order m ≡ₚ map_to_list m.

(** An order of iteration, to evaluate with. *)
Definition key_order : MapOrder := map_to_list.

#[export] Instance key_order_laws : MapOrderLaws key_order.
Proof. intros m. reflexivity. Defined.

(** ** Entropy *)

Section entropy.
Context {log2 : MathLog2} {order : MapOrder}.

Definition count_freq (data : bytes) : gmap Z Z :=
  foldl (fun freq b => <[b := default 0 (freq !! b) + 1]> freq) ∅ data.

(** [entropy -= p * math.Log2(p)] over the counts visited. *)
Definition entropy_sum (counts : list Z) (length : float64) : float64 :=
  foldl (fun e count => let p := f64_div (f64_of_int count) length in
           f64_sub e (f64_mul p (math_Log2 p))) (f64_of_int 0) counts.

Definition Shannon (data : bytes) : float64 :=
  if zlen data =? 0 then f64_of_int 0
  else entropy_sum (map snd (map_order (count_freq data))) (f64_of_int (zlen data)).

(** [Analyze]: the entropy of the sample and the sample, nil for an empty input. *)
Definition Analyze (input : bytes) (sampleSize : Z) : float64 * bytes :=
  let buf := ztake sampleSize input in
  if zlen buf =? 0 then (f64_of_int 0, [])
  else (entropy_sum (map snd (map_order (count_freq buf))) (f64_of_int (zlen buf)), buf).

Definition IsNeuralGGUF (buf : bytes) : bool :=
  (zlen buf >=? 4) && bytes_eqb (ztake 4 buf) (str "GGUF").

(** [buf[i:i+len(p)] == p] *)
Definition has_at (buf : bytes) (i : Z) (p : bytes) : bool := bytes_eqb (sub i (i + zlen p) buf) p.

(** The magic numbers of formats that are compressed already. *)
Definition has_compressed_magic (buf : bytes) : bool :=
  (zlen buf >? 4) &&
  (has_at buf 0 [0x89; 0x50; 0x4E; 0x47]
   || (has_at buf 0 (str "RIFF") && (zlen buf >=? 12) && has_at buf 8 (str "WEBP"))
   || has_at buf 0 [0x50; 0x4B; 0x03; 0x04]
   || has_at buf 0 [0x1F; 0x8B]
   || has_at buf 0 [0x7F; 0x45; 0x4C; 0x46]
   || IsNeuralGGUF buf
   || has_at buf 0 [0xFF; 0xD8; 0xFF]
   || has_at buf 0 (str "GIF8")).

Definition DetectHeuristicBypass (entropy : float64) (buf : bytes) : bool :=
  has_compressed_magic buf || f64_ltb (f64_lit 78 10) entropy.

Definition IsLowEntropy (entropy : float64) : bool := f64_ltb entropy (f64_of_int 1).

(** ** Hardware profile ([profiles.go])

    The limits of a node, by the number of its CPUs. *)

Record NodeConfig := {
  nc_MaxPeers : Z;
  nc_EnableFEC : bool;
  nc_Threads : Z;
  nc_MmapLimit : string;
  nc_ProfileName : string;
}.

Definition DetermineProfile (cpus : Z) : NodeConfig :=
  if cpus <=? 1 then {| nc_MaxPeers := 5; nc_EnableFEC := true; nc_Threads := 1; nc_MmapLimit := "32MB"; nc_ProfileName := "IoT/Space (Survival)" |}
  else if cpus <=? 4 then {| nc_MaxPeers := 15; nc_EnableFEC := true; nc_Threads := 2; nc_MmapLimit := "128MB"; nc_ProfileName := "Mobile (Edge)" |}
  else {| nc_MaxPeers := 500; nc_EnableFEC := false; nc_Threads := cpus; nc_MmapLimit := "Unlimited"; nc_ProfileName := "Enterprise Cloud" |}.

(** The limits grow with the machine, and no profile asks for more threads than CPUs. *)
Lemma DetermineProfile_monotone a b :
  1 <= a <= b -> nc_MaxPeers (DetermineProfile a) <= nc_MaxPeers (DetermineProfile b) /\
  nc_Threads (DetermineProfile a) <= nc_Threads (DetermineProfile b) /\ 1 <= nc_Threads (DetermineProfile a) <= a.
Proof.
  intros Hab. unfold DetermineProfile. repeat match goal with |- context [?x <=? ?y] => destruct (Z.leb_spec x y) end; cbn; lia.
Qed.

(** ** Rounding *)

Definition is_nan (x : float64) : bool := match x with S754_nan => true | _ => false end.

Lemma digits2_iter n k : digits2_pos (Pos.iter xO n k) = (digits2_pos n + k)%positive.
Proof.
  revert n; induction k as [|k IH] using Pos.peano_ind; intros n; [cbn; lia|].
  rewrite Pos.iter_succ. cbn [digits2_pos]. rewrite IH. lia.
Qed.

Lemma digits2_bound p : 2 ^ (Z.pos (digits2_pos p) - 1) <= Z.pos p < 2 ^ Z.pos (digits2_pos p).
Proof.
  induction p as [p IH|p IH|]; cbn [digits2_pos]; [| |done];
    rewrite Pos2Z.inj_succ; replace (Z.succ (Z.pos (digits2_pos p)) - 1) with (Z.succ (Z.pos (digits2_pos p) - 1)) by lia;
    rewrite !Z.pow_succ_r by lia; lia.
Qed.

Lemma shr_1_nonneg r : 0 <= shr_m r -> 0 <= shr_m (shr_1 r).
Proof. destruct r as [[|[p|p|]|p] rb sb]; cbn; lia. Qed.

Lemma iter_shr_nonneg p r : 0 <= shr_m r -> 0 <= shr_m (iter_pos shr_1 p r).
Proof. revert r; induction p; intros r Hr; cbn [iter_pos]; auto using shr_1_nonneg. Qed.

Lemma shr_fexp_nonneg m e l : 0 <= m -> 0 <= shr_m (shr_fexp 53 1024 m e l).1.
Proof.
  intros. assert (0 <= shr_m (shr_record_of_loc m l)) by (by destruct l as [|[]]).
  unfold shr_fexp, shr. case_match; cbn [fst]; auto using iter_shr_nonneg.
Qed.

Lemma round_nonneg m l : 0 <= m -> 0 <= round_nearest_even m l.
Proof. intros. unfold round_nearest_even. repeat case_match; lia. Qed.

(** Rounding a natural mantissa never gives a NaN. *)
Lemma round_aux_number s m e l : 0 <= m -> is_nan (binary_round_aux 53 1024 s m e l) = false.
Proof.
  intros Hm. unfold binary_round_aux.
  pose proof (shr_fexp_nonneg m e l Hm) as H1. destruct (shr_fexp 53 1024 m e l) as [r1 e1]; cbn [fst] in H1.
  pose proof (shr_fexp_nonneg (round_nearest_even (shr_m r1) (loc_of_shr_record r1)) e1 loc_Exact
    (round_nonneg _ _ H1)) as H2.
  destruct (shr_fexp 53 1024 (round_nearest_even _ _) e1 loc_Exact) as [r2 e2]; cbn [fst] in H2.
  destruct (shr_m r2); [done| |lia]. by case_match.
Qed.

Lemma normalize_number m e s : is_nan (binary_normalize 53 1024 m e s) = false.
Proof. destruct m; cbn [binary_normalize]; [done| |]; unfold binary_round; case_match; apply round_aux_number; lia. Qed.

(** A positive integer below 2^53 is a finite double. *)
Lemma f64_of_pos n : 0 < n < 2 ^ 53 -> exists m e, f64_of_int n = S754_finite false m e.
Proof.
  intros Hn. destruct n as [|p|]; try lia. unfold f64_of_int. cbn [binary_normalize]. unfold binary_round.
  pose proof (digits2_bound p) as Hd. set (d := Z.pos (digits2_pos p)) in *.
  assert (Hd53 : d <= 53).
  { destruct (Z.le_gt_cases d 53); [done|]. assert (2 ^ 53 <= 2 ^ (d - 1)) by (apply Z.pow_le_mono_r; lia). lia. }
  assert (E : shl_align p 0 (fexp 53 1024 (d + 0)) = (if d =? 53 then p else Pos.iter xO p (Z.to_pos (53 - d)), d - 53)).
  { unfold fexp, emin, shl_align. replace (Z.max (d + 0 - 53) (3 - 1024 - 53)) with (d - 53) by lia.
    destruct (Z.eqb_spec d 53) as [->|]; [done|].
    destruct (d - 53 - 0) as [|q|q] eqn:Eq; [lia|lia|]. f_equal. f_equal. lia. }
  rewrite E. set (p' := if d =? 53 then p else _).
  assert (Hp' : Z.pos (digits2_pos p') = 53).
  { unfold p'. destruct (Z.eqb_spec d 53); [done|]. rewrite digits2_iter. lia. }
  clearbody p'. unfold binary_round_aux, shr_fexp, fexp, emin. cbn [Zdigits2]. rewrite Hp'.
  replace (Z.max (53 + (d - 53) - 53) (3 - 1024 - 53) - (d - 53)) with 0 by lia.
  cbn [shr shr_record_of_loc loc_of_shr_record shr_m round_nearest_even Zdigits2]. rewrite Hp'.
  replace (Z.max (53 + (d - 53) - 53) (3 - 1024 - 53) - (d - 53)) with 0 by lia.
  cbn [shr shr_record_of_loc shr_m]. rewrite (proj2 (Z.leb_le _ _)) by lia. eauto.
Qed.

Lemma f64_div_number a b :
  0 <= a < 2 ^ 53 -> 0 < b < 2 ^ 53 -> is_nan (f64_div (f64_of_int a) (f64_of_int b)) = false.
Proof.
  intros Ha Hb. destruct (f64_of_pos b Hb) as (mb & eb & ->).
  destruct (decide (a = 0)) as [->|]; [done|]. destruct (f64_of_pos a) as (ma & ea & ->); [lia|].
  unfold f64_div. cbn [SFdiv]. unfold SFdiv_core_binary.
  destruct (Z.div_eucl _ _) as [q r] eqn:E. apply round_aux_number.
  change q with (q, r).1. rewrite <-E. change (fst (Z.div_eucl ?x ?y)) with (x / y).
  apply Z.div_pos; [|lia]. case_match; [done| |done]. apply Z.shiftl_nonneg. lia.
Qed.

Lemma f64_sub_number m e y : is_nan y = false -> is_nan (f64_sub (S754_finite false m e) y) = false.
Proof. intros Hy. destruct y; try done. apply normalize_number. Qed.

(** A number that is not negative is above -1. *)
Lemma f64_above_minus_one x :
  is_nan x = false -> f64_ltb x (f64_of_int 0) = false -> f64_ltb (f64_of_int (-1)) x = true.
Proof. destruct x as [[]|[]| |[] m e]; done. Qed.

(** ** Counting is exact *)

Lemma count_freq_lookup_from data (m : gmap Z Z) b :
  foldl (fun (freq : gmap Z Z) b => <[b := default 0 (freq !! b) + 1]> freq) m data !! b =
    if decide (b ∈ data) then Some (default 0 (m !! b) + Z.of_nat (count_occ Z.eq_dec data b))
    else m !! b.
Proof.
  revert m; induction data as [|x data IH]; intros m; [by rewrite decide_False by apply not_elem_of_nil|].
  cbn [foldl]. rewrite IH. destruct (decide (x = b)) as [->|Hne].
  - rewrite (decide_True (P := b ∈ b :: data)) by apply list_elem_of_here.
    rewrite lookup_insert_eq. cbn [count_occ]. destruct (Z.eq_dec b b); [|done].
    destruct (decide (b ∈ data)) as [|Hn].
    + cbn [from_option id]. f_equal. lia.
    + assert (count_occ Z.eq_dec data b = 0%nat) as ->; [|f_equal; lia].
      apply count_occ_not_In. by rewrite <-list_elem_of_In.
  - rewrite lookup_insert_ne by done. cbn [count_occ]. destruct (Z.eq_dec x b); [done|].
    destruct (decide (b ∈ data)), (decide (b ∈ x :: data)); try done; exfalso; set_solver.
Qed.

(** The frequency of a byte is the number of its occurrences. *)
Lemma count_freq_lookup data b :
  count_freq data !! b =
    if decide (b ∈ data) then Some (Z.of_nat (count_occ Z.eq_dec data b)) else None.
Proof. unfold count_freq. rewrite count_freq_lookup_from. by rewrite lookup_empty. Qed.

End entropy.
