(* ===== verification/Search.v ===== *)
(** [internal/search]: finding the codeword closest to a chunk - bit-level Hamming distance,
    the exhaustive search, the bucket index with its result cache, the search over several
    brains, and the chunker that aligns chunks to codewords. *)

From S2P Require Import Prelude Binary Sha256 Externals Entropy Chunker Codebook.
Import codebook.

(** ** Hamming distance ([search.go], [search_simd.go]) *)

(** [bits.OnesCount] of a [w]-bit word. *)
Fixpoint OnesCount (w : nat) (x : Z) : Z :=
  match w with
  | O => 0
  | S w => b2z (Z.testbit x (Z.of_nat w)) + OnesCount w x
  end.

(** [bits.OnesCount64(v1 ^ v2)] of the words at [offset]. *)
Definition word_dist (a b : bytes) (offset : Z) : Z :=
  OnesCount 64 (Z.lxor (le_get (sub offset (offset + 8) a)) (le_get (sub offset (offset + 8) b))).

(** [blocks] words of 8 bytes from [start] on. *)
Fixpoint blocks8_dist (blocks : nat) (a b : bytes) (start : Z) : Z :=
  match blocks with
  | O => 0
  | S blocks => word_dist a b start + blocks8_dist blocks a b (start + 8)
  end.

Fixpoint blocks32_dist (blocks : nat) (a b : bytes) (start : Z) : Z :=
  match blocks with
  | O => 0
  | S blocks =>
      (word_dist a b start + word_dist a b (start + 8) + word_dist a b (start + 16)
       + word_dist a b (start + 24)) + blocks32_dist blocks a b (start + 32)
  end.

(** The remaining bytes of the common prefix. *)
Fixpoint bytes_dist (a b : bytes) : Z :=
  match a, b with
  | x :: a, y :: b => OnesCount 8 (Z.lxor x y) + bytes_dist a b
  | _, _ => 0
  end.

Definition length_dist (a b : bytes) : Z :=
  if negb (zlen a =? zlen b) then Z.abs (zlen a - zlen b) * 8 else 0.

Definition hammingDistanceSIMD (a b : bytes) : Z :=
  let minLen := Z.min (zlen a) (zlen b) in
  let blocks32 := minLen / 32 in
  let remStart := blocks32 * 32 in
  let blocks8 := (minLen - remStart) / 8 in
  let tail := remStart + blocks8 * 8 in
  blocks32_dist (Z.to_nat blocks32) a b 0
  + blocks8_dist (Z.to_nat blocks8) a b remStart
  + bytes_dist (sub tail minLen a) (sub tail minLen b)
  + length_dist a b.

(** [hasSIMD]: what [cpu.X86] or [cpu.ARM64] report. *)
Definition hammingDistance (hasSIMD : bool) (a b : bytes) : Z :=
  if hasSIMD then hammingDistanceSIMD a b
  else
    let minLen := Z.min (zlen a) (zlen b) in
    let blocks := minLen / 8 in
    blocks8_dist (Z.to_nat blocks) a b 0
    + bytes_dist (sub (blocks * 8) minLen a) (sub (blocks * 8) minLen b)
    + length_dist a b.

(** ** Matches *)

Record MatchResult := {
  m_CodebookID : Z;
  m_Pattern : bytes;
  m_Distance : Z;
}.

Definition MaxInt : Z := 2 ^ 63 - 1.

Definition Similarity (m : MatchResult) (chunkBits : Z) : float64 :=
  if chunkBits =? 0 then f64_of_int 0
  else
    let s := f64_sub (f64_of_int 1) (f64_div (f64_of_int (m_Distance m)) (f64_of_int chunkBits)) in
    if f64_ltb s (f64_of_int 0) then f64_of_int 0 else s.

(** The loop shared by the searchers: scan the candidates in order, keep the first of the
    closest, stop at a perfect match. *)
Fixpoint scan (hasSIMD : bool) (cb : Reader) (chunk : bytes) (ids : list Z) (best : MatchResult)
    : res MatchResult :=
  match ids with
  | [] => Ok best
  | id :: ids =>
      pattern ← LookupUnsafe cb id;
      let dist := hammingDistance hasSIMD chunk pattern in
      if dist <? m_Distance best then
        let best := {| m_CodebookID := id; m_Pattern := pattern; m_Distance := dist |} in
        if dist =? 0 then Ok best else scan hasSIMD cb chunk ids best
      else scan hasSIMD cb chunk ids best
  end.

Definition no_match : MatchResult := {| m_CodebookID := 0; m_Pattern := []; m_Distance := MaxInt |}.

(** ** Exhaustive search ([linear.go]); [None] is the nil slice, no restriction *)

Definition linear_FindBestMatch (hasSIMD : bool) (cb : Reader) (allowed : option (list Z)) (chunk : bytes)
    : res MatchResult :=
  if count cb =? 0 then Err "search: empty codebook"
  else scan hasSIMD cb chunk (default (seqZ 0 (count cb)) allowed) no_match.

(** ** Bucket index ([lsh.go]) *)

Definition lshCacheSize : Z := 65536.
Definition AlignedMinCodewordSize : Z := 1024.

Record LSHSearcher := {
  ls_cb : Reader;
  ls_buckets : gmap Z (list Z);
  ls_allowed : option (list Z);
  ls_exact : gmap Z Z;
  ls_cache : gmap Z MatchResult;
  ls_cacheOrder : gmap Z Z;
  ls_cacheIdx : Z;
}.

(** [uint16(data[0]) | uint16(data[1])<<8] *)
Definition computeLSH (data : bytes) : Z :=
  match data with
  | x :: y :: _ => Z.lor x (u16 (Z.shiftl y 8))
  | _ => 0
  end.

Definition chunkHash (data : bytes) : Z := fnv1a data.

Section lsh.
Context {hash64 : XXHash} {log2 : MathLog2} (hasSIMD : bool).

(** [isHighEntropy]: here the frequencies are an array, visited in order. *)
Definition isHighEntropy (data : bytes) : bool :=
  if zlen data =? 0 then false
  else
    let freq := count_freq data in
    let counts := omap (fun b => freq !! b) (seqZ 0 256) in
    f64_ltb (f64_lit 75 10) (entropy_sum counts (f64_of_int (zlen data))).

(** [buildIndex]: the loop over the codewords. *)
Fixpoint build_index (cb : Reader) (ids : list Z) (buckets : gmap Z (list Z)) (exact : gmap Z Z)
    : res (gmap Z (list Z) * gmap Z Z) :=
  match ids with
  | [] => Ok (buckets, exact)
  | id :: ids =>
      pattern ← LookupUnsafe cb id;
      let hash := computeLSH pattern in
      build_index cb ids (<[hash := default [] (buckets !! hash) ++ [id]]> buckets)
        (<[xxhash_Sum64 pattern := id]> exact)
  end.

Definition NewLSHSearcher (cb : Reader) : res LSHSearcher :=
  '(buckets, exact) ← build_index cb (seqZ 0 (count cb)) ∅ ∅;
  Ok {| ls_cb := cb; ls_buckets := buckets; ls_allowed := None; ls_exact := exact;
        ls_cache := ∅; ls_cacheOrder := ∅; ls_cacheIdx := 0 |}.

Definition FindExact (ls : LSHSearcher) (chunk : bytes) : res (option Z) :=
  if negb (zlen chunk =? size (ls_cb ls)) then Ok None
  else
    match ls_exact ls !! xxhash_Sum64 chunk with
    | None => Ok None
    | Some id =>
        pattern ← LookupUnsafe (ls_cb ls) id;
        Ok (if bytes_eqb pattern chunk then Some id else None)
    end.

(** [Restrict]: the ring of the cache is left as it is. *)
Definition Restrict (allowed : list Z) (ls : LSHSearcher) : LSHSearcher :=
  {| ls_cb := ls_cb ls;
     ls_buckets :=
       filter (fun kv => kv.2 <> [])
         ((fun ids => filter (fun id => id ∈ allowed) ids) <$> ls_buckets ls);
     ls_allowed := match allowed with [] => None | _ => Some allowed end;
     ls_exact := filter (fun kv => kv.2 ∈ allowed) (ls_exact ls);
     ls_cache := ∅;
     ls_cacheOrder := ls_cacheOrder ls;
     ls_cacheIdx := ls_cacheIdx ls |}.

Definition cacheStore (h : Z) (result : MatchResult) (ls : LSHSearcher) : LSHSearcher :=
  let cache :=
    if Z.of_nat (base.size (ls_cache ls)) >=? lshCacheSize
    then delete (default 0 (ls_cacheOrder ls !! ls_cacheIdx ls)) (ls_cache ls)
    else ls_cache ls in
  {| ls_cb := ls_cb ls; ls_buckets := ls_buckets ls; ls_allowed := ls_allowed ls;
     ls_exact := ls_exact ls;
     ls_cache := <[h := result]> cache;
     ls_cacheOrder := <[ls_cacheIdx ls := h]> (ls_cacheOrder ls);
     ls_cacheIdx := (ls_cacheIdx ls + 1) mod lshCacheSize |}.

(** The placeholder for a chunk that is not worth a search. *)
Definition worst_match (cb : Reader) (chunk : bytes) : res MatchResult :=
  pattern ← LookupUnsafe cb 0;
  Ok {| m_CodebookID := 0; m_Pattern := pattern; m_Distance := zlen chunk * 8 |}.

Definition FindBestMatch (ls : LSHSearcher) (chunk : bytes) : res (MatchResult * LSHSearcher) :=
  let h := chunkHash chunk in
  match ls_cache ls !! h with
  | Some cached => Ok (cached, ls)
  | None =>
      if isHighEntropy chunk then
        result ← worst_match (ls_cb ls) chunk;
        Ok (result, cacheStore h result ls)
      else
        match ls_buckets ls !! computeLSH chunk with
        | Some (c :: candidates) =>
            result ← scan hasSIMD (ls_cb ls) chunk (c :: candidates) no_match;
            Ok (result, cacheStore h result ls)
        | _ =>
            if size (ls_cb ls) >=? AlignedMinCodewordSize then
              result ← worst_match (ls_cb ls) chunk;
              Ok (result, ls)
            else
              result ← linear_FindBestMatch hasSIMD (ls_cb ls) (ls_allowed ls) chunk;
              Ok (result, cacheStore h result ls)
        end
  end.

(** ** Several brains ([multi.go]): the tier travels in the two top bits of the identifier *)

Fixpoint multi_scan (tierIdx : Z) (searchers : list LSHSearcher) (chunk : bytes) (best : MatchResult)
    : res (MatchResult * list LSHSearcher) :=
  match searchers with
  | [] => Ok (best, [])
  | s :: searchers =>
      match FindBestMatch s chunk with
      | Err _ => '(best, rest) ← multi_scan (tierIdx + 1) searchers chunk best; Ok (best, s :: rest)
      | Panic p => Panic p
      | Ok (m, s) =>
          let best :=
            if m_Distance m <? m_Distance best
            then {| m_CodebookID := Z.lor (m_CodebookID m) (u64 (Z.shiftl tierIdx 62));
                    m_Pattern := m_Pattern m; m_Distance := m_Distance m |}
            else best in
          if m_Distance best <=? Z.quot (zlen chunk * 8) 2 then Ok (best, s :: searchers)
          else '(best, rest) ← multi_scan (tierIdx + 1) searchers chunk best; Ok (best, s :: rest)
      end
  end.

Definition multi_FindBestMatch (searchers : list LSHSearcher) (chunk : bytes)
    : res (MatchResult * list LSHSearcher) :=
  match searchers with
  | [] => Err "multi_search: no searchers provided"
  | _ =>
      '(best, searchers) ← multi_scan 0 searchers chunk no_match;
      if m_Distance best =? MaxInt then Err "multi_search: failed to find any match across all tiers"
      else Ok (best, searchers)
  end.

(** ** Chunks aligned to codewords ([aligned.go]) *)

Definition rollingPrime : Z := 1099511628211.

Record AlignedChunker := {
  ac_cb : Reader;
  ac_size : Z;
  ac_topMult : Z;
  ac_windows : gmap Z Z;
}.

Definition rollingHash (data : bytes) : Z :=
  foldl (fun h b => u64 (h * rollingPrime + b)) 0 data.

Fixpoint build_windows (cb : Reader) (ids : list Z) (windows : gmap Z Z) : res (gmap Z Z) :=
  match ids with
  | [] => Ok windows
  | id :: ids =>
      pattern ← LookupUnsafe cb id;
      build_windows cb ids (<[rollingHash pattern := id]> windows)
  end.

Definition NewAlignedChunker (cb : Reader) : res AlignedChunker :=
  let size := size cb in
  windows ← build_windows cb (seqZ 0 (count cb)) ∅;
  Ok {| ac_cb := cb; ac_size := size;
        ac_topMult := Nat.iter (Z.to_nat (size - 1)) (fun m => u64 (m * rollingPrime)) 1;
        ac_windows := windows |}.

Fixpoint emit_literal (fuel : nat) (size : Z) (data : bytes) (from to : Z) : list Chunk :=
  match fuel with
  | O => []
  | S fuel =>
      if from <? to then
        let end_ := from + size in
        let end_ := if end_ >? to then to else end_ in
        makeChunk data from end_ :: emit_literal fuel size data end_ to
      else []
  end.

Definition emitLiteral (size : Z) (data : bytes) (from to : Z) : list Chunk :=
  emit_literal (Z.to_nat (to - from)) size data from to.

(** [if id, ok := windows[h]; ok && LookupUnsafe(id) == data[pos:pos+size]]: the numbers in
    the index were all looked up when it was built. *)
Definition is_codeword (ac : AlignedChunker) (h : Z) (window : bytes) : bool :=
  match ac_windows ac !! h with
  | Some id =>
      match LookupUnsafe (ac_cb ac) id with
      | Ok pattern => bytes_eqb pattern window
      | _ => false
      end
  | None => false
  end.

(** [(h-uint64(data[pos])*topMult)*rollingPrime + uint64(data[pos+size])] *)
Definition aligned_roll (ac : AlignedChunker) (data : bytes) (pos h : Z) : Z :=
  u64 (u64 (h - u64 (byte_at data pos * ac_topMult ac)) * rollingPrime + byte_at data (pos + ac_size ac)).

(** The two loops as one: [h] is the hash carried by the inner loop, absent at its start. *)
Fixpoint aligned_loop (fuel : nat) (ac : AlignedChunker) (data : bytes) (literalStart pos : Z) (h : option Z)
    : list Chunk :=
  match fuel with
  | O => []
  | S fuel =>
      if pos + ac_size ac <=? zlen data then
        let window := sub pos (pos + ac_size ac) data in
        let h := default (rollingHash window) h in
        if is_codeword ac h window then
          emitLiteral (ac_size ac) data literalStart pos
          ++ makeChunk data pos (pos + ac_size ac)
          :: aligned_loop fuel ac data (pos + ac_size ac) (pos + ac_size ac) None
        else if pos + ac_size ac >=? zlen data then emitLiteral (ac_size ac) data literalStart (zlen data)
        else aligned_loop fuel ac data literalStart (pos + 1) (Some (aligned_roll ac data pos h))
      else emitLiteral (ac_size ac) data literalStart (zlen data)
  end.

Definition Aligned_Split (ac : AlignedChunker) (data : bytes) : list Chunk :=
  aligned_loop (S (length data)) ac data 0 0 None.

End lsh.

(** ** The distance, by definition

    The number of differing bits over the common prefix, and eight for every missing byte. *)
Fixpoint hamming_ref (a b : bytes) : Z :=
  match a, b with
  | x :: a, y :: b => OnesCount 8 (Z.lxor x y) + hamming_ref a b
  | a, b => 8 * (zlen a + zlen b)
  end.

Lemma OnesCount_split m n x :
  OnesCount (m + n) x = OnesCount m x + OnesCount n (Z.shiftr x (Z.of_nat m)).
Proof.
  induction n as [|n IH]; [rewrite Nat.add_0_r; simpl; lia|].
  rewrite Nat.add_succ_r. cbn [OnesCount]. rewrite IH, Z.shiftr_spec by lia.
  replace (Z.of_nat n + Z.of_nat m) with (Z.of_nat (m + n)) by lia. lia.
Qed.

Lemma OnesCount_ext w x y :
  (forall k, 0 <= k < Z.of_nat w -> Z.testbit x k = Z.testbit y k) -> OnesCount w x = OnesCount w y.
Proof.
  induction w as [|w IH]; intros H; [done|]. cbn [OnesCount]. rewrite IH by (intros; apply H; lia).
  rewrite H by lia. done.
Qed.

Lemma byte_high_bits x k : is_byte x -> 8 <= k -> Z.testbit x k = false.
Proof.
  intros Hx Hk. unfold is_byte, is_u8 in Hx.
  rewrite <-(Z.mod_small x (2 ^ 8)) by lia. by apply Z.mod_pow2_bits_high.
Qed.

Transparent le_get.
Lemma le_get_cons x l : le_get (x :: l) = Z.lor x (Z.shiftl (le_get l) 8).
Proof. done. Qed.
Lemma le_get_nil : le_get [] = 0.
Proof. done. Qed.
Opaque le_get.

(** The bits of a little-endian word are the bits of its bytes. *)
Lemma word_OnesCount w a b :
  bytes_ok a -> bytes_ok b -> length a = w -> length b = w ->
  OnesCount (8 * w) (Z.lxor (le_get a) (le_get b)) = bytes_dist a b.
Proof.
  revert a b; induction w as [|w IH]; intros a b Ha Hb Hla Hlb.
  { destruct a; [|done]. done. }
  destruct a as [|x a], b as [|y b]; try done. simpl in Hla, Hlb.
  apply Forall_cons in Ha as [Hx Ha'], Hb as [Hy Hb'].
  replace (8 * S w)%nat with (8 + 8 * w)%nat by lia.
  rewrite OnesCount_split, !le_get_cons. cbn [bytes_dist]. f_equal.
  - apply OnesCount_ext. intros k Hk. rewrite !Z.lxor_spec, !Z.lor_spec, !Z.shiftl_spec_low by lia.
    by rewrite !orb_false_r.
  - rewrite <-(IH a b) by (done || lia). f_equal. apply Z.bits_inj'. intros k Hk.
    rewrite Z.shiftr_spec, !Z.lxor_spec, !Z.lor_spec, !Z.shiftl_spec by lia.
    rewrite !(byte_high_bits _ (k + Z.of_nat 8)) by (done || lia). cbn [orb].
    by replace (k + Z.of_nat 8 - 8) with k by lia.
Qed.

Lemma bytes_dist_app a1 a2 b1 b2 :
  length a1 = length b1 -> bytes_dist (a1 ++ a2) (b1 ++ b2) = bytes_dist a1 b1 + bytes_dist a2 b2.
Proof.
  revert b1; induction a1 as [|x a1 IH]; intros [|y b1] Hl; try done. simpl in Hl.
  cbn [app bytes_dist]. rewrite IH by lia. lia.
Qed.

Lemma sub_split {A} lo mid hi (l : list A) :
  0 <= lo <= mid -> mid <= hi -> hi <= zlen l -> sub lo hi l = sub lo mid l ++ sub mid hi l.
Proof.
  intros. unfold sub. replace (hi - lo) with ((mid - lo) + (hi - mid)) by lia.
  rewrite <-ztake_app_ztake, zdrop_zdrop by lia. do 3 f_equal. lia.
Qed.

Lemma word_dist_bytes a b off :
  bytes_ok a -> bytes_ok b -> 0 <= off -> off + 8 <= zlen a -> off + 8 <= zlen b ->
  word_dist a b off = bytes_dist (sub off (off + 8) a) (sub off (off + 8) b).
Proof.
  intros Ha Hb Ho Hla Hlb. unfold word_dist. apply (word_OnesCount 8); try by apply bytes_ok_sub.
  - pose proof (zlen_sub off (off + 8) a). unfold zlen in *. lia.
  - pose proof (zlen_sub off (off + 8) b). unfold zlen in *. lia.
Qed.

Lemma length_sub lo hi (l : bytes) : 0 <= lo <= hi -> hi <= zlen l -> length (sub lo hi l) = Z.to_nat (hi - lo).
Proof. intros. pose proof (zlen_sub lo hi l). unfold zlen in *. lia. Qed.

(** Joining consecutive pieces of the common prefix. *)
Lemma bytes_dist_join a b lo mid hi :
  0 <= lo <= mid -> mid <= hi -> hi <= zlen a -> hi <= zlen b ->
  bytes_dist (sub lo mid a) (sub lo mid b) + bytes_dist (sub mid hi a) (sub mid hi b) =
    bytes_dist (sub lo hi a) (sub lo hi b).
Proof.
  intros. rewrite (sub_split lo mid hi a), (sub_split lo mid hi b), bytes_dist_app; try lia.
  rewrite !length_sub by lia. done.
Qed.

Lemma bytes_dist_empty a b lo : bytes_dist (sub lo lo a) (sub lo lo b) = 0.
Proof. unfold sub. rewrite Z.sub_diag, !ztake_take. done. Qed.

Lemma blocks8_dist_bytes n a b start :
  bytes_ok a -> bytes_ok b -> 0 <= start ->
  start + 8 * Z.of_nat n <= zlen a -> start + 8 * Z.of_nat n <= zlen b ->
  blocks8_dist n a b start = bytes_dist (sub start (start + 8 * Z.of_nat n) a) (sub start (start + 8 * Z.of_nat n) b).
Proof.
  intros Ha Hb. revert start; induction n as [|n IH]; intros start Hs Hla Hlb.
  { rewrite Z.mul_0_r, Z.add_0_r. by rewrite bytes_dist_empty. }
  cbn [blocks8_dist]. rewrite word_dist_bytes, IH by (done || lia).
  replace (start + 8 + 8 * Z.of_nat n) with (start + 8 * Z.of_nat (S n)) by lia.
  by rewrite bytes_dist_join by lia.
Qed.

Lemma blocks32_dist_blocks8 n a b start : blocks32_dist n a b start = blocks8_dist (4 * n) a b start.
Proof.
  revert start; induction n as [|n IH]; intros start; [done|].
  replace (4 * S n)%nat with (S (S (S (S (4 * n))))) by lia. cbn [blocks32_dist blocks8_dist].
  rewrite IH. replace (start + 8 + 8) with (start + 16) by lia. replace (start + 16 + 8) with (start + 24) by lia.
  replace (start + 24 + 8) with (start + 32) by lia. lia.
Qed.

Lemma hamming_ref_prefix a b :
  let n := Z.min (zlen a) (zlen b) in
  hamming_ref a b = bytes_dist (sub 0 n a) (sub 0 n b) + length_dist a b.
Proof.
  revert b; induction a as [|x a IH]; intros b; cbv zeta.
  - destruct b as [|y b]; [done|]. cbn [hamming_ref]. unfold length_dist.
    rewrite zlen_nil, zlen_cons. pose proof (zlen_nonneg b). rewrite (proj2 (Z.eqb_neq _ _)) by lia. cbn [negb].
    rewrite Z.min_l by lia. rewrite bytes_dist_empty. lia.
  - destruct b as [|y b].
    + cbn [hamming_ref]. unfold length_dist. rewrite zlen_nil, zlen_cons. pose proof (zlen_nonneg a).
      rewrite (proj2 (Z.eqb_neq _ _)) by lia. cbn [negb]. rewrite Z.min_r by lia. rewrite bytes_dist_empty. lia.
    + cbn [hamming_ref]. rewrite IH. unfold length_dist. rewrite !zlen_cons.
      pose proof (zlen_nonneg a). pose proof (zlen_nonneg b).
      replace (Z.min (zlen a + 1) (zlen b + 1)) with (Z.min (zlen a) (zlen b) + 1) by lia.
      unfold sub. rewrite !zdrop_0, !Z.sub_0_r. cbn [ztake].
      rewrite (proj2 (Z.leb_gt _ _)) by lia. cbn [bytes_dist]. rewrite Z.add_simpl_r.
      replace (zlen a + 1 =? zlen b + 1) with (zlen a =? zlen b) by (apply eq_true_iff_eq; rewrite !Z.eqb_eq; lia).
      replace (zlen a + 1 - (zlen b + 1)) with (zlen a - zlen b) by lia. lia.
Qed.

(** The number of differing bits, every missing byte counting as eight. *)
Lemma hammingDistance_ref hasSIMD a b :
  bytes_ok a -> bytes_ok b -> hammingDistance hasSIMD a b = hamming_ref a b.
Proof.
  intros Ha Hb. rewrite hamming_ref_prefix. unfold hammingDistance, hammingDistanceSIMD.
  set (n := Z.min (zlen a) (zlen b)). pose proof (zlen_nonneg a). pose proof (zlen_nonneg b).
  assert (Hn : 0 <= n /\ n <= zlen a /\ n <= zlen b) by lia. clearbody n. f_equal. destruct hasSIMD.
  - assert (H32 : 0 <= n / 32 /\ 32 * (n / 32) <= n) by ulia. set (q := n / 32) in *.
    assert (H8 : 0 <= (n - q * 32) / 8 /\ q * 32 + 8 * ((n - q * 32) / 8) <= n) by ulia.
    set (r := (n - q * 32) / 8) in *. clearbody q r.
    rewrite blocks32_dist_blocks8, !blocks8_dist_bytes by (done || lia).
    replace (0 + 8 * Z.of_nat (4 * Z.to_nat q)) with (q * 32) by lia.
    replace (q * 32 + 8 * Z.of_nat (Z.to_nat r)) with (q * 32 + r * 8) by lia.
    rewrite !bytes_dist_join by lia. done.
  - assert (H8 : 0 <= n / 8 /\ 8 * (n / 8) <= n) by ulia. set (q := n / 8) in *. clearbody q.
    rewrite blocks8_dist_bytes by (done || lia).
    replace (0 + 8 * Z.of_nat (Z.to_nat q)) with (q * 8) by lia. by rewrite bytes_dist_join by lia.
Qed.

(** Both implementations of the Hamming distance - eight bytes at a time, and the unrolled
    32-byte variant chosen on CPUs with vector units - compute the bit-by-bit distance: the
    machine a file was packed on has no influence on the matches. *)
Theorem hammingDistance_portable a b :
  bytes_ok a -> bytes_ok b ->
  hammingDistance true a b = hamming_ref a b /\ hammingDistance false a b = hamming_ref a b.
Proof. intros. split; by apply hammingDistance_ref. Qed.

Lemma hammingDistance_portable_witness :
  let a := seqZ 0 70 in let b := map (fun x => Z.lxor x 5) (seqZ 0 75) in
  hammingDistance true a b = hamming_ref a b /\ hammingDistance false a b = hamming_ref a b /\ hamming_ref a b = 180.
Proof.
  intros a b.
  assert (Ha : bytes_ok a) by (apply bytes_ok_dec; vm_compute; reflexivity).
  assert (Hb : bytes_ok b) by (apply bytes_ok_dec; vm_compute; reflexivity).
  destruct (hammingDistance_portable a b Ha Hb) as [E1 E2].
  split; [exact E1|]. split; [exact E2|]. vm_compute. reflexivity.
Defined.

Lemma OnesCount_nonneg w x : 0 <= OnesCount w x.
Proof. induction w as [|w IH]; [done|]. cbn [OnesCount]. destruct (Z.testbit _ _); simpl; lia. Qed.

Lemma OnesCount_zero w x :
  OnesCount w x = 0 -> forall k, 0 <= k < Z.of_nat w -> Z.testbit x k = false.
Proof.
  induction w as [|w IH]; intros H k Hk; [lia|]. cbn [OnesCount] in H. pose proof (OnesCount_nonneg w x).
  destruct (decide (k = Z.of_nat w)) as [->|]; [|apply IH; destruct (Z.testbit x (Z.of_nat w)); simpl in H; lia].
  destruct (Z.testbit x (Z.of_nat w)); simpl in H; [lia|done].
Qed.

Lemma hamming_ref_nonneg a b : 0 <= hamming_ref a b.
Proof.
  revert b; induction a as [|x a IH]; intros b.
  { cbn [hamming_ref]. pose proof (zlen_nonneg b). pose proof (zlen_nonneg (@nil Z)). lia. }
  destruct b as [|y b]; cbn [hamming_ref].
  - pose proof (zlen_nonneg (x :: a)). pose proof (zlen_nonneg (@nil Z)). lia.
  - pose proof (OnesCount_nonneg 8 (Z.lxor x y)). specialize (IH b). lia.
Qed.

(** Distance zero is equality, so the early exit of the searches loses nothing. *)
Lemma hamming_ref_zero a b : bytes_ok a -> bytes_ok b -> hamming_ref a b = 0 <-> a = b.
Proof.
  intros Ha. revert b; induction Ha as [|x a Hx Ha IH]; intros b Hb.
  - destruct b as [|y b]; cbn [hamming_ref]; [done|]. rewrite zlen_cons, zlen_nil. pose proof (zlen_nonneg b). split; [lia|done].
  - destruct Hb as [|y b Hy Hb]; cbn [hamming_ref].
    { rewrite zlen_cons, zlen_nil. pose proof (zlen_nonneg a). split; [lia|done]. }
    pose proof (hamming_ref_nonneg a b). pose proof (OnesCount_nonneg 8 (Z.lxor x y)). split.
    + intros E. assert (OnesCount 8 (Z.lxor x y) = 0) as Ex by lia.
      assert (x = y) as ->.
      { apply Z.bits_inj'. intros k Hk. destruct (Z.ltb_spec k 8).
        - pose proof (OnesCount_zero 8 _ Ex k ltac:(lia)) as Hb0. rewrite Z.lxor_spec in Hb0.
          by destruct (Z.testbit x k), (Z.testbit y k).
        - by rewrite !byte_high_bits by done. }
      f_equal. apply IH; [done|lia].
    + intros [= -> ->]. rewrite Z.lxor_nilpotent. replace (hamming_ref b b) with 0 by (symmetry; by apply IH). done.
Qed.

Lemma OnesCount_bound w x : OnesCount w x <= Z.of_nat w.
Proof. induction w as [|w IH]; [done|]. cbn [OnesCount]. destruct (Z.testbit _ _); simpl b2z; lia. Qed.

Lemma hamming_ref_bound a b : hamming_ref a b <= 8 * (zlen a + zlen b).
Proof.
  revert b; induction a as [|x a IH]; intros b; [done|].
  destruct b as [|y b]; [done|]. cbn [hamming_ref]. rewrite !zlen_cons.
  pose proof (OnesCount_bound 8 (Z.lxor x y)). specialize (IH b). lia.
Qed.

(** ** Searches return genuine codewords *)

(** The similarity of a match is a number: the first match found always replaces the initial -1. *)
Lemma Similarity_number m bits :
  0 <= m_Distance m < 2 ^ 53 -> 0 <= bits < 2 ^ 53 -> f64_ltb (f64_of_int (-1)) (Similarity m bits) = true.
Proof.
  intros Hm Hb. unfold Similarity. destruct (Z.eqb_spec bits 0); [done|]. cbv zeta.
  destruct (f64_ltb (f64_sub _ _) _) eqn:E; [done|]. apply f64_above_minus_one; [|done].
  destruct (f64_of_pos 1) as (m1 & e1 & ->); [lia|]. apply f64_sub_number, f64_div_number; lia.
Qed.


(** What the compiler relies on: the pattern of a match is the codeword of its number, and the
    distance is small enough for the similarity to be a number. *)
Definition match_ok (cb : Reader) (m : MatchResult) : Prop :=
  0 <= m_CodebookID m < count cb /\ m_Pattern m = codeword cb (m_CodebookID m) /\
  0 <= m_Distance m < 2 ^ 40.

(** A brain fit for searching. *)
Record good_brain (cb : Reader) : Prop := {
  gb_wf : wf_reader cb;
  gb_bytes : bytes_ok (data cb);
  gb_size : size cb < 2 ^ 16;
}.

Section search_proofs.
Context {hash64 : XXHash} {log2 : MathLog2} (hasSIMD : bool).

Definition ids_ok (cb : Reader) (ids : list Z) : Prop := Forall (fun id => 0 <= id < count cb) ids.

Lemma codeword_bytes cb id : good_brain cb -> bytes_ok (codeword cb id).
Proof. intros []. by apply bytes_ok_sub. Qed.

Lemma codeword_dist cb chunk id :
  good_brain cb -> bytes_ok chunk -> zlen chunk < 2 ^ 32 -> 0 <= id < count cb ->
  hammingDistance hasSIMD chunk (codeword cb id) = hamming_ref chunk (codeword cb id) /\
  0 <= hamming_ref chunk (codeword cb id) < 2 ^ 40.
Proof.
  intros Hb Hc Hl Hid. rewrite hammingDistance_ref by (done || by apply codeword_bytes).
  pose proof (hamming_ref_nonneg chunk (codeword cb id)).
  pose proof (hamming_ref_bound chunk (codeword cb id)) as Hbd.
  pose proof (zlen_nonneg chunk). destruct Hb as [Hwf ? ?].
  rewrite zlen_codeword in Hbd by done. split; [done|lia].
Qed.

(** The scan keeps the closest candidate. *)
Lemma scan_spec cb chunk ids best :
  good_brain cb -> bytes_ok chunk -> zlen chunk < 2 ^ 32 -> ids_ok cb ids -> 0 <= m_Distance best ->
  exists m, scan hasSIMD cb chunk ids best = Ok m /\
    m_Distance m <= m_Distance best /\
    (forall id, id ∈ ids -> m_Distance m <= hamming_ref chunk (codeword cb id)) /\
    (m = best \/ (match_ok cb m /\ m_CodebookID m ∈ ids /\ m_Distance m = hamming_ref chunk (m_Pattern m))).
Proof.
  intros Hb Hc Hl Hids. revert best; induction Hids as [|id ids Hid Hids IH]; intros best Hbest.
  { exists best. split; [done|]. split; [lia|]. split; [by intros ? ?%not_elem_of_nil|by left]. }
  cbn [scan]. rewrite LookupUnsafe_ok by (apply Hb || done). cbn [mbind res_bind].
  destruct (codeword_dist cb chunk id Hb Hc Hl Hid) as [-> Hd].
  set (d := hamming_ref chunk (codeword cb id)) in *.
  assert (Hmem : forall m : MatchResult, m_Distance m <= d ->
    (forall id, id ∈ ids -> m_Distance m <= hamming_ref chunk (codeword cb id)) ->
    forall id', id' ∈ id :: ids -> m_Distance m <= hamming_ref chunk (codeword cb id')).
  { intros m Hm Hr id' [-> | ?]%elem_of_cons; [done|by apply Hr]. }
  destruct (Z.ltb_spec d (m_Distance best)) as [Hlt|Hge].
  - set (best' := {| m_CodebookID := id; m_Pattern := codeword cb id; m_Distance := d |}).
    assert (Hb' : match_ok cb best' /\ m_CodebookID best' ∈ id :: ids /\ m_Distance best' = hamming_ref chunk (m_Pattern best'))
      by (split; [by repeat split; cbn; lia|]; split; [apply list_elem_of_here|done]).
    destruct (Z.eqb_spec d 0) as [Hz|Hz].
    + exists best'. split; [done|]. split; [unfold best'; cbn; lia|]. split; [|by right].
      intros id' _. unfold best'; cbn. pose proof (hamming_ref_nonneg chunk (codeword cb id')). lia.
    + destruct (IH best' ltac:(unfold best'; cbn; lia)) as (m & Hm & Hle & Hall & Hor). exists m.
      split; [done|]. unfold best' in Hle; cbn in Hle. split; [lia|]. split; [by apply Hmem|]. right.
      destruct Hor as [-> | (?&?&?)]; [done|]. split; [done|]. split; [by apply list_elem_of_further|done].
  - destruct (IH best Hbest) as (m & Hm & Hle & Hall & Hor). exists m. split; [done|]. split; [lia|].
    split; [apply Hmem; [lia|done]|]. destruct Hor as [-> | (?&?&?)]; [by left|right].
    split; [done|]. split; [by apply list_elem_of_further|done].
Qed.

Lemma scan_nonempty cb chunk ids :
  good_brain cb -> bytes_ok chunk -> zlen chunk < 2 ^ 32 -> ids_ok cb ids -> ids <> [] ->
  exists m, scan hasSIMD cb chunk ids no_match = Ok m /\ match_ok cb m /\
    m_Distance m = hamming_ref chunk (m_Pattern m) /\
    (forall id, id ∈ ids -> m_Distance m <= hamming_ref chunk (codeword cb id)).
Proof.
  intros Hb Hc Hl Hids Hne.
  destruct (scan_spec cb chunk ids no_match Hb Hc Hl Hids) as (m & Hm & _ & Hall & Hor); [done|].
  exists m. split; [done|]. destruct Hor as [-> | (?&?&?)]; [exfalso|done].
  destruct ids as [|id ids]; [done|]. apply Forall_cons in Hids as [Hid _].
  specialize (Hall id (list_elem_of_here _ _)).
  destruct (codeword_dist cb chunk id Hb Hc Hl Hid) as [_ Hd].
  cbn in Hall. unfold MaxInt in Hall. lia.
Qed.

Lemma ids_ok_seqZ cb : ids_ok cb (seqZ 0 (count cb)).
Proof. apply Forall_forall. intros id Hid%elem_of_seqZ. lia. Qed.

(** The exhaustive search returns the closest codeword of the brain, with its distance: no
    codeword is closer than the match. *)
Theorem linear_FindBestMatch_closest cb chunk :
  good_brain cb -> 0 < count cb -> bytes_ok chunk -> zlen chunk < 2 ^ 32 ->
  exists m, linear_FindBestMatch hasSIMD cb None chunk = Ok m /\ match_ok cb m /\
    m_Distance m = hamming_ref chunk (codeword cb (m_CodebookID m)) /\
    (forall id, 0 <= id < count cb ->
       hamming_ref chunk (codeword cb (m_CodebookID m)) <= hamming_ref chunk (codeword cb id)).
Proof.
  intros Hb Hc Hok Hl. unfold linear_FindBestMatch. rewrite (proj2 (Z.eqb_neq _ _)) by lia.
  cbn [default from_option id].
  destruct (scan_nonempty cb chunk (seqZ 0 (count cb)) Hb Hok Hl (ids_ok_seqZ cb)) as (m & Hm & Hmo & Hd & Hall).
  { rewrite seqZ_cons by lia. done. }
  exists m. split; [done|]. split; [done|]. destruct Hmo as (? & Hp & _). rewrite <-Hp. split; [done|].
  intros id Hid. rewrite <-Hd. apply Hall, elem_of_seqZ. lia.
Qed.

(** ** The bucket index *)

Record ls_ok (ls : LSHSearcher) : Prop := {
  lo_brain : good_brain (ls_cb ls);
  lo_count : 0 < count (ls_cb ls);
  lo_buckets : map_Forall (fun _ ids => ids_ok (ls_cb ls) ids) (ls_buckets ls);
  lo_allowed : forall ids, ls_allowed ls = Some ids -> ids <> [] /\ ids_ok (ls_cb ls) ids;
  lo_exact : map_Forall (fun _ id => 0 <= id < count (ls_cb ls)) (ls_exact ls);
  lo_cache : map_Forall (fun _ m => match_ok (ls_cb ls) m) (ls_cache ls);
}.

Lemma cacheStore_ok h m ls : ls_ok ls -> match_ok (ls_cb ls) m -> ls_ok (cacheStore h m ls).
Proof.
  intros [] Hm. constructor; try done. cbn [cacheStore ls_cache ls_cb].
  apply map_Forall_insert_2; [done|]. destruct (_ >=? _); [by apply map_Forall_delete|done].
Qed.

Lemma worst_match_ok cb chunk :
  wf_reader cb -> 0 < count cb -> zlen chunk < 2 ^ 32 ->
  exists m, worst_match cb chunk = Ok m /\ match_ok cb m.
Proof.
  intros Hwf Hc Hl. unfold worst_match. rewrite LookupUnsafe_ok by (done || lia). cbn [mbind res_bind].
  pose proof (zlen_nonneg chunk).
  eexists. split; [done|]. split; [cbn; lia|]. split; [done|cbn; lia].
Qed.

(** Whatever path a search takes, its answer is a genuine codeword. *)
Lemma FindBestMatch_ok ls chunk :
  ls_ok ls -> bytes_ok chunk -> zlen chunk < 2 ^ 32 ->
  exists m ls', FindBestMatch hasSIMD ls chunk = Ok (m, ls') /\ match_ok (ls_cb ls) m /\
    ls_ok ls' /\ ls_cb ls' = ls_cb ls.
Proof.
  intros Hls Hc Hl. pose proof Hls as [Hb Hcnt Hbk Hal _ Hca]. unfold FindBestMatch.
  destruct (ls_cache ls !! chunkHash chunk) as [m|] eqn:Ecache.
  { exists m, ls. split; [done|]. split; [by apply (Hca _ _ Ecache)|done]. }
  assert (Hstore : forall m, match_ok (ls_cb ls) m -> exists m' ls',
    Ok (m, cacheStore (chunkHash chunk) m ls) = Ok (m', ls') /\ match_ok (ls_cb ls) m' /\
    ls_ok ls' /\ ls_cb ls' = ls_cb ls).
  { intros m Hm. exists m, (cacheStore (chunkHash chunk) m ls). split; [done|]. split; [done|].
    split; [by apply cacheStore_ok|done]. }
  destruct (worst_match_ok (ls_cb ls) chunk) as (w & Hw & Hwok); [apply Hb|done|done|].
  destruct (isHighEntropy chunk). { rewrite Hw. by apply Hstore. }
  assert (Hlinear : exists m' ls',
    (result ← linear_FindBestMatch hasSIMD (ls_cb ls) (ls_allowed ls) chunk;
     Ok (result, cacheStore (chunkHash chunk) result ls)) = Ok (m', ls') /\
    match_ok (ls_cb ls) m' /\ ls_ok ls' /\ ls_cb ls' = ls_cb ls).
  { unfold linear_FindBestMatch. rewrite (proj2 (Z.eqb_neq _ _)) by lia.
    destruct (scan_nonempty (ls_cb ls) chunk (default (seqZ 0 (count (ls_cb ls))) (ls_allowed ls)))
      as (m & -> & Hm & _); try done.
    - destruct (ls_allowed ls) as [ids|]; [by apply Hal|apply ids_ok_seqZ].
    - destruct (ls_allowed ls) as [ids|]; [by apply Hal|cbn; rewrite seqZ_cons by lia; done].
    - by apply Hstore. }
  destruct (ls_buckets ls !! computeLSH chunk) as [[|c ids]|] eqn:Ebk.
  - destruct (_ >=? _); [rewrite Hw; exists w, ls; done|done].
  - destruct (scan_nonempty (ls_cb ls) chunk (c :: ids)) as (m & -> & Hm & _); try done.
    + by apply (Hbk _ _ Ebk).
    + by apply Hstore.
  - destruct (_ >=? _); [rewrite Hw; exists w, ls; done|done].
Qed.

(** [C34] A search over a valid non-empty brain always answers, and whatever path it takes - cached
    result, entropy filter, bucket, exhaustive fallback - the pattern it returns is the codeword
    of the number it returns. In particular a collision of the 64-bit hash under which results
    are cached can make a match worse but never wrong. *)
Theorem FindBestMatch_valid ls chunk :
  ls_ok ls -> bytes_ok chunk -> zlen chunk < 2 ^ 32 ->
  exists m ls', FindBestMatch hasSIMD ls chunk = Ok (m, ls') /\
    m_Pattern m = codeword (ls_cb ls) (m_CodebookID m) /\ 0 <= m_CodebookID m < count (ls_cb ls) /\
    ls_ok ls' /\ ls_cb ls' = ls_cb ls.
Proof.
  intros Hls Hc Hl. destruct (FindBestMatch_ok ls chunk Hls Hc Hl) as (m & ls' & E & (?&?&_) & ?).
  by exists m, ls'.
Qed.

Lemma Restrict_ok allowed ls : ls_ok ls -> ids_ok (ls_cb ls) allowed -> ls_ok (Restrict allowed ls).
Proof.
  intros [Hb Hcnt Hbk Hal Hex Hca] Ha. constructor; cbn [Restrict ls_cb ls_buckets ls_allowed ls_exact ls_cache]; try done.
  - intros h ids [(ids0 & <- & E)%lookup_fmap_Some _]%map_lookup_filter_Some.
    apply Forall_forall. intros id [_ Hid]%list_elem_of_filter.
    specialize (Hbk h ids0 E). by eapply Forall_forall in Hbk.
  - intros ids E. destruct allowed; [done|]. by injection E as <-.
  - intros h id [E _]%map_lookup_filter_Some. by apply (Hex h).
Qed.

(** The index maps the hash of every codeword to a codeword with that hash. *)
Lemma build_index_spec cb ids buckets exact :
  good_brain cb -> ids_ok cb ids ->
  map_Forall (fun _ l => ids_ok cb l) buckets ->
  map_Forall (fun h id => 0 <= id < count cb /\ xxhash_Sum64 (codeword cb id) = h) exact ->
  exists buckets' exact', build_index cb ids buckets exact = Ok (buckets', exact') /\
    map_Forall (fun _ l => ids_ok cb l) buckets' /\
    map_Forall (fun h id => 0 <= id < count cb /\ xxhash_Sum64 (codeword cb id) = h) exact' /\
    (forall h, is_Some (exact !! h) -> is_Some (exact' !! h)) /\
    (forall id, id ∈ ids -> is_Some (exact' !! xxhash_Sum64 (codeword cb id))).
Proof.
  intros Hb Hids. revert buckets exact; induction Hids as [|id ids Hid Hids IH]; intros buckets exact Hbk Hex.
  { exists buckets, exact. do 4 (split; [done|]). by intros ? ?%not_elem_of_nil. }
  cbn [build_index]. rewrite LookupUnsafe_ok by (done || apply Hb). cbn [mbind res_bind].
  set (p := codeword cb id). edestruct (IH (<[computeLSH p := default [] (buckets !! computeLSH p) ++ [id]]> buckets)
      (<[xxhash_Sum64 p := id]> exact)) as (b' & e' & -> & Hb' & He' & Hmon & Hin).
  - apply map_Forall_insert_2; [|done]. apply Forall_app. split; [|by constructor].
    destruct (buckets !! computeLSH p) eqn:E; [by apply (Hbk _ _ E)|constructor].
  - by apply map_Forall_insert_2.
  - exists b', e'. do 3 (split; [done|]). split.
    + intros h Hh. apply Hmon. destruct (decide (h = xxhash_Sum64 p)) as [->|].
      * by rewrite lookup_insert_eq.
      * by rewrite lookup_insert_ne.
    + intros id' [-> | Hin']%elem_of_cons; [|by apply Hin]. apply Hmon. by rewrite lookup_insert_eq.
Qed.

Lemma NewLSHSearcher_spec cb :
  good_brain cb -> 0 < count cb ->
  exists ls, NewLSHSearcher cb = Ok ls /\ ls_ok ls /\ ls_cb ls = cb /\
    map_Forall (fun h id => xxhash_Sum64 (codeword cb id) = h) (ls_exact ls) /\
    (forall id, 0 <= id < count cb -> is_Some (ls_exact ls !! xxhash_Sum64 (codeword cb id))).
Proof.
  intros Hb Hc. unfold NewLSHSearcher.
  destruct (build_index_spec cb (seqZ 0 (count cb)) ∅ ∅ Hb (ids_ok_seqZ cb) (map_Forall_empty _) (map_Forall_empty _))
    as (b & e & -> & Hb' & He' & _ & Hin). cbn [mbind res_bind].
  eexists. split; [done|]. split.
  { constructor; cbn; try done. eapply map_Forall_impl; [exact He'|].
    by intros ? ? [? _]. }
  split; [done|]. split; [eapply map_Forall_impl; [exact He'|]; by intros ? ? [_ ?]|].
  intros id Hid. apply Hin, elem_of_seqZ. lia.
Qed.

(** An exact hit names a codeword equal to the chunk. *)
Lemma FindExact_sound ls chunk :
  ls_ok ls -> exists r, FindExact ls chunk = Ok r /\
    forall id, r = Some id -> 0 <= id < count (ls_cb ls) /\ codeword (ls_cb ls) id = chunk.
Proof.
  intros [Hb _ _ _ Hex _]. unfold FindExact. destruct (negb _); [by eexists|].
  destruct (ls_exact ls !! _) as [id|] eqn:E; [|by eexists].
  pose proof (Hex _ _ E) as Hid. rewrite LookupUnsafe_ok by (done || apply Hb). cbn [mbind res_bind].
  eexists. split; [done|]. intros id'. destruct (bytes_eqb _ _) eqn:Eb; [|done].
  apply bytes_eqb_true in Eb. by intros [= <-].
Qed.

(** Deduplication is exact and complete: on a freshly indexed brain, [FindExact] only ever
    names a codeword equal to the chunk, and it finds every chunk that is a codeword - unless a
    different codeword has the same xxhash and shadows it in the index. *)
Theorem FindExact_spec cb chunk :
  good_brain cb -> 0 < count cb ->
  exists ls r, NewLSHSearcher cb = Ok ls /\ FindExact ls chunk = Ok r /\
    (forall id, r = Some id -> 0 <= id < count cb /\ codeword cb id = chunk) /\
    (forall id, 0 <= id < count cb -> codeword cb id = chunk ->
       is_Some r \/ exists id', 0 <= id' < count cb /\ codeword cb id' <> chunk /\
         xxhash_Sum64 (codeword cb id') = xxhash_Sum64 chunk).
Proof.
  intros Hb Hc. destruct (NewLSHSearcher_spec cb Hb Hc) as (ls & Hn & Hok & <- & Hhash & Hin).
  destruct (FindExact_sound ls chunk Hok) as (r & Hr & Hsound). exists ls, r.
  do 3 (split; [done|]). intros id Hid Hcw. pose proof Hr as Hr'. unfold FindExact in Hr'.
  rewrite <-Hcw, zlen_codeword, Z.eqb_refl in Hr' by (done || apply Hb). cbn [negb] in Hr'.
  destruct (Hin id Hid) as [id' E]. rewrite E in Hr'. pose proof (lo_exact ls Hok _ _ E) as Hid'.
  rewrite LookupUnsafe_ok in Hr' by (done || apply Hb). cbn [mbind res_bind] in Hr'. injection Hr' as <-.
  destruct (bytes_eqb (codeword (ls_cb ls) id') (codeword (ls_cb ls) id)) eqn:Eb; [by left|right].
  exists id'. split; [done|]. specialize (Hhash _ _ E). cbn in Hhash. rewrite <-Hcw. split; [|done].
  intros Heq. by rewrite Heq, bytes_eqb_refl in Eb.
Qed.

(** An empty brain is not refused before it is searched: a low-entropy chunk gets the error of
    the exhaustive search, but the entropy filter reads codeword 0 without a check and crashes. *)
Theorem FindBestMatch_empty_brain cb chunk :
  data cb = Serialize (header cb) -> zlen (data cb) = 512 -> DataOffset (header cb) = 512 ->
  count cb = 0 -> 0 < size cb < AlignedMinCodewordSize ->
  exists ls, NewLSHSearcher cb = Ok ls /\
    (isHighEntropy chunk = true -> FindBestMatch hasSIMD ls chunk = Panic SliceBounds) /\
    (isHighEntropy chunk = false -> FindBestMatch hasSIMD ls chunk = Err "search: empty codebook").
Proof.
  intros Hd Hl Ho Hc Hs. unfold AlignedMinCodewordSize in *.
  assert (HL : LookupUnsafe cb 0 = Panic SliceBounds).
  { unfold LookupUnsafe, codeword_offset. rewrite Ho, Z.mul_0_l. apply slice_panic. rewrite Hl.
    change (u64 (512 + u64 0)) with 512. rewrite u64_small by (unfold is_u64; lia). lia. }
  unfold NewLSHSearcher. rewrite Hc. cbn. eexists. split; [done|]. unfold FindBestMatch. cbn [ls_cache ls_cb ls_buckets ls_allowed].
  rewrite lookup_empty. split; intros E; rewrite E.
  - unfold worst_match. by rewrite HL.
  - rewrite lookup_empty. rewrite Z.geb_leb, (proj2 (Z.leb_gt _ _)) by (unfold AlignedMinCodewordSize; lia).
    unfold linear_FindBestMatch. by rewrite Hc.
Qed.

End search_proofs.

(** ** Aligned chunks *)

(** The reference: test every position with the hash of its own window. *)
Fixpoint aligned_ref (fuel : nat) (ac : AlignedChunker) (data : bytes) (literalStart pos : Z)
    {hash64 : XXHash} : list Chunk :=
  match fuel with
  | O => []
  | S fuel =>
      let window := sub pos (pos + ac_size ac) data in
      if pos + ac_size ac <=? zlen data then
        if is_codeword ac (rollingHash window) window then
          emitLiteral (ac_size ac) data literalStart pos
          ++ makeChunk data pos (pos + ac_size ac)
          :: aligned_ref fuel ac data (pos + ac_size ac) (pos + ac_size ac)
        else aligned_ref fuel ac data literalStart (pos + 1)
      else emitLiteral (ac_size ac) data literalStart (zlen data)
  end.

Lemma topMult_eq n : Nat.iter n (fun m => u64 (m * rollingPrime)) 1 = u64 (rollingPrime ^ Z.of_nat n).
Proof.
  induction n as [|n IH]; [done|]. rewrite Nat.iter_succ, IH, u64_mul_l.
  rewrite Nat2Z.inj_succ, Z.pow_succ_r by lia. f_equal. lia.
Qed.

Lemma rollingHash_poly l : rollingHash l = foldl poly_step 0 l.
Proof. done. Qed.

Section aligned_proofs.
Context {hash64 : XXHash}.

(** What [NewAlignedChunker] guarantees. *)
Record ac_ok (ac : AlignedChunker) : Prop := {
  ao_size : 0 < ac_size ac;
  ao_top : ac_topMult ac = u64 (rollingPrime ^ (ac_size ac - 1));
}.

Lemma NewAlignedChunker_ok cb ac : good_brain cb -> NewAlignedChunker cb = Ok ac -> ac_ok ac.
Proof.
  intros [[]]. unfold NewAlignedChunker. intros (w & _ & [= <-])%bind_ok. constructor; cbn; [lia|].
  rewrite topMult_eq. do 2 f_equal. lia.
Qed.

(** Sliding the window by one byte. *)
Lemma aligned_roll_window ac data pos :
  ac_ok ac -> 0 <= pos -> pos + ac_size ac < zlen data ->
  aligned_roll ac data pos (rollingHash (sub pos (pos + ac_size ac) data)) =
    rollingHash (sub (pos + 1) (pos + 1 + ac_size ac) data).
Proof.
  intros [Hs Ht] Hp Hl. unfold aligned_roll. rewrite Ht. set (n := ac_size ac) in *.
  replace (pos + 1 + n) with (pos + n + 1) by lia.
  rewrite (sub_head pos (pos + n)) by lia. rewrite (sub_snoc (pos + 1) (pos + n)) by lia.
  rewrite (rollingHash_poly (_ :: _)), (rollingHash_poly (_ ++ _)), foldl_snoc.
  set (w := sub (pos + 1) (pos + n) data). set (b0 := byte_at data pos). set (b := byte_at data (pos + n)).
  assert (Hw : zlen w = n - 1) by (unfold w; rewrite zlen_sub; lia).
  change (foldl poly_step 0 (b0 :: w)) with (foldl poly_step (poly_step 0 b0) w).
  change rollingPrime with prime64. unfold poly_step at 4.
  destruct (poly_fold_shift w (poly_step 0 b0)) as [-> | Hnil].
  - rewrite Hw. set (P := foldl poly_step 0 w). unfold poly_step.
    rewrite Z.mul_0_l, Z.add_0_l, u64_mul_r.
    rewrite <-(u64_add_l (u64 b0 * _) P), u64_mul_l, u64_add_l, u64_sub_r, u64_sub_l.
    replace (b0 * prime64 ^ (n - 1) + P - b0 * prime64 ^ (n - 1)) with P by lia.
    rewrite <-(u64_add_l (u64 P * prime64)), u64_mul_l, u64_add_l. done.
  - rewrite Hnil in *. cbn [foldl]. rewrite zlen_nil in Hw. replace (n - 1) with 0 by lia.
    unfold poly_step. rewrite Z.mul_0_l, Z.add_0_l, Z.pow_0_r, u64_mul_r, Z.mul_1_r.
    rewrite u64_sub_r, u64_sub_l, Z.sub_diag. done.
Qed.

Lemma emit_literal_tiles fuel size data from to rest :
  0 < size -> 0 <= from <= to -> to <= zlen data -> to - from <= Z.of_nat fuel ->
  tiles data to rest -> tiles data from (emit_literal fuel size data from to ++ rest).
Proof.
  intros Hs. revert from; induction fuel as [|fuel IH]; intros from Hf Ht Hfuel Hrest; cbn [emit_literal].
  { by replace from with to by lia. }
  destruct (Z.ltb_spec from to); [|by replace from with to by lia]. cbn [app].
  set (end_ := if _ >? _ then _ else _).
  assert (from < end_ <= to) by (unfold end_; case_cmp; lia).
  apply tiles_cons; [lia|]. apply IH; (done || lia).
Qed.

Lemma emitLiteral_tiles size data from to rest :
  0 < size -> 0 <= from <= to -> to <= zlen data -> tiles data to rest ->
  tiles data from (emitLiteral size data from to ++ rest).
Proof. intros. apply emit_literal_tiles; (done || lia). Qed.

Lemma emitLiteral_end size data from :
  0 < size -> 0 <= from <= zlen data -> tiles data from (emitLiteral size data from (zlen data)).
Proof.
  intros. rewrite <-(app_nil_r (emitLiteral _ _ _ _)). apply emitLiteral_tiles; (done || lia || by constructor).
Qed.

Lemma aligned_ref_tiles fuel ac data literalStart pos :
  0 < ac_size ac -> 0 <= literalStart <= pos -> pos <= zlen data -> zlen data - pos < Z.of_nat fuel ->
  tiles data literalStart (aligned_ref fuel ac data literalStart pos).
Proof.
  intros Hs. revert literalStart pos; induction fuel as [|fuel IH]; intros literalStart pos Hl Hp Hf; [lia|].
  cbn [aligned_ref]. destruct (Z.leb_spec (pos + ac_size ac) (zlen data)); [|apply emitLiteral_end; lia].
  destruct (is_codeword _ _ _); [|apply IH; lia].
  apply emitLiteral_tiles; [done|lia|lia|]. apply tiles_cons; [lia|]. apply IH; lia.
Qed.

Lemma aligned_ref_short fuel ac data literalStart pos :
  0 < ac_size ac -> zlen data < pos + ac_size ac -> (0 < fuel)%nat ->
  aligned_ref fuel ac data literalStart pos = emitLiteral (ac_size ac) data literalStart (zlen data).
Proof.
  intros Hs Hp Hf. destruct fuel as [|fuel]; [lia|]. cbn [aligned_ref].
  by rewrite (proj2 (Z.leb_gt _ _)) by lia.
Qed.

Lemma aligned_loop_ref fuel ac data literalStart pos h :
  ac_ok ac -> 0 <= pos -> zlen data - pos < Z.of_nat fuel ->
  (forall x, h = Some x -> x = rollingHash (sub pos (pos + ac_size ac) data)) ->
  aligned_loop fuel ac data literalStart pos h = aligned_ref fuel ac data literalStart pos.
Proof.
  intros Hac. pose proof (ao_size ac Hac) as Hs.
  revert literalStart pos h; induction fuel as [|fuel IH]; intros literalStart pos h Hp Hf Hh; [done|].
  cbn [aligned_loop aligned_ref]. destruct (Z.leb_spec (pos + ac_size ac) (zlen data)); [|done].
  assert (default (rollingHash (sub pos (pos + ac_size ac) data)) h = rollingHash (sub pos (pos + ac_size ac) data)) as ->
    by (destruct h; [by apply Hh|done]).
  destruct (is_codeword _ _ _); [by rewrite IH by (done || lia)|].
  destruct (Z.geb_spec (pos + ac_size ac) (zlen data)).
  - by rewrite aligned_ref_short by lia.
  - apply IH; [lia|lia|]. intros x [= <-]. apply aligned_roll_window; (done || lia).
Qed.

Lemma Aligned_Split_eq cb ac data :
  good_brain cb -> NewAlignedChunker cb = Ok ac ->
  Aligned_Split ac data = aligned_ref (S (length data)) ac data 0 0.
Proof.
  intros Hb Hac. pose proof (NewAlignedChunker_ok cb ac Hb Hac) as Hok. pose proof (ao_size ac Hok).
  apply aligned_loop_ref; [done|lia|unfold zlen; lia|done].
Qed.

Lemma Aligned_Split_tiles cb ac data :
  good_brain cb -> NewAlignedChunker cb = Ok ac -> tiles data 0 (Aligned_Split ac data).
Proof.
  intros Hb Hac. rewrite (Aligned_Split_eq cb) by done. pose proof (zlen_nonneg data).
  pose proof (ao_size ac (NewAlignedChunker_ok cb ac Hb Hac)).
  apply aligned_ref_tiles; [done|lia|lia|unfold zlen; lia].
Qed.

Lemma build_windows_total cb ids windows : good_brain cb -> ids_ok cb ids -> exists w, build_windows cb ids windows = Ok w.
Proof.
  intros [Hwf _ _] Hids. revert windows; induction Hids as [|id ids Hid Hids IH]; intros windows; [by eexists|].
  cbn [build_windows]. rewrite LookupUnsafe_ok by done. cbn [mbind res_bind]. apply IH.
Qed.

Lemma NewAlignedChunker_total cb : good_brain cb -> exists ac, NewAlignedChunker cb = Ok ac.
Proof.
  intros Hb. unfold NewAlignedChunker. destruct (build_windows_total cb (seqZ 0 (count cb)) ∅ Hb (ids_ok_seqZ cb)) as [w ->].
  by eexists.
Qed.

(** The aligned chunker finds codewords at any offset: with its hash updated byte by byte it
    cuts exactly as the reference that hashes every window anew, and its chunks tile the
    input. *)
Theorem Aligned_Split_ref cb ac data :
  good_brain cb -> NewAlignedChunker cb = Ok ac ->
  Aligned_Split ac data = aligned_ref (S (length data)) ac data 0 0 /\
  tiles data 0 (Aligned_Split ac data).
Proof. intros. split; [by apply (Aligned_Split_eq cb)|by apply (Aligned_Split_tiles cb)]. Qed.

End aligned_proofs.

(** ** Witnesses, on the two-codeword brain *)

Lemma good_sample_reader : good_brain sample_reader.
Proof.
  constructor; [exact wf_sample_reader|apply bytes_ok_dec; vm_compute; reflexivity|vm_compute; reflexivity].
Qed.

Definition log2_minus8 : MathLog2 := fun _ => f64_of_int (-8).

Lemma linear_FindBestMatch_closest_witness :
  exists m, linear_FindBestMatch true sample_reader None [5; 6; 7; 9] = Ok m /\ match_ok sample_reader m /\
    m_Distance m = hamming_ref [5; 6; 7; 9] (codeword sample_reader (m_CodebookID m)) /\
    (forall id, 0 <= id < count sample_reader ->
       hamming_ref [5; 6; 7; 9] (codeword sample_reader (m_CodebookID m)) <=
       hamming_ref [5; 6; 7; 9] (codeword sample_reader id)).
Proof.
  apply (linear_FindBestMatch_closest true sample_reader [5; 6; 7; 9] good_sample_reader).
  - vm_compute. reflexivity.
  - apply bytes_ok_dec. reflexivity.
  - vm_compute. reflexivity.
Defined.

Lemma FindBestMatch_valid_witness :
  exists ls m ls', NewLSHSearcher sample_reader = Ok ls /\
    FindBestMatch (log2 := log2_minus8) true ls [1; 2; 7; 9] = Ok (m, ls') /\
    m_Pattern m = codeword (ls_cb ls) (m_CodebookID m).
Proof.
  destruct (NewLSHSearcher_spec sample_reader good_sample_reader ltac:(vm_compute; reflexivity))
    as (ls & Hn & Hok & _).
  destruct (FindBestMatch_valid (log2 := log2_minus8) true ls [1; 2; 7; 9] Hok
    (bytes_ok_dec [1; 2; 7; 9] eq_refl) ltac:(vm_compute; reflexivity)) as (m & ls' & Hm & Hmo & _).
  exists ls, m, ls'. split; [exact Hn|]. split; [exact Hm|exact Hmo].
Defined.

Lemma FindExact_spec_witness :
  exists ls r, NewLSHSearcher sample_reader = Ok ls /\ FindExact ls [5; 6; 7; 8] = Ok r /\
    (forall id, r = Some id -> 0 <= id < count sample_reader /\ codeword sample_reader id = [5; 6; 7; 8]).
Proof.
  destruct (FindExact_spec sample_reader [5; 6; 7; 8] good_sample_reader ltac:(vm_compute; reflexivity))
    as (ls & r & H1 & H2 & H3 & _). exists ls, r. split; [exact H1|split; [exact H2|exact H3]].
Defined.

Definition empty_header : codebook.Header :=
  {| Magic := codebook.MagicString; Version := 1; CodewordSize := 128; CodewordCount := 0;
     DataOffset := 512; BuildHash := make_bytes 32 |}.
Definition empty_reader : Reader := {| data := Serialize empty_header; header := empty_header |}.

Lemma FindBestMatch_empty_brain_witness :
  exists ls, NewLSHSearcher empty_reader = Ok ls /\
    FindBestMatch (log2 := log2_minus8) true ls [1; 2; 3] = Panic SliceBounds.
Proof.
  destruct (FindBestMatch_empty_brain (log2 := log2_minus8) true empty_reader [1; 2; 3] eq_refl
    ltac:(vm_compute; reflexivity) eq_refl eq_refl ltac:(vm_compute; split; reflexivity)) as (ls & H1 & H2 & _).
  exists ls. split; [exact H1|]. apply H2. vm_compute. reflexivity.
Defined.

Lemma Aligned_Split_ref_witness :
  exists ac, NewAlignedChunker sample_reader = Ok ac /\
    Aligned_Split ac [9; 5; 6; 7; 8; 1; 2; 3; 4; 7] = aligned_ref 11 ac [9; 5; 6; 7; 8; 1; 2; 3; 4; 7] 0 0.
Proof.
  eexists. split; [vm_compute; reflexivity|].
  apply (Aligned_Split_ref sample_reader _ [9; 5; 6; 7; 8; 1; 2; 3; 4; 7] good_sample_reader).
  vm_compute. reflexivity.
Defined.
