(* ===== verification/Unpack.v ===== *)
(** [pkg/cromlib/unpacker.go] and [unpack_bytes.go]: rebuilding a file from its [.crom] form,
    on disk (with the tolerant and variational modes) and in memory. *)

From S2P Require Import Prelude Binary Sha256 Externals Crypto Format FormatIO Delta Codebook.
From S2P Require Import Fractal Entropy.
Import codebook Format.

Section unpack.
Context {Z0 : Zstd} {C0 : Cipher} {F0 : Files}.

(** ** One chunk ([reconstructChunk]) *)

(** [usablePattern]: the codeword, cut to the size of the chunk. *)
Definition usable_pattern (pattern : bytes) (originalSize : Z) : bytes :=
  if u32 (zlen pattern) >? originalSize then ztake originalSize pattern else pattern.

Definition trim_residual (residual : bytes) (originalSize : Z) : bytes :=
  if u32 (zlen residual) >? originalSize then ztake originalSize residual else residual.

Definition clean_id (id : Z) : Z := Z.land id 0x0FFFFFFFFFFFFFFF.
Definition is_patch (id : Z) : bool := negb (Z.land id FlagIsPatch =? 0).

(** A chunk made from codeword [targetID] and its residual. *)
Definition from_codeword (cb : Reader) (targetID originalSize : Z) (residual : bytes) : res bytes :=
  pattern ← wrap_err "lookup codeword" (Lookup cb (clean_id targetID));
  let usablePattern := usable_pattern pattern originalSize in
  if is_patch targetID then ApplyPatch usablePattern residual
  else Ok (Apply usablePattern (trim_residual residual originalSize)).

Definition reconstructChunk (cb : Reader) (entry : ChunkEntry) (residual : bytes) : res bytes :=
  let targetID := e_CodebookID entry in
  if targetID =? LiteralCodebookID then Ok residual
  else if e_CodebookIndex entry =? FractalCodebookIndex
  then Ok (GeneratePolynomial (i64 targetID) (e_OriginalSize entry))
  else from_codeword cb targetID (e_OriginalSize entry) residual.

(** ** In memory ([unpack_bytes.go]) *)

(** The chunks of one block, at [currentGlobalOffset] of the pool. *)
Fixpoint unpack_block_bytes (cb : Reader) (entries : list ChunkEntry) (pool : bytes) (globalOffset : Z)
    : res bytes :=
  match entries with
  | [] => Ok []
  | entry :: entries =>
      let localOffset := u64 (e_DeltaOffset entry - globalOffset) in
      let endLocal := u64 (localOffset + e_DeltaSize entry) in
      if endLocal >? zlen pool then Err "unpackbytes: delta offset bounds error" else
      residual ← slice pool localOffset endLocal;
      chunk ← wrap_err "unpackbytes: reconstruct chunk" (reconstructChunk cb entry residual);
      rest ← unpack_block_bytes cb entries pool globalOffset;
      Ok (chunk ++ rest)
  end.

Definition decrypt_block (msg : string) (key : option bytes) (blockData : bytes) : res bytes :=
  match key with
  | Some key => wrap_err msg (Decrypt key blockData)
  | None => Ok blockData
  end.

(** The block loop: [i] is the block, [rest] the entries from [entryIdx] on. *)
Fixpoint unpack_blocks_bytes (cb : Reader) (dict : bytes) (key : option bytes) (starts : list Z)
    (numEntries i : Z) (blockTable : list Z) (rest : list ChunkEntry) (globalOffset : Z) (r : bytes)
    : res bytes :=
  match blockTable with
  | [] => Ok []
  | blockSize :: blockTable =>
      '(blockData, r) ← ReadFull "unpackbytes: read block" blockSize r;
      blockData ← decrypt_block "unpackbytes: decrypt block" key blockData;
      pool ← wrap_err "unpackbytes: decompress block" (DecompressPoolDict blockData dict);
      '(blockStart, blockEnd) ← BlockRange starts i numEntries;
      let n := blockEnd - blockStart in
      chunks ← unpack_block_bytes cb (ztake n rest) pool globalOffset;
      others ← unpack_blocks_bytes cb dict key starts numEntries (i + 1) blockTable (zdrop n rest)
                 (u64 (globalOffset + zlen pool)) r;
      Ok (chunks ++ others)
  end.

(** The whole pool of a version 1 file. *)
Fixpoint unpack_legacy_bytes (cb : Reader) (entries : list ChunkEntry) (pool : bytes) : res bytes :=
  match entries with
  | [] => Ok []
  | entry :: entries =>
      residual ← slice pool (e_DeltaOffset entry) (u64 (e_DeltaOffset entry + e_DeltaSize entry));
      chunk ← reconstructChunk cb entry residual;
      rest ← unpack_legacy_bytes cb entries pool;
      Ok (chunk ++ rest)
  end.

(** [opts.Fuzziness == 0.0], and the passphrase. *)
Definition UnpackBytes (cromData codebookData encryptionKey : bytes) (exact : bool) : res bytes :=
  if zlen cromData =? 0 then Err "unpackbytes: empty input" else
  cb ← wrap_err "unpackbytes: open codebook" (OpenFromBytes codebookData);
  '((header, blockTable, entries), rStream) ←
     wrap_err "unpackbytes: parse format" (ReadMetadata encryptionKey cromData);
  let key := if h_IsEncrypted header then Some (DeriveKey encryptionKey (h_Salt header)) else None in
  if h_IsPassthrough header || (h_ChunkCount header =? 0) then
    decrypt_block "unpackbytes: decrypt passthrough" key rStream
  else
    output ←
      (if h_Version header >=? Version2 then
         let starts := BlockStarts entries in
         if negb (zlen starts =? zlen blockTable) then Err "unpackbytes: block count mismatch" else
         dict ← (if h_UsesBrainDict header then Dictionary cb else Ok []);
         unpack_blocks_bytes cb dict key starts (zlen entries) 0 blockTable entries 0 rStream
       else
         pool ← DecompressPool rStream;
         unpack_legacy_bytes cb entries pool);
    if exact && negb (h_IsLossy header) && negb (bytes_eqb (Sum256 output) (h_OriginalHash header))
    then Err "unpackbytes: SHA-256 integrity mismatch"
    else Ok output.

(** ** On disk ([unpacker.go]) *)

Record UnpackOptions := {
  u_Fuzziness : float64;
  u_EncryptionKey : bytes;
  u_Strict : bool;
}.

Definition DefaultUnpackOptions : UnpackOptions :=
  {| u_Fuzziness := f64_of_int 0; u_EncryptionKey := []; u_Strict := true |}.

(** [int(x)] of a float. *)
Definition f64_to_int (x : float64) : Z :=
  match x with
  | SpecFloat.S754_finite s m e =>
      let v := if e >=? 0 then Z.shiftl (Z.pos m) e else Z.shiftr (Z.pos m) (- e) in
      if s then - v else v
  | _ => 0
  end.

(** What the run has produced: the file, what was hashed of it, and the damage. *)
Record unpacked := {
  up_file : bytes;
  up_hashed : bytes;
  up_corrupt : Z;
}.

Definition up_nothing : unpacked := {| up_file := []; up_hashed := []; up_corrupt := 0 |}.

(** [writeOut], with [exact] when the run is lossless, and a write that bypasses the hash. *)
Definition writeOut (exact : bool) (chunk : bytes) (o : unpacked) : unpacked :=
  {| up_file := up_file o ++ chunk;
     up_hashed := if exact then up_hashed o ++ chunk else up_hashed o;
     up_corrupt := up_corrupt o |}.

Definition write_zeros (entry : ChunkEntry) (o : unpacked) : unpacked :=
  {| up_file := up_file o ++ make_bytes (e_OriginalSize entry); up_hashed := up_hashed o;
     up_corrupt := up_corrupt o |}.

Definition count_corrupt (o : unpacked) : unpacked :=
  {| up_file := up_file o; up_hashed := up_hashed o; up_corrupt := up_corrupt o + 1 |}.

(** The identifier drawn around [targetID] in variational mode; [intn bound] is [rand.Intn]. *)
Definition fuzz_id (fuzziness : float64) (maxID targetID : Z) (intn : Z -> Z) : Z :=
  if f64_ltb (f64_of_int 0) fuzziness then
    let spread := f64_to_int (f64_mul fuzziness (f64_of_int 100)) in
    let spread := if spread <? 1 then 1 else spread in
    let offset := u64 (intn (spread * 2) - spread) in
    if u64 (targetID + offset) <=? maxID then u64 (targetID + offset) else targetID
  else targetID.

Definition unpack_chunk (cb : option Reader) (fuzziness : float64) (maxID : Z) (intn : Z -> Z)
    (entry : ChunkEntry) (residual : bytes) : res bytes :=
  let targetID := e_CodebookID entry in
  if targetID =? LiteralCodebookID then Ok residual
  else if e_CodebookIndex entry =? FractalCodebookIndex
  then Ok (GeneratePolynomial (i64 targetID) (e_OriginalSize entry))
  else
    match cb with
    | None => Panic NilDereference
    | Some cb => from_codeword cb (fuzz_id fuzziness maxID targetID intn) (e_OriginalSize entry) residual
    end.

Section run.
Variables (cb : option Reader) (opts : UnpackOptions) (exact : bool) (maxID : Z) (intn : Z -> Z).

Fixpoint unpack_block (entries : list ChunkEntry) (pool : bytes) (globalOffset : Z) (o : unpacked)
    : res unpacked :=
  match entries with
  | [] => Ok o
  | entry :: entries =>
      let localOffset := u64 (e_DeltaOffset entry - globalOffset) in
      let endLocal := u64 (localOffset + e_DeltaSize entry) in
      if endLocal >? zlen pool then
        if u_Strict opts then Err "unpack: delta offset bounds error"
        else unpack_block entries pool globalOffset (count_corrupt (write_zeros entry o))
      else
        residual ← slice pool localOffset endLocal;
        chunk ← wrap_err "unpack: reconstruct chunk"
                  (unpack_chunk cb (u_Fuzziness opts) maxID intn entry residual);
        unpack_block entries pool globalOffset (writeOut exact chunk o)
  end.

(** The block loop; [idx] is [entryIdx] and [rest] the entries from it on. *)
Fixpoint unpack_blocks (dict : bytes) (key : option bytes) (starts : list Z) (entries : list ChunkEntry)
    (i idx : Z) (blockTable : list Z) (rest : list ChunkEntry) (globalOffset : Z) (o : unpacked) (r : bytes)
    : res unpacked :=
  match blockTable with
  | [] => Ok o
  | blockSize :: blockTable =>
      '(blockData, r) ← ReadFull "unpack: unexpected end of delta pool" blockSize r;
      blockData ← decrypt_block "unpack: decrypt block" key blockData;
      match DecompressPoolDict blockData dict with
      | Panic p => Panic p
      | Err _ =>
          if u_Strict opts then Err "unpack: decompress block"
          else
            '(_, nextBlockIdx) ← BlockRange starts i (zlen entries);
            globalOffset ←
              (if nextBlockIdx <? zlen entries
               then e ← index entries nextBlockIdx; Ok (e_DeltaOffset e)
               else Ok globalOffset);
            let n := nextBlockIdx - idx in
            let o := foldl (fun o e => write_zeros e o) (count_corrupt o) (ztake n rest) in
            unpack_blocks dict key starts entries (i + 1) (idx + zlen (ztake n rest)) blockTable
              (zdrop n rest) globalOffset o r
      | Ok pool =>
          '(blockStart, blockEnd) ← BlockRange starts i (zlen entries);
          let n := blockEnd - blockStart in
          o ← unpack_block (ztake n rest) pool globalOffset o;
          unpack_blocks dict key starts entries (i + 1) (idx + zlen (ztake n rest)) blockTable
            (zdrop n rest) (u64 (globalOffset + zlen pool)) o r
      end
  end.

(** Version 1: the pool is loaded whole, and the variational mode does not apply. *)
Fixpoint unpack_legacy (entries : list ChunkEntry) (pool : bytes) (o : unpacked) : res unpacked :=
  match entries with
  | [] => Ok o
  | entry :: entries =>
      residual ← slice pool (e_DeltaOffset entry) (u64 (e_DeltaOffset entry + e_DeltaSize entry));
      chunk ← unpack_chunk cb (f64_of_int 0) maxID intn entry residual;
      unpack_legacy entries pool (writeOut exact chunk o)
  end.
End run.

(** A brain is opened when some entry needs it, or when the pool was compressed against it. *)
Definition needs_brain (entries : list ChunkEntry) : bool :=
  existsb (fun e => negb (e_CodebookID e =? LiteralCodebookID)
                    && negb (e_CodebookIndex e =? FractalCodebookIndex)) entries.

Definition open_brain (header : Header) (codebookPath encryptionKey : bytes) : res Reader :=
  OpenForFile (h_MicroDictSize header) (h_MicroDictionaryData header) (h_IsEncrypted header)
    (h_Salt header) codebookPath encryptionKey.

Definition unpack_passthrough (header : Header) (key : option bytes) (exact : bool) (rStream : bytes)
    : res unpacked :=
  match key with
  | Some key =>
      dec ← wrap_err "unpack: decrypt passthrough" (Decrypt key rStream);
      Ok (writeOut exact dec up_nothing)
  | None => Ok (writeOut true rStream up_nothing)
  end.

(** The integrity check, and the file that gets its final name. *)
Definition finish_unpack (header : Header) (exact strict : bool) (o : unpacked) : res bytes :=
  if exact && negb (bytes_eqb (Sum256 (up_hashed o)) (h_OriginalHash header))
     && negb (negb strict && (up_corrupt o >? 0))
  then Err "unpack: SECURITY/INTEGRITY FAILURE"
  else Ok (up_file o).

Definition Unpack (intn : Z -> Z) (inFile codebookPath : bytes) (opts : UnpackOptions) : res bytes :=
  '((header, blockTable, entries), rStream) ←
     wrap_err "unpack: parse format" (ReadMetadata (u_EncryptionKey opts) inFile);
  cb ← (if needs_brain entries
        then cb ← open_brain header codebookPath (u_EncryptionKey opts); Ok (Some cb)
        else Ok None);
  let opts :=
    if h_IsLossy header
    then {| u_Fuzziness := f64_of_int (-1); u_EncryptionKey := u_EncryptionKey opts; u_Strict := u_Strict opts |}
    else opts in
  let exact := f64_eqb (u_Fuzziness opts) (f64_of_int 0) in
  let key := if h_IsEncrypted header then Some (DeriveKey (u_EncryptionKey opts) (h_Salt header)) else None in
  if h_IsPassthrough header || (h_ChunkCount header =? 0) then
    o ← unpack_passthrough header key exact rStream;
    finish_unpack header exact true o
  else
    let maxID := match cb with Some cb => u64 (count cb - 1) | None => 0 end in
    cb ← (if h_UsesBrainDict header
          then match cb with
               | Some cb => Ok (Some cb)
               | None => cb ← open_brain header codebookPath (u_EncryptionKey opts); Ok (Some cb)
               end
          else Ok cb);
    dict ← (if h_UsesBrainDict header
            then match cb with Some cb => Dictionary cb | None => Panic NilDereference end
            else Ok []);
    o ← (if h_Version header >=? Version2 then
           let starts := BlockStarts entries in
           if negb (zlen starts =? zlen blockTable) then Err "unpack: block count mismatch" else
           unpack_blocks cb opts exact maxID intn dict key starts entries 0 0 blockTable entries 0 up_nothing rStream
         else
           pool ← DecompressPool rStream;
           unpack_legacy cb exact maxID intn entries pool up_nothing);
    finish_unpack header exact (u_Strict opts) o.

End unpack.
