(* ===== verification/Pack.v ===== *)
(** [pkg/cromlib/compiler.go], [compiler_stream.go] and [pack_bytes.go]: compiling a file into
    its [.crom] form.

    The input is a byte string and the result the bytes of the output file. Randomness is an
    argument; so is the order in which the workers take the chunks of a block, each chunk being
    one step on the shared searchers. What the functions report is in [Metrics]. *)

From S2P Require Import Prelude Binary Sha256 Externals Crypto Format FormatIO Delta Chunker.
From S2P Require Import Codebook Fractal Merkle Entropy Search.
From stdpp Require Import sorting.
#[local] Open Scope Z_scope.
Import codebook Format.

(** ** Options *)

Record PackOptions := {
  o_Mode : string;
  o_CodebookPaths : list bytes;
  o_EncryptionKey : bytes;
  o_UseConvergentEncryption : bool;
  o_GlobalSecret : bytes;
  o_ChunkSize : Z;
  o_UseCDC : bool;
  o_UseACAC : bool;
  o_ACACDelimiter : Z;
  o_MultiPass : bool;
  o_MaxCompression : bool;
  o_EmbedBrain : bool;
}.

Definition DefaultPackOptions : PackOptions := {|
  o_Mode := "archive"; o_CodebookPaths := []; o_EncryptionKey := [];
  o_UseConvergentEncryption := false; o_GlobalSecret := []; o_ChunkSize := DefaultChunkSize;
  o_UseCDC := false; o_UseACAC := false; o_ACACDelimiter := 0; o_MultiPass := false;
  o_MaxCompression := false; o_EmbedBrain := false |}.

Definition is_edge (opts : PackOptions) : bool := String.eqb (o_Mode opts) "edge".

(** What [crypto/rand] returns: the salt and a nonce per encryption. *)
Record Randomness := {
  r_salt : bytes;
  r_block : Z -> bytes;
  r_micro : bytes;
  r_table : bytes;
  r_full : bytes;
}.

Record processedChunk := {
  p_entry : ChunkEntry;
  p_res : bytes;
  p_sim : float64;
}.

Definition zero_chunk : processedChunk := {|
  p_entry := {| e_CodebookID := 0; e_DeltaOffset := 0; e_DeltaSize := 0; e_OriginalSize := 0; e_CodebookIndex := 0 |};
  p_res := []; p_sim := f64_of_int 0 |}.

(** A chunk stored verbatim, one that is a codeword, one that is a polynomial. *)
Definition literal_chunk (index : Z) (chunk : Chunk) : processedChunk := {|
  p_entry := {| e_CodebookID := LiteralCodebookID; e_DeltaOffset := 0;
                e_DeltaSize := u32 (zlen (c_Data chunk)); e_OriginalSize := c_Size chunk;
                e_CodebookIndex := index |};
  p_res := c_Data chunk; p_sim := f64_of_int 0 |}.

Definition exact_chunk (id index : Z) (chunk : Chunk) : processedChunk := {|
  p_entry := {| e_CodebookID := id; e_DeltaOffset := 0; e_DeltaSize := 0; e_OriginalSize := c_Size chunk;
                e_CodebookIndex := index |};
  p_res := []; p_sim := f64_of_int 1 |}.

Definition fractal_chunk (seed : Z) (chunk : Chunk) : processedChunk :=
  exact_chunk (u64 seed) FractalCodebookIndex chunk.

Definition set_offset (off : Z) (e : ChunkEntry) : ChunkEntry :=
  {| e_CodebookID := e_CodebookID e; e_DeltaOffset := off; e_DeltaSize := e_DeltaSize e;
     e_OriginalSize := e_OriginalSize e; e_CodebookIndex := e_CodebookIndex e |}.

Section pack.
Context {Z0 : Zstd} {C0 : Cipher} {F0 : Files} {hash64 : XXHash} {log2 : MathLog2} {order : MapOrder}.
Variable hasSIMD : bool.

(** [minNearMatchSimilarity] *)
Definition minNearMatchSimilarity : float64 := f64_lit 90 100.
Definition maxPatchSize : Z := 256.

(** ** One chunk ([Pack], the body of a worker) *)

Definition cut_pattern (pattern data : bytes) : bytes :=
  if zlen pattern >? zlen data then ztake (zlen data) pattern else pattern.

Record candidate := {
  b_sim : float64;
  b_res : bytes;
  b_id : Z;
  b_index : Z;
}.

(** What a match is encoded as: residual, identifier, brain index. *)
Definition encode_match (edge : bool) (chunkEntropy : float64) (data : bytes) (m : MatchResult) (cbIdx : Z)
    (sim : float64) : candidate :=
  let usablePattern := cut_pattern (m_Pattern m) data in
  let threshold := if f64_ltb (f64_of_int 6) chunkEntropy then f64_lit 95 100 else f64_lit 80 100 in
  let '(bestRes, bestCodeID, bestCbIdx) :=
    if bytes_eqb data usablePattern then ([], m_CodebookID m, u8 cbIdx)
    else if f64_ltb sim minNearMatchSimilarity && negb edge
    then (data, LiteralCodebookID, LiteralCodebookIndex)
    else if f64_leb threshold sim then
      let patchStr := Delta.Diff data usablePattern in
      let xorFallback := XOR data usablePattern in
      if (zlen patchStr <? zlen xorFallback) && (zlen patchStr <=? maxPatchSize)
      then (patchStr, Z.lor (m_CodebookID m) FlagIsPatch, u8 cbIdx)
      else (xorFallback, m_CodebookID m, u8 cbIdx)
    else (XOR data usablePattern, m_CodebookID m, u8 cbIdx) in
  if edge && negb (bestCodeID =? LiteralCodebookID)
  then {| b_sim := sim; b_res := []; b_id := m_CodebookID m; b_index := bestCbIdx |}
  else {| b_sim := sim; b_res := bestRes; b_id := bestCodeID; b_index := bestCbIdx |}.

(** The loop over the brains: [best] is [None] while [bestSim] is -1. *)
Fixpoint best_candidate (edge : bool) (chunkEntropy : float64) (data : bytes) (cbIdx : Z)
    (searchers : list LSHSearcher) (best : option candidate) (bestErr : option string)
    : res (option candidate * option string * list LSHSearcher) :=
  match searchers with
  | [] => Ok (best, bestErr, [])
  | s :: searchers =>
      match FindBestMatch hasSIMD s data with
      | Panic p => Panic p
      | Err e =>
          '((best, bestErr), rest) ← best_candidate edge chunkEntropy data (cbIdx + 1) searchers best (Some e);
          Ok (best, bestErr, s :: rest)
      | Ok (m, s) =>
          let sim := Similarity m (zlen data * 8) in
          let best :=
            match best with
            | Some b => if f64_ltb (b_sim b) sim then Some (encode_match edge chunkEntropy data m cbIdx sim) else best
            | None =>
                if f64_ltb (f64_of_int (-1)) sim then Some (encode_match edge chunkEntropy data m cbIdx sim) else best
            end in
          if match best with Some b => f64_leb (f64_lit 95 100) (b_sim b) | None => false end
          then Ok (best, bestErr, s :: searchers)
          else
            '((best, bestErr), rest) ← best_candidate edge chunkEntropy data (cbIdx + 1) searchers best bestErr;
            Ok (best, bestErr, s :: rest)
      end
  end.

(** The first brain that holds the chunk itself. *)
Fixpoint find_exact (cbIdx : Z) (searchers : list LSHSearcher) (data : bytes) : res (option (Z * Z)) :=
  match searchers with
  | [] => Ok None
  | s :: searchers =>
      r ← FindExact s data;
      match r with
      | Some id => Ok (Some (id, cbIdx))
      | None => find_exact (cbIdx + 1) searchers data
      end
  end.

(** The residual as it is stored, encrypted under a key derived from it when asked. *)
Definition seal_residual (opts : PackOptions) (residual : bytes) : res bytes :=
  if o_UseConvergentEncryption opts && negb (zlen (o_GlobalSecret opts) =? 0)
  then ConvergentEncrypt (o_GlobalSecret opts) residual
  else Ok residual.

(** A chunk that only resembles the brains. *)
Definition pack_near (opts : PackOptions) (chunkEntropy : float64) (searchers : list LSHSearcher) (chunk : Chunk)
    : res (res processedChunk * list LSHSearcher) :=
  '((best, bestErr), searchers) ← best_candidate (is_edge opts) chunkEntropy (c_Data chunk) 0 searchers None None;
  match best, bestErr with
  | None, Some e => Ok (Err e, searchers)
  | _, _ =>
      let b := default {| b_sim := f64_of_int (-1); b_res := []; b_id := 0; b_index := 0 |} best in
      Ok (residual ← seal_residual opts (b_res b);
          Ok {| p_entry := {| e_CodebookID := b_id b; e_DeltaOffset := 0; e_DeltaSize := u32 (zlen residual);
                              e_OriginalSize := c_Size chunk; e_CodebookIndex := b_index b |};
                p_res := residual; p_sim := b_sim b |}, searchers)
  end.

(** The whole worker step: the chunk's result, or its error, and the searchers with their
    caches updated; an outer panic takes the process down. *)
Definition pack_chunk (opts : PackOptions) (literalIfNotExact : bool) (searchers : list LSHSearcher) (chunk : Chunk)
    : res (res processedChunk * list LSHSearcher) :=
  let data := c_Data chunk in
  match searchers with
  | [] => Ok (Ok (literal_chunk LiteralCodebookIndex chunk), searchers)
  | _ =>
      found ← find_exact 0 searchers data;
      match found with
      | Some (id, cbIdx) => Ok (Ok (exact_chunk id (u8 cbIdx) chunk), searchers)
      | None =>
          let chunkEntropy := Shannon data in
          let fractal := if f64_leb chunkEntropy (f64_of_int 3) then FindPolynomial data else None in
          match fractal with
          | Some seed => Ok (Ok (fractal_chunk seed chunk), searchers)
          | None =>
              if negb (is_edge opts) && (literalIfNotExact || f64_ltb (f64_lit 78 10) chunkEntropy
                                         || DetectHeuristicBypass chunkEntropy data)
              then Ok (Ok (literal_chunk LiteralCodebookIndex chunk), searchers)
              else pack_near opts chunkEntropy searchers chunk
          end
      end
  end.

(** ** One block

    The workers take the chunks in the order [schedule]; a result is stored under the number
    of its chunk. *)
Section block.
Variable step : list LSHSearcher -> Chunk -> res (res processedChunk * list LSHSearcher).

Fixpoint run_jobs (schedule : list nat) (chunks : list Chunk) (searchers : list LSHSearcher)
    (results : gmap nat (res processedChunk)) : res (gmap nat (res processedChunk) * list LSHSearcher) :=
  match schedule with
  | [] => Ok (results, searchers)
  | i :: schedule =>
      match chunks !! i with
      | None => Panic IndexOutOfRange
      | Some chunk =>
          '(r, searchers) ← step searchers chunk;
          run_jobs schedule chunks searchers (<[i := r]> results)
      end
  end.

(** Gathering the results in chunk order; the first error ends the run. *)
Fixpoint gather (i : nat) (n : nat) (results : gmap nat (res processedChunk)) (currentOffset : Z)
    : res (list processedChunk * Z) :=
  match n with
  | O => Ok ([], currentOffset)
  | S n =>
      p ← default (Ok zero_chunk) (results !! i);
      let p' := {| p_entry := set_offset currentOffset (p_entry p); p_res := p_res p; p_sim := p_sim p |} in
      '(rest, off) ← gather (S i) n results (u64 (currentOffset + zlen (p_res p)));
      Ok (p' :: rest, off)
  end.

Definition process_block (schedule : list nat) (chunks : list Chunk) (searchers : list LSHSearcher)
    (currentOffset : Z) : res (list processedChunk * Z * list LSHSearcher) :=
  '(results, searchers) ← run_jobs schedule chunks searchers ∅;
  '(ps, off) ← gather 0 (length chunks) results currentOffset;
  Ok (ps, off, searchers).
End block.

(** The blocks [io.ReadFull] delivers. *)
Fixpoint read_blocks (fuel : nat) (input : bytes) : list bytes :=
  match fuel with
  | O => []
  | S fuel =>
      match input with
      | [] => []
      | _ => ztake BlockSize input :: read_blocks fuel (zdrop BlockSize input)
      end
  end.

(** The compressed form of a block's residuals, and its encryption. *)
Definition compress_block (maxCompression : bool) (pool dict : bytes) : bytes :=
  if maxCompression then CompressPoolMax pool dict else CompressPoolDict pool dict.

Definition seal_block (msg : string) (key : option bytes) (nonce block : bytes) : res bytes :=
  match key with
  | Some key => wrap_err msg (Encrypt nonce key block)
  | None => Ok block
  end.

(** What the block loop accumulates. *)
Record packed_blocks := {
  pb_chunks : list (list processedChunk);
  pb_frames : list bytes;
}.

Section blocks.
Variables (split : bytes -> list Chunk)
  (step : list LSHSearcher -> Chunk -> res (res processedChunk * list LSHSearcher))
  (schedule : Z -> nat -> list nat) (maxCompression : bool) (dict : bytes) (key : option bytes)
  (nonce : Z -> bytes).

(** [schedule i n] is the order of the [n] chunks of block [i]. *)
Fixpoint pack_blocks (i : Z) (blocks : list bytes) (searchers : list LSHSearcher) (currentOffset : Z)
    : res packed_blocks :=
  match blocks with
  | [] => Ok {| pb_chunks := []; pb_frames := [] |}
  | blockData :: blocks =>
      let chunks := split blockData in
      '((ps, currentOffset), searchers) ←
         process_block step (schedule i (length chunks)) chunks searchers currentOffset;
      frame ← seal_block "pack: encrypt block" key (nonce i)
                (compress_block maxCompression (concat (map p_res ps)) dict);
      rest ← pack_blocks (i + 1) blocks searchers currentOffset;
      Ok {| pb_chunks := ps :: pb_chunks rest; pb_frames := frame :: pb_frames rest |}
  end.
End blocks.

Definition pb_entries (pb : packed_blocks) : list ChunkEntry := map p_entry (concat (pb_chunks pb)).
Definition pb_table (pb : packed_blocks) : list Z := map (fun f => u32 (zlen f)) (pb_frames pb).

(** ** In memory ([pack_bytes.go]) *)

Definition pack_chunk_bytes (opts : PackOptions) (chunkSize : Z) (searchers : list LSHSearcher) (chunk : Chunk)
    : res (res processedChunk * list LSHSearcher) :=
  let data := c_Data chunk in
  match searchers with
  | [] => Panic NilDereference
  | searcher :: others =>
      found ← FindExact searcher data;
      match found with
      | Some id => Ok (Ok (exact_chunk id 0 chunk), searchers)
      | None =>
          let chunkEntropy := Shannon data in
          if negb (is_edge opts) && ((chunkSize >=? AlignedMinCodewordSize) || f64_ltb (f64_lit 78 10) chunkEntropy)
          then Ok (Ok (literal_chunk LiteralCodebookIndex chunk), searchers)
          else
            match FindBestMatch hasSIMD searcher data with
            | Panic p => Panic p
            | Err _ => Ok (Ok (literal_chunk LiteralCodebookIndex chunk), searchers)
            | Ok (m, searcher) =>
                let sim := Similarity m (zlen data * 8) in
                let usablePattern := cut_pattern (m_Pattern m) data in
                let '(residual, codeID) :=
                  if bytes_eqb data usablePattern then ([], m_CodebookID m)
                  else if f64_ltb sim minNearMatchSimilarity && negb (is_edge opts) then (data, LiteralCodebookID)
                  else if is_edge opts then ([], m_CodebookID m)
                  else (XOR data usablePattern, m_CodebookID m) in
                Ok (Ok {| p_entry := {| e_CodebookID := codeID; e_DeltaOffset := 0;
                                        e_DeltaSize := u32 (zlen residual); e_OriginalSize := c_Size chunk;
                                        e_CodebookIndex := 0 |};
                          p_res := residual; p_sim := sim |}, searcher :: others)
            end
      end
  end.

(** The header of a packed file: the fields the packers set. *)
Definition pack_header (version : Z) (encrypted convergent lossy brainDict compressedTable : bool)
    (salt hash : bytes) (originalSize chunkCount chunkSize : Z) (cbHash : bytes) (cbHashes : bytes * bytes * bytes)
    (root micro : bytes) : Header := {|
  h_Version := version; h_IsEncrypted := encrypted; h_IsPassthrough := false;
  h_IsConvergentEncrypted := convergent; h_IsLossy := lossy; h_UsesBrainDict := brainDict;
  h_CompressedTable := compressedTable; h_TableBytes := 0; h_Salt := salt; h_OriginalHash := hash;
  h_OriginalSize := originalSize; h_ChunkCount := chunkCount; h_ChunkSize := chunkSize;
  h_CodebookHash := cbHash; h_CodebookHashes := cbHashes; h_MerkleRoot := root;
  h_MicroDictSize := u32 (zlen micro); h_MicroDictionaryData := micro; h_Mutations := [] |}.

Definition zero_hashes : bytes * bytes * bytes := (make_bytes 8, make_bytes 8, make_bytes 8).

(** Aligned chunks for large codewords, fixed ones otherwise. *)
Definition brain_chunker (cb : Reader) (chunkSize : Z) : res (bytes -> list Chunk) :=
  if chunkSize >=? AlignedMinCodewordSize
  then ac ← NewAlignedChunker cb; Ok (Aligned_Split ac)
  else Ok (FixedChunker_Split (NewFixedChunker chunkSize)).

Definition in_order (i : Z) (n : nat) : list nat := seq 0 n.

(** One goroutine: the chunks are taken in order. The brain, and the blocks. *)
Definition bytes_pool (input codebookData : bytes) (opts : PackOptions) : res (Reader * packed_blocks) :=
  cb ← wrap_err "packbytes: open codebook" (OpenFromBytes codebookData);
  searcher ← NewLSHSearcher cb;
  split ← brain_chunker cb (size cb);
  dict ← Dictionary cb;
  pb ← pack_blocks split (pack_chunk_bytes opts (size cb)) in_order false dict None (fun _ => [])
         0 (read_blocks (length input) input) [searcher] 0;
  Ok (cb, pb).

(** The file of the blocks. *)
Definition bytes_file (input : bytes) (opts : PackOptions) (cb : Reader) (pb : packed_blocks) : res bytes :=
  let header := pack_header Version5 false false (is_edge opts) true true (make_bytes 16) (Sum256 input)
                  (zlen input) (u32 (zlen (pb_entries pb))) (u32 (size cb)) (ztake 8 (BuildHash (header cb)))
                  zero_hashes (make_bytes 32) [] in
  tableData ← wrap_err "packbytes: encode chunk table" (EncodeCompressedTable [] (pb_entries pb) (h_Version header) None);
  Ok ((Serialize header).2 ++ put_u32s (pb_table pb) ++ tableData ++ concat (pb_frames pb)).

Definition PackBytes (input codebookData : bytes) (opts : PackOptions) : res bytes :=
  if zlen input =? 0 then Err "packbytes: empty input" else
  '(cb, pb) ← bytes_pool input codebookData opts;
  bytes_file input opts cb pb.

(** ** From a pipe ([compiler_stream.go]) *)

Definition noBrainChunkSize : Z := 1024 * 1024.

Definition pack_chunk_stream (opts : PackOptions) (chunkSize : Z) (searchers : list LSHSearcher) (chunk : Chunk)
    : res (res processedChunk * list LSHSearcher) :=
  let data := c_Data chunk in
  match searchers with
  | [] => Ok (Ok (literal_chunk 0 chunk), searchers)
  | searcher :: others =>
      found ← FindExact searcher data;
      match found with
      | Some id => Ok (Ok (exact_chunk id 0 chunk), searchers)
      | None =>
          if negb (is_edge opts) && ((chunkSize >=? AlignedMinCodewordSize) || f64_ltb (f64_lit 78 10) (Shannon data))
          then Ok (Ok (literal_chunk 0 chunk), searchers)
          else
            match FindBestMatch hasSIMD searcher data with
            | Panic p => Panic p
            | Err e => Ok (Err e, searchers)
            | Ok (m, searcher) =>
                let sim := Similarity m (zlen data * 8) in
                if f64_ltb sim minNearMatchSimilarity && negb (is_edge opts)
                then Ok (Ok (literal_chunk 0 chunk), searcher :: others)
                else
                  let residual := if is_edge opts then [] else XOR data (m_Pattern m) in
                  Ok (Ok {| p_entry := {| e_CodebookID := m_CodebookID m; e_DeltaOffset := 0;
                                          e_DeltaSize := u32 (zlen residual); e_OriginalSize := u32 (zlen data);
                                          e_CodebookIndex := 0 |};
                            p_res := residual; p_sim := sim |}, searcher :: others)
            end
      end
  end.

Definition stream_chunker (opts : PackOptions) (cb : option Reader) (chunkSize : Z) : res (bytes -> list Chunk) :=
  if o_UseACAC opts then
    Ok (SemanticChunker_Split (o_ACACDelimiter opts) (SemanticChunker_maxSize (chunkSize * 8)))
  else if o_UseCDC opts then Ok (FastCDC_Split (NewFastCDCChunker chunkSize))
  else match cb with
       | Some cb => brain_chunker cb chunkSize
       | None => Ok (FixedChunker_Split (NewFixedChunker chunkSize))
       end.

Definition stream_chunkSize (opts : PackOptions) (cb : option Reader) : Z :=
  match cb with
  | None => noBrainChunkSize
  | Some cb =>
      if negb (o_UseCDC opts) && negb (o_UseACAC opts) then size cb
      else if o_ChunkSize opts =? 0 then 128 else o_ChunkSize opts
  end.

Definition open_optional (msg : string) (codebookPath : bytes) : res (option Reader) :=
  if zlen codebookPath =? 0 then Ok None
  else cb ← wrap_err msg (Open codebookPath); Ok (Some cb).

(** The brain and the blocks; a read error ends the input. *)
Definition stream_pool (schedule : Z -> nat -> list nat) (input codebookPath : bytes) (opts : PackOptions) :
    res (option Reader * packed_blocks) :=
  cb ← open_optional "stream: open codebook" codebookPath;
  searchers ← match cb with Some cb => s ← NewLSHSearcher cb; Ok [s] | None => Ok [] end;
  let chunkSize := stream_chunkSize opts cb in
  split ← stream_chunker opts cb chunkSize;
  dict ← match cb with Some cb => Dictionary cb | None => Ok [] end;
  pb ← pack_blocks split (pack_chunk_stream opts chunkSize) schedule (o_MaxCompression opts) dict None (fun _ => [])
         0 (read_blocks (length input) input) searchers 0;
  Ok (cb, pb).

(** The file written after the end of the input. *)
Definition stream_file (input : bytes) (opts : PackOptions) (cb : option Reader) (pb : packed_blocks) : res bytes :=
  let hasBrain := match cb with Some _ => true | None => false end in
  let header := pack_header Version5 false false (hasBrain && is_edge opts) hasBrain true (make_bytes 16)
                  (Sum256 input) (zlen input) (u32 (zlen (pb_entries pb))) (u32 (stream_chunkSize opts cb)) (make_bytes 8)
                  zero_hashes (Root (BuildFromHashes (map Sum256 (pb_frames pb)))) [] in
  tableData ← wrap_err "stream: encode chunk table" (EncodeCompressedTable [] (pb_entries pb) Version5 None);
  Ok ((Serialize header).2 ++ put_u32s (pb_table pb) ++ tableData ++ concat (pb_frames pb)).

Definition PackStream (schedule : Z -> nat -> list nat) (input codebookPath : bytes) (opts : PackOptions) : res bytes :=
  '(cb, pb) ← stream_pool schedule input codebookPath opts;
  stream_file input opts cb pb.

(** ** From a file ([compiler.go], [Pack]) *)

(** An output file under construction: [Write] at an offset and [Truncate]. *)
Definition file_write (off : Z) (src file : bytes) : bytes :=
  ztake off file ++ make_bytes (off - zlen file) ++ src ++ zdrop (off + zlen src) file.

Definition file_truncate (n : Z) (file : bytes) : bytes :=
  ztake n file ++ make_bytes (n - zlen file).

Fixpoint mapR {A B} (f : A -> res B) (l : list A) : res (list B) :=
  match l with
  | [] => Ok []
  | x :: l => y ← f x; ys ← mapR f l; Ok (y :: ys)
  end.

(** The size of a chunk when none is asked for: small chunks for repetitive data. *)
Definition adaptive_chunkSize (requested : Z) (eScore : float64) : Z :=
  if requested <=? 0 then
    if f64_ltb eScore (f64_of_int 3) then 64
    else if f64_ltb eScore (f64_of_int 6) then 128
    else 512
  else requested.

Definition has_brain (opts : PackOptions) (codebookPath : bytes) : bool :=
  negb (zlen codebookPath =? 0) || negb (zlen (o_CodebookPaths opts) =? 0).

Definition open_brains (opts : PackOptions) (codebookPath : bytes) : res (list Reader) :=
  if negb (zlen (o_CodebookPaths opts) =? 0)
  then mapR (fun p => wrap_err "pack: failed to open codebook" (Open p)) (o_CodebookPaths opts)
  else cb ← open_optional "pack: failed to open codebook" codebookPath;
       Ok (match cb with Some cb => [cb] | None => [] end).

(** What [Pack] settles before it writes anything. *)
Record plan := {
  pl_startBytes : bytes;
  pl_passthrough : bool;
  pl_chunkSize : Z;
  pl_cbs : list Reader;
  pl_dict : bytes;
  pl_key : option bytes;
}.

Definition make_plan (rnd : Randomness) (input codebookPath : bytes) (opts : PackOptions) : res plan :=
  let '(eScore, startBytes) := Analyze input 65536 in
  let bypass := negb (has_brain opts codebookPath) && negb (is_edge opts)
                && DetectHeuristicBypass eScore startBytes in
  let chunkSize := adaptive_chunkSize (o_ChunkSize opts) eScore in
  cbs ← (if bypass then Ok [] else open_brains opts codebookPath);
  dict ← match cbs with cb :: _ => Dictionary cb | [] => Ok [] end;
  Ok {| pl_startBytes := startBytes;
        pl_passthrough := bypass || (zlen input <? 256);
        pl_chunkSize := match cbs with
                        | cb :: _ => if negb (o_UseCDC opts) && negb (o_UseACAC opts) then size cb else chunkSize
                        | [] => chunkSize
                        end;
        pl_cbs := cbs;
        pl_dict := dict;
        pl_key := if zlen (o_EncryptionKey opts) =? 0 then None
                  else Some (DeriveKey (o_EncryptionKey opts) (r_salt rnd)) |}.

(** The first eight bytes of the hash of each of the first three brains. *)
Definition brain_hashes (cbs : list Reader) : bytes * bytes * bytes :=
  let hash i := match cbs !! i with Some cb => ztake 8 (BuildHash (header cb)) | None => make_bytes 8 end in
  (hash 0%nat, hash 1%nat, hash 2%nat).

Definition brain_hash (cbs : list Reader) (codebookPath : bytes) : bytes :=
  ztake 8 (match cbs with cb :: _ => BuildHash (header cb) | [] => Sum256 codebookPath end).

(** The header in its successive states: they differ in version, counts, hash and brain. *)
Definition file_header (rnd : Randomness) (input codebookPath : bytes) (opts : PackOptions) (pl : plan)
    (version : Z) (convergent compressedTable brainDict : bool) (hash : bytes) (chunkCount : Z) (root micro : bytes)
    : Header :=
  let cbs := pl_cbs pl in
  let encrypted := match pl_key pl with Some _ => true | None => false end in
  pack_header version encrypted convergent (has_brain opts codebookPath && is_edge opts) brainDict compressedTable
    (if encrypted then r_salt rnd else make_bytes 16) hash (zlen input) chunkCount (u32 (pl_chunkSize pl))
    (brain_hash cbs codebookPath) (brain_hashes cbs) root micro.

Definition set_passthrough (h : Header) : Header := {|
  h_Version := h_Version h; h_IsEncrypted := h_IsEncrypted h; h_IsPassthrough := true;
  h_IsConvergentEncrypted := h_IsConvergentEncrypted h; h_IsLossy := h_IsLossy h;
  h_UsesBrainDict := h_UsesBrainDict h; h_CompressedTable := h_CompressedTable h;
  h_TableBytes := h_TableBytes h; h_Salt := h_Salt h; h_OriginalHash := h_OriginalHash h;
  h_OriginalSize := h_OriginalSize h; h_ChunkCount := h_ChunkCount h;
  h_ChunkSize := h_ChunkSize h; h_CodebookHash := h_CodebookHash h;
  h_CodebookHashes := h_CodebookHashes h; h_MerkleRoot := h_MerkleRoot h;
  h_MicroDictSize := h_MicroDictSize h; h_MicroDictionaryData := h_MicroDictionaryData h;
  h_Mutations := h_Mutations h |}.

Definition uses_brain (pl : plan) : bool := negb (zlen (pl_cbs pl) =? 0).

(** A passthrough file: a header, the input behind it, and the header again with the hash. *)
Definition pack_passthrough (rnd : Randomness) (input codebookPath : bytes) (opts : PackOptions) (pl : plan) : res bytes :=
  let hdr hash := set_passthrough
    (file_header rnd input codebookPath opts pl Version5 false false (uses_brain pl) hash 0 (make_bytes 32) []) in
  payload ← seal_block "crypto: encrypt" (pl_key pl) (r_full rnd) input;
  let file := (Serialize (hdr (Sum256 (pl_startBytes pl)))).2 ++ payload in
  Ok (file_write 0 (Serialize (hdr (Sum256 input))).2 file).

Definition pick_chunker (opts : PackOptions) (pl : plan) : res (bytes -> list Chunk) :=
  if o_UseACAC opts
  then Ok (ContextualChunker_Split (DetectHeuristicExtension (pl_startBytes pl)) (pl_chunkSize pl * 8))
  else if o_UseCDC opts then Ok (FastCDC_Split (NewFastCDCChunker (pl_chunkSize pl)))
  else match pl_cbs pl with
       | cb :: _ => brain_chunker cb (pl_chunkSize pl)
       | [] => Ok (FixedChunker_Split (NewFixedChunker (pl_chunkSize pl)))
       end.

(** The counting pass: how often each codeword is the best match. *)
Fixpoint count_matches (chunks : list Chunk) (searcher : LSHSearcher) (freq : gmap Z Z) : res (LSHSearcher * gmap Z Z) :=
  match chunks with
  | [] => Ok (searcher, freq)
  | c :: chunks =>
      match FindBestMatch hasSIMD searcher (c_Data c) with
      | Panic p => Panic p
      | Err _ => count_matches chunks searcher freq
      | Ok (m, searcher) =>
          count_matches chunks searcher
            (<[m_CodebookID m := default 0 (freq !! m_CodebookID m) + 1]> freq)
      end
  end.

(** The 256 most frequent codewords; [map_order] stands for the order among equals. *)
Definition more_frequent (a b : Z * Z) : Prop := b.2 <= a.2.

#[local] Instance more_frequent_dec a b : Decision (more_frequent a b).
Proof. unfold more_frequent. apply _. Defined.

Definition top_ids (freq : gmap Z Z) : list Z :=
  map fst (take 256 (merge_sort more_frequent (map_order freq))).

Definition multi_pass (split : bytes -> list Chunk) (input : bytes) (searchers : list LSHSearcher)
    : res (list LSHSearcher) :=
  match searchers with
  | [] => Ok []
  | s :: others =>
      '(s, freq) ← count_matches (concat (map split (read_blocks (length input) input))) s ∅;
      Ok (map (Restrict (top_ids freq)) (s :: others))
  end.

(** The embedded brain, and the version of a file that has one. *)
Definition embed_brain (rnd : Randomness) (codebookPath : bytes) (opts : PackOptions) (key : option bytes)
    : res (Z * bytes) :=
  if o_EmbedBrain opts then
    match read_file codebookPath with
    | None => Err "pack: read brain to embed"
    | Some brain =>
        micro ← seal_block "pack: encrypt embedded brain" key (r_micro rnd) (CompressPool brain);
        if zlen micro >? MaxMicroDictSize then Err "pack: embedded brain exceeds the format limit"
        else Ok (Version8, micro)
    end
  else Ok (Version7, []).

(** Writing the metadata over the space reserved for it, moving the pool when it does not fit. *)
Definition write_metadata (reserved meta pool : bytes) : bytes :=
  let file := reserved ++ pool in
  if negb (zlen meta =? zlen reserved) then
    let tempFile := zdrop (zlen reserved) file in
    let deltaPoolSize := zlen file - zlen reserved in
    let file := file_truncate (zlen meta + deltaPoolSize) file in
    let file := file_write 0 meta file in
    file_write (zlen meta) tempFile file
  else file_write 0 meta file.

(** The blocks of a file, after the counting pass that [MultiPass] asks for. *)
Definition pack_pool (rnd : Randomness) (schedule : Z -> nat -> list nat) (input : bytes) (opts : PackOptions) (pl : plan) :
    res packed_blocks :=
  let literalIfNotExact := (pl_chunkSize pl >=? AlignedMinCodewordSize) && negb (o_UseCDC opts) && negb (o_UseACAC opts) in
  searchers ← mapR NewLSHSearcher (pl_cbs pl);
  split ← pick_chunker opts pl;
  searchers ← (if o_MultiPass opts then multi_pass split input searchers else Ok searchers);
  pack_blocks split (pack_chunk opts literalIfNotExact) schedule (o_MaxCompression opts) (pl_dict pl)
    (pl_key pl) (r_block rnd) 0 (read_blocks (length input) input) searchers 0.

(** The file of the blocks, and whether it was written again uncompressed because it had grown. *)
Definition finish_file (rnd : Randomness) (input codebookPath : bytes) (opts : PackOptions) (pl : plan) (pb : packed_blocks) :
    res (bytes * bool) :=
  let chunkSize := pl_chunkSize pl in
  let numEstimatedChunks := u32 ((zlen input + chunkSize - 1) / chunkSize) in
  let hdr := file_header rnd input codebookPath opts pl in
  let header0 := hdr Version5 false false (uses_brain pl) (make_bytes 32) numEstimatedChunks (make_bytes 32) [] in
  let chunkTableSize := u32 (numEstimatedChunks * GetEntrySize Version5)
                        + (if h_IsEncrypted header0 then 28 else 0) in
  let reserved := (Serialize header0).2 ++ make_bytes (NumBlocks header0 * 4) ++ make_bytes (u32 chunkTableSize) in
  '(version, micro) ← embed_brain rnd codebookPath opts (pl_key pl);
  let root := match pb_frames pb with
              | [] => make_bytes 32
              | frames => Root (BuildFromHashes (map Sum256 frames))
              end in
  let convergent := o_UseConvergentEncryption opts in
  let header1 := hdr version convergent true (uses_brain pl) (Sum256 input) (u32 (zlen (pb_entries pb))) root micro in
  tableData ← wrap_err "pack: encode chunk table"
                (EncodeCompressedTable (r_table rnd) (pb_entries pb) version (pl_key pl));
  let meta := (Serialize header1).2 ++ put_u32s (pb_table pb) ++ tableData in
  let file := write_metadata reserved meta (concat (pb_frames pb)) in
  if negb (is_edge opts) && (zlen file >? zlen input) && (zlen input >? HeaderSizeV8) then
    let header2 := hdr version convergent false false (Sum256 input) 0 root [] in
    payload ← seal_block "crypto: encrypt" (pl_key pl) (r_full rnd) input;
    Ok (file_write 0 (Serialize header2).2 ((Serialize header2).2 ++ payload), true)
  else Ok (file, false).

Definition pack_file (rnd : Randomness) (schedule : Z -> nat -> list nat) (input codebookPath : bytes)
    (opts : PackOptions) (pl : plan) : res bytes :=
  pb ← pack_pool rnd schedule input opts pl;
  '(file, _) ← finish_file rnd input codebookPath opts pl pb;
  Ok file.

Definition Pack (rnd : Randomness) (schedule : Z -> nat -> list nat) (input codebookPath : bytes)
    (opts : PackOptions) : res bytes :=
  pl ← make_plan rnd input codebookPath opts;
  if pl_passthrough pl then pack_passthrough rnd input codebookPath opts pl
  else pack_file rnd schedule input codebookPath opts pl.

End pack.
