(* ===== verification/ChunkCodec.v ===== *)
(** Encoding and decoding of a single chunk: whatever representation the packers choose - verbatim,
    codeword, polynomial, XOR residual, edit script - [reconstructChunk] gives the chunk back; in
    the edge mode, where residuals are dropped, it gives a codeword for it.

    [decodes] is the contract between the packers and the unpackers, [Encoder] the interface under
    which the block pipeline uses an exact packing step, [Approximator] the one under which it uses
    any; the three packers implement both. *)

From S2P Require Import Prelude Binary Externals Crypto Format FormatIO Delta Chunker Codebook.
From S2P Require Import Fractal Entropy Search Unpack Pack.
#[local] Open Scope Z_scope.
Import codebook Format.

(** ** The contract *)

(** A chunk of a block: what [tiles] gives. *)
Record good_chunk (c : Chunk) : Prop := {
  gc_bytes : bytes_ok (c_Data c);
  gc_len : 0 < zlen (c_Data c) <= BlockSize;
  gc_size : c_Size c = zlen (c_Data c);
}.

(** [e] and [residual] stand for [data], with the brain [cb] or without a brain. *)
Definition rebuilds (cb : option Reader) (e : ChunkEntry) (residual data : bytes) : Prop :=
  match cb with
  | Some r => reconstructChunk r e residual = Ok data
  | None => e_CodebookID e = LiteralCodebookID /\ residual = data
  end.

Record decodes (cb : option Reader) (data : bytes) (p : processedChunk) : Prop := {
  dc_data : 0 < zlen data <= BlockSize;
  dc_res : bytes_ok (p_res p);
  dc_res_len : zlen (p_res p) <= zlen data;
  dc_delta : e_DeltaSize (p_entry p) = zlen (p_res p);
  dc_orig : e_OriginalSize (p_entry p) = zlen data;
  dc_index : is_u8 (e_CodebookIndex (p_entry p));
  dc_id : e_CodebookID (p_entry p) = LiteralCodebookID \/ 0 <= e_CodebookID (p_entry p) < 2 ^ 61;
  dc_engine : e_CodebookID (p_entry p) = LiteralCodebookID -> e_CodebookIndex (p_entry p) <> FractalCodebookIndex;
  dc_rebuilds : rebuilds cb (p_entry p) (p_res p) data;
}.

(** The searchers a packing run carries along: at most one, on the brain. *)
Definition searchers_ok (cb : option Reader) (ss : list LSHSearcher) : Prop :=
  match cb with
  | None => ss = []
  | Some r => exists s, ss = [s] /\ ls_ok s /\ ls_cb s = r
  end.

(** A packing step that meets the contract, from any state of the searchers. *)
Class Encoder (cb : option Reader)
    (step : list LSHSearcher -> Chunk -> res (res processedChunk * list LSHSearcher)) : Prop :=
  encoder_ok ss c : searchers_ok cb ss -> good_chunk c ->
    exists p ss', step ss c = Ok (Ok p, ss') /\ decodes cb (c_Data c) p /\ searchers_ok cb ss'.

(** A packing step that may lose something: what it packs stands for a chunk of the same length that is
    [R]-related to the one it was given, as long as that one has at most [limit] bytes. *)
Class Approximator (cb : option Reader) (R : bytes -> bytes -> Prop) (limit : Z)
    (step : list LSHSearcher -> Chunk -> res (res processedChunk * list LSHSearcher)) : Prop :=
  approximator_ok ss c : searchers_ok cb ss -> good_chunk c -> zlen (c_Data c) <= limit ->
    exists p ss' d, step ss c = Ok (Ok p, ss') /\ R (c_Data c) d /\ zlen d = zlen (c_Data c) /\ decodes cb d p /\
      searchers_ok cb ss'.

(** An exact step approximates by the chunk itself. *)
#[export] Instance encoder_approximator cb limit step : Encoder cb step -> Approximator cb eq limit step.
Proof.
  intros Hstep ss c Hss Hc _. destruct (encoder_ok ss c Hss Hc) as (p & ss' & E & Hp & Hss').
  by exists p, ss', (c_Data c).
Qed.

Lemma decodes_set_offset cb data p off :
  decodes cb data p ->
  decodes cb data {| p_entry := set_offset off (p_entry p); p_res := p_res p; p_sim := p_sim p |}.
Proof. intros []. by constructor. Qed.

Section codec.
Context {Z0 : Zstd} {C0 : Cipher} {F0 : Files} {hash64 : XXHash} {log2 : MathLog2} {order : MapOrder}.
Variable hasSIMD : bool.

(** Without fuzziness the unpackers rebuild what the entry says. *)
Lemma unpack_chunk_exact cb fuzziness maxID intn e residual data :
  f64_ltb (f64_of_int 0) fuzziness = false -> rebuilds cb e residual data ->
  unpack_chunk cb fuzziness maxID intn e residual = Ok data.
Proof.
  intros Hf. unfold rebuilds, unpack_chunk, reconstructChunk, fuzz_id. rewrite Hf. destruct cb as [r|].
  - destruct (_ =? _); [done|]. by destruct (_ =? _).
  - intros [-> ->]. done.
Qed.

(** ** The representations *)

Lemma literal_decodes cb index c :
  good_chunk c -> is_u8 index -> index <> FractalCodebookIndex -> decodes cb (c_Data c) (literal_chunk index c).
Proof.
  intros [Hb Hl Hs] Hi Hf. constructor; cbn; try done; try lia.
  - apply u32_small. unfold is_u32, BlockSize in *. lia.
  - by destruct cb.
Qed.

Lemma land_pow2 x n : 0 <= n -> Z.land x (2 ^ n) = if Z.testbit x n then 2 ^ n else 0.
Proof.
  intros Hn. apply Z.bits_inj'. intros k Hk. rewrite Z.land_spec, Z.pow2_bits_eqb by lia.
  destruct (Z.eqb_spec n k) as [<-|Hne].
  - rewrite andb_true_r. destruct (Z.testbit x n) eqn:E; [by rewrite Z.pow2_bits_true|by rewrite Z.bits_0].
  - rewrite andb_false_r. destruct (Z.testbit x n); [by rewrite Z.pow2_bits_false|by rewrite Z.bits_0].
Qed.

(** Identifiers of codewords leave room for the patch flag. *)
Lemma codeword_id r id :
  wf_reader r -> 0 <= id < count r ->
  0 <= id < 2 ^ 60 /\ (id =? LiteralCodebookID) = false /\ is_patch id = false /\ clean_id id = id /\
  (Z.lor id FlagIsPatch =? LiteralCodebookID) = false /\ is_patch (Z.lor id FlagIsPatch) = true /\
  clean_id (Z.lor id FlagIsPatch) = id /\ 0 <= Z.lor id FlagIsPatch < 2 ^ 61.
Proof.
  intros [] Hid. assert (Hr : 0 <= id < 2 ^ 60) by nia.
  assert (E : Z.lor id FlagIsPatch = id + 2 ^ 60).
  { change FlagIsPatch with (Z.shiftl 1 60). rewrite lor_shiftl_add by lia. lia. }
  assert (Hp : forall x, is_patch x = Z.testbit x 60).
  { intros x. unfold is_patch, FlagIsPatch. rewrite land_pow2 by lia. by destruct (Z.testbit x 60). }
  assert (Hb : Z.testbit id 60 = false).
  { destruct (decide (id = 0)) as [->|]; [done|]. apply Z.bits_above_log2; [lia|]. apply Z.log2_lt_pow2; lia. }
  unfold clean_id, LiteralCodebookID. change 0x0FFFFFFFFFFFFFFF with (Z.ones 60).
  rewrite !Z.land_ones, !Hp, Hb by lia. rewrite Z.lor_spec, Hb.
  rewrite !E. split; [done|]. rewrite !(proj2 (Z.eqb_neq _ _)) by lia.
  rewrite Z.mod_small by done. repeat split; try done; try lia.
  rewrite <-(Z.mul_1_l (2 ^ 60)) at 1. by rewrite Z.mod_add, Z.mod_small by lia.
Qed.

(** The codeword cut to the chunk, at both ends of the trip. *)
Lemma usable_cut r id data :
  wf_reader r -> size r < 2 ^ 16 -> 0 <= id < count r -> zlen data <= BlockSize ->
  usable_pattern (codeword r id) (zlen data) = cut_pattern (codeword r id) data.
Proof.
  intros Hwf Hs Hid Hl. unfold usable_pattern, cut_pattern. pose proof (wfr_size r Hwf).
  rewrite zlen_codeword by done. by rewrite u32_small by (unfold is_u32; lia).
Qed.

Lemma XOR_cut data pattern : XOR data (cut_pattern pattern data) = XOR data pattern.
Proof.
  unfold cut_pattern. destruct (zlen pattern >? zlen data); [|done].
  revert pattern; induction data as [|x data IH]; intros [|y pattern]; try done.
  rewrite zlen_cons. pose proof (zlen_nonneg data). cbn [ztake]. rewrite (proj2 (Z.leb_gt _ _)) by lia.
  cbn [XOR]. by rewrite Z.add_simpl_r, IH.
Qed.

(** An entry of a codeword that is not a patch. *)
Definition word_chunk (id index : Z) (residual : bytes) (c : Chunk) (sim : float64) : processedChunk := {|
  p_entry := {| e_CodebookID := id; e_DeltaOffset := 0; e_DeltaSize := u32 (zlen residual);
                e_OriginalSize := c_Size c; e_CodebookIndex := index |};
  p_res := residual; p_sim := sim |}.

Section word.
Variables (r : Reader) (id index : Z) (c : Chunk) (sim : float64).
Hypotheses (Hwf : wf_reader r) (Hs : size r < 2 ^ 16) (Hbytes : bytes_ok (codeword r id))
  (Hid : 0 <= id < count r) (Hc : good_chunk c) (Hindex : is_u8 index)
  (Hnf : index <> FractalCodebookIndex).

Lemma word_decodes id' residual :
  0 <= id' < 2 ^ 61 -> (id' =? LiteralCodebookID) = false -> clean_id id' = id ->
  bytes_ok residual -> zlen residual <= zlen (c_Data c) ->
  (let p := cut_pattern (codeword r id) (c_Data c) in
   (if is_patch id' then ApplyPatch p residual else Ok (Apply p (trim_residual residual (zlen (c_Data c))))) = Ok (c_Data c)) ->
  decodes (Some r) (c_Data c) (word_chunk id' index residual c sim).
Proof.
  intros Hid' Hlit Hclean Hres Hlen Happly. destruct Hc as [Hb Hl Hsz].
  pose proof (zlen_nonneg residual). constructor; cbn; try done; try lia.
  - apply u32_small. unfold is_u32, BlockSize in *. lia.
  - unfold reconstructChunk, from_codeword. cbn. rewrite Hlit, (proj2 (Z.eqb_neq _ _)), Hclean, Hsz by done.
    rewrite Lookup_ok by done. cbn [wrap_err mbind res_bind]. rewrite usable_cut by (done || lia).
    exact Happly.
Qed.

Lemma exact_decodes :
  cut_pattern (codeword r id) (c_Data c) = c_Data c ->
  decodes (Some r) (c_Data c) (word_chunk id index [] c sim).
Proof.
  intros Hp. destruct (codeword_id r id Hwf Hid) as (? & ? & Hpatch & ? & _). destruct Hc as [Hb Hl Hsz].
  apply word_decodes; try done; [lia|change (zlen (@nil Z)) with 0; lia|]. cbv zeta. rewrite Hpatch, Hp.
  unfold trim_residual. change (zlen (@nil Z)) with 0. rewrite Z.gtb_ltb, (proj2 (Z.ltb_ge _ _)) by (change (u32 0) with 0; lia). done.
Qed.

Lemma xor_decodes residual :
  residual = XOR (c_Data c) (codeword r id) ->
  decodes (Some r) (c_Data c) (word_chunk id index residual c sim).
Proof.
  intros ->. destruct (codeword_id r id Hwf Hid) as (? & ? & Hpatch & ? & _). destruct Hc as [Hb Hl Hsz].
  apply word_decodes; try done; [lia|by apply bytes_ok_XOR|rewrite zlen_XOR; lia|]. cbv zeta. rewrite Hpatch.
  unfold trim_residual, Apply. rewrite zlen_XOR, u32_small by (unfold is_u32, BlockSize in *; lia).
  rewrite Z.gtb_ltb, (proj2 (Z.ltb_ge _ _)), zlen_XOR, (proj2 (Z.eqb_neq _ _)) by lia.
  by rewrite <-XOR_cut, apply_XOR_loop.
Qed.

Lemma patch_decodes script :
  script = Delta.Diff (c_Data c) (cut_pattern (codeword r id) (c_Data c)) ->
  bytes_ok script -> zlen script < zlen (c_Data c) ->
  decodes (Some r) (c_Data c) (word_chunk (Z.lor id FlagIsPatch) index script c sim).
Proof.
  intros E Hok Hlt. destruct (codeword_id r id Hwf Hid) as (_ & _ & _ & _ & ? & Hpatch & ? & ?).
  apply word_decodes; try done; [lia|]. cbv zeta. rewrite Hpatch, E. apply ApplyPatch_Diff_ok.
Qed.
End word.

Lemma fractal_decodes r seed c :
  good_chunk c -> FindPolynomial (c_Data c) = Some seed ->
  decodes (Some r) (c_Data c) (fractal_chunk seed c).
Proof.
  intros [Hb Hl Hs] Hf. destruct (FindPolynomial_sound _ _ Hb Hf) as [Hg Hseed].
  assert (Hu : u64 seed = seed) by (apply u64_small; unfold is_u64; lia).
  constructor; cbn; try done; try lia;
    [change (zlen (@nil Z)) with 0; lia|unfold LiteralCodebookID; lia|].
  unfold reconstructChunk. cbn. rewrite Hu. rewrite (proj2 (Z.eqb_neq _ _)) by (unfold LiteralCodebookID; lia).
  rewrite i64_small by (unfold is_i64; lia). by rewrite Hs, Hg.
Qed.

(** ** One match *)

Lemma cut_pattern_full pattern data :
  bytes_eqb data (cut_pattern pattern data) = true -> cut_pattern pattern data = data.
Proof. intros H. symmetry. by apply bytes_eqb_true. Qed.

(** What a match is encoded as outside the edge mode decodes. *)
Lemma encode_match_decodes r chunkEntropy m sim c :
  good_brain r -> match_ok r m -> good_chunk c ->
  let b := encode_match false chunkEntropy (c_Data c) m 0 sim in
  decodes (Some r) (c_Data c) (word_chunk (b_id b) (b_index b) (b_res b) c (b_sim b)).
Proof.
  intros Hb (Hid & Hp & _) Hc. pose proof Hb as [Hwf _ Hsz]. pose proof (codeword_bytes r (m_CodebookID m) Hb) as Hw.
  unfold encode_match. rewrite Hp. cbn [negb andb]. rewrite andb_true_r.
  set (u := cut_pattern _ _). change (u8 0) with 0.
  assert (Hx : forall sim, decodes (Some r) (c_Data c) (word_chunk (m_CodebookID m) 0 (XOR (c_Data c) u) c sim)).
  { intros. apply xor_decodes; try done. apply XOR_cut. }
  destruct (bytes_eqb _ u) eqn:E; [apply exact_decodes; try done; by apply cut_pattern_full|].
  destruct (f64_ltb sim _).
  { pose proof (literal_decodes (Some r) LiteralCodebookIndex c Hc ltac:(done) ltac:(done)) as []. by constructor. }
  destruct (f64_leb _ sim); [|apply Hx]. destruct (_ && _) eqn:El; [|apply Hx].
  apply andb_true_iff in El as [El%Z.ltb_lt _]. rewrite zlen_XOR in El.
  apply patch_decodes; try done. apply bytes_ok_Diff, Hc.
Qed.

(** ** The three packing steps *)

(** The options under which a packed file is an exact copy. *)
Class lossless (opts : PackOptions) : Prop := {
  ll_edge : is_edge opts = false;
  ll_plain : o_UseConvergentEncryption opts && negb (zlen (o_GlobalSecret opts) =? 0) = false;
}.

Lemma chunk_bits c : good_chunk c -> 0 <= zlen (c_Data c) * 8 < 2 ^ 53 /\ zlen (c_Data c) < 2 ^ 32.
Proof. intros [_ Hl _]. unfold BlockSize in Hl. lia. Qed.

(** The search for a match to encode, on the one brain. *)
Lemma search_match s c :
  ls_ok s -> good_chunk c ->
  exists m s', FindBestMatch hasSIMD s (c_Data c) = Ok (m, s') /\ match_ok (ls_cb s) m /\
    searchers_ok (Some (ls_cb s)) [s'] /\
    f64_ltb (f64_of_int (-1)) (Similarity m (zlen (c_Data c) * 8)) = true.
Proof.
  intros Hs Hc. destruct (chunk_bits c Hc) as [Hbits Hlen].
  destruct (FindBestMatch_ok hasSIMD s (c_Data c) Hs (gc_bytes c Hc) Hlen) as (m & s' & Hm & Hmo & Hs' & Hcb).
  exists m, s'. do 2 (split; [done|]). split; [by exists s'|].
  apply Similarity_number; [destruct Hmo as (_ & _ & ?); lia|done].
Qed.

(** An exact match, with the brain numbered 0. *)
Lemma found_decodes s id c :
  ls_ok s -> good_chunk c -> 0 <= id < count (ls_cb s) -> codeword (ls_cb s) id = c_Data c ->
  decodes (Some (ls_cb s)) (c_Data c) (exact_chunk id 0 c).
Proof.
  intros Hs Hc Hid Hw. destruct (lo_brain s Hs) as [Hwf ? ?].
  apply (exact_decodes (ls_cb s) id 0 c); try done. rewrite Hw. unfold cut_pattern.
  by rewrite Z.gtb_ltb, Z.ltb_irrefl.
Qed.

#[export] Instance pack_chunk_encoder opts literalIfNotExact cb :
  lossless opts -> Encoder cb (pack_chunk hasSIMD opts literalIfNotExact).
Proof.
  intros [He Hp] ss c Hss Hc. unfold pack_chunk. rewrite He. cbn [negb andb].
  assert (Hlit : forall ss, searchers_ok cb ss -> exists p ss',
    Ok (Ok (literal_chunk LiteralCodebookIndex c), ss) = Ok (Ok p, ss') /\ decodes cb (c_Data c) p /\ searchers_ok cb ss').
  { intros. do 2 eexists. split; [done|]. split; [by apply literal_decodes|done]. }
  destruct cb as [r|]; [|cbn in Hss; subst ss; by apply Hlit]. destruct Hss as (s & -> & Hs & <-).
  assert (Hss : searchers_ok (Some (ls_cb s)) [s]) by by exists s.
  cbn [find_exact]. destruct (FindExact_sound s (c_Data c) Hs) as (found & -> & Hfound). cbn [mbind res_bind].
  destruct found as [id|]; cbn [mbind res_bind].
  { destruct (Hfound id eq_refl). do 2 eexists. split; [done|]. split; [by apply found_decodes|done]. }
  case_match eqn:Ef.
  { destruct (f64_leb _ _); [|done]. do 2 eexists. split; [done|]. split; [by apply fractal_decodes|done]. }
  destruct (_ || _); [by apply Hlit|]. unfold pack_near. rewrite He. cbn [best_candidate].
  destruct (search_match s c Hs Hc) as (m & s' & -> & Hm & Hs' & Hsim). rewrite Hsim.
  pose proof (encode_match_decodes (ls_cb s) (Shannon (c_Data c)) m (Similarity m (zlen (c_Data c) * 8)) c
    (lo_brain s Hs) Hm Hc) as Hd. cbv zeta in Hd |- *. set (b := encode_match _ _ _ _ _ _) in *. clearbody b.
  destruct (f64_leb (f64_lit 95 100) (b_sim b)); cbn [mbind res_bind default from_option id];
    unfold seal_residual; rewrite Hp; cbn [mbind res_bind];
    do 2 eexists; (split; [done|]); (split; [exact Hd|done]).
Qed.

#[export] Instance pack_chunk_bytes_encoder opts chunkSize r :
  lossless opts -> Encoder (Some r) (pack_chunk_bytes hasSIMD opts chunkSize).
Proof.
  intros [He _] ss c (s & -> & Hs & <-) Hc. unfold pack_chunk_bytes. rewrite He. cbn [negb andb].
  assert (Hss : searchers_ok (Some (ls_cb s)) [s]) by by exists s.
  destruct (FindExact_sound s (c_Data c) Hs) as (found & -> & Hfound). cbn [mbind res_bind].
  destruct found as [id|].
  { destruct (Hfound id eq_refl). do 2 eexists. split; [done|]. split; [by apply found_decodes|done]. }
  destruct (_ || _); [do 2 eexists; split; [done|]; split; [by apply literal_decodes|done]|].
  destruct (search_match s c Hs Hc) as (m & s' & -> & Hm & Hs' & _). pose proof Hm as (Hid & Hp & _).
  destruct (lo_brain s Hs) as [Hwf ? ?] eqn:Eb. clear Eb. pose proof (codeword_bytes _ (m_CodebookID m) (lo_brain s Hs)) as Hw.
  rewrite Hp, andb_true_r.
  destruct (bytes_eqb _ _) eqn:E; [|destruct (f64_ltb _ _)]; do 2 eexists; (split; [done|]); (split; [|done]).
  - apply (exact_decodes (ls_cb s) (m_CodebookID m) 0 c); try done. by apply cut_pattern_full.
  - pose proof (literal_decodes (Some (ls_cb s)) 0 c Hc ltac:(done) ltac:(done)) as []. by constructor.
  - apply (xor_decodes (ls_cb s) (m_CodebookID m) 0 c); try done. apply XOR_cut.
Qed.

#[export] Instance pack_chunk_stream_encoder opts chunkSize cb :
  lossless opts -> Encoder cb (pack_chunk_stream hasSIMD opts chunkSize).
Proof.
  intros [He _] ss c Hss Hc. unfold pack_chunk_stream. rewrite He. cbn [negb andb].
  assert (Hlit : forall ss, searchers_ok cb ss -> exists p ss',
    Ok (Ok (literal_chunk 0 c), ss) = Ok (Ok p, ss') /\ decodes cb (c_Data c) p /\ searchers_ok cb ss').
  { intros. do 2 eexists. split; [done|]. split; [by apply literal_decodes|done]. }
  destruct cb as [r|]; [|cbn in Hss; subst ss; by apply Hlit]. destruct Hss as (s & -> & Hs & <-).
  assert (Hss : searchers_ok (Some (ls_cb s)) [s]) by by exists s.
  destruct (FindExact_sound s (c_Data c) Hs) as (found & -> & Hfound). cbn [mbind res_bind].
  destruct found as [id|].
  { destruct (Hfound id eq_refl). do 2 eexists. split; [done|]. split; [by apply found_decodes|done]. }
  destruct (_ || _); [by apply Hlit|].
  destruct (search_match s c Hs Hc) as (m & s' & -> & Hm & Hs' & _). pose proof Hm as (Hid & Hp & _).
  destruct (lo_brain s Hs) as [Hwf ? ?]. rewrite Hp, andb_true_r. destruct (f64_ltb _ _); [by apply Hlit|].
  do 2 eexists. split; [done|]. split; [|done].
  replace (u32 (zlen (c_Data c))) with (c_Size c)
    by (rewrite (gc_size c Hc); symmetry; apply u32_small; destruct (chunk_bits c Hc), Hc; unfold is_u32; lia).
  apply (xor_decodes (ls_cb s) (m_CodebookID m) 0 c); try done. by apply codeword_bytes, Hs.
Qed.

End codec.
