(* ===== verification/BlockCodec.v ===== *)
(** Packing and unpacking the blocks of a file: for any packing step that meets the chunk contract,
    any chunker that tiles, and any order in which the workers take the chunks, the two block
    loops are inverse to each other. *)

From S2P Require Import Prelude Externals Crypto Format FormatIO Delta Chunker Codebook Entropy.
From S2P Require Import Search Unpack Pack ChunkCodec.
#[local] Open Scope Z_scope.
Import codebook Format.

(** ** The layout of a pool *)

Definition pool_of (ps : list processedChunk) : bytes := concat (map p_res ps).

Fixpoint laid_out (off : Z) (ps : list processedChunk) : Prop :=
  match ps with
  | [] => True
  | p :: ps => e_DeltaOffset (p_entry p) = off /\ laid_out (off + zlen (p_res p)) ps
  end.

Lemma decodes_pool cb datas ps :
  Forall2 (decodes cb) datas ps -> zlen (pool_of ps) <= zlen (concat datas) /\ bytes_ok (pool_of ps).
Proof.
  unfold pool_of. induction 1 as [|d p datas ps Hd _ [IH1 IH2]]; [done|]. destruct Hd.
  cbn [map concat]. rewrite !zlen_app. split; [lia|]. by apply Forall_app.
Qed.

(** What a chunk is unpacked to, and a block of chunks. *)
Definition approximates (R : bytes -> bytes -> Prop) (c : Chunk) (d : bytes) : Prop :=
  R (c_Data c) d /\ zlen d = zlen (c_Data c).

Definition approximates_block (R : bytes -> bytes -> Prop) (chunks : list Chunk) (b : bytes) : Prop :=
  exists ds, Forall2 (approximates R) chunks ds /\ b = concat ds.

Lemma approximates_len R chunks b : approximates_block R chunks b -> zlen b = zlen (concat (map c_Data chunks)).
Proof.
  intros (ds & Hds & ->). induction Hds as [|c d chunks ds [_ Hl] _ IH]; [done|]. cbn [map concat]. rewrite !zlen_app. lia.
Qed.

(** A chunker whose chunks have at most [limit] bytes. *)
Definition small_chunks (limit : Z) (split : bytes -> list Chunk) : Prop :=
  forall data, zlen data <= BlockSize -> Forall (fun c => zlen (c_Data c) <= limit) (split data).

Lemma tiles_small {hash64 : XXHash} split : (forall data, tiles data 0 (split data)) -> small_chunks BlockSize split.
Proof.
  intros Hsplit data Hd. apply Forall_lookup. intros k c Hc.
  pose proof (tiles_offsets data 0 _ k c ltac:(lia) (Hsplit data) Hc). lia.
Qed.

Lemma approximates_eq chunks b : approximates_block eq chunks b -> b = concat (map c_Data chunks).
Proof.
  intros (ds & Hds & ->). induction Hds as [|c d chunks ds [Hd _] _ IH]; [done|]. cbn [map concat]. by rewrite Hd, IH.
Qed.

(** [frame] is the stored form of [pool]. *)
Definition frame_of `{Zstd, Cipher} (dict : bytes) (key : option bytes) (frame pool : bytes) : Prop :=
  is_u32 (zlen frame) /\
  forall msg, exists z, decrypt_block msg key frame = Ok z /\ DecompressPoolDict z dict = Ok pool.

Section blocks.
Context {Z0 : Zstd} {C0 : Cipher} {F0 : Files} {hash64 : XXHash} {ZL : ZstdLaws Z0} {CL : CipherLaws C0}.
Variables (cb : option Reader) (dict : bytes) (key : option bytes).

(** The blocks of the input, the chunks packed for each of them, and its frame. *)
Inductive packed : Z -> list bytes -> list (list processedChunk) -> list bytes -> Prop :=
  | packed_nil off : packed off [] [] []
  | packed_cons off datas blocks ps pss frame frames :
      Forall2 (decodes cb) datas ps -> laid_out off ps -> frame_of dict key frame (pool_of ps) ->
      packed (off + zlen (pool_of ps)) blocks pss frames ->
      packed off (concat datas :: blocks) (ps :: pss) (frame :: frames).

(** ** Packing *)

Section packing.
Variables (R : bytes -> bytes -> Prop) (limit : Z)
  (step : list LSHSearcher -> Chunk -> res (res processedChunk * list LSHSearcher)).
Context {Hstep : Approximator cb R limit step}.

(** [p] stands for [c], and [d] is what it unpacks to. *)
Definition stands_for (c : Chunk) (d : bytes) (p : processedChunk) : Prop :=
  R (c_Data c) d /\ zlen d = zlen (c_Data c) /\ decodes cb d p.

Definition packable (c : Chunk) : Prop := good_chunk c /\ zlen (c_Data c) <= limit.

Lemma run_jobs_ok schedule chunks ss results :
  searchers_ok cb ss -> Forall packable chunks -> Forall (fun i => (i < length chunks)%nat) schedule ->
  exists results' ss', run_jobs step schedule chunks ss results = Ok (results', ss') /\ searchers_ok cb ss' /\
    (forall i, i ∈ schedule -> exists c d p, chunks !! i = Some c /\ results' !! i = Some (Ok p) /\ stands_for c d p) /\
    (forall i, i ∉ schedule -> results' !! i = results !! i).
Proof.
  intros Hss Hc Hs. revert ss results Hss; induction Hs as [|i schedule Hi Hs IH]; intros ss results Hss.
  { exists results, ss. do 2 (split; [done|]). split; [by intros i ?%not_elem_of_nil|done]. }
  cbn [run_jobs]. destruct (lookup_lt_is_Some_2 chunks i Hi) as [c Ec]. rewrite Ec.
  assert (Hg : packable c) by by eapply Forall_lookup_1.
  destruct Hg as [Hg Hlim]. destruct (approximator_ok ss c Hss Hg Hlim) as (p & ss1 & d & -> & HR & Hd & Hp & Hss1). cbn [mbind res_bind].
  destruct (IH ss1 (<[i:=Ok p]> results) Hss1) as (results' & ss' & -> & Hss' & Hin & Hout).
  exists results', ss'. do 2 (split; [done|]). split.
  - intros k Hk. destruct (decide (k ∈ schedule)) as [|Hn]; [by apply Hin|].
    apply elem_of_cons in Hk as [->|]; [|done]. exists c, d, p. rewrite (Hout i Hn), lookup_insert_eq. done.
  - intros k Hk. apply not_elem_of_cons in Hk as [? ?]. rewrite Hout by done. by rewrite lookup_insert_ne.
Qed.

Lemma gather_ok i chunks (results : gmap nat (res processedChunk)) off :
  (forall k c, chunks !! k = Some c -> exists d p, results !! (i + k)%nat = Some (Ok p) /\ stands_for c d p) ->
  0 <= off -> off + zlen (concat (map c_Data chunks)) < 2 ^ 63 ->
  exists ps ds, gather i (length chunks) results off = Ok (ps, off + zlen (pool_of ps)) /\
    Forall2 (approximates R) chunks ds /\ Forall2 (decodes cb) ds ps /\ laid_out off ps.
Proof.
  revert i off; induction chunks as [|c chunks IH]; intros i off Hr Ho Hl.
  { exists [], []. cbn. rewrite Z.add_0_r. done. }
  destruct (Hr 0%nat c eq_refl) as (d & p & Ep & HR & Hdl & Hp). rewrite Nat.add_0_r in Ep.
  cbn [length gather]. rewrite Ep. cbn [default from_option id mbind res_bind].
  cbn [map concat] in Hl. rewrite zlen_app in Hl. pose proof Hp as [Hd _ Hrl _ _ _ _ _].
  pose proof (zlen_nonneg (p_res p)). pose proof (zlen_nonneg (concat (map c_Data chunks))).
  rewrite u64_small by (unfold is_u64; lia).
  destruct (IH (S i) (off + zlen (p_res p))) as (ps & ds & -> & Hds & Hps & Hlo); [|lia|lia|].
  { intros k c' Hk. destruct (Hr (S k) c' Hk) as (d' & p' & Ep' & ?). exists d', p'. split; [|done].
    by replace (S i + k)%nat with (i + S k)%nat by lia. }
  cbn [mbind res_bind]. eexists (_ :: ps), (d :: ds). unfold pool_of. cbn [map concat p_res].
  split; [do 2 f_equal; rewrite zlen_app; cbn [p_res]; lia|].
  split; [by constructor|]. split; [constructor; [by apply decodes_set_offset|done]|done].
Qed.

Lemma process_block_ok schedule chunks ss off :
  searchers_ok cb ss -> Forall packable chunks -> schedule ≡ₚ seq 0 (length chunks) ->
  0 <= off -> off + zlen (concat (map c_Data chunks)) < 2 ^ 63 ->
  exists ps ds ss', process_block step schedule chunks ss off = Ok (ps, off + zlen (pool_of ps), ss') /\
    searchers_ok cb ss' /\ Forall2 (approximates R) chunks ds /\ Forall2 (decodes cb) ds ps /\ laid_out off ps.
Proof.
  intros Hss Hc Hs Ho Hl. unfold process_block.
  destruct (run_jobs_ok schedule chunks ss ∅ Hss Hc) as (results & ss' & -> & Hss' & Hin & _).
  { rewrite Hs. apply Forall_seq. intros i Hi. lia. }
  cbn [mbind res_bind]. destruct (gather_ok 0 chunks results off) as (ps & ds & -> & ? & ? & ?); [|done|done|].
  - intros k c Hk. assert (Hki : k ∈ schedule).
    { rewrite Hs. apply elem_of_seq. apply lookup_lt_Some in Hk. lia. }
    destruct (Hin k Hki) as (c' & d & p & Hc' & ? & ?). rewrite Hk in Hc'. injection Hc' as <-. by exists d, p.
  - cbn [mbind res_bind]. by exists ps, ds, ss'.
Qed.

(** The chunks of a tiled block. *)
Lemma tiles_good data chunks :
  bytes_ok data -> zlen data <= BlockSize -> tiles data 0 chunks ->
  Forall good_chunk chunks /\ concat (map c_Data chunks) = data.
Proof.
  intros Hb Hl Ht. split; [|etrans; [by apply (tiles_concat data 0)|apply zdrop_0]].
  apply Forall_lookup. intros i c Hi. destruct (tiles_offsets data 0 chunks i c ltac:(lia) Ht Hi) as (? & Hd & ? & Hs).
  constructor; [rewrite Hd; by apply bytes_ok_sub|unfold BlockSize in *; lia|].
  rewrite Hs. apply u32_small. unfold is_u32, BlockSize in *. lia.
Qed.

Lemma seal_block_ok msg nonce maxCompression pool :
  bytes_ok pool -> zlen pool <= BlockSize -> (key <> None -> zlen nonce = gcmNonceSize) ->
  (forall k, key = Some k -> zlen k = 32) ->
  exists frame, seal_block msg key nonce (compress_block maxCompression pool dict) = Ok frame /\
    frame_of dict key frame pool.
Proof.
  intros Hp Hl Hn Hk. destruct (DecompressPoolDict_Compress pool dict Hp) as [D1 D2].
  destruct (zlen_CompressPoolDict pool dict) as [L1 L2].
  set (z := compress_block _ _ _). assert (Hz : DecompressPoolDict z dict = Ok pool /\ zlen z < 2 ^ 31).
  { unfold z, compress_block, BlockSize in *. destruct maxCompression; (split; [done|]); ulia. }
  clearbody z. destruct Hz as [Hz Hzl]. pose proof (zlen_nonneg z). unfold frame_of, seal_block, decrypt_block.
  destruct key as [k|].
  - specialize (Hk k eq_refl). specialize (Hn ltac:(done)). rewrite Encrypt_ok by done. eexists. split; [done|].
    rewrite zlen_app, Hn, gcm_seal_len. split; [unfold is_u32, gcmNonceSize; lia|].
    intros m. exists z. by rewrite Decrypt_frame.
  - exists z. split; [done|]. split; [unfold is_u32; lia|]. intros _. by exists z.
Qed.

Variables (split : bytes -> list Chunk) (schedule : Z -> nat -> list nat) (maxCompression : bool)
  (nonce : Z -> bytes).
Hypotheses (Hsplit : forall data, tiles data 0 (split data))
  (Hschedule : forall i n, schedule i n ≡ₚ seq 0 n)
  (Hnonce : key <> None -> forall i, zlen (nonce i) = gcmNonceSize)
  (Hkey : forall k, key = Some k -> zlen k = 32).

Lemma pack_blocks_approx i blocks ss off :
  small_chunks limit split -> searchers_ok cb ss -> Forall (fun b => bytes_ok b /\ zlen b <= BlockSize) blocks ->
  0 <= off -> off + zlen (concat blocks) < 2 ^ 63 ->
  exists pb outs, pack_blocks split step schedule maxCompression dict key nonce i blocks ss off = Ok pb /\
    packed off outs (pb_chunks pb) (pb_frames pb) /\
    Forall2 (fun b o => approximates_block R (split b) o /\ zlen o = zlen b) blocks outs /\
    length (concat (pb_chunks pb)) = length (concat (map split blocks)).
Proof.
  intros Hlimit Hss Hb. revert i ss off Hss; induction Hb as [|b blocks [Hb1 Hb2] Hb IH]; intros i ss off Hss Ho Hl.
  { exists {| pb_chunks := []; pb_frames := [] |}, []. split; [done|]. split; [constructor|done]. }
  cbn [pack_blocks]. destruct (tiles_good b (split b) Hb1 Hb2 (Hsplit b)) as [Hg Hcat].
  cbn [concat] in Hl. rewrite zlen_app in Hl. pose proof (zlen_nonneg (concat blocks)).
  assert (Hpk : Forall packable (split b)) by (apply Forall_and; split; [done|by apply Hlimit]).
  destruct (process_block_ok (schedule i (length (split b))) (split b) ss off Hss Hpk (Hschedule _ _) Ho)
    as (ps & ds & ss' & -> & Hss' & Hds & Hps & Hlo); [rewrite Hcat; lia|]. cbn [mbind res_bind].
  assert (Hap : approximates_block R (split b) (concat ds)) by by exists ds.
  pose proof (approximates_len _ _ _ Hap) as Hdl. rewrite Hcat in Hdl.
  destruct (decodes_pool cb _ _ Hps) as [Hpl Hpok]. rewrite Hdl in Hpl. fold (pool_of ps).
  destruct (seal_block_ok "pack: encrypt block" (nonce i) maxCompression (pool_of ps) Hpok ltac:(lia)
    (fun H => Hnonce H i) Hkey) as (frame & -> & Hf). cbn [mbind res_bind].
  pose proof (zlen_nonneg (pool_of ps)).
  destruct (IH (i + 1) ss' (off + zlen (pool_of ps)) Hss' ltac:(lia) ltac:(lia)) as (pb & outs & -> & Hpb & Houts & Hlen).
  cbn [mbind res_bind]. eexists _, (concat ds :: outs). split; [done|]. cbn. split; [by constructor|].
  split; [by constructor|]. by rewrite !length_app, Hlen, <-(Forall2_length _ _ _ Hps), <-(Forall2_length _ _ _ Hds).
Qed.
End packing.

(** ** Unpacking *)

(** The residual of the first chunk of what is left of a pool. *)
Lemma slice_residual (pre res post : bytes) off g delta :
  0 <= g -> off - g = zlen pre -> off + zlen res < 2 ^ 63 -> delta = zlen res ->
  let localOffset := u64 (off - g) in
  let endLocal := u64 (localOffset + delta) in
  (endLocal >? zlen (pre ++ res ++ post)) = false /\
  slice (pre ++ res ++ post) localOffset endLocal = Ok res.
Proof.
  intros Hg Hp Hl ->. pose proof (zlen_nonneg pre). pose proof (zlen_nonneg res). pose proof (zlen_nonneg post).
  rewrite Hp. cbv zeta. rewrite (u64_small (zlen pre)), u64_small by (unfold is_u64; lia). rewrite !zlen_app.
  split; [rewrite Z.gtb_ltb; apply Z.ltb_ge; lia|]. rewrite slice_ok by (rewrite ?zlen_app; lia).
  f_equal. apply sub_app_mid; lia.
Qed.

Lemma unpack_block_bytes_ok r datas ps pre g off :
  cb = Some r -> Forall2 (decodes cb) datas ps -> laid_out off ps ->
  0 <= g -> off - g = zlen pre -> off + zlen (pool_of ps) < 2 ^ 63 ->
  unpack_block_bytes r (map p_entry ps) (pre ++ pool_of ps) g = Ok (concat datas).
Proof.
  intros Hcb Hps. revert pre off; induction Hps as [|d p datas ps Hd Hps IH]; intros pre off Hlo Hg Hp Hl; [done|].
  destruct Hlo as [Hoff Hlo]. unfold pool_of in *. cbn [map concat] in *. rewrite zlen_app in Hl.
  pose proof (zlen_nonneg (concat (map p_res ps))). cbn [unpack_block_bytes]. cbv zeta. rewrite Hoff.
  destruct (slice_residual pre (p_res p) (concat (map p_res ps)) off g _ Hg Hp ltac:(lia) (dc_delta _ _ _ Hd))
    as [-> ->]. cbn [mbind res_bind].
  pose proof (dc_rebuilds _ _ _ Hd) as Hr. rewrite Hcb in Hr. cbn in Hr. rewrite Hr. cbn [wrap_err mbind res_bind].
  rewrite app_assoc, (IH (pre ++ p_res p) (off + zlen (p_res p))) by (done || rewrite ?zlen_app; lia).
  done.
Qed.

(** [writeOut] of the chunks, one after the other. *)
Lemma writeOut_app exact a b o : writeOut exact b (writeOut exact a o) = writeOut exact (a ++ b) o.
Proof. destruct exact; unfold writeOut; cbn; by rewrite !app_assoc. Qed.

Lemma writeOut_nil exact o : writeOut exact [] o = o.
Proof. destruct o, exact; unfold writeOut; cbn; by rewrite !app_nil_r. Qed.

Section disk.
Variables (opts : UnpackOptions) (exact : bool) (maxID : Z) (intn : Z -> Z).
Hypothesis Hexact : f64_ltb (f64_of_int 0) (u_Fuzziness opts) = false.

Lemma unpack_block_ok datas ps pre g off o :
  Forall2 (decodes cb) datas ps -> laid_out off ps ->
  0 <= g -> off - g = zlen pre -> off + zlen (pool_of ps) < 2 ^ 63 ->
  unpack_block cb opts exact maxID intn (map p_entry ps) (pre ++ pool_of ps) g o =
    Ok (writeOut exact (concat datas) o).
Proof.
  intros Hps. revert pre off o; induction Hps as [|d p datas ps Hd Hps IH]; intros pre off o Hlo Hg Hp Hl;
    [cbn; by rewrite writeOut_nil|].
  destruct Hlo as [Hoff Hlo]. unfold pool_of in *. cbn [map concat] in *. rewrite zlen_app in Hl.
  pose proof (zlen_nonneg (concat (map p_res ps))). cbn [unpack_block]. cbv zeta. rewrite Hoff.
  destruct (slice_residual pre (p_res p) (concat (map p_res ps)) off g _ Hg Hp ltac:(lia) (dc_delta _ _ _ Hd))
    as [-> ->]. cbn [mbind res_bind].
  rewrite (unpack_chunk_exact cb (u_Fuzziness opts) maxID intn _ _ d) by (exact Hexact || apply Hd). cbn [wrap_err mbind res_bind].
  rewrite app_assoc, (IH (pre ++ p_res p) (off + zlen (p_res p))) by (done || rewrite ?zlen_app; lia).
  by rewrite writeOut_app.
Qed.
End disk.

(** The entries of the file, block by block. *)
Definition entries_of (pss : list (list processedChunk)) : list (list ChunkEntry) := map (map p_entry) pss.

Lemma concat_entries_of pss : concat (entries_of pss) = map p_entry (concat pss).
Proof. unfold entries_of. induction pss as [|ps pss IH]; [done|]. cbn [map concat]. by rewrite map_app, IH. Qed.

Lemma packed_lengths off blocks pss frames :
  packed off blocks pss frames -> length pss = length blocks /\ length frames = length blocks.
Proof. induction 1 as [|? ? ? ? ? ? ? ? ? ? ? [? ?]]; [done|]. cbn. lia. Qed.

Definition table_of (frames : list bytes) : list Z := map (fun f => u32 (zlen f)) frames.

(** One turn of either block loop: the frame is read and opened, and the entries of the block
    are the ones its range delimits. *)
Lemma block_turn bss ps pss frame frames msg1 msg2 :
  wf_blocks (bss ++ entries_of (ps :: pss)) -> frame_of dict key frame (pool_of ps) ->
  let entries := concat (bss ++ entries_of (ps :: pss)) in
  let rest := concat (entries_of (ps :: pss)) in
  (exists z, ReadFull msg1 (u32 (zlen frame)) (frame ++ frames) = Ok (frame, frames) /\
     decrypt_block msg2 key frame = Ok z /\ DecompressPoolDict z dict = Ok (pool_of ps)) /\
  BlockRange (BlockStarts entries) (zlen bss) (zlen entries) =
    Ok (zlen (concat bss), zlen (concat bss) + zlen (map p_entry ps)) /\
  (let n := zlen (concat bss) + zlen (map p_entry ps) - zlen (concat bss) in
   ztake n rest = map p_entry ps /\ zdrop n rest = concat (entries_of pss)).
Proof.
  intros Hwf [Hf Hopen]. cbv zeta. cbn [entries_of map]. split; [|split].
  - destruct (Hopen msg2) as (z & ? & ?). exists z. split; [|done]. apply ReadFull_app. symmetry. by apply u32_small.
  - by apply BlockRange_concat.
  - replace (_ + _ - _) with (zlen (map p_entry ps)) by lia. cbn [concat]. by rewrite ztake_app, zdrop_app.
Qed.

Lemma unpack_blocks_bytes_ok r off blocks pss frames bss post :
  cb = Some r -> packed off blocks pss frames -> wf_blocks (bss ++ entries_of pss) ->
  0 <= off -> off + zlen (concat blocks) < 2 ^ 63 ->
  let entries := concat (bss ++ entries_of pss) in
  unpack_blocks_bytes r dict key (BlockStarts entries) (zlen entries) (zlen bss) (table_of frames)
    (concat (entries_of pss)) off (concat frames ++ post) = Ok (concat blocks).
Proof.
  intros Hcb Hpk. revert bss. induction Hpk as [|off datas blocks ps pss frame frames Hps Hlo Hf Hpk IH];
    intros bss Hwf Ho Hl; [done|]. cbv zeta. cbn [concat] in Hl. rewrite zlen_app in Hl.
  cbn [table_of map unpack_blocks_bytes concat]. rewrite <-app_assoc.
  destruct (block_turn bss ps pss frame (concat frames ++ post) "unpackbytes: read block" "unpackbytes: decrypt block"
    Hwf Hf) as ((z & -> & Hz & Hd) & Hr & Ht & Hdr). cbv zeta in *. cbn [mbind res_bind]. rewrite Hz.
  cbn [mbind res_bind]. rewrite Hd. cbn [wrap_err mbind res_bind]. rewrite Hr. cbn [mbind res_bind].
  change (map p_entry ps ++ concat (entries_of pss)) with (concat (entries_of (ps :: pss))). rewrite Ht, Hdr.
  destruct (decodes_pool cb _ _ Hps) as [Hpl _]. pose proof (zlen_nonneg (pool_of ps)).
  pose proof (zlen_nonneg (concat blocks)).
  pose proof (unpack_block_bytes_ok r datas ps [] off off Hcb Hps Hlo Ho (Z.sub_diag off) ltac:(lia)) as Hb.
  cbn [app] in Hb. rewrite Hb.
  cbn [mbind res_bind]. rewrite u64_small by (unfold is_u64; lia).
  assert (Hsnoc : bss ++ entries_of (ps :: pss) = (bss ++ [map p_entry ps]) ++ entries_of pss) by by rewrite <-app_assoc.
  rewrite Hsnoc in *. specialize (IH (bss ++ [map p_entry ps]) Hwf ltac:(lia) ltac:(lia)). cbv zeta in IH.
  rewrite zlen_app in IH. change (zlen [map p_entry ps]) with 1 in IH. fold (table_of frames). by rewrite IH.
Qed.

Section disk_blocks.
Variables (opts : UnpackOptions) (exact : bool) (maxID : Z) (intn : Z -> Z).
Hypothesis Hexact : f64_ltb (f64_of_int 0) (u_Fuzziness opts) = false.

(** The state of the block loop after the blocks [bss], before the blocks of [pss]. *)
Definition run_from (bss : list (list ChunkEntry)) (pss : list (list processedChunk)) (table : list Z) (off : Z)
    (o : unpacked) (r : bytes) : res unpacked :=
  let entries := concat (bss ++ entries_of pss) in
  unpack_blocks cb opts exact maxID intn dict key (BlockStarts entries) entries (zlen bss) (zlen (concat bss))
    table (concat (entries_of pss)) off o r.

Lemma entries_snoc bss ps pss :
  bss ++ entries_of (ps :: pss) = (bss ++ [map p_entry ps]) ++ entries_of pss /\
  zlen (bss ++ [map p_entry ps]) = zlen bss + 1 /\
  zlen (concat (bss ++ [map p_entry ps])) = zlen (concat bss) + zlen (map p_entry ps).
Proof.
  split; [by rewrite <-app_assoc|]. split; [by rewrite zlen_app|].
  rewrite concat_app. cbn [concat]. by rewrite app_nil_r, zlen_app.
Qed.

(** A good block is written out. *)
Lemma run_turn bss datas ps pss frame table off o r :
  Forall2 (decodes cb) datas ps -> laid_out off ps -> frame_of dict key frame (pool_of ps) ->
  wf_blocks (bss ++ entries_of (ps :: pss)) -> 0 <= off -> off + zlen (concat datas) < 2 ^ 63 ->
  run_from bss (ps :: pss) (u32 (zlen frame) :: table) off o (frame ++ r) =
    run_from (bss ++ [map p_entry ps]) pss table (off + zlen (pool_of ps)) (writeOut exact (concat datas) o) r.
Proof.
  intros Hps Hlo Hf Hwf Ho Hl. unfold run_from. cbn [unpack_blocks]. cbv zeta.
  destruct (block_turn bss ps pss frame r "unpack: unexpected end of delta pool" "unpack: decrypt block"
    Hwf Hf) as ((z & -> & Hz & Hd) & Hr & Ht & Hdr). cbv zeta in *. cbn [mbind res_bind]. rewrite Hz.
  cbn [mbind res_bind]. rewrite Hd, Hr. cbn [mbind res_bind]. rewrite Ht, Hdr.
  destruct (decodes_pool cb _ _ Hps) as [Hpl _]. pose proof (zlen_nonneg (pool_of ps)).
  pose proof (unpack_block_ok opts exact maxID intn Hexact datas ps [] off off o Hps Hlo Ho (Z.sub_diag off) ltac:(lia)) as Hb.
  cbn [app] in Hb. rewrite Hb. cbn [mbind res_bind]. rewrite u64_small by (unfold is_u64; lia).
  destruct (entries_snoc bss ps pss) as (E1 & E2 & E3). by rewrite <-E1, E2, E3.
Qed.

(** What follows the frames is not read. *)
Lemma run_ok off blocks pss frames bss o tail :
  packed off blocks pss frames -> wf_blocks (bss ++ entries_of pss) ->
  0 <= off -> off + zlen (concat blocks) < 2 ^ 63 ->
  run_from bss pss (table_of frames) off o (concat frames ++ tail) = Ok (writeOut exact (concat blocks) o).
Proof.
  intros Hpk. revert bss o. induction Hpk as [|off datas blocks ps pss frame frames Hps Hlo Hf Hpk IH];
    intros bss o Hwf Ho Hl; [cbn; by rewrite writeOut_nil|]. cbn [concat] in *. rewrite zlen_app in Hl. rewrite <-app_assoc.
  pose proof (zlen_nonneg (concat blocks)). destruct (decodes_pool cb _ _ Hps) as [Hpl _]. pose proof (zlen_nonneg (pool_of ps)).
  cbn [table_of map]. rewrite (run_turn bss datas) by (done || lia). fold (table_of frames).
  rewrite IH; [by rewrite writeOut_app|by rewrite <-(proj1 (entries_snoc bss ps pss))|lia|lia].
Qed.

(** ** A damaged block, in tolerant mode *)

(** [n] zero bytes that are not hashed. *)
Definition zeroed (n : Z) (o : unpacked) : unpacked :=
  {| up_file := up_file o ++ make_bytes n; up_hashed := up_hashed o; up_corrupt := up_corrupt o + 1 |}.

Lemma write_zeros_block datas ps o :
  Forall2 (decodes cb) datas ps ->
  foldl (fun o e => write_zeros e o) (count_corrupt o) (map p_entry ps) = zeroed (zlen (concat datas)) o.
Proof.
  intros Hps. unfold zeroed.
  enough (forall o', foldl (fun o e => write_zeros e o) o' (map p_entry ps) =
    {| up_file := up_file o' ++ make_bytes (zlen (concat datas)); up_hashed := up_hashed o'; up_corrupt := up_corrupt o' |})
    as H by (by rewrite H).
  induction Hps as [|d p datas ps Hd _ IH]; intros o'.
  { cbn. rewrite make_bytes_0, app_nil_r by done. by destruct o'. }
  cbn [map foldl concat]. rewrite IH. cbn. pose proof (zlen_nonneg d). pose proof (zlen_nonneg (concat datas)).
  by rewrite (dc_orig _ _ _ Hd), zlen_app, make_split, app_assoc by lia.
Qed.

(** The next block tells where its residuals begin. *)
Lemma next_offset bss ps pss off off' blocks frames :
  wf_blocks (bss ++ entries_of (ps :: pss)) -> packed off' blocks pss frames ->
  let entries := concat (bss ++ entries_of (ps :: pss)) in
  let next := zlen (concat bss) + zlen (map p_entry ps) in
  exists g, (if next <? zlen entries then e ← index entries next; Ok (e_DeltaOffset e) else Ok off) = Ok g /\
    (pss <> [] -> g = off').
Proof.
  intros Hwf Hpk. cbv zeta. destruct (entries_snoc bss ps pss) as (E1 & _ & E3).
  rewrite E1, <-E3 in *. set (pre := bss ++ [map p_entry ps]) in *. clearbody pre. clear E1 E3.
  rewrite concat_app, zlen_app. inversion Hpk as [|? datas' blocks' ps' pss' f' frames' Hps' Hlo' _ Hpk']; subst.
  - exists off. change (zlen (concat (entries_of []))) with 0. by rewrite (proj2 (Z.ltb_ge _ _)) by lia.
  - assert (Hne : map p_entry ps' <> []).
    { assert (Hsplit : forall l b k, wf_blocks (l ++ b :: k) -> b <> []).
      { clear. induction l as [|a l IH]; intros b k H; inversion H; subst; try done.
        - by destruct l.
        - by eapply IH. }
      by eapply (Hsplit pre _ (entries_of pss')). }
    destruct ps' as [|p' ps']; [done|]. cbn [entries_of map concat app].
    rewrite zlen_cons. match goal with |- context [zlen ?l + 1] => pose proof (zlen_nonneg l) end.
    rewrite (proj2 (Z.ltb_lt _ _)) by lia. rewrite (index_app_mid (zlen (concat pre))) by done. cbn [mbind res_bind].
    eexists. split; [done|]. intros _. by destruct Hlo'.
Qed.

Lemma run_damaged bss datas ps pss frame frame' blocks frames off o z e :
  Forall2 (decodes cb) datas ps -> packed (off + zlen (pool_of ps)) blocks pss frames ->
  frame_of dict key frame (pool_of ps) -> zlen frame' = zlen frame -> u_Strict opts = false ->
  (forall msg, decrypt_block msg key frame' = Ok z) -> DecompressPoolDict z dict = Err e ->
  wf_blocks (bss ++ entries_of (ps :: pss)) -> 0 <= off -> off + zlen (concat datas) + zlen (concat blocks) < 2 ^ 63 ->
  run_from bss (ps :: pss) (u32 (zlen frame) :: table_of frames) off o (frame' ++ concat frames) =
    Ok (writeOut exact (concat blocks) (zeroed (zlen (concat datas)) o)).
Proof.
  intros Hps Hpk Hf Hlen Hstrict Hz Hd Hwf Ho Hl. unfold run_from. cbn [unpack_blocks]. cbv zeta.
  destruct (block_turn bss ps pss frame (concat frames) "" "" Hwf Hf) as (_ & Hr & Ht & Hdr). cbv zeta in *.
  destruct Hf as [Hf _]. rewrite ReadFull_app by (by rewrite Hlen, u32_small). cbn [mbind res_bind].
  rewrite Hz. cbn [mbind res_bind]. rewrite Hd, Hstrict, Hr. cbn [mbind res_bind].
  destruct (next_offset bss ps pss off (off + zlen (pool_of ps)) blocks frames Hwf Hpk) as (g & Hg & Hgo).
  cbv zeta in Hg. rewrite Hg. cbn [mbind res_bind]. rewrite Ht, Hdr, (write_zeros_block datas) by done.
  destruct (entries_snoc bss ps pss) as (E1 & E2 & E3). rewrite E1, <-E2, <-E3 in *.
  destruct pss as [|ps2 pss]; [inversion Hpk; subst; cbn; by rewrite writeOut_nil|]. rewrite (Hgo ltac:(done)).
  pose proof (zlen_nonneg (pool_of ps)). pose proof (zlen_nonneg (concat blocks)).
  destruct (decodes_pool cb _ _ Hps) as [Hpl _]. rewrite <-(app_nil_r (concat frames)). apply run_ok; [done|done|lia|lia].
Qed.

(** One damaged block among good ones: only its own bytes are lost. *)
Lemma run_one_damaged frame' z e blocks1 block blocks2 pss1 ps pss2 frames1 frame frames2 bss off o :
  length frames1 = length blocks1 -> length pss1 = length blocks1 ->
  packed off (blocks1 ++ block :: blocks2) (pss1 ++ ps :: pss2) (frames1 ++ frame :: frames2) ->
  zlen frame' = zlen frame -> u_Strict opts = false ->
  (forall msg, decrypt_block msg key frame' = Ok z) -> DecompressPoolDict z dict = Err e ->
  wf_blocks (bss ++ entries_of (pss1 ++ ps :: pss2)) -> 0 <= off ->
  off + zlen (concat (blocks1 ++ block :: blocks2)) < 2 ^ 63 ->
  run_from bss (pss1 ++ ps :: pss2) (table_of (frames1 ++ frame :: frames2)) off o (concat (frames1 ++ frame' :: frames2)) =
    Ok (writeOut exact (concat blocks2) (zeroed (zlen block) (writeOut exact (concat blocks1) o))).
Proof.
  revert pss1 frames1 bss off o.
  induction blocks1 as [|b blocks1 IH]; intros [|ps1 pss1] [|f1 frames1] bss off o L1 L2 Hpk Hlen Hst Hz Hd Hwf Ho Hl;
    try discriminate; cbn [app concat] in *.
  - inversion Hpk; subst. rewrite zlen_app in Hl. rewrite writeOut_nil. cbn [table_of map].
    eapply run_damaged; try done. lia.
  - inversion Hpk as [|? datas ? ? ? ? ? Hps Hlo Hf Hpk']; subst. rewrite zlen_app in Hl.
    pose proof (zlen_nonneg (concat (blocks1 ++ block :: blocks2))). destruct (decodes_pool cb _ _ Hps) as [Hpl _].
    pose proof (zlen_nonneg (pool_of ps1)). cbn [table_of map]. rewrite (run_turn bss datas) by (done || lia).
    rewrite <-writeOut_app. apply IH; try done; try (injection L1; injection L2; done); try lia.
    by rewrite <-(proj1 (entries_snoc bss ps1 (pss1 ++ ps :: pss2))).
Qed.
End disk_blocks.

(** ** The chunk table of a packed file *)

(** Every block but the last one is full. *)
Inductive full_blocks : list bytes -> Prop :=
  | full_nil : full_blocks []
  | full_last b : 0 < zlen b <= BlockSize -> full_blocks [b]
  | full_cons b bs : zlen b = BlockSize -> full_blocks bs -> full_blocks (b :: bs).

Lemma read_blocks_full fuel input :
  zlen input <= Z.of_nat fuel ->
  full_blocks (read_blocks fuel input) /\ concat (read_blocks fuel input) = input.
Proof.
  revert input; induction fuel as [|fuel IH]; intros input Hf.
  { assert (input = []) as -> by (apply zlen_0_nil; pose proof (zlen_nonneg input); lia). split; [constructor|done]. }
  cbn [read_blocks]. destruct input as [|x input]; [split; [constructor|done]|].
  set (l := x :: input) in *. assert (0 < zlen l) by (unfold l; rewrite zlen_cons; pose proof (zlen_nonneg input); lia).
  clearbody l. destruct (IH (zdrop BlockSize l)) as [Hfull Hcat].
  { rewrite zlen_zdrop. unfold BlockSize. lia. }
  cbn [concat]. rewrite Hcat. split; [|apply ztake_zdrop].
  pose proof (zlen_ztake BlockSize l) as Hl. destruct (Z.ltb_spec BlockSize (zlen l)).
  - constructor; [unfold BlockSize in *; lia|done].
  - assert (zdrop BlockSize l = []) as ->.
    { apply zlen_0_nil. rewrite zlen_zdrop. unfold BlockSize in *. lia. }
    assert (read_blocks fuel [] = []) as -> by by destruct fuel. constructor. unfold BlockSize in *. lia.
Qed.

(** Cutting the concatenation of full blocks finds them again. *)
Lemma read_blocks_concat fuel blocks :
  full_blocks blocks -> zlen (concat blocks) <= Z.of_nat fuel -> read_blocks fuel (concat blocks) = blocks.
Proof.
  intros Hfull. revert fuel; induction Hfull as [|b Hb|b blocks Hb Hfull IH]; intros fuel Hf; [by destruct fuel|..].
  - cbn [concat] in *. rewrite app_nil_r in *. destruct fuel as [|fuel]; [lia|]. cbn [read_blocks].
    destruct b as [|x b]; [change (zlen (@nil Z)) with 0 in Hb; lia|].
    rewrite ztake_ge by lia. assert (zdrop BlockSize (x :: b) = []) as ->.
    { apply zlen_0_nil. rewrite zlen_zdrop. lia. }
    by destruct fuel.
  - cbn [concat] in *. rewrite zlen_app in Hf. pose proof (zlen_nonneg (concat blocks)). assert (0 < BlockSize) by done.
    destruct fuel as [|fuel]; [lia|]. cbn [read_blocks].
    destruct (b ++ concat blocks) as [|x l] eqn:E; [apply (f_equal zlen) in E; rewrite zlen_app in E; change (zlen (@nil Z)) with 0 in E; lia|].
    rewrite <-E. replace BlockSize with (zlen b) by done. rewrite ztake_app, zdrop_app. f_equal. apply IH. lia.
Qed.

Lemma read_blocks_ok fuel input :
  bytes_ok input -> Forall (fun b => bytes_ok b /\ zlen b <= BlockSize) (read_blocks fuel input).
Proof.
  revert input; induction fuel as [|fuel IH]; intros input Hb; [constructor|]. cbn [read_blocks].
  destruct input as [|x input]; [constructor|]. constructor.
  - rewrite zlen_ztake. split; [|unfold BlockSize; lia]. rewrite ztake_take. by apply Forall_take.
  - apply IH. rewrite zdrop_drop. by apply Forall_drop.
Qed.

Lemma block_bytes_entries datas ps :
  Forall2 (decodes cb) datas ps ->
  block_bytes (map p_entry ps) = zlen (concat datas) /\ Forall (fun e => 0 < e_OriginalSize e) (map p_entry ps).
Proof.
  induction 1 as [|d p datas ps Hd _ [IH1 IH2]]; [done|]. destruct Hd. cbn [map concat]. rewrite zlen_app.
  split; [|constructor; [lia|done]]. unfold block_bytes in *. cbn [foldr]. lia.
Qed.

Lemma packed_wf_blocks off blocks pss frames :
  packed off blocks pss frames -> full_blocks blocks ->
  wf_blocks (entries_of pss) /\ block_bytes (concat (entries_of pss)) = zlen (concat blocks).
Proof.
  induction 1 as [|off datas blocks ps pss frame frames Hps Hlo Hf Hpk IH]; intros Hfull; [split; [constructor|done]|].
  destruct (block_bytes_entries datas ps Hps) as [Hsz Hpos].
  assert (Hne : 0 < zlen (concat datas) -> map p_entry ps <> []).
  { intros Hd E. rewrite E in Hsz. cbn in Hsz. lia. }
  cbn [entries_of map concat]. rewrite block_bytes_app, zlen_app, Hsz. inversion Hfull as [|? Hb|? ? Hb Hbs]; subst.
  - inversion Hpk; subst. split; [|done]. cbn [map]. constructor; [apply Hne; lia|done|lia].
  - destruct (IH Hbs) as [IH1 IH2]. unfold entries_of in IH2. rewrite IH2.
    split; [|done]. constructor; try done; [apply Hne; rewrite Hb; done|lia].
Qed.

(** A codeword number or the literal marker always has a code. *)
Definition small_id (e : ChunkEntry) : Prop := e_CodebookID e = LiteralCodebookID \/ 0 <= e_CodebookID e < 2 ^ 61.

Lemma small_ids_codable prev es : 0 <= prev <= 2 ^ 61 -> Forall small_id es -> ids_codable prev es = true.
Proof.
  intros Hp Hes. revert prev Hp; induction Hes as [|e es He Hes IH]; intros prev Hp; [done|].
  cbn [ids_codable]. unfold id_codable, encode_id. destruct (Z.eqb_spec (e_CodebookID e) LiteralCodebookID); cbn [orb andb snd].
  - by apply IH.
  - destruct He as [|He]; [done|]. apply andb_true_iff. split.
    + apply negb_true_iff, Z.eqb_neq. ulia.
    + apply IH. rewrite u64_small by (unfold is_u64; lia). lia.
Qed.

Lemma laid_out_entries datas ps off :
  Forall2 (decodes cb) datas ps -> laid_out off ps -> 0 <= off -> off + zlen (concat datas) < 2 ^ 63 ->
  Forall (fun e => wf_entry e /\ small_id e) (map p_entry ps).
Proof.
  intros Hps. revert off; induction Hps as [|d p datas ps Hd Hps IH]; intros off Hlo Ho Hl; [constructor|].
  destruct Hlo as [Hoff Hlo]. cbn [map concat] in *. rewrite zlen_app in Hl. pose proof (zlen_nonneg (concat datas)).
  destruct Hd. pose proof (zlen_nonneg (p_res p)). unfold BlockSize in *. constructor; [|apply (IH (off + zlen (p_res p))); [done|lia|lia]].
  split; [|done]. constructor; unfold is_u64, is_u32, LiteralCodebookID in *; try lia; done.
Qed.

Lemma packed_entries off blocks pss frames :
  packed off blocks pss frames -> 0 <= off -> off + zlen (concat blocks) < 2 ^ 63 ->
  Forall wf_entry (concat (entries_of pss)) /\ ids_codable 0 (concat (entries_of pss)) = true.
Proof.
  intros Hpk Ho Hl. enough (Forall (fun e => wf_entry e /\ small_id e) (concat (entries_of pss))) as H.
  { apply Forall_and in H as [? ?]. split; [done|]. apply small_ids_codable; [lia|done]. }
  revert Ho Hl. induction Hpk as [|off datas blocks ps pss frame frames Hps Hlo Hf Hpk IH]; intros Ho Hl; [constructor|].
  cbn [entries_of map concat] in *. rewrite zlen_app in Hl. pose proof (zlen_nonneg (concat blocks)).
  destruct (decodes_pool cb _ _ Hps) as [Hpl _]. pose proof (zlen_nonneg (pool_of ps)).
  apply Forall_app. split; [by apply (laid_out_entries datas ps off); try lia|apply IH; lia].
Qed.

End blocks.
