(* ===== verification/RoundTrip.v ===== *)
(** Whole files: what the packers write, the unpackers give back.

    The theorems hold for every choice of chunker, brain, worker schedule, passphrase and
    randomness; the compressors and the cipher enter only through the laws of [Externals]. *)

From S2P Require Import Prelude Binary Sha256 Externals Crypto Format FormatIO Delta Chunker.
From S2P Require Import Codebook Merkle Entropy Search Unpack Pack ChunkCodec BlockCodec.
#[local] Open Scope Z_scope.
Import codebook Format.

(** The header fields that are constants or wrapped integers. *)
Ltac wf_field :=
  try first [apply u32_range | by apply zlen_make | apply zlen_Root | by unfold is_u64; lia
            | by change (zlen (@nil Z)) with 0; unfold MaxMicroDictSize; lia].

(** ** The metadata of a packed file *)

Section files.
Context {Z0 : Zstd} {C0 : Cipher} {F0 : Files} {hash64 : XXHash} {log2 : MathLog2} {order : MapOrder}
  {ZL : ZstdLaws Z0} {CL : CipherLaws C0}.

(** A header and table that describe the packed blocks of [input]; a lossy file does not carry the hash
    of what it unpacks to. *)
Record describes (h : Header) (input : bytes) (pss : list (list processedChunk)) : Prop := {
  ds_wf : wf_header h;
  ds_version : 3 <= h_Version h <= 8;
  ds_compressed : h_CompressedTable h = true;
  ds_passthrough : h_IsPassthrough h = false;
  ds_hash : h_IsLossy h = false -> h_OriginalHash h = Sum256 input;
  ds_input : 0 < zlen input < 2 ^ 48;
  ds_size : h_OriginalSize h = zlen input;
  ds_count : h_ChunkCount h = zlen (concat pss);
  ds_limit : zlen (concat pss) <= 2 ^ 27;
}.

Definition input_blocks (input : bytes) : list bytes := read_blocks (length input) input.

(** [out] is what a packing step loses to: each chunk of [input] replaced by an [R]-related one. *)
Definition approximated (R : bytes -> bytes -> Prop) (split : bytes -> list Chunk) (input out : bytes) : Prop :=
  exists outs, Forall2 (fun b o => approximates_block R (split b) o /\ zlen o = zlen b) (input_blocks input) outs /\
    out = concat outs.

Lemma approximated_blocks R split input outs :
  Forall2 (fun b o => approximates_block R (split b) o /\ zlen o = zlen b) (input_blocks input) outs ->
  zlen (concat outs) = zlen input /\ input_blocks (concat outs) = outs.
Proof.
  intros Houts. unfold input_blocks in *.
  destruct (read_blocks_full (length input) input ltac:(unfold zlen; lia)) as [Hfull Hcat].
  assert (Hlen : zlen (concat outs) = zlen (concat (read_blocks (length input) input))).
  { clear Hfull Hcat. induction Houts as [|b o ? ? [_ Hl] _ IH]; [done|]. cbn [concat]. rewrite !zlen_app. lia. }
  rewrite Hcat in Hlen. split; [done|]. apply read_blocks_concat; [|unfold zlen; lia].
  clear Hlen Hcat. induction Houts as [|b o blocks outs [_ Hl] Hos IH]; [constructor|].
  inversion Hfull as [|? Hb|? ? Hb Hbs]; subst; [inversion Hos; subst|]; constructor; first [lia|by apply IH].
Qed.

Lemma approximated_len R split input out : approximated R split input out -> zlen out = zlen input.
Proof. intros (outs & Houts & ->). by destruct (approximated_blocks _ _ _ _ Houts). Qed.

(** An exact step loses nothing. *)
Lemma approximated_eq split input out :
  (forall data, tiles data 0 (split data)) -> approximated eq split input out -> out = input.
Proof.
  intros Hsplit (outs & Houts & ->). destruct (read_blocks_full (length input) input ltac:(unfold zlen; lia)) as [_ Hcat].
  unfold input_blocks in *. etrans; [|exact Hcat]. clear Hcat. f_equal.
  induction Houts as [|b o blocks outs [Ho _] _ IH]; [done|]. f_equal; [|done].
  rewrite (approximates_eq _ _ Ho). etrans; [by apply (tiles_concat b 0)|apply zdrop_0].
Qed.

Lemma zlen_table_of frames : zlen (table_of frames) = zlen frames.
Proof. unfold table_of, zlen. by rewrite length_map. Qed.

Lemma zlen_entries pss : zlen (concat (entries_of pss)) = zlen (concat pss).
Proof. rewrite concat_entries_of. unfold zlen. by rewrite length_map. Qed.

(** The blocks of a packed file, from its entries. *)
Lemma packed_input cb dict key input pss frames :
  packed cb dict key 0 (input_blocks input) pss frames -> zlen input < 2 ^ 48 -> input <> [] ->
  let bs := entries_of pss in
  wf_blocks bs /\ block_bytes (concat bs) = zlen input /\ bs <> [] /\ concat bs <> [] /\
  Forall wf_entry (concat bs) /\ ids_codable 0 (concat bs) = true /\
  zlen frames = zlen bs /\ zlen bs < 2 ^ 32 /\ concat (input_blocks input) = input.
Proof.
  intros Hpk Hl Hne. cbv zeta.
  destruct (read_blocks_full (length input) input ltac:(unfold zlen; lia)) as [Hfull Hcat].
  destruct (packed_wf_blocks cb dict key _ _ _ _ Hpk Hfull) as [Hwf Hsz]. unfold input_blocks in *. rewrite Hcat in Hsz.
  destruct (packed_entries cb dict key _ _ _ _ Hpk ltac:(lia)) as [He Hc]; [rewrite Hcat; lia|].
  destruct (packed_lengths cb dict key _ _ _ _ Hpk) as [L1 L2].
  assert (Hbs : entries_of pss <> []).
  { intros E. rewrite E in Hsz. cbn in Hsz. apply Hne, zlen_0_nil. lia. }
  split; [done|]. split; [done|]. split; [done|]. split; [by apply wf_blocks_nonempty|]. do 2 (split; [done|]).
  split; [unfold entries_of, zlen; rewrite length_map; lia|]. split; [|done].
  pose proof (wf_blocks_bytes _ Hwf Hbs). unfold BlockSize in *. lia.
Qed.

Lemma file_metadata cb dict passphrase nonce h input pss frames table pool :
  packed cb dict (table_key passphrase h) 0 (input_blocks input) pss frames ->
  describes h input pss -> (h_IsEncrypted h = true -> passphrase <> []) -> zlen nonce = gcmNonceSize ->
  EncodeCompressedTable nonce (map p_entry (concat pss)) (h_Version h) (table_key passphrase h) = Ok table ->
  ReadMetadata passphrase ((Serialize h).2 ++ put_u32s (table_of frames) ++ table ++ pool) =
    Ok (set_table_bytes (zlen table) (stored_header h), table_of frames, concat (entries_of pss), pool) /\
  (zlen (BlockStarts (concat (entries_of pss))) =? zlen (table_of frames)) = true.
Proof.
  intros Hpk [Hwf Hv Hct Hpt Hh Hin Hsz Hcount Hlim] Hpass Hnonce Henc.
  destruct (packed_input _ _ _ _ _ _ Hpk ltac:(lia)) as (Hb & Hbytes & Hne & Hne' & He & Hids & Hlen & Hlt & _).
  { intros ->. change (zlen (@nil Z)) with 0 in Hin. lia. }
  assert (Hpos : 0 < zlen (concat (entries_of pss))).
  { destruct (concat (entries_of pss)) as [|e es]; [done|]. rewrite zlen_cons. pose proof (zlen_nonneg es). lia. }
  rewrite <-concat_entries_of in Henc. rewrite zlen_entries in Hpos. split.
  - apply (ReadMetadata_compressed nonce); try done; rewrite ?zlen_table_of, ?zlen_entries; try lia.
    + rewrite Hlen. apply NumBlocks_blocks; try done; [by rewrite Hsz, Hbytes|rewrite Hcount; lia].
    + unfold table_of. apply Forall_fmap, Forall_true. intros f. apply u32_range.
  - unfold BlockStarts. rewrite block_starts_concat, zlen_starts_of, zlen_table_of by done. apply Z.eqb_eq. lia.
Qed.

(** The fields of the stored header that the unpackers look at. *)
Lemma stored_fields h n :
  3 <= h_Version h <= 8 ->
  let h' := set_table_bytes n (stored_header h) in
  h_Version h' = h_Version h /\ h_IsEncrypted h' = h_IsEncrypted h /\ h_IsPassthrough h' = h_IsPassthrough h /\
  h_IsLossy h' = h_IsLossy h /\ h_UsesBrainDict h' = h_UsesBrainDict h /\ h_Salt h' = h_Salt h /\
  h_OriginalHash h' = h_OriginalHash h /\ h_ChunkCount h' = h_ChunkCount h /\
  h_MicroDictSize h' = (if h_Version h >=? 8 then h_MicroDictSize h else 0) /\
  h_MicroDictionaryData h' = (if h_Version h >=? 8 then h_MicroDictionaryData h else []).
Proof.
  intros Hv. unfold stored_header. destruct (h_CodebookHashes h) as [[? ?] ?]. simpl_header.
  rewrite !Z.geb_leb, (proj2 (Z.leb_le 2 _)), (proj2 (Z.leb_le 3 _)) by lia.
  unfold set_table_bytes. simpl_header. tauto.
Qed.

Lemma set_table_bytes_0 h : set_table_bytes 0 (stored_header h) = stored_header h.
Proof. unfold stored_header. by destruct (h_CodebookHashes h) as [[? ?] ?]. Qed.

(** ** Reading a packed file *)

(** The brain and the dictionary the file was packed with, as its header records them. *)
Definition brain_for (cb : option Reader) (dict : bytes) (h : Header) : Prop :=
  match cb with
  | Some r => h_UsesBrainDict h = true /\ Dictionary r = Ok dict
  | None => h_UsesBrainDict h = false /\ dict = []
  end.

Lemma no_brain_needed dict key off blocks pss frames :
  packed None dict key off blocks pss frames -> needs_brain (concat (entries_of pss)) = false.
Proof.
  intros Hpk. unfold needs_brain. induction Hpk as [|off datas blocks ps pss frame frames Hps _ _ _ IH]; [done|].
  cbn [entries_of map concat]. rewrite existsb_app. unfold entries_of in IH. rewrite IH, orb_false_r. clear IH.
  induction Hps as [|d p datas ps Hd _ IH]; [done|]. cbn [map existsb]. rewrite IH, orb_false_r.
  destruct (dc_rebuilds _ _ _ Hd) as [-> _]. done.
Qed.

(** The interface between the packers and every reader of their output: [metadata] followed by the
    frames is the file made from [input], under the header [h] and the passphrase. *)
Record archive (cb : option Reader) (dict passphrase : bytes) (h : Header) (input : bytes)
    (pss : list (list processedChunk)) (frames : list bytes) (metadata : bytes) : Prop := {
  ar_packed : packed cb dict (table_key passphrase h) 0 (input_blocks input) pss frames;
  ar_describes : describes h input pss;
  ar_passphrase : h_IsEncrypted h = true -> passphrase <> [];
  ar_brain : brain_for cb dict h;
  ar_metadata : exists nonce table, zlen nonce = gcmNonceSize /\
    EncodeCompressedTable nonce (map p_entry (concat pss)) (h_Version h) (table_key passphrase h) = Ok table /\
    metadata = (Serialize h).2 ++ put_u32s (table_of frames) ++ table;
}.

Section reading.
Variables (cb : option Reader) (dict passphrase : bytes) (h : Header) (input : bytes)
  (pss : list (list processedChunk)) (frames : list bytes) (metadata : bytes).
Hypothesis Har : archive cb dict passphrase h input pss frames metadata.

Lemma archive_nonempty : input <> [].
Proof. destruct (ar_describes _ _ _ _ _ _ _ _ Har). intros ->. change (zlen (@nil Z)) with 0 in *. lia. Qed.

Lemma archive_blocks :
  let bs := entries_of pss in
  wf_blocks bs /\ block_bytes (concat bs) = zlen input /\ bs <> [] /\ concat bs <> [] /\
  Forall wf_entry (concat bs) /\ ids_codable 0 (concat bs) = true /\
  zlen frames = zlen bs /\ zlen bs < 2 ^ 32 /\ concat (input_blocks input) = input.
Proof.
  pose proof (ar_describes _ _ _ _ _ _ _ _ Har) as Hh. destruct Hh.
  apply (packed_input _ _ _ _ _ _ (ar_packed _ _ _ _ _ _ _ _ Har)); [lia|apply archive_nonempty].
Qed.

(** The metadata reads back, and the block table has an entry per block. *)
Lemma archive_read :
  exists n, 0 < n /\ zlen metadata = zlen (Serialize h).2 + 4 * zlen frames + n /\
    (forall pool, ReadMetadata passphrase (metadata ++ pool) =
       Ok (set_table_bytes n (stored_header h), table_of frames, concat (entries_of pss), pool)) /\
    (zlen (BlockStarts (concat (entries_of pss))) =? zlen (table_of frames)) = true.
Proof.
  destruct Har as [Hpk Hh Hpass Hcb (nonce & table & Hn & Henc & ->)]. exists (zlen table).
  split; [by apply (EncodeCompressedTable_pos _ _ _ _ _ Henc)|].
  split; [rewrite !zlen_app, zlen_put_u32s, zlen_table_of; lia|].
  pose proof (fun pool => file_metadata _ _ _ _ _ _ _ _ _ pool Hpk Hh Hpass Hn Henc) as Hmeta.
  split; [|apply (Hmeta [])]. intros pool. rewrite <-!app_assoc. apply Hmeta.
Qed.

Lemma chunks_present : (h_ChunkCount h =? 0) = false.
Proof.
  destruct archive_blocks as (_ & _ & _ & Hne & _). destruct (ar_describes _ _ _ _ _ _ _ _ Har).
  apply Z.eqb_neq. rewrite ds_count0, <-zlen_entries. by intros ?%zlen_0_nil.
Qed.

(** The options of a run: those of a lossy file turn the hash check off, whatever was asked. *)
Definition run_options (uopts : UnpackOptions) : UnpackOptions :=
  if h_IsLossy h
  then {| u_Fuzziness := f64_of_int (-1); u_EncryptionKey := u_EncryptionKey uopts; u_Strict := u_Strict uopts |}
  else uopts.

Lemma run_options_exact uopts :
  (h_IsLossy h = false -> u_Fuzziness uopts = f64_of_int 0) ->
  f64_ltb (f64_of_int 0) (u_Fuzziness (run_options uopts)) = false.
Proof. unfold run_options. destruct (h_IsLossy h); [done|]. by intros ->. Qed.

(** [Unpack] of the metadata followed by any pool: the block loop over that pool. *)
Lemma Unpack_run intn path uopts pool :
  u_EncryptionKey uopts = passphrase -> (h_IsLossy h = false -> u_Fuzziness uopts = f64_of_int 0) ->
  (forall r, cb = Some r -> open_brain (stored_header h) path passphrase = Ok r) ->
  exists maxID h', (h_IsLossy h = false -> h_OriginalHash h' = Sum256 input) /\
    Unpack intn (metadata ++ pool) path uopts =
      (o ← run_from cb dict (table_key passphrase h) (run_options uopts) (negb (h_IsLossy h)) maxID intn [] pss
             (table_of frames) 0 up_nothing pool;
       finish_unpack h' (negb (h_IsLossy h)) (u_Strict uopts) o).
Proof.
  destruct uopts as [fz ek strict]. cbn [u_EncryptionKey u_Fuzziness]. intros -> Hfuzz Hopen.
  destruct archive_read as (n & _ & _ & Hmeta & Hstarts). pose proof chunks_present as Hchunks.
  destruct Har as [Hpk [Hwf Hv Hct Hpt Hhash Hin Hsz Hcount Hlim] Hpass Hcb _].
  unfold Unpack. cbn [u_EncryptionKey u_Fuzziness u_Strict]. rewrite Hmeta. cbn [wrap_err mbind res_bind].
  destruct (stored_fields h n Hv) as (E1 & E2 & E3 & E4 & E5 & E6 & E7 & E8 & _).
  set (h' := set_table_bytes _ _) in *. assert (Hopen' : forall r, cb = Some r -> open_brain h' path passphrase = Ok r) by done.
  clearbody h'. rewrite E1, E2, E3, E4, E5, E6, E8, Hpt, Hchunks. cbn [orb]. clear E1 E2 E3 E4 E5 E6 E8.
  cbv zeta. change (if h_IsLossy h then _ else _)
    with (run_options {| u_Fuzziness := fz; u_EncryptionKey := passphrase; u_Strict := strict |}).
  set (ro := run_options _).
  assert (Hro : u_EncryptionKey ro = passphrase /\ u_Strict ro = strict /\
    f64_eqb (u_Fuzziness ro) (f64_of_int 0) = negb (h_IsLossy h)).
  { unfold ro, run_options. destruct (h_IsLossy h); [done|]. cbn. by rewrite Hfuzz. }
  destruct Hro as (R1 & R2 & R3). rewrite R1, R2, R3. clear R1 R2 R3. fold (table_key passphrase h).
  unfold Version2. rewrite Z.geb_leb, (proj2 (Z.leb_le 2 _)) by lia. rewrite Hstarts. cbn [negb].
  unfold brain_for in Hcb. destruct cb as [r|].
  - destruct Hcb as [-> Hd]. rewrite (Hopen' r eq_refl).
    destruct (needs_brain _); cbn [mbind res_bind]; rewrite Hd; cbn [mbind res_bind];
      [exists (u64 (count r - 1)), h'|exists 0, h']; (split; [by rewrite E7|reflexivity]).
  - destruct Hcb as [-> ->]. rewrite (no_brain_needed _ _ _ _ _ _ Hpk). cbn [mbind res_bind].
    exists 0, h'. split; [by rewrite E7|reflexivity].
Qed.

(** What was appended to the file is not read. *)
Lemma Unpack_appended intn path uopts tail :
  u_EncryptionKey uopts = passphrase -> (h_IsLossy h = false -> u_Fuzziness uopts = f64_of_int 0) ->
  (forall r, cb = Some r -> open_brain (stored_header h) path passphrase = Ok r) ->
  Unpack intn (metadata ++ concat frames ++ tail) path uopts = Ok input.
Proof.
  intros Hkey Hfuzz Hopen. destruct (Unpack_run intn path uopts (concat frames ++ tail) Hkey Hfuzz Hopen) as (maxID & h' & Hhash & E).
  rewrite E. destruct archive_blocks as (Hb & _ & _ & _ & _ & _ & _ & _ & Hcat).
  destruct Har as [Hpk [_ _ _ _ _ Hin _ _ _] _ _ _].
  rewrite (run_ok cb dict (table_key passphrase h) (run_options uopts) (negb (h_IsLossy h)) maxID intn (run_options_exact uopts Hfuzz) 0 (input_blocks input) pss frames [] up_nothing tail
    Hpk Hb) by (rewrite ?Hcat; lia).
  cbn [mbind res_bind]. rewrite Hcat. unfold finish_unpack. destruct (h_IsLossy h); cbn; [done|].
  by rewrite Hhash, bytes_eqb_refl.
Qed.

Lemma Unpack_packed intn path uopts :
  u_EncryptionKey uopts = passphrase -> (h_IsLossy h = false -> u_Fuzziness uopts = f64_of_int 0) ->
  (forall r, cb = Some r -> open_brain (stored_header h) path passphrase = Ok r) ->
  Unpack intn (metadata ++ concat frames) path uopts = Ok input.
Proof. intros. rewrite <-(app_nil_r (concat frames)). by apply Unpack_appended. Qed.

Lemma UnpackBytes_packed r codebookData exact :
  cb = Some r -> OpenFromBytes codebookData = Ok r ->
  UnpackBytes (metadata ++ concat frames) codebookData passphrase exact = Ok input.
Proof.
  pose proof chunks_present as Hchunks. destruct archive_blocks as (Hb & _ & _ & _ & _ & _ & _ & _ & Hcat).
  destruct archive_read as (n & Hn & Hlen & Hmeta & Hstarts).
  destruct Har as [Hpk [Hwf Hv Hct Hpt Hhash Hin Hsz Hcount Hlim] Hpass Hcb _]. intros -> Hopen.
  unfold UnpackBytes. rewrite Hmeta, Hopen. cbn [wrap_err mbind res_bind].
  rewrite (proj2 (Z.eqb_neq _ _)).
  2:{ rewrite zlen_app. pose proof (zlen_nonneg (Serialize h).2). pose proof (zlen_nonneg frames).
      pose proof (zlen_nonneg (concat frames)). lia. }
  destruct (stored_fields h n Hv) as (E1 & E2 & E3 & E4 & E5 & E6 & E7 & E8 & _).
  set (h' := set_table_bytes _ _) in *. clearbody h'.
  rewrite E1, E2, E3, E4, E5, E6, E7, E8, Hpt, Hchunks. cbn [orb].
  fold (table_key passphrase h).
  unfold Version2. rewrite Z.geb_leb, (proj2 (Z.leb_le 2 _)) by lia. rewrite Hstarts. cbn [negb].
  destruct Hcb as [-> ->]. cbn [mbind res_bind].
  pose proof (unpack_blocks_bytes_ok (Some r) dict (table_key passphrase h) r 0 (input_blocks input) pss frames [] []
    eq_refl Hpk Hb ltac:(lia)) as Hrun. rewrite Hcat in Hrun. specialize (Hrun ltac:(lia)). cbv zeta in Hrun.
  cbn [app] in Hrun. rewrite app_nil_r in Hrun. change (zlen (@nil (list ChunkEntry))) with 0 in Hrun. rewrite Hrun.
  cbn [mbind res_bind]. destruct (h_IsLossy h); [by rewrite andb_false_r|]. by rewrite Hhash, bytes_eqb_refl, andb_false_r.
Qed.
End reading.

(** ** Files without chunks *)

(** The other kind of file: a header that counts no chunks, and the input, encrypted or not. *)
Record plain_file (passphrase : bytes) (h : Header) (input payload : bytes) : Prop := {
  pf_wf : wf_header h;
  pf_version : 3 <= h_Version h <= 8;
  pf_chunks : h_ChunkCount h = 0;
  pf_passphrase : h_IsEncrypted h = true -> passphrase <> [];
  pf_hash : h_OriginalHash h = Sum256 input;
  pf_size : h_OriginalSize h = zlen input;
  pf_payload msg : decrypt_block msg (table_key passphrase h) payload = Ok input;
}.

(** The lossy flag and the fuzziness do not matter here: the input is stored as it is. *)
Lemma Unpack_plain intn path uopts h payload input :
  plain_file (u_EncryptionKey uopts) h input payload -> Unpack intn ((Serialize h).2 ++ payload) path uopts = Ok input.
Proof.
  destruct uopts as [fz ek strict]. cbn [u_EncryptionKey]. intros [Hwf Hv Hc Hpass Hhash _ Hdec].
  pose proof (ReadMetadata_payload ek h payload Hwf Hv Hpass Hc) as Hmeta.
  destruct (stored_fields h 0 Hv) as (E1 & E2 & E3 & E4 & E5 & E6 & E7 & E8 & _). rewrite set_table_bytes_0 in *.
  set (h' := stored_header h) in *. clearbody h'. unfold Unpack. cbn [u_EncryptionKey u_Fuzziness u_Strict].
  rewrite Hmeta. cbn [wrap_err mbind res_bind needs_brain existsb]. rewrite E2, E4, E6, E8, Hc. cbv zeta.
  set (ro := if h_IsLossy h then _ else _). assert (Hkey : u_EncryptionKey ro = ek) by (unfold ro; by destruct (h_IsLossy h)).
  rewrite Hkey, Z.eqb_refl, orb_true_r. fold (table_key ek h). set (exact := f64_eqb (u_Fuzziness ro) (f64_of_int 0)). clearbody exact.
  assert (Hfin : forall hashed, exact = true -> hashed = true \/ hashed = exact ->
    finish_unpack h' exact true (writeOut hashed input up_nothing) = Ok input).
  { intros hashed -> [-> | ->]; unfold finish_unpack; cbn; by rewrite E7, Hhash, bytes_eqb_refl. }
  specialize (Hdec "unpack: decrypt passthrough"%string). unfold decrypt_block, unpack_passthrough in *.
  destruct (table_key ek h); [rewrite Hdec|injection Hdec as ->]; cbn [mbind res_bind]; (destruct exact; [apply Hfin; by auto|done]).
Qed.

(** ** Packing with and without a brain *)

(** A brain, or none, that the searchers can use. *)
Definition fit_brain (cb : option Reader) : Prop :=
  match cb with Some r => good_brain r /\ 0 < count r | None => True end.

(** The brain at a path; the empty path is no brain. *)
Definition brain_at (path : bytes) (cb : option Reader) : Prop :=
  fit_brain cb /\ match cb with Some r => path <> [] /\ Open path = Ok r | None => path = [] end.

Lemma brain_searchers cb :
  fit_brain cb ->
  exists ss, match cb with Some r => s ← NewLSHSearcher r; Ok [s] | None => Ok [] end = Ok ss /\ searchers_ok cb ss.
Proof.
  destruct cb as [r|]; [|by exists []]. intros [Hb Hc].
  destruct (NewLSHSearcher_spec r Hb Hc) as (s & -> & Hs & Hcb & _). exists [s]. split; [done|]. by exists s.
Qed.

Lemma brain_dictionary cb :
  fit_brain cb ->
  exists dict, match cb with Some r => Dictionary r | None => Ok [] end = Ok dict /\
    forall h, h_UsesBrainDict h = (match cb with Some _ => true | None => false end) -> brain_for cb dict h.
Proof.
  destruct cb as [r|]; [|exists []; split; [done|]; intros h Hh; by split]. intros [Hb Hc].
  destruct (Dictionary_ok r (gb_wf r Hb)) as (d & Hd & _). exists d. split; [done|]. intros h Hh. by split.
Qed.

Lemma brain_chunker_ok r chunkSize :
  good_brain r -> exists split, brain_chunker r chunkSize = Ok split /\ forall data, tiles data 0 (split data).
Proof.
  intros Hb. unfold brain_chunker. destruct (_ >=? _).
  - destruct (NewAlignedChunker_total r Hb) as [ac Hac]. rewrite Hac. cbn [mbind res_bind]. eexists. split; [done|].
    intros data. by apply (Aligned_Split_tiles r).
  - eexists. split; [done|]. intros data. apply FixedChunker_tiles.
Qed.

(** How many chunks a chunker makes of a file; no more than it has bytes. *)
Definition total_chunks (split : bytes -> list Chunk) (input : bytes) : Z :=
  zlen (concat (map split (input_blocks input))).

Lemma tiles_count data start chunks : tiles data start chunks -> zlen chunks <= zlen data - start.
Proof. induction 1; [change (zlen []) with 0; lia|]. rewrite zlen_cons. lia. Qed.

Lemma total_chunks_bound split input :
  (forall data, tiles data 0 (split data)) -> total_chunks split input <= zlen input.
Proof.
  intros Hs. destruct (read_blocks_full (length input) input ltac:(unfold zlen; lia)) as [_ Hcat].
  assert (Hall : forall bs, zlen (concat (map split bs)) <= zlen (concat bs)).
  { induction bs as [|b bs IH]; [done|]. cbn [map concat]. rewrite !zlen_app.
    pose proof (tiles_count b 0 (split b) (Hs b)). lia. }
  specialize (Hall (input_blocks input)). unfold total_chunks, input_blocks in *. by rewrite Hcat in Hall.
Qed.

(** The block loop of every packer, over the blocks of its input. *)
Lemma pack_input_ok cb dict key R limit step `{!Approximator cb R limit step} split schedule maxCompression nonce input ss :
  (forall data, tiles data 0 (split data)) -> small_chunks limit split -> (forall i n, schedule i n ≡ₚ seq 0 n) ->
  (key <> None -> forall i, zlen (nonce i) = gcmNonceSize) -> (forall k, key = Some k -> zlen k = 32) ->
  searchers_ok cb ss -> bytes_ok input -> zlen input < 2 ^ 63 ->
  exists pb out,
    pack_blocks split step schedule maxCompression dict key nonce 0 (read_blocks (length input) input) ss 0 = Ok pb /\
    packed cb dict key 0 (input_blocks out) (pb_chunks pb) (pb_frames pb) /\ approximated R split input out /\
    zlen out = zlen input /\ zlen (pb_entries pb) = zlen (concat (pb_chunks pb)) /\
    zlen (concat (pb_chunks pb)) = total_chunks split input.
Proof.
  intros Hsplit Hsmall Hsched Hn Hk Hss Hok Hl.
  destruct (read_blocks_full (length input) input ltac:(unfold zlen; lia)) as [_ Hcat].
  destruct (pack_blocks_approx cb dict key R limit step split schedule maxCompression nonce Hsplit Hsched Hn Hk 0
    (read_blocks (length input) input) ss 0 Hsmall Hss (read_blocks_ok _ _ Hok) ltac:(lia))
    as (pb & outs & E & Hpk & Houts & Hlen); [rewrite Hcat; lia|].
  destruct (approximated_blocks R split input outs Houts) as [Hol Hob].
  exists pb, (concat outs). rewrite Hob. split; [done|]. split; [done|]. split; [by exists outs|]. split; [done|].
  unfold pb_entries, total_chunks, input_blocks, zlen in *. rewrite length_map. lia.
Qed.

(** The header every packer writes is well formed. *)
Lemma wf_pack_header version encrypted convergent lossy brainDict compressed salt input n chunkCount chunkSize
    cbHash hash0 hash1 hash2 root micro :
  zlen salt = 16 -> is_u64 n -> is_u32 chunkCount -> is_u32 chunkSize -> zlen cbHash = 8 -> zlen hash0 = 8 ->
  zlen hash1 = 8 -> zlen hash2 = 8 -> zlen root = 32 -> zlen micro <= MaxMicroDictSize ->
  wf_header (pack_header version encrypted convergent lossy brainDict compressed salt (Sum256 input) n chunkCount
    chunkSize cbHash (hash0, hash1, hash2) root micro).
Proof.
  intros. pose proof (zlen_nonneg micro). unfold MaxMicroDictSize in *.
  assert (Hm : zlen micro = u32 (zlen micro)) by (symmetry; apply u32_small; unfold is_u32; lia).
  constructor; unfold pack_header; simpl_header; try done; try apply zlen_Sum256.
  unfold MaxMicroDictSize. lia.
Qed.

(** Without an embedded brain, the one at the path is opened. *)
Lemma open_brain_path h path passphrase r :
  h_MicroDictSize h = 0 -> path <> [] -> Open path = Ok r -> 3 <= h_Version h <= 8 ->
  open_brain (stored_header h) path passphrase = Ok r.
Proof.
  intros Hm Hp Ho Hv. destruct (stored_fields h 0 Hv) as (_ & _ & _ & _ & _ & _ & _ & _ & E & _).
  rewrite set_table_bytes_0, Hm in E. unfold open_brain, OpenForFile. rewrite E.
  assert ((if h_Version h >=? 8 then 0 else 0) = 0) as -> by by destruct (_ >=? _). rewrite Z.eqb_refl.
  rewrite (proj2 (Z.eqb_neq _ _)), Ho by (by intros ?%zlen_0_nil). done.
Qed.

(** ** In memory *)

Section in_memory.
Variable hasSIMD : bool.

(** [PackBytes] produces a packed file of what its packing step keeps of the input. *)
Lemma PackBytes_approx R limit input codebookData r opts `{!Approximator (Some r) R limit (pack_chunk_bytes hasSIMD opts (size r))} :
  OpenFromBytes codebookData = Ok r -> zlen (BuildHash (header r)) = 32 -> fit_brain (Some r) ->
  (forall split, brain_chunker r (size r) = Ok split -> small_chunks limit split) ->
  (is_edge opts = false -> forall split out, brain_chunker r (size r) = Ok split -> approximated R split input out -> out = input) ->
  bytes_ok input -> 0 < zlen input <= 2 ^ 27 ->
  exists dict h split out pss frames metadata,
    PackBytes hasSIMD input codebookData opts = Ok (metadata ++ concat frames) /\
    brain_chunker r (size r) = Ok split /\ approximated R split input out /\
    archive (Some r) dict [] h out pss frames metadata /\ h_IsEncrypted h = false /\ h_MicroDictSize h = 0 /\
    h_IsLossy h = is_edge opts.
Proof.
  intros Hopen Hbh Hfit Hsmall Hexact Hok Hl. pose proof Hfit as [Hb Hc]. unfold PackBytes, bytes_pool, bytes_file.
  rewrite (proj2 (Z.eqb_neq _ _)), Hopen by lia. cbn [wrap_err mbind res_bind].
  destruct (brain_searchers (Some r) Hfit) as (ss & Hs & Hss). apply bind_ok in Hs as (s & -> & [= <-]). cbn [mbind res_bind].
  destruct (brain_chunker_ok r (size r) Hb) as (split & Esplit & Hsplit). rewrite Esplit. cbn [mbind res_bind].
  destruct (brain_dictionary (Some r) Hfit) as (dict & -> & Hdict). cbn [mbind res_bind].
  destruct (pack_input_ok (Some r) dict None R limit (pack_chunk_bytes hasSIMD opts (size r)) split in_order false
    (fun _ => []) input [s]) as (pb & out & -> & Hpk & Happ & Hout & Hn & Hlen); try done; [by apply Hsmall|lia|].
  cbn [mbind res_bind]. pose proof (total_chunks_bound split input Hsplit). pose proof (zlen_nonneg (concat (pb_chunks pb))).
  set (h := pack_header _ _ _ _ _ _ _ _ _ _ _ _ _ _ _).
  assert (Hh : describes h out (pb_chunks pb)).
  { constructor; try done; [|intros He; by rewrite (Hexact He split out)|lia|
      unfold h, pack_header; simpl_header; rewrite Hn; apply u32_small; unfold is_u32; lia|lia].
    apply wf_pack_header; wf_field. rewrite zlen_ztake, Hbh. done. }
  destruct (EncodeCompressedTable_ok (make_bytes 12) (pb_entries pb) Version5 [] h) as [table Htable].
  change (EncodeCompressedTable [] (pb_entries pb) (h_Version h) None)
    with (EncodeCompressedTable (make_bytes 12) (pb_entries pb) Version5 (table_key [] h)).
  rewrite Htable. cbn [wrap_err mbind res_bind].
  exists dict, h, split, out, (pb_chunks pb), (pb_frames pb), ((Serialize h).2 ++ put_u32s (pb_table pb) ++ table).
  split; [by rewrite <-!app_assoc|]. do 2 (split; [done|]). split; [|done].
  constructor; [done|done|done|by apply Hdict|]. by exists (make_bytes 12), table.
Qed.

(** Without the edge mode, of the input. *)
Lemma PackBytes_file input codebookData r opts :
  OpenFromBytes codebookData = Ok r -> zlen (BuildHash (header r)) = 32 -> fit_brain (Some r) -> lossless opts ->
  bytes_ok input -> 0 < zlen input <= 2 ^ 27 ->
  exists dict h pss frames metadata,
    PackBytes hasSIMD input codebookData opts = Ok (metadata ++ concat frames) /\
    archive (Some r) dict [] h input pss frames metadata /\ h_IsEncrypted h = false /\ h_MicroDictSize h = 0 /\
    h_IsLossy h = false.
Proof.
  intros Hopen Hbh Hfit Hll Hok Hl.
  assert (Hsplit : forall split, brain_chunker r (size r) = Ok split -> forall data, tiles data 0 (split data)).
  { intros split E. destruct (brain_chunker_ok r (size r) (proj1 Hfit)) as (split' & E' & ?).
    rewrite E in E'. by injection E' as <-. }
  destruct (PackBytes_approx eq BlockSize input codebookData r opts Hopen Hbh Hfit) as (dict & h & split & out & pss & frames &
    metadata & E & Es & Happ & H); try done.
  { intros split Es. by apply tiles_small, Hsplit. }
  { intros _ split out Es. by apply approximated_eq, Hsplit. }
  rewrite ll_edge, (approximated_eq split input out (Hsplit split Es) Happ) in H. by exists dict, h, pss, frames, metadata.
Qed.

Lemma opened_hash d r : OpenFromBytes d = Ok r -> good_brain r -> zlen (BuildHash (header r)) = 32.
Proof.
  intros Ho [_ Hb _]. destruct (OpenFromBytes_inv d r Ho) as (<- & Hp & _).
  by destruct (ParseHeader_inv _ _ Hb Hp) as (_ & _ & _ & ? & _).
Qed.

(** [C9] The in-memory API is lossless: over any usable brain and for any non-empty input of up
    to 128 MB, [PackBytes] succeeds, and both [UnpackBytes] - whether or not it verifies the
    hash - and the command-line [Unpack] give back the input, byte for byte. *)
Theorem UnpackBytes_PackBytes input codebookData r opts :
  OpenFromBytes codebookData = Ok r -> good_brain r -> 0 < count r ->
  is_edge opts = false -> o_UseConvergentEncryption opts = false ->
  bytes_ok input -> 0 < zlen input <= 2 ^ 27 ->
  exists file, PackBytes hasSIMD input codebookData opts = Ok file /\
    (forall exact, UnpackBytes file codebookData [] exact = Ok input) /\
    (forall intn path, path <> [] -> Open path = Ok r -> Unpack intn file path DefaultUnpackOptions = Ok input).
Proof.
  intros Hopen Hb Hc He Hu Hok Hl. assert (Hll : lossless opts) by (split; [done|by rewrite Hu]).
  destruct (PackBytes_file input codebookData r opts Hopen (opened_hash _ _ Hopen Hb) (conj Hb Hc) Hll Hok Hl)
    as (dict & h & pss & frames & metadata & -> & Har & _ & Hm & _).
  eexists. split; [done|]. split.
  - intros exact. by apply (UnpackBytes_packed (Some r) dict [] h input pss frames metadata Har r).
  - intros intn path Hpath Hop. apply (Unpack_packed (Some r) dict [] h input pss frames metadata Har); [done|done|].
    intros r' [= <-]. by apply open_brain_path, Har.
Qed.
End in_memory.

(** ** From a pipe *)

Section streaming.
Variable hasSIMD : bool.

Lemma stream_chunker_ok opts cb chunkSize :
  fit_brain cb ->
  exists split, stream_chunker opts cb chunkSize = Ok split /\ forall data, tiles data 0 (split data).
Proof.
  intros Hfit. unfold stream_chunker. destruct (o_UseACAC opts).
  { eexists. split; [done|]. intros data. apply SemanticChunker_tiles. }
  destruct (o_UseCDC opts). { eexists. split; [done|]. intros data. apply FastCDC_laws. }
  destruct cb as [r|]; [by apply brain_chunker_ok, Hfit|]. eexists. split; [done|]. intros data. apply FixedChunker_tiles.
Qed.

Lemma open_optional_ok msg path cb : brain_at path cb -> open_optional msg path = Ok cb.
Proof.
  intros [_ Hp]. unfold open_optional. destruct cb as [r|]; [|by rewrite Hp].
  destruct Hp as [Hne ->]. by rewrite (proj2 (Z.eqb_neq _ _)) by (by intros ?%zlen_0_nil).
Qed.

(** [PackStream] produces a packed file of what its packing step keeps of the input. *)
Lemma PackStream_approx R limit schedule input path cb opts
    `{!Approximator cb R limit (pack_chunk_stream hasSIMD opts (stream_chunkSize opts cb))} :
  let chunker := stream_chunker opts cb (stream_chunkSize opts cb) in
  brain_at path cb -> (forall split, chunker = Ok split -> small_chunks limit split) ->
  ((match cb with Some _ => true | None => false end) && is_edge opts = false ->
     forall split out, chunker = Ok split -> approximated R split input out -> out = input) ->
  (forall i n, schedule i n ≡ₚ seq 0 n) -> bytes_ok input -> 0 < zlen input < 2 ^ 48 ->
  (forall split, chunker = Ok split -> total_chunks split input <= 2 ^ 27) ->
  exists dict h split out pss frames metadata,
    PackStream hasSIMD schedule input path opts = Ok (metadata ++ concat frames) /\
    chunker = Ok split /\ approximated R split input out /\
    archive cb dict [] h out pss frames metadata /\ h_IsEncrypted h = false /\
    h_IsLossy h = (match cb with Some _ => true | None => false end) && is_edge opts /\
    (forall r, cb = Some r -> open_brain (stored_header h) path [] = Ok r).
Proof.
  intros chunker Hat Hsmall Hexact Hsched Hok Hl Htot.
  pose proof Hat as [Hfit Hpath]. unfold PackStream, stream_pool, stream_file. rewrite (open_optional_ok _ path cb Hat). cbn [mbind res_bind].
  destruct (brain_searchers cb Hfit) as (ss & -> & Hss). cbn [mbind res_bind].
  destruct (stream_chunker_ok opts cb (stream_chunkSize opts cb) Hfit) as (split & Esplit & Hsplit). fold chunker in Esplit |- *.
  specialize (Htot split Esplit). rewrite Esplit. cbn [mbind res_bind].
  destruct (brain_dictionary cb Hfit) as (dict & -> & Hdict). cbn [mbind res_bind].
  destruct (pack_input_ok cb dict None R limit (pack_chunk_stream hasSIMD opts (stream_chunkSize opts cb)) split schedule
    (o_MaxCompression opts) (fun _ => []) input ss) as (pb & out & -> & Hpk & Happ & Hout & Hn & Hlen); try done; [by apply Hsmall|lia|].
  cbn [mbind res_bind]. pose proof (zlen_nonneg (concat (pb_chunks pb))).
  set (h := pack_header _ _ _ _ _ _ _ _ _ _ _ _ _ _ _).
  assert (Hh : describes h out (pb_chunks pb)).
  { constructor; try done; [apply wf_pack_header; wf_field|intros He; by rewrite (Hexact He split out)|lia|
      unfold h, pack_header; simpl_header; rewrite Hn; apply u32_small; unfold is_u32; lia|lia]. }
  destruct (EncodeCompressedTable_ok (make_bytes 12) (pb_entries pb) Version5 [] h) as [table Htable].
  change (EncodeCompressedTable [] (pb_entries pb) Version5 None)
    with (EncodeCompressedTable (make_bytes 12) (pb_entries pb) Version5 (table_key [] h)).
  rewrite Htable. cbn [wrap_err mbind res_bind].
  exists dict, h, split, out, (pb_chunks pb), (pb_frames pb), ((Serialize h).2 ++ put_u32s (pb_table pb) ++ table).
  split; [by rewrite <-!app_assoc|]. do 2 (split; [done|]). split; [|do 2 (split; [done|])].
  - constructor; [done|done|done|by apply Hdict|]. by exists (make_bytes 12), table.
  - intros r ->. destruct Hpath as [Hne Ho]. by apply open_brain_path, Hh.
Qed.

(** Without the edge mode, of the input. *)
Lemma PackStream_file schedule input path cb opts :
  brain_at path cb -> lossless opts -> (forall i n, schedule i n ≡ₚ seq 0 n) ->
  bytes_ok input -> 0 < zlen input < 2 ^ 48 ->
  (forall split, stream_chunker opts cb (stream_chunkSize opts cb) = Ok split -> total_chunks split input <= 2 ^ 27) ->
  exists dict h pss frames metadata,
    PackStream hasSIMD schedule input path opts = Ok (metadata ++ concat frames) /\
    archive cb dict [] h input pss frames metadata /\ h_IsEncrypted h = false /\ h_IsLossy h = false /\
    (forall r, cb = Some r -> open_brain (stored_header h) path [] = Ok r).
Proof.
  intros Hat Hll Hsched Hok Hl Htot.
  assert (Hsplit : forall split, stream_chunker opts cb (stream_chunkSize opts cb) = Ok split -> forall data, tiles data 0 (split data)).
  { intros split E. destruct (stream_chunker_ok opts cb (stream_chunkSize opts cb) (proj1 Hat)) as (split' & E' & ?).
    rewrite E in E'. by injection E' as <-. }
  destruct (PackStream_approx eq BlockSize schedule input path cb opts Hat) as (dict & h & split & out & pss & frames &
    metadata & E & Es & Happ & H & ? & Hlossy & ?); try done.
  { intros split Es. by apply tiles_small, Hsplit. }
  { intros _ split out Es. by apply approximated_eq, Hsplit. }
  rewrite ll_edge, andb_false_r in Hlossy. rewrite (approximated_eq split input out (Hsplit split Es) Happ) in H.
  by exists dict, h, pss, frames, metadata.
Qed.

(** [C10] Packing a pipe is lossless: with or without a brain, whatever the chunker, the encoder and
    the order in which the workers take the chunks of a block, a non-empty input of at most
    2^27 chunks is packed, and [Unpack] gives it back. *)
Theorem Unpack_PackStream schedule intn input path cb opts :
  brain_at path cb -> is_edge opts = false -> o_UseConvergentEncryption opts = false ->
  (forall i n, schedule i n ≡ₚ seq 0 n) ->
  bytes_ok input -> 0 < zlen input < 2 ^ 48 ->
  (forall split, stream_chunker opts cb (stream_chunkSize opts cb) = Ok split -> total_chunks split input <= 2 ^ 27) ->
  exists file, PackStream hasSIMD schedule input path opts = Ok file /\
    Unpack intn file path DefaultUnpackOptions = Ok input.
Proof.
  intros Hat He Hu Hsched Hok Hl Htot. assert (Hll : lossless opts) by (split; [done|by rewrite Hu]).
  destruct (PackStream_file schedule input path cb opts Hat Hll Hsched Hok Hl Htot)
    as (dict & h & pss & frames & metadata & -> & Har & _ & _ & Hopen).
  eexists. split; [done|]. by apply (Unpack_packed cb dict [] h input pss frames).
Qed.

(** The exception: an empty pipe makes a file that is not an archive of nothing. The packer
    still writes a chunk table, for no chunks, which the readers take for the payload of a
    passthrough file: [UnpackBytes] returns the table's bytes, and [Unpack] refuses the file
    unless the hash of the table collides with the hash of the empty string. *)
Theorem PackStream_empty schedule opts intn :
  is_edge opts = false ->
  exists file table, PackStream hasSIMD schedule [] [] opts = Ok file /\ table <> [] /\
    (Unpack intn file [] DefaultUnpackOptions = Err "unpack: SECURITY/INTEGRITY FAILURE" \/ Sum256 table = Sum256 []) /\
    (forall codebookData r exact, OpenFromBytes codebookData = Ok r ->
       UnpackBytes file codebookData [] exact = Ok table).
Proof.
  intros He. unfold PackStream, stream_pool, stream_file. change (open_optional _ []) with (@Ok (option Reader) None). cbn [mbind res_bind].
  destruct (stream_chunker_ok opts None (stream_chunkSize opts None) I) as (split & -> & _).
  cbn [mbind res_bind length read_blocks pack_blocks pb_frames pb_chunks pb_entries pb_table concat map andb].
  set (h := pack_header _ _ _ _ _ _ _ _ _ _ _ _ _ _ _).
  assert (Hwf : wf_header h) by (apply wf_pack_header; wf_field; done).
  assert (Hv : 3 <= h_Version h <= 8) by done.
  destruct (EncodeCompressedTable_ok [] [] Version5 [] h) as [table Htable]. unfold table_key in Htable.
  change (h_IsEncrypted h) with false in Htable. cbv iota in Htable. rewrite Htable. cbn [wrap_err mbind res_bind put_u32s concat map app].
  assert (Hne : table <> []).
  { intros ->. apply EncodeCompressedTable_pos in Htable. change (zlen (@nil Z)) with 0 in Htable. lia. }
  rewrite app_nil_r.
  pose proof (ReadMetadata_payload [] h table Hwf Hv ltac:(done) eq_refl) as Hmeta.
  destruct (stored_fields h 0 Hv) as (E1 & E2 & E3 & E4 & E5 & E6 & E7 & E8 & _). rewrite set_table_bytes_0 in *.
  set (h' := stored_header h) in *. clearbody h'. exists ((Serialize h).2 ++ table), table. split; [done|]. split; [done|]. split.
  - unfold Unpack. cbn [u_EncryptionKey DefaultUnpackOptions]. rewrite Hmeta. cbn [wrap_err mbind res_bind needs_brain existsb].
    rewrite E2, E3, E4, E8. cbn. unfold finish_unpack. cbn. rewrite E7.
    destruct (bytes_eqb (Sum256 table) (h_OriginalHash h)) eqn:Eb; [right; by apply bytes_eqb_true|left; done].
  - intros codebookData r exact Ho. unfold UnpackBytes. rewrite Ho, Hmeta. cbn [wrap_err mbind res_bind].
    rewrite E2, E3, E8. assert (Hz : (zlen ((Serialize h).2 ++ table) =? 0) = false).
    { apply Z.eqb_neq. intros [_ E]%zlen_0_nil%app_nil. exact (Hne E). }
    rewrite Hz. change (h_IsPassthrough h || (h_ChunkCount h =? 0)) with true. change (h_IsEncrypted h) with false.
    reflexivity.
Qed.
End streaming.

End files.

(** ** Witnesses, on the two-codeword brain *)

(** A disk that holds the brain under every name. *)
Definition brain_disk : Files := fun _ => Some sample_brain.

Lemma sample_brain_at : brain_at (F0 := brain_disk) (str "brain") (Some sample_reader).
Proof. split; [by split; [apply good_sample_reader|]|]. split; [done|vm_compute; reflexivity]. Qed.

Definition sample_input : bytes := [1; 2; 3; 4; 5; 6; 7; 8; 5; 6; 7; 9; 1; 2].

Lemma sample_input_ok : bytes_ok sample_input.
Proof. by apply bytes_ok_dec. Qed.

Lemma UnpackBytes_PackBytes_witness :
  exists file,
    PackBytes (log2 := log2_minus8) (order := key_order) true sample_input sample_brain DefaultPackOptions = Ok file /\
    (forall exact, UnpackBytes file sample_brain [] exact = Ok sample_input).
Proof.
  destruct (UnpackBytes_PackBytes (F0 := brain_disk) (log2 := log2_minus8) (order := key_order) true sample_input sample_brain
    sample_reader DefaultPackOptions) as (file & H1 & H2 & _).
  - vm_compute. reflexivity.
  - apply good_sample_reader.
  - reflexivity.
  - reflexivity.
  - reflexivity.
  - apply sample_input_ok.
  - vm_compute. split; congruence.
  - exists file. split; [exact H1|exact H2].
Defined.

(** The workers take the chunks of each block in reverse. *)
Lemma Unpack_PackStream_witness :
  exists file,
    PackStream (F0 := brain_disk) (log2 := log2_minus8) (order := key_order) true (fun _ n => reverse (seq 0 n)) sample_input
      (str "brain") DefaultPackOptions = Ok file /\
    Unpack (F0 := brain_disk) (fun _ => 0) file (str "brain") DefaultUnpackOptions = Ok sample_input.
Proof.
  apply (Unpack_PackStream (F0 := brain_disk) (log2 := log2_minus8) (order := key_order) true (fun _ n => reverse (seq 0 n))
    (fun _ => 0) sample_input (str "brain") (Some sample_reader) DefaultPackOptions).
  - apply sample_brain_at.
  - reflexivity.
  - reflexivity.
  - intros _ n. apply reverse_Permutation.
  - apply sample_input_ok.
  - vm_compute. split; congruence.
  - intros split E. destruct (stream_chunker_ok DefaultPackOptions (Some sample_reader)
      (stream_chunkSize DefaultPackOptions (Some sample_reader)) (conj good_sample_reader eq_refl)) as (split' & E' & Ht).
    rewrite E in E'. injection E' as <-. etrans; [apply (total_chunks_bound split sample_input Ht)|]. vm_compute. congruence.
Defined.

Lemma PackStream_empty_witness :
  exists file table,
    PackStream (F0 := brain_disk) (log2 := log2_minus8) (order := key_order) true in_order [] [] DefaultPackOptions = Ok file /\
    UnpackBytes file sample_brain [] true = Ok table.
Proof.
  destruct (PackStream_empty (F0 := brain_disk) (log2 := log2_minus8) (order := key_order) true in_order DefaultPackOptions
    (fun _ => 0) eq_refl) as (file & table & H1 & _ & _ & H2). exists file, table. split; [exact H1|].
  apply (H2 sample_brain sample_reader true). vm_compute. reflexivity.
Defined.
