(* ===== verification/PackFile.v ===== *)
(** [Pack] on files: the two passes over the output file, the adaptive plan, the embedded brain and
    the fallback to an uncompressed file; and the theorem that [Unpack] undoes it all. *)

From S2P Require Import Prelude Binary Sha256 Externals Crypto Format FormatIO Delta Chunker.
From S2P Require Import Codebook Merkle Entropy Search Unpack Pack ChunkCodec BlockCodec.
From S2P Require Import RoundTrip.
From stdpp Require Import sorting.
#[local] Open Scope Z_scope.
Import codebook Format.

(** ** Rewriting the output file *)

Lemma file_write_over (a b rest : bytes) : zlen a = zlen b -> file_write 0 a (b ++ rest) = a ++ rest.
Proof.
  intros Hl. unfold file_write. pose proof (zlen_nonneg (b ++ rest)).
  assert (ztake 0 (b ++ rest) = []) as -> by (apply zlen_0_nil; rewrite zlen_ztake; lia).
  rewrite make_bytes_0 by lia. cbn [app]. by rewrite Z.add_0_l, Hl, zdrop_app.
Qed.

(** Whatever room was reserved, the file ends up as the metadata followed by the pool: it is
    patched in place when the size was guessed right, and the pool is moved otherwise. *)
Lemma write_metadata_eq reserved meta pool : write_metadata reserved meta pool = meta ++ pool.
Proof.
  unfold write_metadata. destruct (Z.eqb_spec (zlen meta) (zlen reserved)) as [E|E]; cbn [negb];
    [by apply file_write_over|].
  rewrite zdrop_app, zlen_app. replace (zlen reserved + zlen pool - zlen reserved) with (zlen pool) by lia.
  pose proof (zlen_nonneg meta). pose proof (zlen_nonneg pool). pose proof (zlen_nonneg (reserved ++ pool)).
  set (file := file_truncate _ _).
  assert (Hf : zlen file = zlen meta + zlen pool).
  { unfold file, file_truncate. rewrite zlen_app, zlen_ztake.
    destruct (Z.leb_spec (zlen meta + zlen pool) (zlen (reserved ++ pool))).
    - rewrite make_bytes_0 by lia. change (zlen (@nil Z)) with 0. lia.
    - rewrite zlen_make by lia. lia. }
  clearbody file. rewrite <-(ztake_zdrop (zlen meta) file).
  pose proof (zlen_ztake (zlen meta) file) as Ht. pose proof (zlen_zdrop (zlen meta) file) as Hd.
  set (a := ztake (zlen meta) file) in *. set (b := zdrop (zlen meta) file) in *. clearbody a b.
  rewrite file_write_over by lia. unfold file_write. rewrite ztake_app, zlen_app, make_bytes_0 by lia.
  cbn [app]. rewrite (zlen_0_nil (zdrop (zlen meta + zlen pool) (meta ++ b))), app_nil_r; [done|].
  rewrite zlen_zdrop, zlen_app. lia.
Qed.

Section pack_file.
Context {Z0 : Zstd} {C0 : Cipher} {F0 : Files} {hash64 : XXHash} {log2 : MathLog2} {order : MapOrder}
  {ZL : ZstdLaws Z0} {CL : CipherLaws C0} {OL : MapOrderLaws order}.
Variable hasSIMD : bool.

(** ** The counting pass *)

Definition ids_below (n : Z) (freq : gmap Z Z) : Prop := map_Forall (fun id _ => 0 <= id < n) freq.

Lemma count_matches_ok chunks s freq :
  ls_ok s -> Forall good_chunk chunks -> ids_below (count (ls_cb s)) freq ->
  exists s' freq', count_matches hasSIMD chunks s freq = Ok (s', freq') /\ ls_ok s' /\ ls_cb s' = ls_cb s /\
    ids_below (count (ls_cb s)) freq'.
Proof.
  intros Hs Hc. revert s freq Hs; induction Hc as [|c chunks Hg Hc IH]; intros s freq Hs Hf.
  { by exists s, freq. }
  cbn [count_matches]. destruct (chunk_bits c Hg) as [_ Hl].
  destruct (FindBestMatch_ok hasSIMD s (c_Data c) Hs (gc_bytes c Hg) Hl) as (m & s' & -> & (Hid & _) & Hs' & Hcb).
  destruct (IH s' (<[m_CodebookID m := default 0 (freq !! m_CodebookID m) + 1]> freq) Hs') as (s2 & f2 & -> & ? & E & ?).
  { rewrite Hcb. by apply map_Forall_insert_2. }
  exists s2, f2. rewrite E, Hcb in *. done.
Qed.

Lemma top_ids_below n freq : ids_below n freq -> Forall (fun id => 0 <= id < n) (top_ids freq).
Proof.
  intros Hf. unfold top_ids. apply Forall_fmap, Forall_take. rewrite merge_sort_Permutation, map_order_perm.
  apply Forall_forall. intros [id k] Hin%elem_of_map_to_list. cbn. by apply (Hf id k).
Qed.

Lemma multi_pass_ok split input cb ss :
  (forall data, tiles data 0 (split data)) -> bytes_ok input -> searchers_ok cb ss ->
  exists ss', multi_pass hasSIMD split input ss = Ok ss' /\ searchers_ok cb ss'.
Proof.
  intros Hsplit Hok Hss. destruct cb as [r|]; [|cbn in Hss; subst ss; by exists []].
  destruct Hss as (s & -> & Hs & <-). unfold multi_pass.
  assert (Hg : Forall good_chunk (concat (map split (read_blocks (length input) input)))).
  { apply Forall_concat, Forall_fmap. eapply Forall_impl; [by apply read_blocks_ok|]. intros b [Hb Hl]. cbn.
    by destruct (tiles_good b (split b) Hb Hl (Hsplit b)). }
  destruct (count_matches_ok _ s ∅ Hs Hg (map_Forall_empty _)) as (s' & freq & -> & Hs' & Hcb & Hf).
  cbn [mbind res_bind map]. eexists. split; [done|]. exists (Restrict (top_ids freq) s').
  split; [done|]. split; [|done]. apply Restrict_ok; [done|]. rewrite Hcb. by apply top_ids_below.
Qed.

(** ** The plan *)

Lemma adaptive_pos requested eScore : 0 < adaptive_chunkSize requested eScore.
Proof. unfold adaptive_chunkSize. destruct (Z.leb_spec requested 0); [by repeat case_match|lia]. Qed.

Definition brains (cb : option Reader) : list Reader := match cb with Some r => [r] | None => [] end.

Definition key_of (rnd : Randomness) (opts : PackOptions) : option bytes :=
  if zlen (o_EncryptionKey opts) =? 0 then None else Some (DeriveKey (o_EncryptionKey opts) (r_salt rnd)).

Lemma make_plan_ok rnd input path opts cb :
  brain_at path cb -> o_CodebookPaths opts = [] ->
  exists pl, make_plan rnd input path opts = Ok pl /\ pl_cbs pl = brains cb /\ 0 < pl_chunkSize pl /\
    pl_key pl = key_of rnd opts /\
    (forall h, h_UsesBrainDict h = (match cb with Some _ => true | None => false end) -> brain_for cb (pl_dict pl) h).
Proof.
  intros Hat Hp. pose proof Hat as [Hfit Hpath]. unfold make_plan. destruct (Analyze input 65536) as [eScore startBytes].
  assert (Hopen : exists cbs, (if negb (has_brain opts path) && negb (is_edge opts) && DetectHeuristicBypass eScore startBytes
    then Ok [] else open_brains opts path) = Ok cbs /\ cbs = brains cb).
  { unfold has_brain, open_brains. rewrite Hp. change (zlen [] =? 0) with true. cbn [negb]. rewrite orb_false_r.
    rewrite (open_optional_ok _ path cb Hat). destruct cb as [r|].
    - destruct Hpath as [Hne _]. rewrite (proj2 (Z.eqb_neq _ _)) by (by intros ?%zlen_0_nil). by exists [r].
    - exists []. by destruct (_ && _). }
  destruct Hopen as (cbs & -> & ->). cbn [mbind res_bind].
  destruct (brain_dictionary cb Hfit) as (dict & Hdict & Hfor).
  assert (Hd : match brains cb with cb :: _ => Dictionary cb | [] => Ok [] end = Ok dict) by by destruct cb.
  rewrite Hd. cbn [mbind res_bind]. eexists. split; [done|]. cbn [pl_cbs pl_chunkSize pl_key pl_dict].
  split; [done|]. split; [|done]. pose proof (adaptive_pos (o_ChunkSize opts) eScore).
  destruct cb as [r|]; [|done]. cbn [brains]. destruct (_ && _); [|done].
  destruct Hfit as [[Hwf _ _] _]. by apply wfr_size.
Qed.

Lemma pick_chunker_ok opts pl cb :
  fit_brain cb -> pl_cbs pl = brains cb -> 0 < pl_chunkSize pl ->
  exists split, pick_chunker opts pl = Ok split /\ forall data, tiles data 0 (split data).
Proof.
  intros Hfit Hcbs Hpos. unfold pick_chunker. rewrite Hcbs. destruct (o_UseACAC opts).
  { eexists. split; [done|]. intros data. apply ContextualChunker_tiles. lia. }
  destruct (o_UseCDC opts). { eexists. split; [done|]. intros data. apply FastCDC_laws. }
  destruct cb as [r|]; [by apply brain_chunker_ok, Hfit|]. eexists. split; [done|]. intros data. apply FixedChunker_tiles.
Qed.

(** ** The embedded brain *)

(** What the random bytes must be. *)
Record rnd_ok (rnd : Randomness) : Prop := {
  ro_salt : zlen (r_salt rnd) = 16;
  ro_block i : zlen (r_block rnd i) = gcmNonceSize;
  ro_micro : zlen (r_micro rnd) = gcmNonceSize;
  ro_table : zlen (r_table rnd) = gcmNonceSize;
  ro_full : zlen (r_full rnd) = gcmNonceSize;
}.

Lemma zlen_key_of rnd opts k : key_of rnd opts = Some k -> zlen k = 32.
Proof. unfold key_of. destruct (_ =? _); [done|]. intros [= <-]. apply zlen_DeriveKey. Qed.

(** Reading back the section of an embedded brain, without any file. *)
Definition embedded (rnd : Randomness) (opts : PackOptions) (micro : bytes) (r : Reader) : Prop :=
  zlen micro <> 0 /\
  forall path, OpenForFile (zlen micro) micro (match key_of rnd opts with Some _ => true | None => false end)
    (r_salt rnd) path (o_EncryptionKey opts) = Ok r.

Lemma embed_brain_ok rnd path opts cb :
  rnd_ok rnd -> brain_at path cb -> (cb = None -> o_EmbedBrain opts = false) ->
  match embed_brain rnd path opts (key_of rnd opts) with
  | Ok (version, micro) =>
      zlen micro <= MaxMicroDictSize /\
      (if o_EmbedBrain opts then version = Version8 /\ exists r, cb = Some r /\ embedded rnd opts micro r
       else version = Version7 /\ micro = [])
  | Err e => o_EmbedBrain opts = true /\ e = "pack: embedded brain exceeds the format limit"
  | Panic _ => False
  end.
Proof.
  intros Hr [Hfit Hat] He. unfold embed_brain. destruct (o_EmbedBrain opts); [|done].
  destruct cb as [r|]; [|by specialize (He eq_refl)]. destruct Hat as [_ Ho].
  destruct (Open_inv path r Ho) as (brain & Hfile & Hb). rewrite Hfile.
  destruct Hfit as [[Hwf Hok _] _]. destruct (OpenFromBytes_inv _ _ Hb) as (<- & _ & _).
  assert (Hne : zstd_enc [] (data r) <> []).
  { apply zstd_enc_nonempty. intros E. revert Hb. by rewrite E. }
  assert (Hdec : zstd_dec [] (zstd_enc [] (data r)) = Some (data r)) by by apply zstd_dec_enc.
  unfold CompressPool. set (z := zstd_enc [] (data r)) in *. clearbody z.
  assert (Hseal : exists micro, seal_block "pack: encrypt embedded brain" (key_of rnd opts) (r_micro rnd) z = Ok micro /\
    embedded rnd opts micro r).
  { pose proof (zlen_key_of rnd opts) as Hk. unfold seal_block, embedded, OpenForFile.
    destruct (key_of rnd opts) as [k|] eqn:Ek; [specialize (Hk k eq_refl)|].
    - rewrite Encrypt_ok by done. eexists. split; [done|]. pose proof (ro_micro rnd Hr) as Hn.
      assert (Hm : zlen (r_micro rnd ++ gcm_seal k (r_micro rnd) z) <> 0).
      { rewrite zlen_app, Hn. pose proof (zlen_nonneg (gcm_seal k (r_micro rnd) z)). unfold gcmNonceSize. lia. }
      split; [done|]. intros path'. rewrite (proj2 (Z.eqb_neq _ _)) by done.
      unfold key_of in Ek. destruct (_ =? _); [done|]. injection Ek as <-.
      rewrite Decrypt_frame by done. cbn [wrap_err mbind res_bind]. by rewrite Hdec.
    - exists z. assert (zlen z <> 0) by by intros ?%zlen_0_nil. do 2 (split; [done|]). intros path'.
      rewrite (proj2 (Z.eqb_neq _ _)) by done. cbn [mbind res_bind]. by rewrite Hdec. }
  destruct Hseal as (micro & -> & Hmicro). cbn [mbind res_bind].
  destruct (Z.gtb_spec (zlen micro) MaxMicroDictSize); [done|]. split; [done|]. split; [done|]. by exists r.
Qed.

(** ** Headers *)

Lemma brain_hash_8 path cb :
  brain_at path cb ->
  zlen (brain_hash (brains cb) path) = 8 /\
  let '(h0, h1, h2) := brain_hashes (brains cb) in zlen h0 = 8 /\ zlen h1 = 8 /\ zlen h2 = 8.
Proof.
  intros [Hfit Hat]. unfold brain_hash, brain_hashes. destruct cb as [r|]; cbn [brains lookup list_lookup].
  - destruct Hat as [_ Ho], Hfit as [Hb _]. destruct (Open_inv path r Ho) as (d & _ & Hd).
    pose proof (opened_hash d r Hd Hb) as Hh. rewrite zlen_ztake, Hh, zlen_make by lia. done.
  - rewrite zlen_ztake, zlen_Sum256, zlen_make by lia. done.
Qed.

Lemma wf_file_header rnd input path opts pl cb version convergent compressed brainDict msg n root micro :
  rnd_ok rnd -> brain_at path cb -> pl_cbs pl = brains cb -> is_u64 (zlen input) -> is_u32 n -> zlen root = 32 ->
  zlen micro <= MaxMicroDictSize ->
  wf_header (file_header rnd input path opts pl version convergent compressed brainDict (Sum256 msg) n root micro).
Proof.
  intros Hr Hat Hcbs Hi Hn Hroot Hm. unfold file_header. rewrite Hcbs. destruct (brain_hash_8 path cb Hat) as [Hh Hhs].
  destruct (brain_hashes _) as [[h0 h1] h2]. destruct Hhs as (? & ? & ?).
  apply wf_pack_header; wf_field; try done. destruct (pl_key pl); [apply Hr|by apply zlen_make].
Qed.

(** ** Files without chunks *)

Lemma seal_payload rnd opts input :
  rnd_ok rnd ->
  exists payload, seal_block "crypto: encrypt" (key_of rnd opts) (r_full rnd) input = Ok payload /\
    forall msg, decrypt_block msg (key_of rnd opts) payload = Ok input.
Proof.
  intros Hr. pose proof (zlen_key_of rnd opts) as Hk. unfold seal_block, decrypt_block.
  destruct (key_of rnd opts) as [k|]; [|by exists input]. specialize (Hk k eq_refl).
  rewrite Encrypt_ok by done. eexists. split; [done|]. intros msg. by rewrite Decrypt_frame by (done || apply Hr).
Qed.

(** ** What [Pack] writes

    Chunks behind their metadata, or the input behind a header. *)
Definition chunked_file (content path' : bytes) (cb : option Reader) (opts : PackOptions) (pss : list (list processedChunk))
    (file : bytes) : Prop :=
  exists dict h frames metadata, file = metadata ++ concat frames /\
    archive cb dict (o_EncryptionKey opts) h content pss frames metadata /\
    h_IsLossy h = (match cb with Some _ => is_edge opts | None => false end) /\
    (forall r, cb = Some r -> open_brain (stored_header h) path' (o_EncryptionKey opts) = Ok r).

Definition stored_file (input path : bytes) (opts : PackOptions) (file : bytes) : Prop :=
  exists h payload, file = (Serialize h).2 ++ payload /\ plain_file (o_EncryptionKey opts) h input payload /\
    (h_UsesBrainDict h = true -> exists r, open_brain (stored_header h) path (o_EncryptionKey opts) = Ok r).

Definition packed_file (input path path' : bytes) (cb : option Reader) (opts : PackOptions) (file : bytes) : Prop :=
  (exists pss, chunked_file input path' cb opts pss file) \/ stored_file input path opts file.

Lemma Unpack_packed_file input path path' cb opts intn uopts file :
  u_EncryptionKey uopts = o_EncryptionKey opts -> u_Fuzziness uopts = f64_of_int 0 ->
  packed_file input path path' cb opts file -> Unpack intn file path' uopts = Ok input.
Proof.
  intros Hkey Hfuzz [(pss & dict & h & frames & metadata & -> & Har & _ & Hopen)|(h & payload & -> & Hplain & _)].
  - by apply (Unpack_packed cb dict (o_EncryptionKey opts) h input pss frames).
  - apply Unpack_plain. by rewrite Hkey.
Qed.

(** The one way for [Pack] to fail: a brain to embed that does not fit. *)
Definition packs (good : bytes -> Prop) (opts : PackOptions) (r : res bytes) : Prop :=
  match r with
  | Ok file => good file
  | Err e => o_EmbedBrain opts = true /\ e = "pack: embedded brain exceeds the format limit"%string
  | Panic _ => False
  end.

(** ** The whole round trip *)

Section unpacking.
Variables (rnd : Randomness) (schedule : Z -> nat -> list nat) (input path path' : bytes)
  (cb : option Reader) (opts : PackOptions) (pl : plan).
Hypotheses (Hrnd : rnd_ok rnd) (Hsched : forall i n, schedule i n ≡ₚ seq 0 n) (Hat : brain_at path cb)
  (Hpaths : o_CodebookPaths opts = []) (Hok : bytes_ok input) (Hlen : zlen input < 2 ^ 48)
  (Hcbs : pl_cbs pl = brains cb) (Hsize : 0 < pl_chunkSize pl) (Hplkey : pl_key pl = key_of rnd opts)
  (Hdict : forall h, h_UsesBrainDict h = (match cb with Some _ => true | None => false end) -> brain_for cb (pl_dict pl) h).

Let hdr := file_header rnd input path opts pl.
Let passphrase := o_EncryptionKey opts.

(** What all the headers of the file have in common. *)
Lemma hdr_fields version convergent compressed brainDict hash n root micro :
  let h := hdr version convergent compressed brainDict hash n root micro in
  h_Version h = version /\ h_IsLossy h = has_brain opts path && is_edge opts /\ h_OriginalHash h = hash /\ h_ChunkCount h = n /\
  h_OriginalSize h = zlen input /\ h_CompressedTable h = compressed /\ h_IsPassthrough h = false /\
  h_UsesBrainDict h = brainDict /\ h_MicroDictSize h = u32 (zlen micro) /\ h_MicroDictionaryData h = micro /\
  table_key passphrase h = key_of rnd opts /\ (h_IsEncrypted h = true -> passphrase <> []) /\
  h_IsEncrypted h = (match key_of rnd opts with Some _ => true | None => false end) /\
  (h_IsEncrypted h = true -> h_Salt h = r_salt rnd).
Proof.
  unfold hdr, file_header, pack_header, table_key. simpl_header.
  rewrite Hplkey. unfold key_of, passphrase.
  destruct (Z.eqb_spec (zlen (o_EncryptionKey opts)) 0) as [E|E]; [by repeat split|].
  repeat split; try done. intros _ E'. by rewrite E' in E.
Qed.

Lemma wf_hdr version convergent compressed brainDict msg n root micro :
  is_u32 n -> zlen root = 32 -> zlen micro <= MaxMicroDictSize ->
  wf_header (hdr version convergent compressed brainDict (Sum256 msg) n root micro).
Proof.
  intros. pose proof (zlen_nonneg input). apply (wf_file_header rnd input path opts pl cb); try done. unfold is_u64. lia.
Qed.

(** The fallback, and small or incompressible input: the file is not chunked. *)
Lemma plain_file_ok version convergent compressed brainDict root (passthrough : bool) payload :
  3 <= version <= 8 -> zlen root = 32 ->
  seal_block "crypto: encrypt" (key_of rnd opts) (r_full rnd) input = Ok payload ->
  let h := hdr version convergent compressed brainDict (Sum256 input) 0 root [] in
  plain_file passphrase (if passthrough then set_passthrough h else h) input payload.
Proof.
  intros Hv Hroot Hseal. destruct (seal_payload rnd opts input Hrnd) as (payload' & E & Hdec).
  rewrite Hseal in E. injection E as <-.
  destruct (hdr_fields version convergent compressed brainDict (Sum256 input) 0 root [])
    as (E1 & E2 & E3 & E4 & E5' & _ & _ & _ & _ & _ & E5 & E6 & _).
  pose proof (wf_hdr version convergent compressed brainDict input 0 root [] ltac:(done) Hroot ltac:(done)) as Hwf.
  cbv zeta in *. set (h := hdr _ _ _ _ _ _ _ _) in *. clearbody h.
  assert (Hwf' : wf_header (if passthrough then set_passthrough h else h)) by (destruct passthrough; [destruct Hwf; by constructor|done]).
  constructor; try done; destruct passthrough; try done; try (by rewrite E1).
  - change (h_Version (set_passthrough h)) with (h_Version h). by rewrite E1.
  - intros msg. rewrite <-(Hdec msg), <-E5. done.
  - intros msg. by rewrite E5.
Qed.

(** A header that names a brain for nothing still makes the mount open it. *)
Lemma plain_brain version convergent compressed brainDict root (passthrough : bool) :
  3 <= version <= 8 -> (brainDict = true -> uses_brain pl = true) ->
  let h := hdr version convergent compressed brainDict (Sum256 input) 0 root [] in
  let h' := if passthrough then set_passthrough h else h in
  h_UsesBrainDict h' = true -> exists r, open_brain (stored_header h') path passphrase = Ok r.
Proof.
  intros Hv Hd. destruct (hdr_fields version convergent compressed brainDict (Sum256 input) 0 root [])
    as (E1 & _ & _ & _ & _ & _ & _ & E2 & E3 & _). cbv zeta in *. set (h := hdr _ _ _ _ _ _ _ _) in *. clearbody h.
  intros Hu. assert (Hb : h_UsesBrainDict h = true) by (by destruct passthrough). rewrite E2 in Hb.
  specialize (Hd Hb). unfold uses_brain in Hd. rewrite Hcbs in Hd. destruct Hat as [_ Ho]. destruct cb as [r|]; [|done].
  destruct Ho as [Hne Ho]. exists r. apply open_brain_path; try done; destruct passthrough; try done; by cbn; rewrite E1.
Qed.

Lemma pack_passthrough_ok :
  exists file, pack_passthrough rnd input path opts pl = Ok file /\ stored_file input path opts file.
Proof.
  unfold pack_passthrough. rewrite Hplkey. destruct (seal_payload rnd opts input Hrnd) as (payload & Hseal & _).
  rewrite Hseal. cbn [mbind res_bind]. fold hdr. rewrite file_write_over.
  - eexists. split; [done|]. do 2 eexists. split; [done|].
    split; [apply (plain_file_ok Version5 false false (uses_brain pl) (make_bytes 32) true payload); [done|by apply zlen_make|done]|].
    by apply (plain_brain Version5 false false (uses_brain pl) (make_bytes 32) true).
  - assert (Hs : forall msg, zlen (Serialize (set_passthrough (hdr Version5 false false (uses_brain pl) (Sum256 msg) 0 (make_bytes 32) []))).2 =
      header_min_size Version5); [|by rewrite !Hs].
    intros msg. pose proof (wf_hdr Version5 false false (uses_brain pl) msg 0 (make_bytes 32) [] ltac:(done)
      ltac:(by apply zlen_make) ltac:(done)) as Hwf. rewrite zlen_Serialize; [done|destruct Hwf; by constructor|done].
Qed.

(** The brain that [Unpack] will open: the embedded one when there is one. *)
Lemma open_packed_brain version micro convergent root n r :
  (o_EmbedBrain opts = false -> path' = path) -> cb = Some r ->
  (if o_EmbedBrain opts then version = Version8 /\ (exists r, cb = Some r /\ embedded rnd opts micro r)
   else version = Version7 /\ micro = []) -> zlen micro <= MaxMicroDictSize ->
  open_brain (stored_header (hdr version convergent true (uses_brain pl) (Sum256 input) n root micro)) path'
    (o_EncryptionKey opts) = Ok r.
Proof.
  intros Hpath' Hcb Hmicro Hcap.
  destruct (hdr_fields version convergent true (uses_brain pl) (Sum256 input) n root micro)
    as (E1 & _ & _ & _ & _ & _ & _ & _ & E2 & E3 & _ & _ & E4 & E5).
  cbv zeta in *. set (h := hdr _ _ _ _ _ _ _ _) in *. clearbody h. pose proof (zlen_nonneg micro).
  rewrite u32_small in E2 by (unfold is_u32, MaxMicroDictSize in *; lia).
  destruct (o_EmbedBrain opts).
  - destruct Hmicro as (-> & r' & Hcb' & Hne & Hopen). rewrite Hcb in Hcb'. injection Hcb' as <-.
    assert (Hv : 3 <= h_Version h <= 8) by by rewrite E1.
    destruct (stored_fields h 0 Hv) as (_ & F1 & _ & _ & _ & F2 & _ & _ & F3 & F4).
    rewrite set_table_bytes_0, E1, E2, E3, E4 in *. change (Version8 >=? 8) with true in *. cbv iota in *.
    unfold open_brain. rewrite F1, F2, F3, F4. destruct (key_of rnd opts) eqn:Ek.
    + rewrite E5 by done. apply Hopen.
    + specialize (Hopen path'). revert Hopen. unfold OpenForFile. by rewrite (proj2 (Z.eqb_neq _ _)) by done.
  - destruct Hmicro as [-> ->]. rewrite Hpath' by done. pose proof Hat as [_ Hat']. rewrite Hcb in Hat'.
    destruct Hat' as [Hne Ho]. apply open_brain_path; first [done|by rewrite E2|by rewrite E1].
Qed.

(** What the packing step keeps of the input, in the blocks of the file. *)
Definition kept (R : bytes -> bytes -> Prop) (out : bytes) : Prop :=
  exists split, pick_chunker opts pl = Ok split /\ approximated R split input out.

Lemma pack_pool_approx R limit `{!forall literal, Approximator cb R limit (pack_chunk hasSIMD opts literal)} :
  (forall split, pick_chunker opts pl = Ok split -> small_chunks limit split) ->
  (forall split, pick_chunker opts pl = Ok split -> total_chunks split input <= 2 ^ 27) ->
  exists pb out, pack_pool hasSIMD rnd schedule input opts pl = Ok pb /\ kept R out /\
    packed cb (pl_dict pl) (key_of rnd opts) 0 (input_blocks out) (pb_chunks pb) (pb_frames pb) /\
    zlen out = zlen input /\ zlen (concat (pb_chunks pb)) <= 2 ^ 27.
Proof.
  intros Hsmall Htot. pose proof Hat as [Hfit _]. unfold pack_pool.
  set (literal := (_ >=? _) && _ && _). clearbody literal.
  assert (Hss : exists ss, mapR NewLSHSearcher (pl_cbs pl) = Ok ss /\ searchers_ok cb ss).
  { rewrite Hcbs. destruct (brain_searchers cb Hfit) as (ss & E & ?). exists ss. split; [|done]. by destruct cb. }
  destruct Hss as (ss & -> & Hss). cbn [mbind res_bind].
  destruct (pick_chunker_ok opts pl cb Hfit Hcbs Hsize) as (split & Esplit & Hsplit).
  specialize (Htot split Esplit). rewrite Esplit. cbn [mbind res_bind].
  assert (Hmp : exists ss', (if o_MultiPass opts then multi_pass hasSIMD split input ss else Ok ss) = Ok ss' /\ searchers_ok cb ss').
  { destruct (o_MultiPass opts); [by apply multi_pass_ok|by exists ss]. }
  destruct Hmp as (ss' & -> & Hss'). cbn [mbind res_bind]. rewrite Hplkey.
  destruct (pack_input_ok cb (pl_dict pl) (key_of rnd opts) R limit (pack_chunk hasSIMD opts literal) split schedule
    (o_MaxCompression opts) (r_block rnd) input ss' Hsplit (Hsmall split Esplit) Hsched (fun _ => ro_block rnd Hrnd)
    (zlen_key_of rnd opts) Hss' Hok ltac:(lia)) as (pb & out & -> & Hpk & Happ & Hout & _ & Hn).
  exists pb, out. split; [done|]. split; [by exists split|]. do 2 (split; [done|]). lia.
Qed.

Lemma kept_eq out : kept eq out -> out = input.
Proof.
  intros (split & Es & Happ). destruct (pick_chunker_ok opts pl cb (proj1 Hat) Hcbs Hsize) as (split' & Es' & Hsplit).
  rewrite Es in Es'. injection Es' as <-. by apply (approximated_eq split).
Qed.

Lemma pack_pool_ok :
  lossless opts -> (forall split, pick_chunker opts pl = Ok split -> total_chunks split input <= 2 ^ 27) ->
  exists pb, pack_pool hasSIMD rnd schedule input opts pl = Ok pb /\
    packed cb (pl_dict pl) (key_of rnd opts) 0 (input_blocks input) (pb_chunks pb) (pb_frames pb) /\
    zlen (concat (pb_chunks pb)) <= 2 ^ 27.
Proof.
  intros Hll Htot. destruct (pack_pool_approx eq BlockSize) as (pb & out & E & Hk & Hpk & _ & Hn); [|done|].
  { intros split Es. apply tiles_small. destruct (pick_chunker_ok opts pl cb (proj1 Hat) Hcbs Hsize) as (split' & Es' & Hsplit).
    rewrite Es in Es'. by injection Es' as <-. }
  rewrite (kept_eq out Hk) in Hpk. by exists pb.
Qed.

(** The blocks behind their metadata; or, when that has grown, the input behind a header. *)
Lemma finish_file_ok pb out :
  zlen out = zlen input -> (has_brain opts path && is_edge opts = false -> out = input) -> (cb = None -> o_EmbedBrain opts = false) -> (o_EmbedBrain opts = false -> path' = path) -> 0 < zlen input ->
  packed cb (pl_dict pl) (key_of rnd opts) 0 (input_blocks out) (pb_chunks pb) (pb_frames pb) ->
  zlen (concat (pb_chunks pb)) <= 2 ^ 27 ->
  match finish_file rnd input path opts pl pb with
  | Ok (file, rewritten) =>
      if rewritten : bool then stored_file input path opts file else chunked_file out path' cb opts (pb_chunks pb) file
  | Err e => o_EmbedBrain opts = true /\ e = "pack: embedded brain exceeds the format limit"%string
  | Panic _ => False
  end.
Proof.
  intros Hout Hexact Hembed Hpath' Hpos Hpk Hn'. unfold finish_file. fold hdr. cbv zeta. rewrite Hplkey.
  set (reserved := _ ++ make_bytes _ ++ make_bytes _). clearbody reserved.
  pose proof (embed_brain_ok rnd path opts cb Hrnd Hat Hembed) as He.
  destruct (embed_brain rnd path opts (key_of rnd opts)) as [[version micro]|e|p]; [|exact He|exact He].
  destruct He as [Hcap Hmicro]. cbn [mbind res_bind].
  set (root := match pb_frames pb with [] => _ | _ => _ end).
  assert (Hroot : zlen root = 32) by (unfold root; destruct (pb_frames pb); [by apply zlen_make|apply zlen_Root]). clearbody root.
  assert (Hv : 3 <= version <= 8) by (destruct (o_EmbedBrain opts), Hmicro as [-> _]; done).
  assert (Hn : zlen (pb_entries pb) = zlen (concat (pb_chunks pb))) by (unfold pb_entries, zlen; by rewrite length_map).
  pose proof (zlen_nonneg (concat (pb_chunks pb))). rewrite Hn. rewrite u32_small by (unfold is_u32; lia).
  set (h := hdr version _ true _ _ _ root micro).
  destruct (hdr_fields version (o_UseConvergentEncryption opts) true (uses_brain pl) (Sum256 input)
    (zlen (concat (pb_chunks pb))) root micro) as (E1 & E2 & E3 & E4 & E5 & E6 & E7 & E8 & E9 & _ & E11 & E12 & _).
  cbv zeta in *. fold h in E1, E2, E3, E4, E5, E6, E7, E8, E9, E11, E12.
  assert (Hh : describes h out (pb_chunks pb)).
  { constructor; rewrite ?Hout; try done; [apply wf_hdr; [unfold is_u32; lia|done|done]|]. rewrite E2. by intros ->%Hexact. }
  assert (Hopen : forall r, cb = Some r -> open_brain (stored_header h) path' (o_EncryptionKey opts) = Ok r).
  { intros r Hr. by apply open_packed_brain. }
  assert (Hlossy : h_IsLossy h = match cb with Some _ => is_edge opts | None => false end).
  { rewrite E2. unfold has_brain. rewrite Hpaths. change (zlen [] =? 0) with true. rewrite orb_false_r. destruct Hat as [_ Ho].
    destruct cb as [r|]; [destruct Ho as [Hne _]|by rewrite Ho]. by rewrite (proj2 (Z.eqb_neq _ _)) by (by intros ?%zlen_0_nil). }
  clearbody h. destruct (EncodeCompressedTable_ok (r_table rnd) (pb_entries pb) version passphrase h) as [table Htable].
  pose proof Htable as Htable'. rewrite E11 in Htable'. rewrite Htable'. cbn [wrap_err mbind res_bind].
  rewrite write_metadata_eq. match goal with |- context [zlen ?f >? zlen input] => set (file := f) end.
  destruct (negb (is_edge opts) && (zlen file >? zlen input) && (zlen input >? HeaderSizeV8)).
  - destruct (seal_payload rnd opts input Hrnd) as (payload & Hseal & _). rewrite Hseal. cbn [mbind res_bind].
    rewrite file_write_over by done. do 2 eexists. split; [done|].
    split; [by apply (plain_file_ok version (o_UseConvergentEncryption opts) false false root false payload)|].
    by apply (plain_brain version (o_UseConvergentEncryption opts) false false root false).
  - exists (pl_dict pl), h, (pb_frames pb). eexists. split; [done|]. split; [|by split].
    constructor; try done; [by rewrite <-E11 in Hpk|by apply Hdict; rewrite E8; unfold uses_brain; rewrite Hcbs; destruct cb|].
    exists (r_table rnd), table. split; [apply Hrnd|]. by rewrite <-E1 in Htable.
Qed.

Lemma pack_file_approx R limit `{!forall literal, Approximator cb R limit (pack_chunk hasSIMD opts literal)} :
  (forall split, pick_chunker opts pl = Ok split -> small_chunks limit split) ->
  (has_brain opts path && is_edge opts = false -> forall out, kept R out -> out = input) ->
  (cb = None -> o_EmbedBrain opts = false) -> (o_EmbedBrain opts = false -> path' = path) -> 0 < zlen input ->
  (forall split, pick_chunker opts pl = Ok split -> total_chunks split input <= 2 ^ 27) ->
  packs (fun file => stored_file input path opts file \/
           exists out pss, kept R out /\ zlen out = zlen input /\ chunked_file out path' cb opts pss file)
    opts (pack_file hasSIMD rnd schedule input path opts pl).
Proof.
  intros Hsmall Hexact Hembed Hpath' Hpos Htot. unfold pack_file, packs.
  destruct (pack_pool_approx R limit Hsmall Htot) as (pb & out & -> & Hk & Hpk & Hout & Hn). cbn [mbind res_bind].
  pose proof (finish_file_ok pb out Hout (fun He => Hexact He out Hk) Hembed Hpath' Hpos Hpk Hn) as Hf.
  destruct (finish_file rnd input path opts pl pb) as [[file []]| |]; [by left| |done|done].
  right. by exists out, (pb_chunks pb).
Qed.

Lemma pack_file_ok :
  lossless opts ->
  (cb = None -> o_EmbedBrain opts = false) -> (o_EmbedBrain opts = false -> path' = path) -> 0 < zlen input ->
  (forall split, pick_chunker opts pl = Ok split -> total_chunks split input <= 2 ^ 27) ->
  packs (packed_file input path path' cb opts) opts (pack_file hasSIMD rnd schedule input path opts pl).
Proof.
  intros Hll Hembed Hpath' Hpos Htot. unfold pack_file. destruct (pack_pool_ok Hll Htot) as (pb & -> & Hpk & Hn). cbn [mbind res_bind].
  pose proof (finish_file_ok pb input eq_refl (fun _ => eq_refl) Hembed Hpath' Hpos Hpk Hn) as H.
  destruct (finish_file rnd input path opts pl pb) as [[file []]| |]; [by right|left; by eexists|done|done].
Qed.

End unpacking.

(** Inputs of up to 128 MB have few enough chunks for the chunk table, whatever the chunker. *)
Lemma few_chunks rnd input path opts cb :
  brain_at path cb -> o_CodebookPaths opts = [] -> zlen input <= 2 ^ 27 ->
  forall pl split, make_plan rnd input path opts = Ok pl -> pick_chunker opts pl = Ok split ->
    total_chunks split input <= 2 ^ 27.
Proof.
  intros Hat Hp Hl pl split Epl Es.
  destruct (make_plan_ok rnd input path opts cb Hat Hp) as (pl' & Epl' & Hcbs & Hsize & _).
  rewrite Epl in Epl'. injection Epl' as <-. pose proof Hat as [Hfit _].
  destruct (pick_chunker_ok opts pl cb Hfit Hcbs Hsize) as (split' & Es' & Ht).
  rewrite Es in Es'. injection Es' as <-. pose proof (total_chunks_bound split input Ht). lia.
Qed.

(** Short inputs are not chunked. *)
Lemma chunked_input rnd input path opts pl : make_plan rnd input path opts = Ok pl -> pl_passthrough pl = false -> 256 <= zlen input.
Proof.
  unfold make_plan. destruct (Analyze _ _). intros (cbs & _ & Epl)%bind_ok. apply bind_ok in Epl as (d & _ & [= <-]).
  cbn [pl_passthrough]. by intros [_ ?%Z.ltb_ge]%orb_false_iff.
Qed.

(** What [Pack] makes of any input: one of the two kinds of file. *)
Lemma Pack_file rnd schedule input path path' cb opts :
  rnd_ok rnd -> (forall i n, schedule i n ≡ₚ seq 0 n) ->
  brain_at path cb -> o_CodebookPaths opts = [] -> (cb = None -> o_EmbedBrain opts = false) ->
  (o_EmbedBrain opts = false -> path' = path) -> lossless opts ->
  bytes_ok input -> zlen input < 2 ^ 48 ->
  (forall pl split, make_plan rnd input path opts = Ok pl -> pick_chunker opts pl = Ok split ->
     total_chunks split input <= 2 ^ 27) ->
  packs (packed_file input path path' cb opts) opts (Pack hasSIMD rnd schedule input path opts).
Proof.
  intros Hrnd Hsched Hat Hp Hembed Hpath' Hll Hok Hlen Htot.
  destruct (make_plan_ok rnd input path opts cb Hat Hp) as (pl & Epl & Hcbs & Hsize & Hplkey & Hdict).
  unfold Pack. rewrite Epl. cbn [mbind res_bind]. destruct (pl_passthrough pl) eqn:Ept.
  - destruct (pack_passthrough_ok rnd input path cb opts pl) as (file & -> & ?); [done..|by right].
  - apply (pack_file_ok rnd schedule input path path' cb opts pl); try done.
    + pose proof (chunked_input rnd input path opts pl Epl Ept). lia.
    + intros split Hs. by apply (Htot pl).
Qed.

(** [C1] Compression is lossless. For every input, brain, chunker, worker schedule, passphrase and
    draw of random bytes, and with any of the options that shape the file - small chunks,
    multi-pass restriction, maximum compression, an embedded brain, and the fallbacks for
    inputs that do not compress - [Pack] succeeds, unless the brain to embed is too large, and
    [Unpack] with the same passphrase gives back the input. A file with an embedded brain
    unpacks without the brain it was packed with. *)
Theorem Unpack_Pack rnd schedule intn input path path' cb opts uopts :
  rnd_ok rnd -> (forall i n, schedule i n ≡ₚ seq 0 n) ->
  brain_at path cb -> o_CodebookPaths opts = [] -> (cb = None -> o_EmbedBrain opts = false) ->
  (o_EmbedBrain opts = false -> path' = path) ->
  is_edge opts = false -> o_UseConvergentEncryption opts = false ->
  bytes_ok input -> zlen input < 2 ^ 48 ->
  (forall pl split, make_plan rnd input path opts = Ok pl -> pick_chunker opts pl = Ok split ->
     total_chunks split input <= 2 ^ 27) ->
  u_EncryptionKey uopts = o_EncryptionKey opts -> u_Fuzziness uopts = f64_of_int 0 ->
  match Pack hasSIMD rnd schedule input path opts with
  | Ok file => Unpack intn file path' uopts = Ok input
  | Err e => o_EmbedBrain opts = true /\ e = "pack: embedded brain exceeds the format limit"%string
  | Panic _ => False
  end.
Proof.
  intros Hrnd Hsched Hat Hp Hembed Hpath' He Hu Hok Hlen Htot Hkey Hfuzz.
  assert (Hll : lossless opts) by (split; [done|by rewrite Hu]).
  pose proof (Pack_file rnd schedule input path path' cb opts Hrnd Hsched Hat Hp Hembed Hpath' Hll Hok Hlen Htot) as H.
  destruct (Pack _ _ _ _ _ _) as [file|e|p]; [|done|done]. by apply (Unpack_packed_file input path path' cb opts).
Qed.

End pack_file.

(** ** Witness: encrypted, with an embedded brain and two passes, unpacked without the brain *)

Definition sample_rnd : Randomness := {|
  r_salt := make_bytes 16; r_block := fun _ => make_bytes 12; r_micro := make_bytes 12; r_table := make_bytes 12;
  r_full := make_bytes 12 |}.

Definition sample_pack_options : PackOptions := {|
  o_Mode := "archive"; o_CodebookPaths := []; o_EncryptionKey := str "key"; o_UseConvergentEncryption := false;
  o_GlobalSecret := []; o_ChunkSize := 256; o_UseCDC := true; o_UseACAC := false; o_ACACDelimiter := 0;
  o_MultiPass := true; o_MaxCompression := true; o_EmbedBrain := true |}.

(** Mostly a polynomial, so that it packs to less than its size. *)
Definition long_input : bytes := replicate 1300 7 ++ sample_input.

(** A logarithm under which every chunk has low entropy. *)
Definition log2_zero : MathLog2 := fun _ => f64_of_int 0.

Definition sample_pack : res bytes :=
  Pack (F0 := brain_disk) (log2 := log2_zero) (order := key_order) true sample_rnd
    (fun _ n => reverse (seq 0 n)) long_input (str "brain") sample_pack_options.

Definition sample_unpack_options : UnpackOptions :=
  {| u_Fuzziness := f64_of_int 0; u_EncryptionKey := str "key"; u_Strict := true |}.

Lemma sample_pack_smaller : match sample_pack with Ok file => zlen file <? zlen long_input | _ => false end = true.
Proof. vm_compute. reflexivity. Qed.

Lemma long_input_ok : bytes_ok long_input.
Proof. apply bytes_ok_dec. vm_compute. reflexivity. Qed.

Lemma sample_few_chunks pl split :
  make_plan (F0 := brain_disk) (log2 := log2_zero) (order := key_order) sample_rnd long_input (str "brain") sample_pack_options = Ok pl ->
  pick_chunker sample_pack_options pl = Ok split -> total_chunks split long_input <= 2 ^ 27.
Proof.
  apply (few_chunks (F0 := brain_disk) (log2 := log2_zero) (order := key_order) _ _ _ _ (Some sample_reader)).
  - apply sample_brain_at.
  - reflexivity.
  - vm_compute. congruence.
Qed.

(** What theorems about [Pack] ask of the sample. *)
Ltac sample_pack_side :=
  solve [ constructor; reflexivity | intros _ ?; apply reverse_Permutation | apply sample_brain_at | apply long_input_ok
        | apply sample_few_chunks | discriminate | reflexivity | vm_compute; reflexivity ].

Lemma Unpack_Pack_witness :
  exists file, sample_pack = Ok file /\ zlen file < zlen long_input /\
    Unpack (F0 := brain_disk) (fun _ => 0) file [] sample_unpack_options = Ok long_input.
Proof.
  pose proof (Unpack_Pack (F0 := brain_disk) (log2 := log2_zero) (order := key_order) true sample_rnd
    (fun _ n => reverse (seq 0 n)) (fun _ => 0) long_input (str "brain") [] (Some sample_reader) sample_pack_options
    sample_unpack_options) as H. fold sample_pack in H.
  pose proof sample_pack_smaller as Hs. destruct sample_pack as [file|e|p]; [|discriminate Hs|discriminate Hs].
  exists file. split; [reflexivity|]. split; [apply Z.ltb_lt, Hs|]. apply H; sample_pack_side.
Defined.
