(* ===== verification/Integrity.v ===== *)
(** What the unpackers promise about files they did not write: the integrity check of [Unpack], the
    tolerant mode, and the inputs that get past the checks. *)

From S2P Require Import Prelude Binary Sha256 Externals Crypto Format FormatIO Delta Chunker.
From S2P Require Import Codebook Entropy Search Unpack Pack ChunkCodec BlockCodec RoundTrip.
#[local] Open Scope Z_scope.
Import codebook Format.

Section integrity.
Context {Z0 : Zstd} {C0 : Cipher} {F0 : Files}.

(** ** The integrity check *)

(** In an exact and strict run, everything that is written is hashed. *)
Definition all_hashed (o : unpacked) : Prop := up_hashed o = up_file o.

Lemma writeOut_hashed chunk o : all_hashed o -> all_hashed (writeOut true chunk o).
Proof. unfold all_hashed. cbn. by intros ->. Qed.

Section strict.
Variables (cb : option Reader) (opts : UnpackOptions) (maxID : Z) (intn : Z -> Z).
Hypothesis Hstrict : u_Strict opts = true.

Lemma unpack_block_hashed entries pool g o o' :
  all_hashed o -> unpack_block cb opts true maxID intn entries pool g o = Ok o' -> all_hashed o'.
Proof.
  revert o; induction entries as [|e entries IH]; intros o Ho; cbn [unpack_block]; [by intros [= <-]|].
  cbv zeta. rewrite Hstrict. destruct (_ >? _); [done|]. intros (res & _ & H)%bind_ok. apply bind_ok in H as (chunk & _ & H).
  by apply (IH _ (writeOut_hashed chunk o Ho)).
Qed.

Lemma unpack_blocks_hashed dict key starts entries i idx table rest g o r o' :
  all_hashed o -> unpack_blocks cb opts true maxID intn dict key starts entries i idx table rest g o r = Ok o' ->
  all_hashed o'.
Proof.
  revert i idx rest g o r; induction table as [|n table IH]; intros i idx rest g o r Ho; cbn [unpack_blocks]; [by intros [= <-]|].
  intros ([data r'] & _ & H)%bind_ok. apply bind_ok in H as (z & _ & H). rewrite Hstrict in H.
  destruct (DecompressPoolDict z dict); [|done|done]. apply bind_ok in H as ([lo hi] & _ & H).
  apply bind_ok in H as (o1 & H1 & H). eapply IH; [|exact H]. by eapply unpack_block_hashed.
Qed.

Lemma unpack_legacy_hashed entries pool o o' :
  all_hashed o -> unpack_legacy cb true maxID intn entries pool o = Ok o' -> all_hashed o'.
Proof.
  revert o; induction entries as [|e entries IH]; intros o Ho; cbn [unpack_legacy]; [by intros [= <-]|].
  intros (res & _ & H)%bind_ok. apply bind_ok in H as (chunk & _ & H). by apply (IH _ (writeOut_hashed chunk o Ho)).
Qed.
End strict.

Lemma finish_unpack_exact h o out :
  all_hashed o -> finish_unpack h true true o = Ok out -> Sum256 out = h_OriginalHash h.
Proof.
  unfold finish_unpack, all_hashed. intros ->. cbn. rewrite andb_true_r.
  destruct (bytes_eqb _ _) eqn:E; [|done]. intros [= <-]. by apply bytes_eqb_true.
Qed.


(** ** Damage *)

Section damage.
Context {hash64 : XXHash} {log2 : MathLog2} {order : MapOrder} {ZL : ZstdLaws Z0} {CL : CipherLaws C0}.
Variable hasSIMD : bool.

Lemma insert_split {A} (l : list A) i x :
  l !! i = Some x -> exists l1 l2, l = l1 ++ x :: l2 /\ length l1 = i /\ forall y, <[i:=y]> l = l1 ++ y :: l2.
Proof.
  intros H. pose proof (lookup_lt_Some _ _ _ H). exists (take i l), (drop (S i) l).
  split; [symmetry; by apply take_drop_middle|]. split; [rewrite length_take; lia|].
  intros y. by apply insert_take_drop.
Qed.

(** Decoding a damaged frame fails with every dictionary. *)
Definition undecodable (frame : bytes) : Prop := frame <> [] /\ forall dict, zstd_dec dict frame = None.

(** [C15] The tolerant mode salvages what is left. When any one block of a file packed from a pipe is
    overwritten with bytes that do not decompress, [Unpack] in tolerant mode still succeeds, and
    its output is the input with exactly that block replaced by zeros: every other byte is in
    its place, whichever block was hit. *)
Theorem Unpack_damaged_block schedule intn input path cb opts :
  brain_at path cb -> is_edge opts = false -> o_UseConvergentEncryption opts = false ->
  (forall i n, schedule i n ≡ₚ seq 0 n) ->
  bytes_ok input -> 0 < zlen input < 2 ^ 48 ->
  (forall split, stream_chunker opts cb (stream_chunkSize opts cb) = Ok split -> total_chunks split input <= 2 ^ 27) ->
  exists metadata frames,
    PackStream hasSIMD schedule input path opts = Ok (metadata ++ concat frames) /\
    length frames = length (input_blocks input) /\
    forall i frame frame' block uopts,
      frames !! i = Some frame -> input_blocks input !! i = Some block ->
      zlen frame' = zlen frame -> undecodable frame' ->
      u_Fuzziness uopts = f64_of_int 0 -> u_EncryptionKey uopts = [] -> u_Strict uopts = false ->
      Unpack intn (metadata ++ concat (<[i:=frame']> frames)) path uopts =
        Ok (concat (<[i:=make_bytes (zlen block)]> (input_blocks input))).
Proof.
  intros Hat He Hu Hsched Hok Hl Htot. assert (Hll : lossless opts) by (split; [done|by rewrite Hu]).
  destruct (PackStream_file hasSIMD schedule input path cb opts Hat Hll Hsched Hok Hl Htot)
    as (dict & h & pss & frames & metadata & -> & Har & Henc & Hlossy & Hopen).
  exists metadata, frames. split; [done|]. pose proof (ar_packed _ _ _ _ _ _ _ _ Har) as Hpk.
  destruct (packed_lengths _ _ _ _ _ _ _ Hpk) as [L1 L2]. split; [done|].
  intros i frame frame' block uopts Hfi Hbi Hlen [Hne Hdec] Hfuzz Hkey Hstrict.
  destruct (Unpack_run cb dict [] h input pss frames metadata Har intn path uopts (concat (<[i:=frame']> frames)) Hkey (fun _ => Hfuzz) Hopen)
    as (maxID & h' & _ & ->). pose proof (run_options_exact h uopts (fun _ => Hfuzz)) as Hnf.
  unfold run_options in *. rewrite Hlossy in *.
  destruct (archive_blocks cb dict [] h input pss frames metadata Har) as (Hb & _ & _ & _ & _ & _ & _ & _ & Hcat). clear Har.
  assert (Hk : table_key [] h = None) by (unfold table_key; by rewrite Henc). rewrite Hk in *.
  assert (exists ps, pss !! i = Some ps) as [ps Hpi].
  { apply lookup_lt_is_Some. apply lookup_lt_Some in Hfi. lia. }
  destruct (insert_split _ _ _ Hfi) as (f1 & f2 & F1 & F2 & F3), (insert_split _ _ _ Hpi) as (p1 & p2 & P1 & P2 & _),
    (insert_split _ _ _ Hbi) as (b1 & b2 & B1 & B2 & B3).
  rewrite F3, B3. rewrite B1 in Hpk, Hcat. subst frames pss.
  rewrite (run_one_damaged cb dict None uopts true maxID intn Hnf frame' frame' "delta: decompress pool" b1 block b2); try done.
  - cbn [mbind res_bind]. unfold finish_unpack. cbn. rewrite Hstrict. cbn [negb andb]. rewrite andb_false_r.
    by rewrite concat_app, <-app_assoc.
  - lia.
  - lia.
  - unfold DecompressPoolDict. rewrite (proj2 (Z.eqb_neq _ _)) by (by intros ?%zlen_0_nil). by rewrite Hdec.
  - rewrite Hcat. lia.
Qed.
End damage.

(** ** What gets past the checks *)

Section hostile.
Context {ZL : ZstdLaws Z0} {CL : CipherLaws C0}.

(** The in-memory unpacker does not authenticate files without chunks. For any such file whose
    payload is not what its header promises, [Unpack] reports the integrity failure and
    [UnpackBytes], asked for an exact copy, returns the payload. *)
Theorem UnpackBytes_unchecked intn h payload brain r path :
  wf_header h -> 3 <= h_Version h <= 8 -> h_ChunkCount h = 0 -> h_IsEncrypted h = false -> h_IsLossy h = false ->
  OpenFromBytes brain = Ok r -> Sum256 payload <> h_OriginalHash h ->
  let file := (Serialize h).2 ++ payload in
  Unpack intn file path DefaultUnpackOptions = Err "unpack: SECURITY/INTEGRITY FAILURE" /\
  UnpackBytes file brain [] true = Ok payload.
Proof.
  intros Hwf Hv Hc Henc Hlossy Hr Hne. cbv zeta.
  pose proof (ReadMetadata_payload [] h payload Hwf Hv ltac:(by rewrite Henc) Hc) as Hmeta.
  destruct (stored_fields h 0 Hv) as (E1 & E2 & E3 & E4 & E5 & E6 & E7 & E8 & _). rewrite set_table_bytes_0 in *.
  set (h' := stored_header h) in *. clearbody h'.
  assert (Hb : bytes_eqb (Sum256 payload) (h_OriginalHash h) = false) by (by apply bool_decide_eq_false).
  split.
  - unfold Unpack. cbn [u_EncryptionKey DefaultUnpackOptions]. rewrite Hmeta.
    cbn [wrap_err mbind res_bind needs_brain existsb]. rewrite E2, E4, E8, Henc, Hlossy, Hc, Z.eqb_refl, orb_true_r.
    cbv zeta. cbn [u_Fuzziness DefaultUnpackOptions]. change (f64_eqb (f64_of_int 0) (f64_of_int 0)) with true.
    cbn [unpack_passthrough mbind res_bind]. unfold finish_unpack. cbn. by rewrite E7, Hb.
  - unfold UnpackBytes. rewrite Hr, Hmeta. cbn [wrap_err mbind res_bind]. rewrite E2, E8, Henc, Hc, Z.eqb_refl, orb_true_r.
    assert (Hz : (zlen ((Serialize h).2 ++ payload) =? 0) = false); [|by rewrite Hz].
    rewrite zlen_app, FormatIO.Serialize_image, zlen_header_image by (done || lia).
    pose proof (header_min_size_range (h_Version h) ltac:(lia)). pose proof (zlen_nonneg payload).
    pose proof (wf_micro h Hwf). pose proof (zlen_nonneg (h_MicroDictionaryData h)).
    apply Z.eqb_neq. destruct (_ >=? _); lia.
Qed.

(** A chunk that claims to start one byte before the pool and to be two bytes long. *)
Definition wrapping_entry : ChunkEntry := {|
  e_CodebookID := LiteralCodebookID; e_DeltaOffset := 2 ^ 64 - 1; e_DeltaSize := 2; e_OriginalSize := 1;
  e_CodebookIndex := LiteralCodebookIndex |}.

Definition wrapping_header : Header :=
  pack_header Version5 false false false false true (make_bytes 16) (Sum256 [0]) 1 1 1 (make_bytes 8) zero_hashes
    (make_bytes 32) [].

(** The crafted table parses, needs no brain, and takes [Unpack] to a slice with an inverted range. *)
Lemma wrapping_file intn path opts :
  exists file header blockTable entries rStream,
    ReadMetadata (u_EncryptionKey opts) file = Ok ((header, blockTable, entries), rStream) /\ needs_brain entries = false /\
    Unpack intn file path opts = Panic SliceBounds.
Proof.
  assert (Hwf : wf_header wrapping_header) by (apply wf_pack_header; wf_field; done).
  assert (Hf : h_Version wrapping_header = Version5 /\ h_IsLossy wrapping_header = false /\ h_CompressedTable wrapping_header = true /\
    h_IsEncrypted wrapping_header = false /\ h_IsPassthrough wrapping_header = false /\
    h_ChunkCount wrapping_header = 1 /\ h_UsesBrainDict wrapping_header = false /\
    NumBlocks wrapping_header = 1) by (repeat split; reflexivity).
  set (h := wrapping_header) in *. clearbody h. destruct Hf as (F1 & F2 & F2' & F3 & F4 & F5 & F6 & F7).
  assert (Hv : 3 <= h_Version h <= 8) by by rewrite F1.
  destruct (EncodeCompressedTable_ok (make_bytes 12) [wrapping_entry] Version5 (u_EncryptionKey opts) h)
    as [table Htable].
  set (frame := CompressPoolDict [0] []). pose proof (zlen_nonneg frame).
  assert (Hz : DecompressPoolDict frame [] = Ok [0] /\ zlen frame < 2 ^ 32).
  { split; [by apply DecompressPoolDict_Compress; repeat constructor|].
    destruct (zlen_CompressPoolDict [0] []) as [Hb _]. fold frame in Hb. change (zlen [0]) with 1 in Hb.
    change (1 / 256) with 0 in Hb. lia. }
  clearbody frame. destruct Hz as [Hz Hl].
  assert (He : Forall wf_entry [wrapping_entry]) by (repeat constructor; done).
  pose proof (ReadMetadata_compressed (make_bytes 12) (u_EncryptionKey opts) h [zlen frame] [wrapping_entry]
    table frame Hwf Hv) as Hmeta. rewrite F1, F2', F3, F5, F7 in Hmeta.
  specialize (Hmeta eq_refl ltac:(done) ltac:(by apply zlen_make) eq_refl ltac:(repeat constructor; unfold is_u32; lia)
    eq_refl ltac:(done) He eq_refl Htable).
  destruct (stored_fields h (zlen table) Hv) as (E1 & E2 & E3 & E4 & E5 & _ & _ & E8 & _).
  do 5 eexists. split; [exact Hmeta|]. split; [done|]. unfold Unpack. rewrite Hmeta. cbn [wrap_err mbind res_bind].
  set (h' := set_table_bytes _ _) in *. clearbody h'.
  rewrite E1, E2, E3, E4, E5, E8, F1, F2, F3, F4, F5, F6.
  change (needs_brain [wrapping_entry]) with false. cbn [mbind res_bind].
  change (false || (1 =? 0)) with false. change (Version5 >=? Version2) with true.
  cbv zeta. cbn [mbind res_bind]. change (BlockStarts [wrapping_entry]) with [0].
  change (negb (zlen [0] =? zlen [zlen frame])) with false. cbn [unpack_blocks].
  pose proof (ReadFull_app "unpack: unexpected end of delta pool" (zlen frame) frame [] eq_refl) as Hread.
  rewrite app_nil_r in Hread. rewrite Hread. cbn [mbind res_bind decrypt_block]. rewrite Hz.
  change (BlockRange [0] 0 (zlen [wrapping_entry])) with (@Ok (Z * Z) (0, 1)). cbn [mbind res_bind].
  change (ztake (1 - 0) [wrapping_entry]) with [wrapping_entry]. reflexivity.
Qed.

(** A crafted chunk table crashes the process instead of being refused: the bounds check of
    [Unpack] compares only the wrapped end of a residual with the pool, so that a start just
    below the pool reaches the slice expression, in strict and in tolerant mode. *)
Theorem Unpack_wrapping_offset intn path opts :
  exists file, Unpack intn file path opts = Panic SliceBounds.
Proof. destruct (wrapping_file intn path opts) as (file & h & bt & es & rs & _ & _ & E). by exists file. Qed.
End hostile.

End integrity.

(** ** Witnesses *)

(** A file packed in memory. *)
Definition sample_file : bytes :=
  match PackBytes (log2 := log2_minus8) (order := key_order) true sample_input sample_brain DefaultPackOptions with
  | Ok file => file
  | _ => []
  end.


(** The only block of a file is overwritten with zeros. *)
Lemma Unpack_damaged_block_witness :
  let tolerant := {| u_Fuzziness := f64_of_int 0; u_EncryptionKey := []; u_Strict := false |} in
  exists metadata frame,
    PackStream (F0 := brain_disk) (log2 := log2_minus8) (order := key_order) true in_order sample_input (str "brain")
      DefaultPackOptions = Ok (metadata ++ frame) /\
    (frame <> [] ->
     Unpack (F0 := brain_disk) (fun _ => 0) (metadata ++ make_bytes (zlen frame)) (str "brain") tolerant = Ok (make_bytes 14)).
Proof.
  intros tolerant.
  destruct (Unpack_damaged_block (F0 := brain_disk) (log2 := log2_minus8) (order := key_order) true in_order (fun _ => 0)
    sample_input (str "brain") (Some sample_reader) DefaultPackOptions) as (metadata & frames & Hp & Hl & H).
  - apply sample_brain_at.
  - reflexivity.
  - reflexivity.
  - intros i n. reflexivity.
  - apply sample_input_ok.
  - vm_compute. split; congruence.
  - intros split E. destruct (stream_chunker_ok DefaultPackOptions (Some sample_reader)
      (stream_chunkSize DefaultPackOptions (Some sample_reader)) (conj good_sample_reader eq_refl)) as (split' & E' & Ht).
    rewrite E in E'. injection E' as <-. etrans; [apply (total_chunks_bound split sample_input Ht)|]. vm_compute. congruence.
  - change (length (input_blocks sample_input)) with 1%nat in Hl.
    destruct frames as [|frame [|? ?]]; try discriminate Hl. cbn [concat] in Hp. rewrite app_nil_r in Hp.
    exists metadata, frame. split; [exact Hp|]. intros Hne.
    specialize (H 0%nat frame (make_bytes (zlen frame)) sample_input tolerant eq_refl eq_refl).
    cbn [insert list_insert concat] in H. rewrite app_nil_r in H. apply H; try reflexivity.
    + apply zlen_make, zlen_nonneg.
    + destruct frame as [|x frame]; [destruct (Hne eq_refl)|]. pose proof (zlen_nonneg frame).
      rewrite zlen_cons, Z.add_comm, make_split by lia. split; [vm_compute; discriminate|]. intros dict. reflexivity.
Defined.

Lemma UnpackBytes_unchecked_witness :
  let h := pack_header Version5 false false false false false (make_bytes 16) (Sum256 []) 3 0 0 (make_bytes 8) zero_hashes
    (make_bytes 32) [] in
  let file := (Serialize h).2 ++ [1; 2; 3] in
  Unpack (F0 := brain_disk) (fun _ => 0) file [] DefaultUnpackOptions = Err "unpack: SECURITY/INTEGRITY FAILURE" /\
  UnpackBytes file sample_brain [] true = Ok [1; 2; 3].
Proof.
  intros h. apply (UnpackBytes_unchecked (F0 := brain_disk) (fun _ => 0) h [1; 2; 3] sample_brain sample_reader []).
  - apply wf_pack_header; wf_field; done.
  - by split.
  - reflexivity.
  - reflexivity.
  - reflexivity.
  - vm_compute. reflexivity.
  - vm_compute. discriminate.
Defined.

Lemma Unpack_wrapping_offset_witness :
  exists file, Unpack (F0 := brain_disk) (fun _ => 0) file [] DefaultUnpackOptions = Panic SliceBounds.
Proof. exact (Unpack_wrapping_offset (F0 := brain_disk) (fun _ => 0) [] DefaultUnpackOptions). Defined.
