(* ===== verification/Archive.v ===== *)
(** Where things are in an archive: the chunk that holds a byte of the input, the block that holds
    the chunk, its residual in the block's pool, and the entry that describes it. The readers that
    do not unpack from the start - the mounted file system, the manifests, the search - are
    verified against these lemmas. *)

From S2P Require Import Prelude Externals Crypto Format FormatIO Delta Chunker Codebook Entropy.
From S2P Require Import Search Unpack Pack ChunkCodec BlockCodec RoundTrip.
Import codebook Format.

(** ** Positions in a concatenation *)

Lemma locate {A} (ls : list (list A)) o :
  0 <= o < zlen (concat ls) ->
  exists pre x post k, ls = pre ++ x :: post /\ o = zlen (concat pre) + k /\ 0 <= k < zlen x.
Proof.
  revert o; induction ls as [|l ls IH]; intros o Ho; [change (zlen (concat [])) with 0 in Ho; lia|].
  cbn [concat] in Ho. rewrite zlen_app in Ho. destruct (Z.ltb_spec o (zlen l)).
  - exists [], l, ls, o. split; [done|]. cbn [concat]. change (zlen (@nil A)) with 0. lia.
  - destruct (IH (o - zlen l) ltac:(lia)) as (pre & x & post & k & -> & E & Hk). exists (l :: pre), x, post, k.
    split; [done|]. cbn [concat]. rewrite zlen_app. lia.
Qed.

Lemma concat_mid {A} (pre : list (list A)) x post :
  concat (pre ++ x :: post) = concat pre ++ x ++ concat post.
Proof. by rewrite concat_app. Qed.

(** The part of a slice that falls in the middle of three pieces. *)
Lemma sub_mid {A} (pre mid post : list A) k m :
  0 <= k -> 0 <= m -> k + m <= zlen mid ->
  sub (zlen pre + k) (zlen pre + k + m) (pre ++ mid ++ post) = sub k (k + m) mid.
Proof.
  intros Hk Hm Hl. rewrite (sub_skip (zlen pre)) by (done || lia).
  replace (zlen pre + k - zlen pre) with k by lia. replace (zlen pre + k + m - zlen pre) with (k + m) by lia.
  rewrite <-(ztake_app mid post) at 2. rewrite sub_ztake; [done|lia|lia].
Qed.

Lemma sub_join {A} a b c (l : list A) :
  0 <= a <= b -> b <= c -> sub a b l ++ sub b c l = sub a c l.
Proof.
  intros Ha Hb. unfold sub. replace (zdrop b l) with (zdrop (b - a) (zdrop a l)) by (rewrite zdrop_zdrop by lia; f_equal; lia).
  rewrite ztake_app_ztake by lia. f_equal. lia.
Qed.

Lemma sub_sub {A} a b lo hi (l : list A) :
  0 <= a -> 0 <= lo <= hi -> hi <= b - a -> sub lo hi (sub a b l) = sub (a + lo) (a + hi) l.
Proof.
  intros. unfold sub at 2. rewrite sub_ztake by lia. unfold sub. rewrite zdrop_zdrop by lia. f_equal. lia.
Qed.

Lemma sub_empty {A} a (l : list A) : sub a a l = [].
Proof. unfold sub. rewrite Z.sub_diag. by destruct (zdrop a l). Qed.

Lemma sub_past {A} a b (l : list A) : zlen l <= a -> sub a b l = [].
Proof.
  intros Ha. unfold sub. assert (zdrop a l = []) as ->; [|done]. apply zlen_0_nil. rewrite zlen_zdrop.
  pose proof (zlen_nonneg l). lia.
Qed.

(** A slice that runs past the end. *)
Lemma sub_clip {A} a b (l : list A) : 0 <= a <= zlen l -> zlen l <= b -> sub a b l = sub a (zlen l) l.
Proof.
  intros Ha Hb. pose proof (zlen_nonneg l). unfold sub. rewrite !ztake_ge; [done| |]; rewrite zlen_zdrop; lia.
Qed.

(** A read of [n] bytes, cut at the end. *)
Lemma sub_clipped {A} off n (l : list A) :
  0 <= off < zlen l -> 0 <= n ->
  let m := if off + n >? zlen l then zlen l - off else n in
  0 <= m <= n /\ off + m <= zlen l /\ sub off (off + n) l = sub off (off + m) l.
Proof.
  intros Ho Hn m. unfold m. rewrite Z.gtb_ltb. destruct (Z.ltb_spec (zlen l) (off + n)); [|done].
  split; [lia|]. split; [lia|]. replace (off + (zlen l - off)) with (zlen l) by lia. apply sub_clip; lia.
Qed.

(** ** Chunks of a block *)

Section layout.
Context {Z0 : Zstd} {C0 : Cipher} {F0 : Files}.
Variables (cb : option Reader) (dict : bytes) (key : option bytes).

Lemma pool_of_app a b : pool_of (a ++ b) = pool_of a ++ pool_of b.
Proof. unfold pool_of. by rewrite map_app, concat_app. Qed.

Lemma laid_out_at off q1 p q2 :
  laid_out off (q1 ++ p :: q2) -> e_DeltaOffset (p_entry p) = off + zlen (pool_of q1).
Proof.
  revert off; induction q1 as [|q q1 IH]; intros off; cbn [app laid_out].
  - intros [-> _]. change (zlen (pool_of [])) with 0. lia.
  - intros [_ H]. rewrite (IH _ H). unfold pool_of. cbn [map concat]. rewrite zlen_app. lia.
Qed.

Lemma laid_out_app off a b : laid_out off a -> laid_out (off + zlen (pool_of a)) b -> laid_out off (a ++ b).
Proof.
  revert off; induction a as [|p a IH]; intros off.
  - change (zlen (pool_of [])) with 0. by rewrite Z.add_0_r.
  - intros [E H] Hb. split; [done|]. apply IH; [done|]. unfold pool_of in Hb. cbn [map concat] in Hb.
    by rewrite zlen_app, Z.add_assoc in Hb.
Qed.

Lemma zlen_pool_mid q1 p q2 : zlen (pool_of (q1 ++ p :: q2)) = zlen (pool_of q1) + zlen (p_res p) + zlen (pool_of q2).
Proof. rewrite pool_of_app, zlen_app. unfold pool_of at 2. cbn [map concat]. rewrite zlen_app. unfold pool_of. lia. Qed.

(** ** Blocks of a file *)

(** The block in the middle of a packed file. *)
Lemma packed_block off blocks p1 ps p2 frames :
  packed cb dict key off blocks (p1 ++ ps :: p2) frames ->
  exists b1 datas b2 f1 frame f2,
    blocks = b1 ++ concat datas :: b2 /\ frames = f1 ++ frame :: f2 /\ length b1 = length p1 /\ length f1 = length p1 /\
    Forall2 (decodes cb) datas ps /\ laid_out (off + zlen (concat (map pool_of p1))) ps /\
    frame_of dict key frame (pool_of ps) /\ packed cb dict key off b1 p1 f1 /\
    packed cb dict key (off + zlen (concat (map pool_of p1)) + zlen (pool_of ps)) b2 p2 f2.
Proof.
  revert off blocks frames; induction p1 as [|q p1 IH]; intros off blocks frames Hpk; cbn [app] in Hpk.
  - inversion Hpk as [|? datas blocks' ? ? frame frames' Hps Hlo Hf Hrest]; subst.
    exists [], datas, blocks', [], frame, frames'. cbn [app map concat]. change (zlen (@nil Z)) with 0. rewrite Z.add_0_r.
    repeat (split; [done|]). split; [constructor|done].
  - inversion Hpk as [|? datas blocks' ? ? frame frames' Hps Hlo Hf Hrest]; subst.
    destruct (IH _ _ _ Hrest) as (b1 & datas' & b2 & f1 & frame' & f2 & -> & -> & L1 & L2 & Hd & Hl & Hf' & Hp1 & Hp2).
    exists (concat datas :: b1), datas', b2, (frame :: f1), frame', f2. cbn [app map concat length].
    rewrite zlen_app, Z.add_assoc. repeat (split; [done || lia|]). split; [by constructor|done].
Qed.

Lemma packed_bytes off blocks pss frames :
  packed cb dict key off blocks pss frames ->
  block_bytes (concat (entries_of pss)) = zlen (concat blocks) /\ zlen (concat (map pool_of pss)) <= zlen (concat blocks) /\
  Forall (fun e => 0 < e_OriginalSize e) (concat (entries_of pss)).
Proof.
  induction 1 as [|off datas blocks ps pss frame frames Hps _ _ _ (IH1 & IH2 & IH3)]; [done|].
  destruct (block_bytes_entries cb datas ps Hps) as [Hsz Hpos]. destruct (decodes_pool cb _ _ Hps) as [Hpl _].
  cbn [entries_of map concat]. rewrite block_bytes_app, !zlen_app. unfold entries_of in IH1, IH3.
  split; [lia|]. split; [lia|]. by apply Forall_app.
Qed.

(** The chunk [p] between [q1] and [q2], in the block between [p1] and [p2], holds the bytes [d]
    between [pre] and [post]. *)
#[local] Set Implicit Arguments.
Record located (input : bytes) (pss : list (list processedChunk)) (frames : list bytes) (pre d post : bytes)
    (p1 : list (list processedChunk)) (q1 : list processedChunk) (p : processedChunk) (q2 : list processedChunk)
    (p2 : list (list processedChunk)) (f1 : list bytes) (frame : bytes) (f2 : list bytes) : Prop := {
  lc_input : input = pre ++ d ++ post;
  lc_pss : pss = p1 ++ (q1 ++ p :: q2) :: p2;
  lc_frames : frames = f1 ++ frame :: f2;
  lc_count : length f1 = length p1;
  lc_frame : frame_of dict key frame (pool_of (q1 ++ p :: q2));
  lc_decodes : decodes cb d p;
  lc_layout : laid_out (zlen (concat (map pool_of p1))) (q1 ++ p :: q2);
  lc_before : zlen pre = block_bytes (map p_entry (concat p1 ++ q1));
  lc_pool : zlen (concat (map pool_of p1)) + zlen (pool_of (q1 ++ p :: q2)) <= zlen input;
}.
#[local] Unset Implicit Arguments.

Lemma block_bytes_map_app a b : block_bytes (map p_entry (a ++ b)) = block_bytes (map p_entry a) + block_bytes (map p_entry b).
Proof. by rewrite map_app, block_bytes_app. Qed.

(** A chunk of a block, given by its place in the block. *)
Lemma located_chunk blocks pss frames p1 q1 p q2 p2 :
  packed cb dict key 0 blocks pss frames -> pss = p1 ++ (q1 ++ p :: q2) :: p2 ->
  exists pre d post f1 frame f2, located (concat blocks) pss frames pre d post p1 q1 p q2 p2 f1 frame f2.
Proof.
  intros Hpk E. pose proof Hpk as Hpk'. rewrite E in Hpk'.
  destruct (packed_block _ _ _ _ _ _ Hpk') as (b1 & datas & b2 & f1 & frame & f2 & -> & Ef & L1 & L2 & Hps & Hlo & Hf & Hp1 & _).
  rewrite Z.add_0_l in Hlo. pose proof Hps as Hps'. apply Forall2_app_inv_r in Hps' as (d1 & dd & H1 & H2 & ->).
  apply Forall2_cons_inv_r in H2 as (d & d2 & Hd & H2 & ->).
  destruct (packed_bytes _ _ _ _ Hp1) as (B1 & B2 & _). destruct (block_bytes_entries cb d1 q1 H1) as [B3 _].
  destruct (decodes_pool cb _ _ Hps) as [Hpl _]. rewrite concat_entries_of in B1.
  exists (concat b1 ++ concat d1), d, (concat d2 ++ concat b2), f1, frame, f2.
  constructor; try done.
  - by rewrite concat_mid, concat_mid, <-!app_assoc.
  - rewrite block_bytes_map_app, zlen_app. lia.
  - rewrite (concat_mid b1), !zlen_app. pose proof (zlen_nonneg (concat b2)). lia.
Qed.

(** The chunk that holds byte [o]. *)
Lemma located_byte blocks pss frames o :
  packed cb dict key 0 blocks pss frames -> 0 <= o < zlen (concat blocks) ->
  exists pre d post p1 q1 p q2 p2 f1 frame f2 k,
    located (concat blocks) pss frames pre d post p1 q1 p q2 p2 f1 frame f2 /\ o = zlen pre + k /\ 0 <= k < zlen d.
Proof.
  intros Hpk Ho. destruct (packed_bytes _ _ _ _ Hpk) as (HB & _ & _).
  destruct (locate blocks o Ho) as (b1 & b & b2 & k & -> & Eo & Hk).
  destruct (packed_lengths _ _ _ _ _ _ _ Hpk) as [L1 _]. rewrite length_app in L1. cbn [length] in L1.
  destruct (lookup_lt_is_Some_2 pss (length b1)) as [ps Eps]; [lia|].
  pose proof (take_drop_middle pss (length b1) ps Eps) as E. symmetry in E.
  set (p1 := take (length b1) pss) in *. set (p2 := drop (S (length b1)) pss) in *.
  assert (Lp1 : length p1 = length b1) by (unfold p1; rewrite length_take; lia). clearbody p1 p2.
  pose proof Hpk as Hpk'. rewrite E in Hpk'.
  destruct (packed_block _ _ _ _ _ _ Hpk') as (b1' & datas & b2' & f1 & frame & f2 & Eb & _ & L3 & _ & Hps & _ & _ & Hp1 & _).
  apply app_inj_1 in Eb as [<- [= -> <-]]; [|lia].
  destruct (locate datas k Hk) as (d1 & d & d2 & j & -> & Ek & Hj).
  pose proof Hps as Hps'. apply Forall2_app_inv_l in Hps' as (q1 & qq & H1 & H2 & ->).
  apply Forall2_cons_inv_l in H2 as (p & q2 & Hd & H2 & ->).
  destruct (packed_bytes _ _ _ _ Hp1) as (B1 & _ & _). destruct (block_bytes_entries cb d1 q1 H1) as [B3 _].
  rewrite concat_entries_of in B1.
  destruct (located_chunk _ _ _ p1 q1 p q2 p2 Hpk E) as (pre & d' & post & f1' & frame' & f2' & HL).
  exists pre, d', post, p1, q1, p, q2, p2, f1', frame', f2', j. split; [done|].
  pose proof (lc_before HL) as Hb. rewrite block_bytes_map_app in Hb.
  pose proof (dc_orig _ _ _ (lc_decodes HL)) as Hs. pose proof (dc_orig _ _ _ Hd). lia.
Qed.

Lemma located_offset input pss frames pre d post p1 q1 p q2 p2 f1 frame f2 :
  located input pss frames pre d post p1 q1 p q2 p2 f1 frame f2 ->
  e_DeltaOffset (p_entry p) = zlen (concat (map pool_of p1)) + zlen (pool_of q1) /\
  (forall first rest, q1 ++ p :: q2 = first :: rest -> e_DeltaOffset (p_entry first) = zlen (concat (map pool_of p1))).
Proof.
  intros [_ _ _ _ _ _ Hlo _ _]. split; [by apply (laid_out_at _ q1 p q2)|]. intros first rest E. rewrite E in Hlo. apply Hlo.
Qed.

(** Chunks rebuild to one value only. *)
Lemma rebuilds_inj e residual d d' : rebuilds cb e residual d -> rebuilds cb e residual d' -> d = d'.
Proof. unfold rebuilds. destruct cb; [congruence|]. intros [_ ->] [_ ->]. done. Qed.

(** The entries of a file, around one of them. *)
Lemma entries_mid p1 q1 p q2 p2 :
  concat (entries_of (p1 ++ (q1 ++ p :: q2) :: p2)) =
    map p_entry (concat p1 ++ q1) ++ p_entry p :: map p_entry (q2 ++ concat p2).
Proof.
  rewrite concat_entries_of, concat_mid, !map_app. cbn [map]. by rewrite <-!app_assoc.
Qed.

Lemma entries_blocks p1 ps p2 : entries_of (p1 ++ ps :: p2) = entries_of p1 ++ map p_entry ps :: entries_of p2.
Proof. unfold entries_of. by rewrite map_app. Qed.

End layout.

(** ** Blocks of an archive *)

Section blocks.
Context {Z0 : Zstd} {C0 : Cipher} {F0 : Files}.
Variables (cb : option Reader) (dict passphrase : bytes) (h : Header) (input : bytes)
  (pss : list (list processedChunk)) (frames : list bytes) (metadata : bytes).
Hypothesis Har : archive cb dict passphrase h input pss frames metadata.

Abbreviation entries := (concat (entries_of pss)).

Lemma zlen_map_entry (l : list processedChunk) : zlen (map p_entry l) = zlen l.
Proof. unfold zlen. by rewrite length_map. Qed.

Lemma wf_blocks_in (bs1 : list (list ChunkEntry)) b bs2 : wf_blocks (bs1 ++ b :: bs2) -> b <> [].
Proof.
  revert b bs2; induction bs1 as [|c bs1 IH]; intros b bs2 H; [by inversion H|]. cbn [app] in H.
  inversion H as [|? Hc _ _ E|? ? ? ? ? Hbs E]; [by destruct bs1|by apply (IH b bs2)].
Qed.

(** The chunks of a block, from the tables of the reader: where they start, where their pool starts, and
    the residual of each of them. *)
Lemma archive_block p1 ps p2 :
  pss = p1 ++ ps :: p2 ->
  let first := zlen (concat p1) in
  let base := zlen (concat (map pool_of p1)) in
  (exists e, index entries first = Ok e /\ e_DeltaOffset e = base) /\
  sub first (first + zlen ps) entries = map p_entry ps /\ laid_out base ps /\
  Forall (fun p => e_DeltaSize (p_entry p) = zlen (p_res p)) ps /\ base + zlen (pool_of ps) < 2 ^ 48 /\ ps <> [].
Proof.
  intros E first base. pose proof (ar_describes _ _ _ _ _ _ _ _ Har) as Hds. pose proof (ar_packed _ _ _ _ _ _ _ _ Har) as Hpk.
  destruct (archive_blocks _ _ _ _ _ _ _ _ Har) as (Hwf & _ & _ & _ & _ & _ & _ & _ & Hcat).
  assert (Hin : zlen input < 2 ^ 48) by (destruct Hds; lia).
  destruct (packed_bytes _ _ _ _ _ _ _ Hpk) as (_ & Hpool & _). rewrite Hcat in Hpool.
  rewrite E in Hwf, Hpk, Hpool |- *. rewrite map_app in Hpool. cbn [map] in Hpool. rewrite concat_mid, !zlen_app in Hpool.
  pose proof (zlen_nonneg (concat (map pool_of p2))).
  destruct (packed_block _ _ _ _ _ _ _ _ _ Hpk) as (b1 & datas & b2 & f1 & frame & f2 & _ & _ & _ & _ & Hps & Hlo & _).
  rewrite Z.add_0_l in Hlo. fold base in Hlo. rewrite entries_blocks in Hwf.
  assert (Hne : ps <> []) by (apply wf_blocks_in in Hwf; by intros ->).
  assert (Hcons : concat (entries_of (p1 ++ ps :: p2)) = map p_entry (concat p1) ++ map p_entry ps ++ map p_entry (concat p2)).
  { by rewrite concat_entries_of, concat_mid, !map_app. }
  rewrite Hcons. split; [|split; [|split; [done|split; [|split; [lia|done]]]]].
  - destruct ps as [|p ps]; [done|]. exists (p_entry p). split; [|apply Hlo]. cbn [map app]. apply index_app_mid. apply zlen_map_entry.
  - apply sub_app_mid; [apply zlen_map_entry|rewrite zlen_map_entry; lia].
  - clear -Hps. induction Hps as [|d p datas ps Hd _ IH]; [constructor|]. constructor; [apply Hd|done].
Qed.

End blocks.

(** The residual of a chunk, cut out of the pool of its block. *)
Lemma residual_bounds base q1 p q2 :
  e_DeltaOffset (p_entry p) = base + zlen (pool_of q1) -> e_DeltaSize (p_entry p) = zlen (p_res p) ->
  zlen (pool_of (q1 ++ p :: q2)) < 2 ^ 48 ->
  let from := u64 (e_DeltaOffset (p_entry p) - base) in
  let to := u64 (from + e_DeltaSize (p_entry p)) in
  (to >? zlen (pool_of (q1 ++ p :: q2))) = false /\ slice (pool_of (q1 ++ p :: q2)) from to = Ok (p_res p).
Proof.
  intros Ho Hs Hb from to. unfold to, from. rewrite Ho, Hs, Z.add_simpl_l. rewrite zlen_pool_mid in *.
  pose proof (zlen_nonneg (pool_of q1)). pose proof (zlen_nonneg (p_res p)). pose proof (zlen_nonneg (pool_of q2)).
  rewrite (u64_small (zlen (pool_of q1))), u64_small by (unfold is_u64; lia).
  split; [rewrite Z.gtb_ltb; apply Z.ltb_ge; lia|]. rewrite slice_ok by (rewrite ?zlen_pool_mid; lia).
  f_equal. rewrite pool_of_app. unfold pool_of at 3. cbn [map concat]. apply sub_app_mid; [done|lia].
Qed.
