(* ===== verification/VfsCache.v ===== *)
(** [internal/vfs/cache.go]: the byte-bounded LRU cache of the virtual file system.

    The Go code keeps a map from keys to the elements of a doubly linked list.  Both refer to
    the same elements, so the model has a store of elements and the map and the list hold
    addresses of it.  [lru] is the specification: a list of keys and data, most recent first. *)

From S2P Require Import Prelude.
#[local] Set Warnings "-clear-no-such-hyp".

(** Keys are [uint32] block numbers or [int64] chunk numbers, told apart by their type. *)
Inductive cache_key :=
  | BlockKey (id : Z)
  | ChunkKey (id : Z).

#[export] Instance cache_key_eq_dec : EqDecision cache_key.
Proof. solve_decision. Defined.

#[export] Instance cache_key_countable : Countable cache_key.
Proof.
  refine (inj_countable'
    (fun k => match k with BlockKey i => inl i | ChunkKey i => inr i end)
    (fun s => match s with inl i => BlockKey i | inr i => ChunkKey i end) _).
  by intros [].
Defined.

Record cacheItem := {
  ci_key : cache_key;
  ci_data : bytes;
  ci_bytes : Z;
}.

Record MemoryCache := {
  mc_maxBytes : Z;
  mc_totalBytes : Z;
  mc_items : gmap cache_key nat;
  mc_evictList : list nat;
  mc_elements : gmap nat cacheItem;
}.

Definition NewMemoryCache (maxMB : Z) : MemoryCache :=
  let maxMB := if maxMB <=? 0 then 64 else maxMB in
  {| mc_maxBytes := i64 (i64 (maxMB * 1024) * 1024); mc_totalBytes := 0; mc_items := ∅; mc_evictList := [];
     mc_elements := ∅ |}.

(** [ent.Value.( *cacheItem)]. *)
Definition element (c : MemoryCache) (ent : nat) : res cacheItem :=
  match mc_elements c !! ent with Some it => Ok it | None => Panic NilDereference end.

(** [container/list]: [MoveToFront], [Remove]. *)
Definition list_remove_ent (ent : nat) (l : list nat) : list nat := filter (fun e => e <> ent) l.
Definition MoveToFront (ent : nat) (l : list nat) : list nat := ent :: list_remove_ent ent l.

Definition Get (key : cache_key) (c : MemoryCache) : res (option bytes * MemoryCache) :=
  match mc_items c !! key with
  | Some ent =>
      it ← element c ent;
      Ok (Some (ci_data it),
          {| mc_maxBytes := mc_maxBytes c; mc_totalBytes := mc_totalBytes c; mc_items := mc_items c;
             mc_evictList := MoveToFront ent (mc_evictList c); mc_elements := mc_elements c |})
  | None => Ok (None, c)
  end.

Definition removeOldest (c : MemoryCache) : res MemoryCache :=
  match last (mc_evictList c) with
  | Some ent =>
      it ← element c ent;
      Ok {| mc_maxBytes := mc_maxBytes c; mc_totalBytes := i64 (mc_totalBytes c - ci_bytes it);
            mc_items := delete (ci_key it) (mc_items c); mc_evictList := list_remove_ent ent (mc_evictList c);
            mc_elements := mc_elements c |}
  | None => Ok c
  end.

(** The eviction loop; every turn shortens the list. *)
Fixpoint evict (fuel : nat) (c : MemoryCache) : res MemoryCache :=
  if (mc_totalBytes c >? mc_maxBytes c) && (0 <? zlen (mc_evictList c)) then
    match fuel with
    | S fuel => c ← removeOldest c; evict fuel c
    | O => Ok c
    end
  else Ok c.

Definition Put (key : cache_key) (data : bytes) (c : MemoryCache) : res MemoryCache :=
  let size := zlen data in
  c ← match mc_items c !! key with
      | Some ent =>
          it ← element c ent;
          Ok {| mc_maxBytes := mc_maxBytes c;
                mc_totalBytes := i64 (mc_totalBytes c + i64 (size - ci_bytes it));
                mc_items := mc_items c; mc_evictList := MoveToFront ent (mc_evictList c);
                mc_elements := <[ent := {| ci_key := ci_key it; ci_data := data; ci_bytes := size |}]> (mc_elements c) |}
      | None =>
          let ent := fresh (dom (mc_elements c)) in
          Ok {| mc_maxBytes := mc_maxBytes c; mc_totalBytes := i64 (mc_totalBytes c + size);
                mc_items := <[key := ent]> (mc_items c); mc_evictList := ent :: mc_evictList c;
                mc_elements := <[ent := {| ci_key := key; ci_data := data; ci_bytes := size |}]> (mc_elements c) |}
      end;
  evict (length (mc_evictList c)) c.

(** ** The specification *)

Abbreviation lru := (list (cache_key * bytes)).

Fixpoint assoc (k : cache_key) (l : lru) : option bytes :=
  match l with
  | [] => None
  | (k', d) :: l => if decide (k = k') then Some d else assoc k l
  end.

Definition without (k : cache_key) (l : lru) : lru := filter (fun kv => kv.1 <> k) l.

(** A hit becomes the most recent entry. *)
Definition touch (k : cache_key) (l : lru) : lru :=
  match assoc k l with Some d => (k, d) :: without k l | None => l end.

Definition total (l : lru) : Z := foldr (fun kv n => zlen kv.2 + n) 0 l.

(** The most recent entries that fit: the longest prefix of at most [room] bytes. *)
Fixpoint fit (room : Z) (l : lru) : lru :=
  match l with
  | [] => []
  | (k, d) :: l => if zlen d <=? room then (k, d) :: fit (room - zlen d) l else []
  end.

Definition store (room : Z) (k : cache_key) (d : bytes) (l : lru) : lru := fit room ((k, d) :: without k l).

(** ** The representation *)

Definition holds (c : MemoryCache) (ent : nat) (kv : cache_key * bytes) : Prop :=
  mc_elements c !! ent = Some {| ci_key := kv.1; ci_data := kv.2; ci_bytes := zlen kv.2 |}.

(** The list of elements spells the specification, and the map indexes it. *)
Record rep (c : MemoryCache) (l : lru) : Prop := {
  rp_list : Forall2 (holds c) (mc_evictList c) l;
  rp_ents : NoDup (mc_evictList c);
  rp_keys : NoDup (map fst l);
  rp_items k ent : mc_items c !! k = Some ent <-> ent ∈ mc_evictList c /\ exists d, holds c ent (k, d);
  rp_total : mc_totalBytes c = total l;
  rp_max : 0 <= mc_maxBytes c < 2 ^ 62;
}.

Lemma total_nonneg l : 0 <= total l.
Proof. induction l as [|[k d] l IH]; [done|]. cbn. pose proof (zlen_nonneg d). unfold total in IH. lia. Qed.

Lemma total_app l l' : total (l ++ l') = total l + total l'.
Proof. induction l as [|[k d] l IH]; [done|]. cbn. unfold total in *. rewrite IH. lia. Qed.

Lemma total_without k l : total (without k l) <= total l.
Proof.
  induction l as [|[k' d] l IH]; [done|]. unfold without in *. rewrite filter_cons. pose proof (zlen_nonneg d).
  destruct (decide _); cbn; unfold total in *; lia.
Qed.

Lemma without_fresh k l : k ∉ map fst l -> without k l = l.
Proof.
  intros H. induction l as [|[k' d] l IH]; [done|]. unfold without in *. cbn [map fst] in H.
  apply not_elem_of_cons in H as [H1 H2]. rewrite filter_cons_True by (cbn; congruence). by rewrite IH.
Qed.

Lemma assoc_split k l d :
  NoDup (map fst l) -> assoc k l = Some d ->
  exists l1 l2, l = l1 ++ (k, d) :: l2 /\ without k l = l1 ++ l2.
Proof.
  induction l as [|[k' d'] l IH]; [done|]. cbn [map fst assoc]. intros [Hk Hnd]%NoDup_cons. destruct (decide (k = k')) as [<-|Hne].
  - intros [= ->]. exists [], l. split; [done|]. unfold without. rewrite filter_cons_False by (cbn; tauto).
    by apply without_fresh.
  - intros H. destruct (IH Hnd H) as (l1 & l2 & -> & E). exists ((k', d') :: l1), l2. split; [done|].
    unfold without in *. rewrite filter_cons_True by (cbn; congruence). by rewrite E.
Qed.

Lemma assoc_none k l : assoc k l = None <-> k ∉ map fst l.
Proof.
  induction l as [|[k' d] l IH]; [split; [set_solver|done]|]. cbn [assoc map fst]. rewrite not_elem_of_cons.
  destruct (decide (k = k')); [split; [done|tauto]|]. rewrite IH. tauto.
Qed.

Lemma assoc_elem k l d : assoc k l = Some d -> (k, d) ∈ l.
Proof.
  induction l as [|[k' d'] l IH]; [done|]. cbn [assoc]. destruct (decide (k = k')) as [<-|].
  - intros [= ->]. left.
  - intros H. right. by apply IH.
Qed.

(** ** Eviction *)

Lemma fit_all room l : total l <= room -> fit room l = l.
Proof.
  revert room; induction l as [|[k d] l IH]; intros room Hr; [done|]. cbn in *. pose proof (total_nonneg l).
  unfold total in *. rewrite (proj2 (Z.leb_le _ _)) by lia. by rewrite IH by lia.
Qed.

Lemma fit_snoc room l kv : room < total (l ++ [kv]) -> fit room (l ++ [kv]) = fit room l.
Proof.
  revert room; induction l as [|[k d] l IH]; intros room Hr; destruct kv as [k' d']; cbn in *.
  - by rewrite (proj2 (Z.leb_gt _ _)) by lia.
  - destruct (Z.leb_spec (zlen d) room); [|done]. rewrite IH; [done|]. unfold total in *. lia.
Qed.

Lemma fit_prefix room l : exists l', l = fit room l ++ l'.
Proof.
  revert room; induction l as [|[k d] l IH]; intros room; [by exists []|]. cbn.
  destruct (_ <=? _); [|by exists ((k, d) :: l)]. destruct (IH (room - zlen d)) as [l' E]. exists l'. cbn. by rewrite <-E.
Qed.

Lemma fit_total room l : 0 <= room -> total (fit room l) <= room.
Proof.
  revert room; induction l as [|[k d] l IH]; intros room Hr; [done|]. cbn. destruct (Z.leb_spec (zlen d) room); [|done].
  specialize (IH (room - zlen d) ltac:(lia)). cbn. unfold total in IH. lia.
Qed.

Lemma list_remove_ent_mid e1 e e2 :
  NoDup (e1 ++ e :: e2) -> list_remove_ent e (e1 ++ e :: e2) = e1 ++ e2.
Proof.
  intros (H1 & H2 & [H3 _]%NoDup_cons)%NoDup_app. unfold list_remove_ent. rewrite filter_app, filter_cons_False by tauto.
  assert (Hf : forall l : list nat, e ∉ l -> filter (fun x => x <> e) l = l).
  { induction l as [|x l IH]; [done|]. intros [? ?]%not_elem_of_cons. rewrite filter_cons_True by congruence. by rewrite IH. }
  rewrite !Hf; [done|done|]. intros H. apply (H2 e H). left.
Qed.

(** Dropping the oldest element drops the last entry. *)
Lemma removeOldest_rep c l kv :
  rep c (l ++ [kv]) -> total (l ++ [kv]) < 2 ^ 63 ->
  exists c', removeOldest c = Ok c' /\ rep c' l /\ mc_maxBytes c' = mc_maxBytes c /\
    length (mc_evictList c) = S (length (mc_evictList c')).
Proof.
  intros [Hl He Hk Hi Ht Hm] Hb. apply Forall2_app_inv_r in Hl as (ents & tl & Hl & Htl & Hev).
  apply Forall2_cons_inv_r in Htl as (ent & tl' & Hent & Hnil & ->). apply Forall2_nil_inv_r in Hnil as ->.
  unfold removeOldest. rewrite Hev, last_snoc. unfold element. rewrite Hent. cbn [mbind res_bind]. destruct kv as [k d].
  eexists. split; [done|]. rewrite Hev in He. rewrite list_remove_ent_mid, app_nil_r by done. cbn [mc_maxBytes mc_evictList].
  split; [|split; [done|rewrite length_app; cbn; lia]].
  rewrite total_app in Hb, Ht. unfold total at 2 in Hb. unfold total at 2 in Ht. cbn in Hb, Ht.
  rewrite map_app in Hk. apply NoDup_app in He as (He1 & He2 & _). apply NoDup_app in Hk as (Hk1 & Hk2 & _).
  pose proof (total_nonneg l). pose proof (zlen_nonneg d).
  constructor; cbn [mc_evictList mc_items mc_elements mc_totalBytes mc_maxBytes ci_key ci_bytes fst snd]; try done.
  - intros k' ent'. destruct (decide (k' = k)) as [->|Hne].
    + rewrite lookup_delete_eq. split; [done|]. intros (Hin & d' & Hh). exfalso.
      apply list_elem_of_lookup in Hin as [i Hin]. destruct (Forall2_lookup_l _ _ _ _ _ Hl Hin) as ([k'' d''] & Hl' & Hh').
      unfold holds in *. cbn [mc_elements] in Hh. rewrite Hh in Hh'. injection Hh' as E _. apply (Hk2 k); [|set_solver].
      apply list_elem_of_lookup. exists i. by rewrite list_lookup_fmap, Hl', E.
    + rewrite lookup_delete_ne, Hi, Hev by done. rewrite elem_of_app, list_elem_of_singleton. unfold holds. cbn [mc_elements].
      split; [|tauto]. intros ([Hin| ->] & d' & Hh); [by split; [|exists d']|]. exfalso. unfold holds in Hent.
      rewrite Hh in Hent. cbn in Hent. congruence.
  - rewrite i64_small by (unfold is_i64; lia). lia.
Qed.

Lemma evict_rep c l :
  rep c l -> total l < 2 ^ 63 ->
  exists c', evict (length (mc_evictList c)) c = Ok c' /\ rep c' (fit (mc_maxBytes c) l) /\ mc_maxBytes c' = mc_maxBytes c.
Proof.
  revert c; induction l as [|kv l IH] using rev_ind; intros c Hr Hb; pose proof Hr as [Hl _ _ _ Ht Hm].
  { apply Forall2_nil_inv_r in Hl. rewrite Hl. cbn [length evict]. rewrite Hl, andb_false_r. by exists c. }
  pose proof (Forall2_length _ _ _ Hl) as Hlen. rewrite length_app, Nat.add_1_r in Hlen. rewrite Hlen. cbn [evict].
  rewrite Ht. unfold zlen. rewrite Hlen. change (0 <? Z.of_nat (S (length l))) with true. rewrite andb_true_r.
  destruct (Z.gtb_spec (total (l ++ [kv])) (mc_maxBytes c)).
  - destruct (removeOldest_rep c l kv Hr Hb) as (c1 & -> & Hr1 & Hm1 & Hlen1). cbn [mbind res_bind].
    rewrite fit_snoc, <-Hm1 by lia. assert (length l = length (mc_evictList c1)) as -> by lia.
    rewrite total_app in Hb. pose proof (total_nonneg [kv]). apply IH; [done|lia].
  - rewrite fit_all by lia. by exists c.
Qed.

(** ** The operations *)

Lemma rep_lookup c l k :
  rep c l ->
  match assoc k l with
  | Some d => exists l1 l2 e1 ent e2, l = l1 ++ (k, d) :: l2 /\ without k l = l1 ++ l2 /\
      mc_evictList c = e1 ++ ent :: e2 /\ Forall2 (holds c) e1 l1 /\ holds c ent (k, d) /\ Forall2 (holds c) e2 l2 /\
      mc_items c !! k = Some ent /\ list_remove_ent ent (mc_evictList c) = e1 ++ e2
  | None => mc_items c !! k = None
  end.
Proof.
  intros [Hl He Hk Hi _ _]. destruct (assoc k l) as [d|] eqn:E.
  - destruct (assoc_split k l d Hk E) as (l1 & l2 & -> & Hw). apply Forall2_app_inv_r in Hl as (e1 & tl & H1 & Htl & Hev).
    apply Forall2_cons_inv_r in Htl as (ent & e2 & Hent & H2 & ->). exists l1, l2, e1, ent, e2. rewrite Hev in *.
    repeat (split; [done|]). split; [|by apply list_remove_ent_mid]. apply Hi. split; [set_solver|by exists d].
  - apply eq_None_not_Some. intros (ent & (Hin & d & Hh)%Hi). apply assoc_none in E. apply E.
    apply list_elem_of_lookup in Hin as [i Hin]. destruct (Forall2_lookup_l _ _ _ _ _ Hl Hin) as ([k' d'] & Hl' & Hh').
    unfold holds in *. rewrite Hh in Hh'. injection Hh' as -> _. apply list_elem_of_lookup. exists i.
    by rewrite list_lookup_fmap, Hl'.
Qed.

Lemma total_mid l1 k d l2 : total (l1 ++ (k, d) :: l2) = zlen d + total (l1 ++ l2).
Proof. rewrite !total_app. unfold total. cbn. lia. Qed.

Lemma NoDup_mid {A} (l1 : list A) x l2 : NoDup (l1 ++ x :: l2) -> NoDup (x :: l1 ++ l2).
Proof. intros H. by rewrite Permutation_middle. Qed.

(** A hit, with the data [d'] left in the element: [Get] keeps the data, [Put] replaces it. *)
Lemma rep_hit c c' l k d d' l1 l2 e1 ent e2 :
  rep c l -> l = l1 ++ (k, d) :: l2 -> mc_evictList c = e1 ++ ent :: e2 ->
  Forall2 (holds c) e1 l1 -> holds c ent (k, d) -> Forall2 (holds c) e2 l2 ->
  mc_maxBytes c' = mc_maxBytes c -> mc_items c' = mc_items c -> mc_evictList c' = ent :: e1 ++ e2 ->
  mc_elements c' = <[ent := {| ci_key := k; ci_data := d'; ci_bytes := zlen d' |}]> (mc_elements c) ->
  mc_totalBytes c' = zlen d' + total (l1 ++ l2) ->
  rep c' ((k, d') :: l1 ++ l2).
Proof.
  intros [Hl He Hk Hi Ht Hm] -> Hev H1 Hent H2 Hmax' Hi' Hev' Hel' Ht'. rewrite Hev in He.
  assert (Hnin : ent ∉ e1 ++ e2) by (apply NoDup_mid, NoDup_cons in He; tauto).
  assert (Hoth : forall e kv, e <> ent -> holds c e kv <-> holds c' e kv).
  { intros e kv Hne. unfold holds. by rewrite Hel', lookup_insert_ne by done. }
  assert (Hself : holds c' ent (k, d')) by (unfold holds; by rewrite Hel', lookup_insert_eq).
  assert (Hmove : forall es kvs, Forall2 (holds c) es kvs -> ent ∉ es -> Forall2 (holds c') es kvs).
  { induction 1 as [|e kv es kvs Hh _ IH]; [constructor|]. intros [? ?]%not_elem_of_cons. constructor; [|by apply IH].
    by apply Hoth. }
  apply not_elem_of_app in Hnin as [Hn1 Hn2]. constructor.
  - rewrite Hev'. constructor; [done|]. apply Forall2_app; by apply Hmove.
  - rewrite Hev'. by apply NoDup_mid.
  - rewrite map_app in Hk. cbn [map fst] in Hk |- *. rewrite map_app. by apply NoDup_mid.
  - intros k' e. rewrite Hi', Hi, Hev, Hev'.
    assert (Hin : e ∈ e1 ++ ent :: e2 <-> e ∈ ent :: e1 ++ e2) by (by rewrite Permutation_middle). rewrite Hin.
    apply and_iff_compat_l. destruct (decide (e = ent)) as [->|Hne].
    + split; intros [x Hx].
      * exists d'. unfold holds in *. rewrite Hent in Hx. injection Hx as -> _ _. done.
      * exists d. unfold holds in *. rewrite Hself in Hx. injection Hx as -> _ _. done.
    + split; intros [x Hx]; exists x; by apply (Hoth e (k', x) Hne).
  - rewrite Ht'. done.
  - by rewrite Hmax'.
Qed.

Lemma Get_rep c l k :
  rep c l -> exists c', Get k c = Ok (assoc k l, c') /\ rep c' (touch k l) /\ mc_maxBytes c' = mc_maxBytes c.
Proof.
  intros Hr. pose proof (rep_lookup c l k Hr) as Hlk. unfold Get, touch. destruct (assoc k l) as [d|] eqn:E; rewrite ?Hlk.
  - destruct Hlk as (l1 & l2 & e1 & ent & e2 & El & Ew & Hev & H1 & Hent & H2 & -> & Hrem).
    unfold element. rewrite Hent. cbn [mbind res_bind ci_data snd]. eexists. split; [done|]. split; [|done].
    rewrite Ew. eapply (rep_hit c _ l k d d l1 l2 e1 ent e2); try done.
    + unfold MoveToFront. cbn [mc_evictList]. by rewrite Hrem.
    + cbn [mc_elements]. by rewrite insert_id.
    + cbn [mc_totalBytes]. rewrite (rp_total _ _ Hr), El. apply total_mid.
  - by exists c.
Qed.

Lemma Put_rep c l k d :
  rep c l -> total l <= mc_maxBytes c -> zlen d < 2 ^ 62 ->
  exists c', Put k d c = Ok c' /\ rep c' (store (mc_maxBytes c) k d l) /\ mc_maxBytes c' = mc_maxBytes c.
Proof.
  intros Hr Hfit Hd. pose proof (zlen_nonneg d). pose proof Hr as [Hl He Hk Hi Ht Hm]. pose proof (total_nonneg l).
  enough (exists c1, (match mc_items c !! k with
      | Some ent => it ← element c ent; Ok {| mc_maxBytes := mc_maxBytes c;
                mc_totalBytes := i64 (mc_totalBytes c + i64 (zlen d - ci_bytes it));
                mc_items := mc_items c; mc_evictList := MoveToFront ent (mc_evictList c);
                mc_elements := <[ent := {| ci_key := ci_key it; ci_data := d; ci_bytes := zlen d |}]> (mc_elements c) |}
      | None => Ok {| mc_maxBytes := mc_maxBytes c; mc_totalBytes := i64 (mc_totalBytes c + zlen d);
                mc_items := <[k := fresh (dom (mc_elements c))]> (mc_items c);
                mc_evictList := fresh (dom (mc_elements c)) :: mc_evictList c;
                mc_elements := <[fresh (dom (mc_elements c)) := {| ci_key := k; ci_data := d; ci_bytes := zlen d |}]> (mc_elements c) |}
      end) = Ok c1 /\ rep c1 ((k, d) :: without k l) /\ mc_maxBytes c1 = mc_maxBytes c) as (c1 & E & Hr1 & Hm1).
  { unfold Put. cbv zeta. rewrite E. cbn [mbind res_bind]. unfold store. rewrite <-Hm1.
    apply evict_rep; [done|]. pose proof (total_without k l). unfold total in *. cbn. lia. }
  pose proof (rep_lookup c l k Hr) as Hlk. destruct (assoc k l) as [d0|] eqn:E.
  - destruct Hlk as (l1 & l2 & e1 & ent & e2 & El & Ew & Hev & H1 & Hent & H2 & -> & Hrem).
    unfold element. rewrite Hent. cbn [mbind res_bind ci_key ci_bytes fst snd]. eexists. split; [done|]. split; [|done].
    rewrite Ew. rewrite El, total_mid in Ht. pose proof (zlen_nonneg d0). pose proof (total_nonneg (l1 ++ l2)).
    rewrite El, total_mid in Hfit. eapply (rep_hit c _ l k d0 d l1 l2 e1 ent e2); try done.
    + unfold MoveToFront. cbn [mc_evictList]. by rewrite Hrem.
    + cbn [mc_totalBytes]. rewrite (i64_small (zlen d - _)) by (unfold is_i64; lia). rewrite i64_small by (unfold is_i64; lia). lia.
  - rewrite Hlk. eexists. split; [done|]. split; [|done]. apply assoc_none in E. rewrite without_fresh by done.
    set (ent := fresh (dom (mc_elements c))). assert (Hf : mc_elements c !! ent = None) by (apply not_elem_of_dom, is_fresh).
    assert (Hnin : forall e kv, holds c e kv -> e <> ent) by (intros e kv Hh ->; unfold holds in Hh; congruence).
    assert (Hne : ent ∉ mc_evictList c).
    { intros [i Hin]%list_elem_of_lookup. destruct (Forall2_lookup_l _ _ _ _ _ Hl Hin) as (kv & _ & Hh). by apply (Hnin _ _ Hh). }
    constructor; cbn [mc_evictList mc_items mc_elements mc_totalBytes mc_maxBytes]; try done.
    + constructor; [unfold holds; cbn; by rewrite lookup_insert_eq|]. eapply Forall2_impl; [exact Hl|].
      intros e kv Hh. unfold holds. cbn. rewrite lookup_insert_ne; [done|]. by apply not_eq_sym, (Hnin e kv).
    + by constructor.
    + cbn [map fst]. by constructor.
    + intros k' e. unfold holds. cbn [mc_elements fst snd]. destruct (decide (k' = k)) as [->|Hkne].
      * rewrite lookup_insert_eq, elem_of_cons. split.
        { intros [= <-]. split; [by left|]. exists d. by rewrite lookup_insert_eq. }
        intros ([-> |Hin] & d' & Hh); [done|]. exfalso. rewrite lookup_insert_ne in Hh by (by intros <-).
        assert (Hsome : mc_items c !! k = Some e) by (apply Hi; split; [done|by exists d']). by rewrite Hlk in Hsome.
      * rewrite lookup_insert_ne, Hi, elem_of_cons by done. destruct (decide (e = ent)) as [->|Hne'].
        { rewrite lookup_insert_eq. split; [tauto|]. intros (_ & d' & [= ? ?]). congruence. }
        rewrite lookup_insert_ne by done. unfold holds. cbn. tauto.
    + rewrite i64_small by (unfold is_i64; lia). unfold total in *. cbn. lia.
Qed.

Lemma NewMemoryCache_rep maxMB : maxMB < 2 ^ 42 -> rep (NewMemoryCache maxMB) [] /\ 0 < mc_maxBytes (NewMemoryCache maxMB).
Proof.
  intros Hm. unfold NewMemoryCache. set (mb := if maxMB <=? 0 then 64 else maxMB).
  assert (Hmb : 0 < mb < 2 ^ 42) by (unfold mb; destruct (Z.leb_spec maxMB 0); lia).
  rewrite (i64_small (mb * 1024)), i64_small by (unfold is_i64; lia).
  split; [|cbn; lia]. constructor; cbn; try constructor; try lia; [done|].
  intros [H _]. by apply not_elem_of_nil in H.
Qed.

(** ** Caches of valid data

    What a client of the cache relies on: if every entry it puts is valid, then every entry it
    gets is valid. *)

Section valid.
Variable good : cache_key * bytes -> Prop.

Definition cache_ok (c : MemoryCache) : Prop :=
  exists l, rep c l /\ total l <= mc_maxBytes c /\ Forall good l.

Lemma Forall_without k l : Forall good l -> Forall good (without k l).
Proof.
  rewrite !Forall_forall. intros H kv Hin. apply H. unfold without in Hin. by apply list_elem_of_filter in Hin as [_ ?].
Qed.

Lemma total_touch k l : NoDup (map fst l) -> total (touch k l) = total l.
Proof.
  intros Hk. unfold touch. destruct (assoc k l) as [d|] eqn:E; [|done].
  destruct (assoc_split k l d Hk E) as (l1 & l2 & -> & ->). by rewrite total_mid.
Qed.

Lemma Get_ok k c :
  cache_ok c -> exists a c', Get k c = Ok (a, c') /\ cache_ok c' /\ (forall d, a = Some d -> good (k, d)).
Proof.
  intros (l & Hr & Ht & Hg). destruct (Get_rep c l k Hr) as (c' & -> & Hr' & Hm). exists (assoc k l), c'. split; [done|].
  assert (Ha : forall d, assoc k l = Some d -> good (k, d)).
  { intros d E%assoc_elem. by apply (proj1 (Forall_forall _ _) Hg). }
  split; [|done]. exists (touch k l). split; [done|]. split; [rewrite total_touch, Hm; [done|apply Hr]|].
  unfold touch. destruct (assoc k l); [|done]. constructor; [by apply Ha|by apply Forall_without].
Qed.

Lemma Put_ok k d c :
  cache_ok c -> good (k, d) -> zlen d < 2 ^ 62 -> exists c', Put k d c = Ok c' /\ cache_ok c'.
Proof.
  intros (l & Hr & Ht & Hg) Hd Hlen. destruct (Put_rep c l k d Hr Ht Hlen) as (c' & -> & Hr' & Hm).
  exists c'. split; [done|]. eexists. split; [done|]. rewrite Hm. split; [apply fit_total, Hr|].
  assert (Hall : Forall good ((k, d) :: without k l)) by (constructor; [done|by apply Forall_without]).
  unfold store. destruct (fit_prefix (mc_maxBytes c) ((k, d) :: without k l)) as [l' E]. rewrite E in Hall.
  by apply Forall_app in Hall as [? _].
Qed.

Lemma NewMemoryCache_ok maxMB : maxMB < 2 ^ 42 -> cache_ok (NewMemoryCache maxMB).
Proof.
  intros Hm. destruct (NewMemoryCache_rep maxMB Hm) as [Hr Hp]. exists []. split; [done|]. split; [|done].
  change (total []) with 0. lia.
Qed.
End valid.

(** ** Refinement *)

Inductive cache_op :=
  | OpGet (k : cache_key)
  | OpPut (k : cache_key) (d : bytes).

(** What a client sees of a run: the answers to its [Get]s. *)
Fixpoint run_cache (ops : list cache_op) (c : MemoryCache) : res (list (option bytes) * MemoryCache) :=
  match ops with
  | [] => Ok ([], c)
  | OpGet k :: ops =>
      '(a, c) ← Get k c;
      '(rest, c) ← run_cache ops c;
      Ok (a :: rest, c)
  | OpPut k d :: ops => c ← Put k d c; run_cache ops c
  end.

Fixpoint run_lru (room : Z) (ops : list cache_op) (l : lru) : list (option bytes) * lru :=
  match ops with
  | [] => ([], l)
  | OpGet k :: ops => let '(rest, l') := run_lru room ops (touch k l) in (assoc k l :: rest, l')
  | OpPut k d :: ops => run_lru room ops (store room k d l)
  end.

Lemma run_cache_rep ops c l :
  rep c l -> total l <= mc_maxBytes c -> Forall (fun op => match op with OpPut _ d => zlen d < 2 ^ 62 | _ => True end) ops ->
  let '(answers, l') := run_lru (mc_maxBytes c) ops l in
  exists c', run_cache ops c = Ok (answers, c') /\ rep c' l' /\ total l' <= mc_maxBytes c.
Proof.
  intros Hr Ht Hops. revert c l Hr Ht; induction Hops as [|op ops Hop _ IH]; intros c l Hr Ht; [by exists c|].
  destruct op as [k|k d]; cbn [run_lru run_cache].
  - destruct (Get_rep c l k Hr) as (c1 & -> & Hr1 & Hm1). cbn [mbind res_bind].
    specialize (IH c1 (touch k l) Hr1). rewrite Hm1, total_touch in IH by apply Hr. specialize (IH Ht).
    destruct (run_lru _ ops (touch k l)) as [answers l']. destruct IH as (c' & -> & ? & ?). by exists c'.
  - destruct (Put_rep c l k d Hr Ht Hop) as (c1 & -> & Hr1 & Hm1). cbn [mbind res_bind].
    specialize (IH c1 _ Hr1). rewrite Hm1 in IH. apply IH. unfold store. apply fit_total, Hr.
Qed.

(** [C31] The cache is a byte-bounded LRU. For every sequence of reads and writes, the linked list
    and the map give the answers of the specification, in which a hit becomes the most recent
    entry and a write keeps the longest prefix of the most recent entries that fits in the
    budget; no dangling element is ever reached, the byte counter is the number of bytes held,
    and it never exceeds the budget. *)
Theorem MemoryCache_lru maxMB ops :
  maxMB < 2 ^ 42 -> Forall (fun op => match op with OpPut _ d => zlen d < 2 ^ 62 | _ => True end) ops ->
  let c := NewMemoryCache maxMB in
  let '(answers, l) := run_lru (mc_maxBytes c) ops [] in
  exists c', run_cache ops c = Ok (answers, c') /\
    mc_totalBytes c' = total l /\ total l <= mc_maxBytes c /\ (mc_maxBytes c = (if maxMB <=? 0 then 64 else maxMB) * 2 ^ 20) /\
    (forall k, is_Some (mc_items c' !! k) <-> is_Some (assoc k l)).
Proof.
  intros Hm Hops. destruct (NewMemoryCache_rep maxMB Hm) as [Hr Hpos]. cbv zeta.
  pose proof (run_cache_rep ops _ [] Hr ltac:(change (total []) with 0; lia) Hops) as H. destruct (run_lru _ ops []) as [answers l].
  destruct H as (c' & Hrun & Hr' & Ht). exists c'. split; [done|]. split; [apply Hr'|]. split; [done|]. split.
  - unfold NewMemoryCache. cbn [mc_maxBytes]. destruct (Z.leb_spec maxMB 0); [done|].
    rewrite (i64_small (maxMB * 1024)), i64_small by (unfold is_i64; lia). lia.
  - intros k. pose proof (rep_lookup c' l k Hr') as Hlk. destruct (assoc k l).
    + destruct Hlk as (? & ? & ? & ent & ? & ? & ? & ? & ? & ? & ? & -> & _). done.
    + by rewrite Hlk.
Qed.

Lemma MemoryCache_lru_witness :
  let ops := [OpPut (BlockKey 1) [1; 2]; OpPut (ChunkKey 1) [3]; OpGet (BlockKey 1); OpGet (ChunkKey 2)] in
  exists c, run_cache ops (NewMemoryCache 1) = Ok ([Some [1; 2]; None], c) /\ mc_totalBytes c = 3.
Proof.
  intros ops. destruct (MemoryCache_lru 1 ops) as (c & H1 & H2 & _).
  - reflexivity.
  - repeat constructor.
  - exists c. split; [exact H1|exact H2].
Defined.
