(* ===== verification/VfsReader.v ===== *)
(** [internal/vfs/reader.go]: random access to a packed file, as the mounted file system reads it.

    The file is behind [io.ReaderAt], a local file or an HTTP range reader: the class [ReaderAt] is
    that interface, [ReaderAtLaws] what a reader of a given file promises. *)

From S2P Require Import Prelude Binary Sha256 Externals Crypto Format FormatIO Delta Codebook.
From S2P Require Import Fractal Unpack VfsCache.
Import codebook Format.

(** ** [io.ReaderAt] *)

(** [f.ReadAt(p, off)] with [len(p) = n]: the bytes read, the error, and the reader's next state. *)
Class ReaderAt (S : Type) := read_at : S -> Z -> Z -> res ((bytes * option string) * S).

(** A range inside the file is read in full, without error or with [io.EOF]. *)
Class ReaderAtLaws {S} (R : ReaderAt S) (file : bytes) (ok : S -> Prop) : Prop :=
  read_at_range s off n : ok s -> 0 <= off -> 0 <= n -> off + n <= zlen file ->
    exists err s', read_at s off n = Ok ((sub off (off + n) file, err), s') /\ (err = None \/ err = Some "EOF") /\ ok s'.

(** [os.File]. *)
#[export] Instance os_File : ReaderAt bytes := fun file off n =>
  if off <? 0 then Ok (([], Some "negative offset"), file)
  else
    let data := sub off (off + n) file in
    Ok ((data, if zlen data <? n then Some "EOF" else None), file).

#[export] Instance os_File_laws file : ReaderAtLaws os_File file (fun f => f = file).
Proof.
  intros f off n -> Ho Hn Hl. unfold read_at, os_File. rewrite (proj2 (Z.ltb_ge _ _)) by lia.
  do 2 eexists. split; [done|]. split; [|done]. rewrite zlen_sub by lia.
  rewrite (proj2 (Z.ltb_ge _ _)) by lia. by left.
Qed.

(** ** [sort.Search] *)

Fixpoint search_loop (fuel : nat) (f : Z -> bool) (i j : Z) : Z :=
  if i <? j then
    match fuel with
    | S fuel =>
        let h := (i + j) / 2 in
        if negb (f h) then search_loop fuel f (h + 1) j else search_loop fuel f i h
    | O => i
    end
  else i.

Definition Search (n : Z) (f : Z -> bool) : Z := search_loop (Z.to_nat n) f 0 n.

(** The elements compared are in range: [Search] only asks about [0 <= i < n]. *)
Definition elem_at (l : list Z) (i : Z) : Z := default 0 (l !! Z.to_nat i).
Definition SearchInts (a : list Z) (x : Z) : Z := Search (zlen a) (fun i => elem_at a i >=? x).

(** ** The reader *)

Section reader.
Context {Z0 : Zstd} {C0 : Cipher} {F0 : Files} {F : Type} {R : ReaderAt F}.

Record RandomReader := {
  rr_file : F;
  rr_fileSize : Z;
  rr_header : Header;
  rr_blockTable : list Z;
  rr_blockOffsets : list Z;
  rr_entries : list ChunkEntry;
  rr_blockStarts : list Z;
  rr_chunkEnds : list Z;
  rr_cb : option Reader;
  rr_memCache : MemoryCache;
  rr_derivedKey : option bytes;
  rr_passthroughPlain : option bytes;
  rr_dataOffset : Z;
}.

(** What changes while reading: the file's reader, the cache and the decrypted payload. *)
Definition set_state (file : F) (cache : MemoryCache) (plain : option bytes) (rr : RandomReader) : RandomReader := {|
  rr_file := file; rr_fileSize := rr_fileSize rr; rr_header := rr_header rr; rr_blockTable := rr_blockTable rr;
  rr_blockOffsets := rr_blockOffsets rr; rr_entries := rr_entries rr; rr_blockStarts := rr_blockStarts rr;
  rr_chunkEnds := rr_chunkEnds rr; rr_cb := rr_cb rr; rr_memCache := cache; rr_derivedKey := rr_derivedKey rr;
  rr_passthroughPlain := plain; rr_dataOffset := rr_dataOffset rr |}.

Definition set_cache (cache : MemoryCache) (rr : RandomReader) : RandomReader :=
  set_state (rr_file rr) cache (rr_passthroughPlain rr) rr.

Definition vfs_header_size (header : Header) : Z :=
  if h_Version header =? Version4 then HeaderSizeV4
  else if h_Version header =? Version5 then HeaderSizeV5
  else if (h_Version header =? Version6) || (h_Version header =? Version7) then HeaderSizeV6
  else if h_Version header >=? Version8 then HeaderSizeV8 + h_MicroDictSize header
  else HeaderSizeV2.

(** Where the chunk table ends and the first block or the payload starts. *)
Definition vfs_table_size (header : Header) : Z :=
  let tableSize := h_ChunkCount header * GetEntrySize (h_Version header) + (if h_IsEncrypted header then 28 else 0) in
  let tableSize := if h_TableBytes header >? 0 then h_TableBytes header else tableSize in
  if h_ChunkCount header =? 0 then 0 else tableSize.

Fixpoint block_offsets (current : Z) (blockTable : list Z) : list Z :=
  match blockTable with
  | [] => []
  | size :: blockTable => current :: block_offsets (current + size) blockTable
  end.

Fixpoint chunk_ends (end_ : Z) (entries : list ChunkEntry) : list Z :=
  match entries with
  | [] => []
  | e :: entries => let end_ := u64 (end_ + e_OriginalSize e) in end_ :: chunk_ends end_ entries
  end.

Definition NewRandomReader (f : F) (fileSize : Z) (header : Header) (blockTable : list Z) (entries : list ChunkEntry)
    (cb : option Reader) (encryptionKey : bytes) (maxMB : Z) : res RandomReader :=
  if h_Version header <? Version2 then Err "vfs: only Version 2+ formats support Random Access" else
  key ← (if h_IsEncrypted header then
           if zlen encryptionKey =? 0 then Err "vfs: file is encrypted but no key was provided"
           else Ok (Some (DeriveKey encryptionKey (h_Salt header)))
         else Ok None);
  let baseOffset := vfs_header_size header + zlen blockTable * 4 + vfs_table_size header in
  Ok {| rr_file := f; rr_fileSize := fileSize; rr_header := header; rr_blockTable := blockTable;
        rr_blockOffsets := block_offsets baseOffset blockTable; rr_entries := entries;
        rr_blockStarts := BlockStarts entries; rr_chunkEnds := chunk_ends 0 entries; rr_cb := cb;
        rr_memCache := NewMemoryCache maxMB; rr_derivedKey := key; rr_passthroughPlain := None;
        rr_dataOffset := baseOffset |}.

(** [make([]byte, n)] filled by [ReadAt], where the end of the file is not an error. *)
Definition read_buf (msg : string) (f : F) (off n : Z) : res (res bytes * F) :=
  '((data, err), f) ← read_at f off n;
  match err with
  | Some e => if String.eqb e "EOF" then Ok (Ok (blit (make_bytes n) 0 data), f) else Ok (Err msg, f)
  | None => Ok (Ok (blit (make_bytes n) 0 data), f)
  end.

Definition loadBlockPool (blockID : Z) (rr : RandomReader) : res (res bytes * RandomReader) :=
  '(hit, cache) ← Get (BlockKey blockID) (rr_memCache rr);
  let rr := set_cache cache rr in
  match hit with
  | Some pool => Ok (Ok pool, rr)
  | None =>
      '(hit, cache) ← Get (BlockKey blockID) (rr_memCache rr);
      let rr := set_cache cache rr in
      match hit with
      | Some pool => Ok (Ok pool, rr)
      | None =>
          if blockID >=? u32 (zlen (rr_blockOffsets rr)) then Ok (Err "invalid block ID", rr) else
          fileOff ← index (rr_blockOffsets rr) blockID;
          blockSize ← index (rr_blockTable rr) blockID;
          '(buf, f) ← read_buf "read block frame" (rr_file rr) fileOff blockSize;
          let rr := set_state f (rr_memCache rr) (rr_passthroughPlain rr) rr in
          match (buf ← buf;
                 buf ← (if h_IsEncrypted (rr_header rr)
                        then wrap_err "decrypt block frame" (Decrypt (default [] (rr_derivedKey rr)) buf)
                        else Ok buf);
                 dict ← (if h_UsesBrainDict (rr_header rr)
                         then match rr_cb rr with Some cb => Dictionary cb | None => Panic NilDereference end
                         else Ok []);
                 wrap_err "decompress pool" (DecompressPoolDict buf dict)) with
          | Panic p => Panic p
          | Err e => Ok (Err e, rr)
          | Ok pool =>
              cache ← Put (BlockKey blockID) pool (rr_memCache rr);
              Ok (Ok pool, set_cache cache rr)
          end
      end
  end.

(** A chunk from the pool of its block. *)
Definition rebuild_chunk (cb : option Reader) (entry : ChunkEntry) (base : Z) (pool : bytes) : res bytes :=
  let entryLocalOffset := u64 (e_DeltaOffset entry - base) in
  let endOffset := u64 (entryLocalOffset + e_DeltaSize entry) in
  if endOffset >? zlen pool then Err "vfs: delta bounds error on chunk" else
  residual ← slice pool entryLocalOffset endOffset;
  if e_CodebookID entry =? LiteralCodebookID then Ok residual
  else
    match cb with
    | None => Panic NilDereference
    | Some cb =>
        pattern ← wrap_err "vfs: lookup codeword" (Lookup cb (clean_id (e_CodebookID entry)));
        let usablePattern := usable_pattern pattern (e_OriginalSize entry) in
        if is_patch (e_CodebookID entry) then
          match ApplyPatch usablePattern residual with
          | Err _ => Ok residual
          | r => r
          end
        else Ok (Apply usablePattern (trim_residual residual (e_OriginalSize entry)))
    end.

(** The chunk from the cache, from its seed, or from its block; and back into the cache. *)
Definition load_chunk (chunkIndex : Z) (entry : ChunkEntry) (rr : RandomReader) : res (res bytes * RandomReader) :=
  let blockID := u32 (SearchInts (rr_blockStarts rr) (chunkIndex + 1) - 1) in
  '(cached, cache) ← Get (ChunkKey chunkIndex) (rr_memCache rr);
  let rr := set_cache cache rr in
  '(chunk, rr) ←
    match cached with
    | Some chunk => Ok (Ok chunk, rr)
    | None =>
        if e_CodebookIndex entry =? FractalCodebookIndex
        then Ok (Ok (GeneratePolynomial (i64 (e_CodebookID entry)) (e_OriginalSize entry)), rr)
        else
          '(pool, rr) ← loadBlockPool blockID rr;
          match pool with
          | Panic p => Panic p
          | Err _ => Ok (Err "vfs: read block", rr)
          | Ok pool =>
              start ← index (rr_blockStarts rr) blockID;
              first ← index (rr_entries rr) start;
              match rebuild_chunk (rr_cb rr) entry (e_DeltaOffset first) pool with
              | Panic p => Panic p
              | r => Ok (r, rr)
              end
          end
    end;
  match chunk with
  | Ok chunk =>
      let chunk := trim_residual chunk (e_OriginalSize entry) in
      if negb (e_CodebookID entry =? LiteralCodebookID) then
        cache ← Put (ChunkKey chunkIndex) chunk (rr_memCache rr);
        Ok (Ok chunk, set_cache cache rr)
      else Ok (Ok chunk, rr)
  | r => Ok (r, rr)
  end.

(** The copy loop; [dest] is what has been filled of the [n] bytes. Every turn copies at least one
    byte, so that [n] turns are enough. *)
Fixpoint read_loop (fuel : nat) (n off : Z) (dest : bytes) (rr : RandomReader)
    : res ((bytes * option string) * RandomReader) :=
  let finish := if zlen dest =? 0 then Ok (([], Some "EOF"), rr) else Ok ((dest, None), rr) in
  match fuel with
  | O => finish
  | S fuel =>
      if negb (zlen dest <? n) then finish else
      let currentOff := off + zlen dest in
      let chunkIndex := Search (zlen (rr_entries rr)) (fun i => elem_at (rr_chunkEnds rr) i >? u64 currentOff) in
      if chunkIndex >=? zlen (rr_entries rr) then finish else
      chunkEnd ← index (rr_chunkEnds rr) chunkIndex;
      entry ← index (rr_entries rr) chunkIndex;
      let chunkOffset := currentOff - i64 chunkEnd + e_OriginalSize entry in
      '(chunk, rr) ← load_chunk chunkIndex entry rr;
      match chunk with
      | Panic p => Panic p
      | Err e => Ok ((dest, Some e), rr)
      | Ok chunk =>
          let toCopy := Z.min (e_OriginalSize entry - chunkOffset) (n - zlen dest) in
          let toCopy := if chunkOffset + toCopy >? zlen chunk then zlen chunk - chunkOffset else toCopy in
          if toCopy <=? 0 then Ok ((dest, Some "vfs: data corruption or short read on chunk"), rr)
          else
            part ← slice chunk chunkOffset (chunkOffset + toCopy);
            read_loop fuel n off (dest ++ part) rr
      end
  end.

Definition decryptPassthrough (rr : RandomReader) : res (res bytes * RandomReader) :=
  match rr_passthroughPlain rr with
  | Some plain => Ok (Ok plain, rr)
  | None =>
      '(enc, f) ← read_buf "vfs: read passthrough" (rr_file rr) (rr_dataOffset rr) (rr_fileSize rr - rr_dataOffset rr);
      let rr := set_state f (rr_memCache rr) None rr in
      match (enc ← enc; wrap_err "vfs: decrypt passthrough" (Decrypt (default [] (rr_derivedKey rr)) enc)) with
      | Panic p => Panic p
      | Err e => Ok (Err e, rr)
      | Ok plain => Ok (Ok plain, set_state (rr_file rr) (rr_memCache rr) (Some plain) rr)
      end
  end.

(** [ReadAt] into [n] bytes. *)
Definition ReadAt (n off : Z) (rr : RandomReader) : res ((bytes * option string) * RandomReader) :=
  let size := i64 (h_OriginalSize (rr_header rr)) in
  if off >=? size then Ok (([], Some "EOF"), rr) else
  let bytesToRead := if off + n >? size then size - off else n in
  if (h_ChunkCount (rr_header rr) =? 0) || h_IsPassthrough (rr_header rr) then
    if h_IsEncrypted (rr_header rr) then
      '(plain, rr) ← decryptPassthrough rr;
      match plain with
      | Panic p => Panic p
      | Err e => Ok (([], Some e), rr)
      | Ok plain =>
          rest ← slice plain off (zlen plain);
          Ok ((ztake bytesToRead rest, None), rr)
      end
    else
      '(r, f) ← read_at (rr_file rr) (rr_dataOffset rr + off) bytesToRead;
      Ok (r, set_state f (rr_memCache rr) (rr_passthroughPlain rr) rr)
  else read_loop (S (Z.to_nat bytesToRead)) bytesToRead off [] rr.

(** [Mount] and the file system's [Read]: [stream] is what sequential reads of the file return. *)
Definition open_mount (stream : bytes) (f : F) (codebookFile encryptionKey : bytes) (maxMB : Z) : res RandomReader :=
  '((header, blockTable, entries), _) ← wrap_err "mount: failed to parse format metadata" (ReadMetadata encryptionKey stream);
  cb ← (if h_UsesBrainDict header || needs_brain entries
        then cb ← wrap_err "mount" (open_brain header codebookFile encryptionKey); Ok (Some cb)
        else Ok None);
  wrap_err "mount: random reader init" (NewRandomReader f (zlen stream) header blockTable entries cb encryptionKey maxMB).

(** [CromFile.Read]: [io.EOF] is an empty read, any other error is [EIO]. *)
Definition CromFile_Read (n off : Z) (rr : RandomReader) : res (res bytes * RandomReader) :=
  '((data, err), rr) ← ReadAt n off rr;
  match err with
  | Some e => if String.eqb e "EOF" then Ok (Ok data, rr) else Ok (Err "EIO", rr)
  | None => Ok (Ok data, rr)
  end.
End reader.
