(* ===== verification/VfsRead.v ===== *)
(** The mounted file system reads what was packed: any range of any archive, in any order, through
    the cache, is that range of the input. *)

From S2P Require Import Prelude Binary Sha256 Externals Crypto Format FormatIO Delta Chunker Codebook.
From S2P Require Import Fractal Entropy Search Unpack Pack ChunkCodec BlockCodec RoundTrip Archive VfsCache VfsReader.
Import codebook Format.

(** ** Binary search *)

(** Where the predicate turns true. *)
Lemma search_loop_spec fuel f i j r :
  i <= r <= j -> Z.of_nat fuel >= j - i ->
  (forall k, i <= k < r -> f k = false) -> (forall k, r <= k < j -> f k = true) ->
  search_loop fuel f i j = r.
Proof.
  revert i j; induction fuel as [|fuel IH]; intros i j Hr Hf Hlo Hhi; cbn [search_loop].
  - destruct (Z.ltb_spec i j); lia.
  - destruct (Z.ltb_spec i j); [|lia]. assert (Hm : i <= (i + j) / 2 < j) by (Z.to_euclidean_division_equations; lia).
    destruct (f ((i + j) / 2)) eqn:E; cbn [negb]; apply IH; try lia.
    + split; [lia|]. apply Z.nlt_ge. intros Hc. rewrite Hlo in E by lia. done.
    + intros k Hk. apply Hlo. lia.
    + intros k Hk. apply Hhi. lia.
    + split; [|lia]. apply Z.nlt_ge. intros Hc. rewrite Hhi in E by lia. done.
    + intros k Hk. apply Hlo. lia.
    + intros k Hk. apply Hhi. lia.
Qed.

Lemma Search_spec n f r :
  0 <= r <= n -> (forall k, 0 <= k < r -> f k = false) -> (forall k, r <= k < n -> f k = true) -> Search n f = r.
Proof. intros. unfold Search. by apply search_loop_spec; [|lia|..]. Qed.

Lemma index_elem_at l i x : index l i = Ok x -> elem_at l i = x.
Proof.
  unfold index, elem_at. destruct (Z.leb_spec 0 i); [|done]. rewrite zdrop_drop.
  destruct (drop (Z.to_nat i) l) as [|y l'] eqn:E; [done|]. intros [= <-].
  replace (l !! Z.to_nat i) with (drop (Z.to_nat i) l !! 0%nat) by (rewrite lookup_drop; f_equal; lia). by rewrite E.
Qed.

(** A list around the position [i]. *)
Lemma list_split {A} (l : list A) i :
  0 <= i < zlen l -> exists l1 x l2, l = l1 ++ x :: l2 /\ zlen l1 = i.
Proof.
  intros Hi. destruct (lookup_lt_is_Some_2 l (Z.to_nat i)) as [x Hx]; [unfold zlen in Hi; lia|].
  exists (take (Z.to_nat i) l), x, (drop (S (Z.to_nat i)) l). split; [by rewrite take_drop_middle|].
  unfold zlen in *. rewrite length_take. lia.
Qed.

(** Two ways of cutting a list, by length. *)
Lemma app_prefix {A} (a b c d : list A) : a ++ b = c ++ d -> zlen a <= zlen c -> exists m, c = a ++ m /\ b = m ++ d.
Proof.
  revert c; induction a as [|x a IH]; intros c E Hl; [by exists c|]. rewrite zlen_cons in Hl.
  destruct c as [|y c]; [change (zlen (@nil A)) with 0 in Hl; pose proof (zlen_nonneg a); lia|].
  rewrite zlen_cons in Hl. injection E as <- E. destruct (IH c E ltac:(lia)) as (m & -> & ->). by exists m.
Qed.

(** A buffer filled by one copy. *)
Lemma blit_full src : blit (make_bytes (zlen src)) 0 src = src.
Proof.
  pose proof (blit_fill [] 0 (zlen src) src eq_refl (Z.le_refl _)) as Hb. cbn [app] in Hb.
  rewrite Hb, Z.sub_diag. apply app_nil_r.
Qed.

(** ** The tables of the reader *)

Lemma zlen_chunk_ends es e : zlen (chunk_ends e es) = zlen es.
Proof. revert e; induction es as [|x es IH]; intros e; [done|]. cbn [chunk_ends]. by rewrite !zlen_cons, IH. Qed.

Lemma block_bytes_cons x es : block_bytes (x :: es) = e_OriginalSize x + block_bytes es.
Proof. done. Qed.

Lemma chunk_ends_index es1 x es2 e :
  Forall (fun x => 0 < e_OriginalSize x) (es1 ++ x :: es2) -> 0 <= e -> e + block_bytes (es1 ++ x :: es2) < 2 ^ 64 ->
  index (chunk_ends e (es1 ++ x :: es2)) (zlen es1) = Ok (e + block_bytes (es1 ++ [x])).
Proof.
  revert e; induction es1 as [|y es1 IH]; cbn [app chunk_ends]; intros e [Hx Hes]%Forall_cons He Hb;
    destruct (block_bytes_pos _ Hes) as [Hn _]; rewrite block_bytes_cons in Hb |- *;
    rewrite u64_small by (unfold is_u64; lia).
  - rewrite index_here by done. f_equal. change (block_bytes []) with 0. lia.
  - pose proof (zlen_nonneg es1). rewrite zlen_cons.
    rewrite index_cons, Z.add_simpl_r by lia. rewrite IH by (done || lia). f_equal. lia.
Qed.

(** The chunk of a byte: the binary search of the ends of the chunks. *)
Lemma Search_chunk es1 x es2 o :
  let es := es1 ++ x :: es2 in
  Forall (fun x => 0 < e_OriginalSize x) es -> block_bytes es < 2 ^ 63 ->
  block_bytes es1 <= o < block_bytes es1 + e_OriginalSize x ->
  Search (zlen es) (fun i => elem_at (chunk_ends 0 es) i >? u64 o) = zlen es1.
Proof.
  intros es Hes Hb Ho. pose proof (zlen_nonneg es1). pose proof (zlen_nonneg es2).
  assert (Hn1 : 0 <= block_bytes es1) by (apply block_bytes_pos; by apply Forall_app in Hes as [? _]).
  assert (Hlen : zlen es = zlen es1 + (zlen es2 + 1)) by (unfold es; by rewrite zlen_app, zlen_cons).
  assert (Hsum : block_bytes es = block_bytes es1 + (e_OriginalSize x + block_bytes es2)) by (unfold es; by rewrite block_bytes_app).
  assert (Hn2 : 0 <= block_bytes es2).
  { apply block_bytes_pos. apply Forall_app in Hes as [_ Hes]. by apply Forall_cons in Hes as [_ ?]. }
  rewrite u64_small by (unfold is_u64; lia).
  assert (Hat : forall k a y b, es = a ++ y :: b -> zlen a = k -> elem_at (chunk_ends 0 es) k = block_bytes (a ++ [y])).
  { intros k a y b E <-. apply index_elem_at. rewrite E. rewrite E in Hes, Hb. by apply chunk_ends_index; [|done|lia]. }
  apply Search_spec; [lia| |]; intros k Hk; destruct (list_split es k ltac:(lia)) as (a & y & b & E & Ha);
    rewrite (Hat k a y b E Ha).
  - destruct (app_prefix (a ++ [y]) b es1 (x :: es2)) as (m & -> & _).
    { rewrite <-app_assoc. symmetry. exact E. } { rewrite zlen_app. change (zlen [y]) with 1. lia. }
    rewrite Z.gtb_ltb. apply Z.ltb_ge. rewrite (block_bytes_app _ m) in Ho, Hn1.
    assert (0 <= block_bytes m); [|lia]. apply block_bytes_pos. apply Forall_app in Hes as [Hes _].
    by apply Forall_app in Hes as [_ ?].
  - destruct (app_prefix (es1 ++ [x]) es2 (a ++ [y]) b) as (m & E' & E2).
    { rewrite <-!app_assoc. exact E. } { rewrite !zlen_app. change (zlen [y]) with 1. change (zlen [x]) with 1. lia. }
    rewrite E', !block_bytes_app, Z.gtb_ltb. apply Z.ltb_lt. cbn [block_bytes foldr].
    fold (block_bytes m). assert (0 <= block_bytes m); [|lia]. apply block_bytes_pos. unfold es in Hes. rewrite E2 in Hes.
    apply Forall_app in Hes as [_ Hes]. apply Forall_cons in Hes as [_ Hes]. by apply Forall_app in Hes as [? _].
Qed.

(** The block of a chunk: the binary search of the starts of the blocks. *)
Lemma SearchInts_block bs1 b bs2 i :
  zlen (concat bs1) <= i < zlen (concat bs1) + zlen b ->
  SearchInts (starts_of 0 (bs1 ++ b :: bs2)) (i + 1) = zlen bs1 + 1.
Proof.
  intros Hi. set (bs := bs1 ++ b :: bs2). pose proof (zlen_nonneg bs1). pose proof (zlen_nonneg bs2).
  assert (Hlen : zlen bs = zlen bs1 + (zlen bs2 + 1)) by (unfold bs; by rewrite zlen_app, zlen_cons).
  assert (Hat : forall k l1 c l2, bs = l1 ++ c :: l2 -> zlen l1 = k -> elem_at (starts_of 0 bs) k = zlen (concat l1)).
  { intros k l1 c l2 E <-. apply index_elem_at. by rewrite E, index_starts_of. }
  unfold SearchInts. rewrite zlen_starts_of. apply Search_spec; [lia| |]; intros k Hk;
    destruct (list_split bs k ltac:(lia)) as (l1 & c & l2 & E & Hl); rewrite (Hat k l1 c l2 E Hl).
  - destruct (app_prefix l1 (c :: l2) bs1 (b :: bs2)) as (m & Em & _); [by rewrite <-E|lia|].
    rewrite Z.geb_leb. apply Z.leb_gt. rewrite Em, concat_app, zlen_app in Hi. pose proof (zlen_nonneg (concat m)). lia.
  - destruct (app_prefix (bs1 ++ [b]) bs2 l1 (c :: l2)) as (m & Em & _); [by rewrite <-app_assoc|rewrite zlen_app; change (zlen [b]) with 1; lia|].
    rewrite Z.geb_leb. apply Z.leb_le. rewrite Em, !concat_app, !zlen_app. cbn [concat]. rewrite app_nil_r.
    pose proof (zlen_nonneg (concat m)). lia.
Qed.

(** Where the frame of a block is. *)
Lemma block_offsets_index t1 n t2 base :
  index (block_offsets base (t1 ++ n :: t2)) (zlen t1) = Ok (base + foldr Z.add 0 t1).
Proof.
  revert base; induction t1 as [|m t1 IH]; intros base; cbn [app block_offsets foldr].
  - rewrite index_here by done. f_equal. lia.
  - pose proof (zlen_nonneg t1). rewrite zlen_cons, index_cons, Z.add_simpl_r, IH by lia. f_equal. lia.
Qed.

Lemma zlen_block_offsets base t : zlen (block_offsets base t) = zlen t.
Proof. revert base; induction t as [|n t IH]; intros base; [done|]. cbn [block_offsets]. by rewrite !zlen_cons, IH. Qed.

Lemma table_sum frames : Forall (fun f => is_u32 (zlen f)) frames -> foldr Z.add 0 (table_of frames) = zlen (concat frames).
Proof.
  induction 1 as [|f frames Hf _ IH]; [done|]. cbn [table_of map foldr concat]. rewrite zlen_app, u32_small by done.
  unfold table_of in IH. lia.
Qed.

Lemma table_of_mid f1 f f2 : table_of (f1 ++ f :: f2) = table_of f1 ++ u32 (zlen f) :: table_of f2.
Proof. unfold table_of. by rewrite map_app. Qed.

(** Where the frame of a block is, and its size. *)
Lemma frame_index base frames f1 frame f2 :
  frames = f1 ++ frame :: f2 -> Forall (fun f => is_u32 (zlen f)) frames ->
  index (block_offsets base (table_of frames)) (zlen f1) = Ok (base + zlen (concat f1)) /\ index (table_of frames) (zlen f1) = Ok (zlen frame).
Proof.
  intros -> [Hall1 [Hfr _]%Forall_cons]%Forall_app.
  by rewrite table_of_mid, <-(zlen_table_of f1), block_offsets_index, index_app_mid, table_sum, u32_small by done.
Qed.

(** ** Reading an archive *)

Section mounted.
Context {Z0 : Zstd} {C0 : Cipher} {F0 : Files} {F : Type} {R : ReaderAt F} (ok : F -> Prop).
Variables (cb : option Reader) (dict passphrase : bytes) (h : Header) (input : bytes)
  (pss : list (list processedChunk)) (frames : list bytes) (metadata tail : bytes).
Hypothesis Har : archive cb dict passphrase h input pss frames metadata.
Context {RL : ReaderAtLaws R (metadata ++ concat frames ++ tail) ok}.
(** The header that was read, and the size the reader was told. *)
Variables (hd : Header) (size : Z).
Hypothesis Hhd : exists n, hd = set_table_bytes n (stored_header h).

Abbreviation entries := (concat (entries_of pss)).
Abbreviation key := (table_key passphrase h).

(** A reader of the archive. Only the file's reader and the cache change. *)
Definition opened (f : F) (c : MemoryCache) : RandomReader (F := F) := {|
  rr_file := f; rr_fileSize := size; rr_header := hd; rr_blockTable := table_of frames;
  rr_blockOffsets := block_offsets (zlen metadata) (table_of frames); rr_entries := entries;
  rr_blockStarts := BlockStarts entries; rr_chunkEnds := chunk_ends 0 entries; rr_cb := cb;
  rr_memCache := c; rr_derivedKey := key; rr_passthroughPlain := None; rr_dataOffset := zlen metadata |}.

(** The cache holds pools of blocks and chunks of the input. *)
Definition good (kv : cache_key * bytes) : Prop :=
  match kv with
  | (BlockKey b, pool) => exists p1 ps p2, pss = p1 ++ ps :: p2 /\ zlen p1 = b /\ pool = pool_of ps
  | (ChunkKey i, d) => forall e1 e e2, entries = e1 ++ e :: e2 -> zlen e1 = i ->
      zlen d = e_OriginalSize e /\ d = sub (block_bytes e1) (block_bytes e1 + zlen d) input
  end.

Definition ready (rr : RandomReader) : Prop := exists f c, rr = opened f c /\ ok f /\ cache_ok good c.

(** [r] answers [P] and leaves the reader ready. *)
Definition answers {A} (r : res (A * RandomReader)) (P : A -> Prop) : Prop :=
  exists a rr, r = Ok (a, rr) /\ ready rr /\ P a.

Abbreviation at_chunk := (located cb dict key input pss frames).

Lemma frame_read off f f1 frame f2 :
  frames = f1 ++ frame :: f2 -> ok f -> off = zlen metadata + zlen (concat f1) ->
  exists f', read_buf "read block frame" f off (zlen frame) = Ok (Ok frame, f') /\ ok f'.
Proof.
  intros -> Hf ->. pose proof (zlen_nonneg metadata). pose proof (zlen_nonneg (concat f1)). pose proof (zlen_nonneg frame).
  pose proof (zlen_nonneg (concat f2)). pose proof (zlen_nonneg tail).
  destruct (read_at_range f (zlen metadata + zlen (concat f1)) (zlen frame) Hf) as (err & f' & E & Herr & Hf'); try lia.
  { rewrite concat_mid, !zlen_app. lia. }
  exists f'. split; [|done]. unfold read_buf. rewrite E. cbn [mbind res_bind].
  assert (Hs : sub (zlen metadata + zlen (concat f1)) (zlen metadata + zlen (concat f1) + zlen frame)
      (metadata ++ concat (f1 ++ frame :: f2) ++ tail) = frame).
  { rewrite concat_mid, <-!app_assoc, app_assoc, <-zlen_app. apply sub_app_mid; [done|lia]. }
  rewrite Hs, blit_full. by destruct Herr as [-> | ->].
Qed.

(** The frame of a block, and what surrounds it. *)
Lemma packed_frame p1 ps p2 :
  pss = p1 ++ ps :: p2 ->
  exists f1 frame f2, frames = f1 ++ frame :: f2 /\ length f1 = length p1 /\ frame_of dict key frame (pool_of ps) /\
    Forall (fun f => is_u32 (zlen f)) frames /\ zlen frames < 2 ^ 32 /\ zlen (pool_of ps) < 2 ^ 62.
Proof.
  intros E. pose proof (ar_packed _ _ _ _ _ _ _ _ Har) as Hpk. pose proof (ar_describes _ _ _ _ _ _ _ _ Har) as Hd.
  destruct (archive_blocks _ _ _ _ _ _ _ _ Har) as (_ & _ & _ & _ & _ & _ & Hl & Hlt & Hcat).
  assert (Hall : Forall (fun f => is_u32 (zlen f)) frames).
  { clear -Hpk. induction Hpk as [|? ? ? ? ? ? ? _ _ [Hf _] _ IH]; by constructor. }
  destruct (packed_bytes _ _ _ _ _ _ _ Hpk) as (_ & Hpool & _). rewrite Hcat, E, map_app in Hpool.
  cbn [map] in Hpool. rewrite concat_mid, !zlen_app in Hpool.
  rewrite E in Hpk. destruct (packed_block _ _ _ _ _ _ _ _ _ Hpk) as (b1 & datas & b2 & f1 & frame & f2 & _ & Ef & _ & L & _ & _ & Hf & _).
  exists f1, frame, f2. do 4 (split; [done|]). split; [lia|]. destruct Hd.
  pose proof (zlen_nonneg (concat (map pool_of p1))). pose proof (zlen_nonneg (concat (map pool_of p2))). lia.
Qed.

Lemma opened_fields : 3 <= h_Version h <= 8 ->
  h_IsEncrypted hd = h_IsEncrypted h /\ h_IsPassthrough hd = h_IsPassthrough h /\ h_UsesBrainDict hd = h_UsesBrainDict h /\
  h_ChunkCount hd = h_ChunkCount h.
Proof. destruct Hhd as [n ->]. intros Hv. destruct (stored_fields h n Hv) as (_ & ? & ? & _ & ? & _ & _ & ? & _). done. Qed.

(** Decrypting and decompressing a frame. *)
Lemma open_frame frame pool f c :
  frame_of dict key frame pool ->
  (buf ← (if h_IsEncrypted hd then wrap_err "decrypt block frame" (Decrypt (default [] key) frame) else Ok frame);
   dct ← (if h_UsesBrainDict hd then match rr_cb (opened f c) with Some cb => Dictionary cb | None => Panic NilDereference end
          else Ok []);
   wrap_err "decompress pool" (DecompressPoolDict buf dct)) = Ok pool.
Proof.
  intros [_ Hf]. destruct (Hf "decrypt block frame"%string) as (z & Hz & Hd).
  destruct (opened_fields (ds_version _ _ _ (ar_describes _ _ _ _ _ _ _ _ Har))) as (-> & _ & -> & _).
  assert (Hdec : (if h_IsEncrypted h then wrap_err "decrypt block frame" (Decrypt (default [] key) frame) else Ok frame) = Ok z).
  { unfold table_key in *. by destruct (h_IsEncrypted h). }
  rewrite Hdec. cbn [mbind res_bind rr_cb opened]. pose proof (ar_brain _ _ _ _ _ _ _ _ Har) as Hb. unfold brain_for in Hb.
  destruct cb as [r|]; destruct Hb as [-> Hb]; rewrite ?Hb; cbn [mbind res_bind]; [|rewrite Hb in Hd]; by rewrite Hd.
Qed.

(** The pool of a block, from the cache or from the file. *)
Lemma loadBlockPool_ok rr p1 ps p2 :
  ready rr -> pss = p1 ++ ps :: p2 -> answers (loadBlockPool (zlen p1) rr) (fun pool => pool = Ok (pool_of ps)).
Proof.
  intros (f & c & -> & Hf & Hc) E. unfold loadBlockPool.
  destruct (packed_frame p1 ps p2 E) as (f1 & frame & f2 & Ef & L & Hframe & Hall & Hlt & Hlen).
  assert (Hgood : forall pool, good (BlockKey (zlen p1), pool) -> pool = pool_of ps).
  { intros pool (q1 & qs & q2 & E' & Hl & ->). rewrite E in E'. unfold zlen in Hl. apply app_inj_1 in E' as [_ E']; [congruence|lia]. }
  destruct (Get_ok good (BlockKey (zlen p1)) c Hc) as (a & c1 & E1 & Hc1 & Ha). cbn [rr_memCache opened]. rewrite E1.
  cbn [mbind res_bind]. destruct a as [pool|].
  { exists (Ok pool), (opened f c1). split; [done|]. split; [by exists f, c1|]. f_equal. by apply Hgood, Ha. }
  destruct (Get_ok good (BlockKey (zlen p1)) c1 Hc1) as (a & c2 & E2 & Hc2 & Ha2).
  cbn [rr_memCache opened set_cache set_state]. rewrite E2. cbn [mbind res_bind]. destruct a as [pool|].
  { exists (Ok pool), (opened f c2). split; [done|]. split; [by exists f, c2|]. f_equal. by apply Hgood, Ha2. }
  cbn [rr_memCache opened set_cache set_state rr_blockOffsets rr_blockTable rr_file rr_header].
  rewrite zlen_block_offsets, zlen_table_of, u32_small by (pose proof (zlen_nonneg frames); unfold is_u32; lia).
  assert (Hi : zlen f1 = zlen p1) by (unfold zlen; lia). assert (Hn : zlen p1 < zlen frames).
  { rewrite Ef, zlen_app, zlen_cons. pose proof (zlen_nonneg f2). lia. }
  rewrite Z.geb_leb, (proj2 (Z.leb_gt _ _)) by lia.
  destruct (frame_index (zlen metadata) frames f1 frame f2 Ef Hall) as [Hoff Hsize]. rewrite Hi in Hoff, Hsize.
  rewrite Hoff. cbn [mbind res_bind]. rewrite Hsize. cbn [mbind res_bind].
  destruct (frame_read (zlen metadata + zlen (concat f1)) f f1 frame f2 Ef Hf eq_refl) as (f' & -> & Hf').
  cbn [mbind res_bind]. pose proof (open_frame frame (pool_of ps) f c Hframe) as Hopen.
  cbn [rr_cb rr_derivedKey opened set_cache set_state] in *. rewrite Hopen.
  destruct (Put_ok good (BlockKey (zlen p1)) (pool_of ps) c2 Hc2) as (c3 & E3 & Hc3); [by exists p1, ps, p2|done|].
  rewrite E3. cbn [mbind res_bind]. eexists _, (opened f' c3). split; [done|]. split; [by exists f', c3|done].
Qed.

(** ** One chunk *)

Section chunk.
Variables (pre d post : bytes) (p1 : list (list processedChunk)) (q1 : list processedChunk) (p : processedChunk)
  (q2 : list processedChunk) (p2 : list (list processedChunk)) (f1 : list bytes) (frame : bytes) (f2 : list bytes).
Hypothesis Hat : at_chunk pre d post p1 q1 p q2 p2 f1 frame f2.

Abbreviation chunk_number := (zlen (concat p1 ++ q1)).

Lemma chunk_small : 0 < zlen d <= BlockSize /\ zlen input < 2 ^ 48 /\ e_OriginalSize (p_entry p) = zlen d.
Proof.
  destruct (lc_decodes Hat). destruct (ar_describes _ _ _ _ _ _ _ _ Har). split; [done|lia].
Qed.

Lemma chunk_entries : entries = map p_entry (concat p1 ++ q1) ++ p_entry p :: map p_entry (q2 ++ concat p2).
Proof. rewrite (lc_pss Hat). apply entries_mid. Qed.

Lemma chunk_input : d = sub (block_bytes (map p_entry (concat p1 ++ q1))) (block_bytes (map p_entry (concat p1 ++ q1)) + zlen d) input.
Proof.
  rewrite <-(lc_before Hat), (lc_input Hat).
  symmetry. apply sub_app_mid; [done|lia].
Qed.

Lemma cached_chunk d' : good (ChunkKey chunk_number, d') -> d' = d.
Proof.
  intros Hg. destruct chunk_small as (_ & _ & Hs).
  destruct (Hg _ _ _ chunk_entries (zlen_map_entry _)) as [E1 E2]. rewrite E2, chunk_input. by rewrite E1, Hs.
Qed.

Lemma good_chunk_data : good (ChunkKey chunk_number, d).
Proof.
  intros e1 e e2 E Hl. rewrite chunk_entries in E. rewrite <-zlen_map_entry in Hl. unfold zlen in Hl.
  apply app_inj_1 in E as [<- [= <- _]]; [|lia]. destruct chunk_small as (_ & _ & ->). split; [done|apply chunk_input].
Qed.

Lemma chunk_block : u32 (SearchInts (BlockStarts entries) (chunk_number + 1) - 1) = zlen p1.
Proof.
  destruct (archive_blocks _ _ _ _ _ _ _ _ Har) as (Hwf & _ & _ & _ & _ & _ & _ & Hlt & _).
  unfold BlockStarts. rewrite block_starts_concat by done. pose proof (zlen_nonneg p1). pose proof (zlen_nonneg p2).
  rewrite (lc_pss Hat), entries_blocks in *.
  assert (Hlen : zlen (entries_of p1) = zlen p1) by (unfold entries_of, zlen; by rewrite length_map).
  assert (Hlen2 : zlen (entries_of p2) = zlen p2) by (unfold entries_of, zlen; by rewrite length_map).
  rewrite zlen_app, zlen_cons in Hlt. rewrite SearchInts_block.
  - rewrite Hlen, Z.add_simpl_r. apply u32_small. unfold is_u32. lia.
  - rewrite concat_entries_of, !zlen_map_entry, !zlen_app, zlen_cons. pose proof (zlen_nonneg q1). pose proof (zlen_nonneg q2). lia.
Qed.

(** The first entry of the block, which gives the offset of its pool. *)
Lemma block_first :
  exists first, index (BlockStarts entries) (zlen p1) = Ok (zlen (concat p1)) /\ index entries (zlen (concat p1)) = Ok first /\
    e_DeltaOffset first = zlen (concat (map pool_of p1)).
Proof.
  destruct (archive_blocks _ _ _ _ _ _ _ _ Har) as (Hwf & _).
  destruct (archive_block _ _ _ _ _ _ _ _ Har p1 (q1 ++ p :: q2) p2 (lc_pss Hat)) as ((first & E1 & E2) & _).
  exists first. split; [|done]. unfold BlockStarts. rewrite block_starts_concat by done. rewrite (lc_pss Hat), entries_blocks.
  assert (Hlen : zlen (entries_of p1) = zlen p1) by (unfold entries_of, zlen; by rewrite length_map).
  by rewrite <-Hlen, index_starts_of, concat_entries_of, zlen_map_entry.
Qed.

(** The residual, from the pool of the block. *)
Lemma rebuild_chunk_ok :
  (e_CodebookIndex (p_entry p) =? FractalCodebookIndex) = false ->
  rebuild_chunk cb (p_entry p) (zlen (concat (map pool_of p1))) (pool_of (q1 ++ p :: q2)) = Ok d.
Proof.
  intros Hfr. destruct chunk_small as (Hd & Hin & Hs). pose proof (lc_decodes Hat) as [].
  destruct (located_offset _ _ _ _ _ _ _ _ _ _ _ _ _ _ _ _ _ Hat) as [Hoff _].
  pose proof (lc_pool Hat) as Hpool. pose proof (zlen_nonneg (concat (map pool_of p1))).
  destruct (residual_bounds _ q1 p q2 Hoff dc_delta) as [Hb Hsub]; [lia|]. cbv zeta in Hb, Hsub.
  unfold rebuild_chunk. cbv zeta. rewrite Hb, Hsub. cbn [mbind res_bind].
  unfold rebuilds, reconstructChunk, from_codeword in dc_rebuilds. destruct cb as [r|].
  - destruct (_ =? LiteralCodebookID); [done|]. rewrite Hfr in dc_rebuilds.
    destruct (wrap_err _ (Lookup r _)) as [pat|e|x] eqn:El; cbn [mbind res_bind] in dc_rebuilds; [|done|done].
    assert (El' : wrap_err "vfs: lookup codeword" (Lookup r (clean_id (e_CodebookID (p_entry p)))) = Ok pat) by (by destruct (Lookup r _)).
    rewrite El'. cbn [mbind res_bind]. destruct (is_patch _); [by rewrite dc_rebuilds|done].
  - destruct dc_rebuilds as [-> ->]. by rewrite Z.eqb_refl.
Qed.

Lemma fractal_chunk :
  (e_CodebookIndex (p_entry p) =? FractalCodebookIndex) = true ->
  GeneratePolynomial (i64 (e_CodebookID (p_entry p))) (e_OriginalSize (p_entry p)) = d.
Proof.
  intros Hfr. pose proof (lc_decodes Hat) as [].
  assert (Hne : e_CodebookID (p_entry p) <> LiteralCodebookID) by (intros E; by apply Z.eqb_eq, dc_engine in Hfr).
  unfold rebuilds, reconstructChunk in dc_rebuilds. destruct cb; [|tauto].
  rewrite (proj2 (Z.eqb_neq _ _) Hne), Hfr in dc_rebuilds. congruence.
Qed.

Lemma load_chunk_ok rr : ready rr -> answers (load_chunk chunk_number (p_entry p) rr) (fun chunk => chunk = Ok d).
Proof.
  intros (f & c & -> & Hf & Hc). destruct chunk_small as (Hd & Hin & Hs). unfold load_chunk. cbv zeta.
  cbn [rr_memCache rr_blockStarts opened]. rewrite chunk_block.
  destruct (Get_ok good (ChunkKey chunk_number) c Hc) as (a & c1 & -> & Hc1 & Ha). cbn [mbind res_bind].
  enough (Hmid : answers (match a with
    | Some chunk => Ok (Ok chunk, opened f c1)
    | None => if e_CodebookIndex (p_entry p) =? FractalCodebookIndex
        then Ok (Ok (GeneratePolynomial (i64 (e_CodebookID (p_entry p))) (e_OriginalSize (p_entry p))), opened f c1)
        else '(pool, rr) ← loadBlockPool (zlen p1) (opened f c1);
          match pool with
          | Panic p => Panic p
          | Err _ => Ok (Err "vfs: read block", rr)
          | Ok pool => start ← index (rr_blockStarts rr) (zlen p1); first ← index (rr_entries rr) start;
              match rebuild_chunk (rr_cb rr) (p_entry p) (e_DeltaOffset first) pool with
              | Panic p => Panic p | r => Ok (r, rr) end
          end
    end) (fun chunk => chunk = Ok d)).
  { destruct Hmid as (chunk & rr & E & (f' & c' & -> & Hf' & Hc') & ->). cbn [set_cache set_state] in *.
    change (set_cache c1 (opened f c)) with (opened f c1). rewrite E. cbn [mbind res_bind]. unfold trim_residual.
    rewrite Hs, u32_small by (unfold is_u32, BlockSize in *; lia). rewrite Z.gtb_ltb, Z.ltb_irrefl. destruct (_ =? LiteralCodebookID); cbn [negb].
    - exists (Ok d), (opened f' c'). split; [done|]. split; [by exists f', c'|done].
    - destruct (Put_ok good (ChunkKey chunk_number) d c' Hc' good_chunk_data ltac:(unfold BlockSize in *; lia)) as (c2 & E2 & Hc2).
      cbn [rr_memCache opened]. rewrite E2. cbn [mbind res_bind]. exists (Ok d), (opened f' c2).
      split; [done|]. split; [by exists f', c2|done]. }
  destruct a as [chunk|].
  { exists (Ok chunk), (opened f c1). split; [done|]. split; [by exists f, c1|]. f_equal. by apply cached_chunk, Ha. }
  destruct (e_CodebookIndex (p_entry p) =? FractalCodebookIndex) eqn:Hfr.
  { rewrite (fractal_chunk Hfr). exists (Ok d), (opened f c1). split; [done|]. split; [by exists f, c1|done]. }
  destruct (loadBlockPool_ok (opened f c1) p1 (q1 ++ p :: q2) p2) as (pool & rr & -> & (f' & c' & -> & Hf' & Hc') & ->);
    [by exists f, c1|apply (lc_pss Hat)|].
  cbn [mbind res_bind rr_blockStarts rr_entries rr_cb opened]. destruct block_first as (first & -> & E2 & E3).
  cbn [mbind res_bind]. rewrite E2. cbn [mbind res_bind]. rewrite E3, rebuild_chunk_ok by done.
  exists (Ok d), (opened f' c'). split; [done|]. split; [by exists f', c'|done].
Qed.
End chunk.

(** ** Any range *)

Lemma ready_tables rr :
  ready rr -> rr_header rr = hd /\ rr_entries rr = entries /\ rr_chunkEnds rr = chunk_ends 0 entries.
Proof. by intros (f & c & -> & _). Qed.

(** The loop finds the chunk of the next byte, and copies what it holds of the range. *)
Lemma read_loop_ok fuel n off dest rr :
  ready rr -> 0 <= off -> off + n <= zlen input -> 0 < n -> zlen dest <= n -> n - zlen dest <= Z.of_nat fuel ->
  dest = sub off (off + zlen dest) input ->
  answers (read_loop fuel n off dest rr) (fun r => r = (sub off (off + n) input, None)).
Proof.
  revert dest rr; induction fuel as [|fuel IH]; intros dest rr Hr Ho Hn Hpos Hd Hfuel Hdest;
    pose proof (zlen_nonneg dest); cbn [read_loop]; cbv zeta.
  { assert (zlen dest = n) as E by lia. rewrite (proj2 (Z.eqb_neq _ _)) by lia. exists (dest, None), rr.
    split; [done|]. split; [done|]. by rewrite Hdest, E at 1. }
  destruct (Z.ltb_spec (zlen dest) n) as [Hlt|Hge]; cbn [negb].
  2:{ assert (zlen dest = n) as E by lia. rewrite (proj2 (Z.eqb_neq _ _)) by lia. exists (dest, None), rr.
      split; [done|]. split; [done|]. by rewrite Hdest, E at 1. }
  pose proof (ar_packed _ _ _ _ _ _ _ _ Har) as Hpk.
  destruct (archive_blocks _ _ _ _ _ _ _ _ Har) as (_ & Hbytes & _ & _ & _ & _ & _ & _ & Hcat).
  destruct (located_byte cb dict key _ _ _ (off + zlen dest) Hpk) as
    (pre & d & post & p1 & q1 & p & q2 & p2 & f1 & frame & f2 & k & Hat & Ek & Hk); [rewrite Hcat; lia|].
  rewrite Hcat in Hat. destruct (chunk_small _ _ _ _ _ _ _ _ _ _ _ Hat) as (_ & Hin & Hs).
  destruct (ready_tables rr Hr) as (_ & -> & ->). destruct (packed_bytes _ _ _ _ _ _ _ Hpk) as (_ & _ & Hall).
  pose proof (chunk_entries _ _ _ _ _ _ _ _ _ _ _ Hat) as Een. pose proof (lc_before Hat) as Hpre.
  rewrite Een in Hall, Hbytes |- *. set (es1 := map p_entry (concat p1 ++ q1)) in *. set (es2 := map p_entry (q2 ++ concat p2)) in *.
  assert (Hnum : zlen es1 = zlen (concat p1 ++ q1)) by apply zlen_map_entry. pose proof (zlen_nonneg es2).
  destruct (block_bytes_pos _ (proj1 (proj1 (Forall_app _ _ _) Hall))) as [Hn1 _].
  rewrite Search_chunk by (done || lia). rewrite zlen_app, zlen_cons, Z.geb_leb, (proj2 (Z.leb_gt _ _)) by lia.
  rewrite chunk_ends_index, index_app_mid by (done || lia). cbn [mbind res_bind].
  rewrite block_bytes_app, block_bytes_cons, Hs, Z.add_0_l, <-Hpre. change (block_bytes []) with 0.
  assert (Hsum : zlen input = zlen pre + (zlen d + zlen post)) by (by rewrite (lc_input Hat), !zlen_app).
  pose proof (zlen_nonneg pre). pose proof (zlen_nonneg post). rewrite i64_small by (unfold is_i64; lia). rewrite Hnum.
  destruct (load_chunk_ok _ _ _ _ _ _ _ _ _ _ _ Hat rr Hr) as (chunk & rr1 & E1 & Hr1 & ->).
  rewrite E1. cbn [mbind res_bind]. replace (off + zlen dest - (zlen pre + (zlen d + 0)) + zlen d) with k by lia.
  set (m := Z.min (zlen d - k) (n - zlen dest)). assert (Hm : 0 < m /\ k + m <= zlen d /\ zlen dest + m <= n) by lia.
  rewrite Z.gtb_ltb, (proj2 (Z.ltb_ge _ _)), (proj2 (Z.leb_gt _ _)), slice_ok by lia. cbn [mbind res_bind].
  assert (Hlen : zlen (sub k (k + m) d) = m) by (rewrite zlen_sub; lia).
  apply IH; rewrite ?zlen_app, ?Hlen; try done; try lia.
  replace (sub k (k + m) d) with (sub (off + zlen dest) (off + zlen dest + m) input).
  - rewrite Hdest at 1. rewrite sub_join by lia. f_equal. lia.
  - rewrite (lc_input Hat), Ek, <-(sub_mid pre d post k m) by lia. done.
Qed.

Lemma opened_size : i64 (h_OriginalSize hd) = zlen input.
Proof.
  destruct (ar_describes _ _ _ _ _ _ _ _ Har). destruct Hhd as [n ->]. unfold stored_header.
  destruct (h_CodebookHashes h) as [[? ?] ?]. cbn [h_OriginalSize set_table_bytes]. rewrite ds_size.
  apply i64_small. unfold is_i64. lia.
Qed.

(** A read of the mounted file: the range of the input, cut at its end. *)
Lemma archive_serves rr n off :
  ready rr -> 0 <= n -> 0 <= off -> answers (CromFile_Read n off rr) (fun r => r = Ok (sub off (off + n) input)).
Proof.
  intros Hr Hn Ho. unfold CromFile_Read, ReadAt. destruct (ready_tables rr Hr) as (-> & _ & _). rewrite opened_size.
  destruct (opened_fields (ds_version _ _ _ (ar_describes _ _ _ _ _ _ _ _ Har))) as (-> & -> & _ & ->).
  rewrite (chunks_present _ _ _ _ _ _ _ _ Har), (ds_passthrough _ _ _ (ar_describes _ _ _ _ _ _ _ _ Har)). cbn [orb].
  pose proof (zlen_nonneg input). rewrite Z.geb_leb. destruct (Z.leb_spec (zlen input) off).
  { cbn. exists (Ok []), rr. split; [done|]. split; [done|]. by rewrite sub_past. }
  destruct (sub_clipped off n input ltac:(lia) Hn) as (Hm & Hle & ->). set (m := if _ >? _ then _ else n) in *. clearbody m. destruct (Z.eq_dec m 0) as [->|Hne].
  - cbn [Z.to_nat read_loop]. cbn. exists (Ok []), rr. split; [done|]. split; [done|]. by rewrite Z.add_0_r, sub_empty.
  - destruct (read_loop_ok (S (Z.to_nat m)) m off [] rr Hr Ho Hle) as (r & rr' & E & Hr' & ->);
      rewrite ?zlen_nil, ?Z.add_0_r, ?sub_empty; try lia; [done|].
    rewrite E. cbn. eexists _, rr'. split; [done|]. split; [done|]. done.
Qed.
End mounted.
