(* ===== verification/VfsMount.v ===== *)
(** Mounting a packed file: [open_mount] succeeds on everything the packers write, and the mounted
    file serves the input, whatever is read in whatever order. *)

From S2P Require Import Prelude Binary Sha256 Externals Crypto Format FormatIO Delta Chunker Codebook.
From S2P Require Import Fractal Entropy Search Unpack Pack ChunkCodec BlockCodec RoundTrip PackFile Archive.
From S2P Require Import VfsCache VfsReader VfsRead.
Import codebook Format.

Section serve.
Context {Z0 : Zstd} {C0 : Cipher} {F0 : Files} {ZL : ZstdLaws Z0} {CL : CipherLaws C0} {F : Type} {R : ReaderAt F}.

(** A sequence of reads, each of [n] bytes at [off]. *)
Fixpoint run_reads (reads : list (Z * Z)) (rr : RandomReader (F := F)) : res (list (res bytes)) :=
  match reads with
  | [] => Ok []
  | (n, off) :: reads =>
      '(data, rr) ← CromFile_Read n off rr;
      rest ← run_reads reads rr;
      Ok (data :: rest)
  end.

(** The specification of the mounted file: it is the input. *)
Definition file_reads (input : bytes) (reads : list (Z * Z)) : list (res bytes) :=
  map (fun '(n, off) => Ok (sub off (off + n) input)) reads.

Definition in_file (reads : list (Z * Z)) : Prop := Forall (fun '(n, off) => 0 <= n /\ 0 <= off) reads.

(** An invariant of the reader under which reads are answered. *)
Definition serves (input : bytes) (I : RandomReader (F := F) -> Prop) : Prop :=
  forall rr n off, I rr -> 0 <= n -> 0 <= off ->
    exists rr', CromFile_Read n off rr = Ok (Ok (sub off (off + n) input), rr') /\ I rr'.

(** What a mount holds of its input: the size it announces, and the reads. *)
Definition mounted (input : bytes) (rr : RandomReader (F := F)) : Prop :=
  i64 (h_OriginalSize (rr_header rr)) = zlen input /\ exists I, I rr /\ serves input I.

Lemma run_reads_ok input I reads rr : serves input I -> I rr -> in_file reads -> run_reads reads rr = Ok (file_reads input reads).
Proof.
  intros Hs Hr Hreads. revert rr Hr; induction Hreads as [|[n off] reads [Hn Ho] _ IH]; intros rr Hr; [done|].
  cbn [run_reads]. destruct (Hs rr n off Hr Hn Ho) as (rr' & -> & Hr'). cbn [mbind res_bind]. by rewrite IH.
Qed.

Lemma vfs_header_size_ok h n :
  wf_header h -> 3 <= h_Version h <= 8 -> vfs_header_size (set_table_bytes n (stored_header h)) = zlen (Serialize h).2.
Proof.
  intros Hwf Hv. rewrite zlen_Serialize by (done || lia). destruct (stored_fields h n Hv) as (E1 & _ & _ & _ & _ & _ & _ & _ & E2 & _).
  unfold vfs_header_size. rewrite E1, E2. unfold header_min_size.
  destruct (version_cases (h_Version h) ltac:(lia)) as [->|[->|[->|[->|[->|[->| ->]]]]]]; done.
Qed.

(** ** Archives *)

Section archive.
Variables (ok : F -> Prop) (cb : option Reader) (dict passphrase : bytes) (h : Header) (input : bytes)
  (pss : list (list processedChunk)) (frames : list bytes) (metadata tail : bytes).
Hypothesis Har : archive cb dict passphrase h input pss frames metadata.
Context {RL : ReaderAtLaws R (metadata ++ concat frames ++ tail) ok}.

Lemma open_mount_opened (f : F) path maxMB :
  (forall r, cb = Some r -> open_brain (stored_header h) path passphrase = Ok r) ->
  exists hd, (exists n, hd = set_table_bytes n (stored_header h)) /\
    open_mount (metadata ++ concat frames ++ tail) f path passphrase maxMB =
      Ok (opened cb passphrase h pss frames metadata hd (zlen (metadata ++ concat frames ++ tail)) f (NewMemoryCache maxMB)).
Proof.
  intros Hopen. destruct (archive_read _ _ _ _ _ _ _ _ Har) as (n & Hn & Hlen & Hmeta & _).
  pose proof (ar_describes _ _ _ _ _ _ _ _ Har) as Hds. pose proof (chunks_present _ _ _ _ _ _ _ _ Har) as Hcc.
  set (hd := set_table_bytes n (stored_header h)) in *. exists hd. split; [by exists n|].
  unfold open_mount. rewrite Hmeta. cbn [wrap_err mbind res_bind].
  assert (Hbrain : (if h_UsesBrainDict hd || needs_brain (concat (entries_of pss))
     then cb ← wrap_err "mount" (open_brain hd path passphrase); Ok (Some cb) else Ok None) = Ok cb).
  { destruct (stored_fields h n (ds_version _ _ _ Hds)) as (_ & _ & _ & _ & E5 & _). fold hd in E5. rewrite E5.
    pose proof (ar_brain _ _ _ _ _ _ _ _ Har) as Hb. pose proof (ar_packed _ _ _ _ _ _ _ _ Har) as Hpk. destruct cb as [r|].
    - destruct Hb as [-> _]. cbn [orb]. change (open_brain hd path passphrase) with (open_brain (stored_header h) path passphrase).
      by rewrite (Hopen r eq_refl).
    - destruct Hb as [-> _]. by rewrite (no_brain_needed _ _ _ _ _ _ Hpk). }
  rewrite Hbrain. cbn [mbind res_bind]. unfold NewRandomReader.
  pose proof (vfs_header_size_ok h n (ds_wf _ _ _ Hds) (ds_version _ _ _ Hds)) as Hsize. fold hd in Hsize.
  destruct (stored_fields h n (ds_version _ _ _ Hds)) as (E1 & E2 & _ & _ & _ & E6 & _ & E8 & _). fold hd in E1, E2, E6, E8.
  pose proof (ds_version _ _ _ Hds). unfold Version2. rewrite E1, (proj2 (Z.ltb_ge _ _)) by lia.
  assert (Hkey : (if h_IsEncrypted hd then if zlen passphrase =? 0 then Err "vfs: file is encrypted but no key was provided"
     else Ok (Some (DeriveKey passphrase (h_Salt hd))) else Ok None) = Ok (table_key passphrase h)).
  { rewrite E2, E6. unfold table_key. pose proof (ar_passphrase _ _ _ _ _ _ _ _ Har) as Hp. destruct (h_IsEncrypted h); [|done].
    rewrite (proj2 (Z.eqb_neq _ _)); [done|]. intros E%zlen_0_nil. by apply Hp. }
  rewrite Hkey. cbn [mbind res_bind wrap_err].
  assert (Hbase : vfs_header_size hd + zlen (table_of frames) * 4 + vfs_table_size hd = zlen metadata).
  { rewrite Hsize, zlen_table_of, Hlen. unfold vfs_table_size. rewrite E8, Hcc. change (h_TableBytes hd) with n.
    rewrite Z.gtb_ltb, (proj2 (Z.ltb_lt _ _)) by lia. lia. }
  by rewrite Hbase.
Qed.

Lemma open_mount_archive f path maxMB :
  ok f -> maxMB < 2 ^ 42 -> (forall r, cb = Some r -> open_brain (stored_header h) path passphrase = Ok r) ->
  exists rr, open_mount (metadata ++ concat frames ++ tail) f path passphrase maxMB = Ok rr /\ mounted input rr.
Proof.
  intros Hf HmaxMB Hopen. destruct (open_mount_opened f path maxMB Hopen) as (hd & Hhd & ->).
  eexists. split; [done|]. split.
  { apply (opened_size cb dict passphrase h input pss frames metadata Har hd Hhd). }
  exists (ready ok cb passphrase h input pss frames metadata hd (zlen (metadata ++ concat frames ++ tail))).
  split.
  - exists f, (NewMemoryCache maxMB). split; [done|]. split; [done|]. by apply NewMemoryCache_ok.
  - intros rr k off Hr Hk Ho.
    destruct (archive_serves ok cb dict passphrase h input pss frames metadata tail Har hd
      (zlen (metadata ++ concat frames ++ tail)) Hhd rr k off Hr Hk Ho) as (r & rr' & E & Hr' & ->).
    by exists rr'.
Qed.
End archive.

(** ** Files without chunks *)

Section plain.
Variables (ok : F -> Prop) (passphrase : bytes) (h : Header) (input payload : bytes).
Hypotheses (Hplain : plain_file passphrase h input payload) (Hlen : zlen input < 2 ^ 48).
Context {RL : ReaderAtLaws R ((Serialize h).2 ++ payload) ok}.
Variables (cb : option Reader) (cache : MemoryCache).

Definition opened_plain (f : F) (plain : option bytes) : RandomReader (F := F) := {|
  rr_file := f; rr_fileSize := zlen ((Serialize h).2 ++ payload); rr_header := stored_header h; rr_blockTable := [];
  rr_blockOffsets := []; rr_entries := []; rr_blockStarts := []; rr_chunkEnds := []; rr_cb := cb; rr_memCache := cache;
  rr_derivedKey := table_key passphrase h; rr_passthroughPlain := plain; rr_dataOffset := zlen (Serialize h).2 |}.

Definition ready_plain (rr : RandomReader) : Prop :=
  exists f plain, rr = opened_plain f plain /\ ok f /\ (plain = None \/ plain = Some input).

Lemma plain_size : i64 (h_OriginalSize (stored_header h)) = zlen input.
Proof.
  destruct Hplain as [_ Hv _ _ _ Hsz _]. unfold stored_header. destruct (h_CodebookHashes h) as [[? ?] ?].
  cbn [h_OriginalSize]. rewrite Hsz. pose proof (zlen_nonneg input). apply i64_small. unfold is_i64. lia.
Qed.

Lemma decryptPassthrough_ok rr :
  ready_plain rr -> h_IsEncrypted h = true ->
  exists rr', decryptPassthrough rr = Ok (Ok input, rr') /\ ready_plain rr'.
Proof.
  intros (f & plain & -> & Hf & Hp) He. unfold decryptPassthrough. cbn [rr_passthroughPlain opened_plain].
  destruct Hp as [-> | ->]; [|exists (opened_plain f (Some input)); split; [done|]; exists f, (Some input); by auto].
  cbn [rr_file rr_dataOffset rr_fileSize opened_plain]. rewrite zlen_app, Z.add_simpl_l.
  pose proof (zlen_nonneg (Serialize h).2). pose proof (zlen_nonneg payload).
  destruct (read_at_range f (zlen (Serialize h).2) (zlen payload) Hf) as (err & f' & E & Herr & Hf'); [lia|lia|rewrite zlen_app; lia|].
  assert (Hsub : sub (zlen (Serialize h).2) (zlen (Serialize h).2 + zlen payload) ((Serialize h).2 ++ payload) = payload).
  { pose proof (sub_app_mid (zlen (Serialize h).2) (zlen (Serialize h).2 + zlen payload) (Serialize h).2 payload []) as Hs.
    rewrite app_nil_r in Hs. apply Hs; [done|lia]. }
  rewrite Hsub in E. assert (Hread : read_buf "vfs: read passthrough" f (zlen (Serialize h).2) (zlen payload) = Ok (Ok payload, f')).
  { unfold read_buf. rewrite E. cbn [mbind res_bind]. rewrite blit_full. by destruct Herr as [-> | ->]. }
  rewrite Hread. cbn [mbind res_bind rr_derivedKey set_state opened_plain].
  pose proof (pf_payload _ _ _ _ Hplain "vfs: decrypt passthrough") as Hd. unfold table_key, decrypt_block in *. rewrite He in *.
  cbn [from_option id]. rewrite Hd. eexists. split; [done|]. exists f', (Some input). split; [|by auto].
  unfold opened_plain, table_key. by rewrite He.
Qed.

Lemma plain_serves : serves input ready_plain.
Proof.
  intros rr n off Hr Hn Ho. destruct Hplain as [Hwf Hv Hc _ _ Hsz Hpl].
  assert (Hhd : h_IsEncrypted (stored_header h) = h_IsEncrypted h /\ h_ChunkCount (stored_header h) = 0 /\
    i64 (h_OriginalSize (stored_header h)) = zlen input).
  { destruct (stored_fields h 0 Hv) as (_ & E2 & _ & _ & _ & _ & _ & E8 & _). rewrite set_table_bytes_0 in *.
    split; [done|]. split; [by rewrite E8|apply plain_size]. }
  destruct Hhd as (E1 & E2 & E3). assert (Hh : rr_header rr = stored_header h) by (by destruct Hr as (? & ? & -> & _)).
  unfold CromFile_Read, ReadAt. rewrite Hh, E1, E2, E3. cbn [orb Z.eqb]. pose proof (zlen_nonneg input).
  rewrite Z.geb_leb. destruct (Z.leb_spec (zlen input) off).
  { cbn. exists rr. by rewrite sub_past. }
  destruct (sub_clipped off n input ltac:(lia) Hn) as (Hm & Hle & ->). set (m := if _ >? _ then _ else n) in *. clearbody m. destruct (h_IsEncrypted h) eqn:He.
  - destruct (decryptPassthrough_ok rr Hr He) as (rr' & -> & Hr'). cbn [mbind res_bind]. rewrite slice_ok by lia.
    cbn [mbind res_bind]. exists rr'. split; [|done]. do 3 f_equal. unfold sub. rewrite Z.add_simpl_l.
    rewrite (ztake_ge (zlen input - off)) by (rewrite zlen_zdrop; lia). done.
  - destruct Hr as (f & plain & -> & Hf & Hp). cbn [rr_file rr_dataOffset opened_plain].
    specialize (Hpl ""%string). unfold decrypt_block, table_key in Hpl. rewrite He in Hpl. injection Hpl as ->.
    pose proof (zlen_nonneg (Serialize h).2).
    destruct (read_at_range f (zlen (Serialize h).2 + off) m Hf) as (err & f' & E & Herr & Hf'); [lia|lia|rewrite zlen_app; lia|].
    rewrite E. cbn [mbind res_bind]. exists (opened_plain f' plain). split; [|by exists f', plain].
    assert (Hsub : sub (zlen (Serialize h).2 + off) (zlen (Serialize h).2 + off + m) ((Serialize h).2 ++ input) = sub off (off + m) input).
    { rewrite (sub_skip (zlen (Serialize h).2)) by (done || lia). f_equal; lia. }
    rewrite Hsub. by destruct Herr as [-> | ->].
Qed.
End plain.

Lemma open_mount_plain (ok : F -> Prop) passphrase h input payload f path maxMB :
  plain_file passphrase h input payload -> zlen input < 2 ^ 48 -> ReaderAtLaws R ((Serialize h).2 ++ payload) ok -> ok f -> (h_UsesBrainDict h = true -> exists r, open_brain (stored_header h) path passphrase = Ok r) ->
  exists rr, open_mount ((Serialize h).2 ++ payload) f path passphrase maxMB = Ok rr /\ mounted input rr.
Proof.
  intros Hplain Hlen RL Hf Hopen. pose proof Hplain as [Hwf Hv Hc Hpass _ _ _].
  destruct (stored_fields h 0 Hv) as (E1 & E2 & _ & _ & E5 & E6 & _ & E8 & _). rewrite set_table_bytes_0 in *.
  pose proof (vfs_header_size_ok h 0 Hwf Hv) as Hsize. rewrite set_table_bytes_0 in Hsize.
  assert (Hbrain : exists cb, (if h_UsesBrainDict (stored_header h) || needs_brain []
     then cb ← wrap_err "mount" (open_brain (stored_header h) path passphrase); Ok (Some cb) else Ok None) = Ok cb).
  { rewrite E5. destruct (h_UsesBrainDict h); [|by exists None]. destruct (Hopen eq_refl) as [r ->]. by exists (Some r). }
  destruct Hbrain as [cb Hbrain]. exists (opened_plain passphrase h payload cb (NewMemoryCache maxMB) f None).
  split; [|split; [by apply (plain_size passphrase h input payload)|]];
    [|exists (ready_plain ok passphrase h input payload cb (NewMemoryCache maxMB)); split; [exists f, None; by auto|by apply plain_serves]].
  unfold open_mount. rewrite ReadMetadata_payload by done. cbn [wrap_err mbind res_bind]. rewrite Hbrain. cbn [mbind res_bind].
  unfold NewRandomReader, Version2. rewrite E1, (proj2 (Z.ltb_ge _ _)) by lia.
  assert (Hkey : (if h_IsEncrypted (stored_header h) then if zlen passphrase =? 0 then Err "vfs: file is encrypted but no key was provided"
     else Ok (Some (DeriveKey passphrase (h_Salt (stored_header h)))) else Ok None) = Ok (table_key passphrase h)).
  { rewrite E2, E6. unfold table_key. destruct (h_IsEncrypted h); [|done].
    rewrite (proj2 (Z.eqb_neq _ _)); [done|]. intros E%zlen_0_nil. by apply Hpass. }
  rewrite Hkey. cbn [mbind res_bind wrap_err]. unfold vfs_table_size. rewrite E8, Hc, Hsize. cbn [Z.eqb].
  change (zlen (@nil Z)) with 0. by rewrite !Z.add_0_r.
Qed.
End serve.

(** ** Whatever was packed *)

Section mount.
Context {Z0 : Zstd} {C0 : Cipher} {F0 : Files} {hash64 : XXHash} {log2 : MathLog2} {order : MapOrder}
  {ZL : ZstdLaws Z0} {CL : CipherLaws C0} {OL : MapOrderLaws order}.
Variable hasSIMD : bool.

Lemma chunked_mounted content path cb opts pss file {F} {R : ReaderAt F} (ok : F -> Prop) f maxMB :
  chunked_file content path cb opts pss file -> ReaderAtLaws R file ok -> ok f -> maxMB < 2 ^ 42 ->
  exists rr, open_mount file f path (o_EncryptionKey opts) maxMB = Ok rr /\ mounted content rr.
Proof.
  intros (dict & h & frames & metadata & -> & Har & _ & Hopen) RL Hf Hmax. rewrite <-(app_nil_r (concat frames)) in *.
  by apply (open_mount_archive ok cb dict _ h content pss frames metadata []).
Qed.

Lemma stored_mounted input path opts file {F} {R : ReaderAt F} (ok : F -> Prop) f maxMB :
  stored_file input path opts file -> zlen input < 2 ^ 48 -> ReaderAtLaws R file ok -> ok f -> maxMB < 2 ^ 42 ->
  exists rr, open_mount file f path (o_EncryptionKey opts) maxMB = Ok rr /\ mounted input rr.
Proof. intros (h & payload & -> & Hplain & Hopen) Hlen RL Hf Hmax. by apply (open_mount_plain ok). Qed.

Lemma Pack_mounted rnd schedule input path cb opts file {F} {R : ReaderAt F} (ok : F -> Prop) f maxMB :
  rnd_ok rnd -> (forall i n, schedule i n ≡ₚ seq 0 n) ->
  brain_at path cb -> o_CodebookPaths opts = [] -> (cb = None -> o_EmbedBrain opts = false) ->
  lossless opts -> bytes_ok input -> zlen input < 2 ^ 48 ->
  (forall pl split, make_plan rnd input path opts = Ok pl -> pick_chunker opts pl = Ok split ->
     total_chunks split input <= 2 ^ 27) ->
  Pack hasSIMD rnd schedule input path opts = Ok file ->
  ReaderAtLaws R file ok -> ok f -> maxMB < 2 ^ 42 ->
  exists rr, open_mount file f path (o_EncryptionKey opts) maxMB = Ok rr /\ mounted input rr.
Proof.
  intros Hrnd Hsched Hat Hp Hembed Hll Hok Hlen Htot Epack RL Hf Hmax.
  pose proof (Pack_file hasSIMD rnd schedule input path path cb opts Hrnd Hsched Hat Hp Hembed ltac:(done) Hll Hok Hlen Htot) as H.
  rewrite Epack in H. destruct H as [(pss & H)|H]; [by apply (chunked_mounted input path cb opts pss file ok)|].
  by apply (stored_mounted input path opts file ok).
Qed.

(** [C2] A mounted file is the input. Whatever [Pack] makes of an input - chunks behind their
    tables, encrypted or not, with an embedded brain or not, or a file that was not chunked -
    [Mount] opens it through any [io.ReaderAt] that serves its bytes, and every sequence of reads,
    of any length at any offsets, in any order and with any cache size, returns exactly those
    ranges of the input, cut at its end. *)
Theorem Mount_Pack rnd schedule input path cb opts file {F} {R : ReaderAt F} (ok : F -> Prop) f maxMB :
  rnd_ok rnd -> (forall i n, schedule i n ≡ₚ seq 0 n) ->
  brain_at path cb -> o_CodebookPaths opts = [] -> (cb = None -> o_EmbedBrain opts = false) ->
  lossless opts -> bytes_ok input -> zlen input < 2 ^ 48 ->
  (forall pl split, make_plan rnd input path opts = Ok pl -> pick_chunker opts pl = Ok split ->
     total_chunks split input <= 2 ^ 27) ->
  Pack hasSIMD rnd schedule input path opts = Ok file ->
  ReaderAtLaws R file ok -> ok f -> maxMB < 2 ^ 42 ->
  exists rr, open_mount file f path (o_EncryptionKey opts) maxMB = Ok rr /\
    forall reads, in_file reads -> run_reads reads rr = Ok (file_reads input reads).
Proof.
  intros. edestruct Pack_mounted as (rr & E & _ & I & HI & Hs); [eassumption..|].
  exists rr. split; [done|]. intros reads Hreads. by apply (run_reads_ok input I).
Qed.
End mount.

(** An encrypted file with an embedded brain, and one that is too small to chunk. *)
Lemma Mount_Pack_witness :
  exists file rr, sample_pack = Ok file /\ open_mount (F0 := brain_disk) file file (str "brain") (str "key") 1 = Ok rr /\
    run_reads [(3, 1299); (2, 0); (9, 5000)] rr = Ok [Ok (sub 1299 1302 long_input); Ok [7; 7]; Ok []].
Proof.
  assert (Hok : bytes_ok long_input) by (apply bytes_ok_dec; vm_compute; reflexivity).
  pose proof (fun file => Mount_Pack (F0 := brain_disk) (log2 := log2_zero) (order := key_order) true sample_rnd
    (fun _ n => reverse (seq 0 n)) long_input (str "brain") (Some sample_reader) sample_pack_options file
    (fun f => f = file) file 1) as H.
  pose proof sample_pack_smaller as Hs. fold sample_pack in H.
  destruct sample_pack as [file|e|p]; [|discriminate Hs|discriminate Hs]. exists file.
  destruct (H file) as (rr & E & Hrun).
  - constructor; reflexivity.
  - intros _ n. apply reverse_Permutation.
  - apply sample_brain_at.
  - reflexivity.
  - discriminate.
  - split; reflexivity.
  - exact Hok.
  - vm_compute. reflexivity.
  - apply (few_chunks (F0 := brain_disk) (log2 := log2_zero) (order := key_order) _ _ _ _ (Some sample_reader)).
    + apply sample_brain_at.
    + reflexivity.
    + vm_compute. congruence.
  - reflexivity.
  - apply os_File_laws.
  - reflexivity.
  - reflexivity.
  - exists rr. split; [reflexivity|]. split; [exact E|]. rewrite Hrun; [vm_compute; reflexivity|].
    repeat constructor; discriminate.
Defined.
