(* ===== verification/Edge.v ===== *)
(** The edge mode: what is lost, and what is not.

    With a brain and [Mode = "edge"] the packers keep no residual: a chunk that is not in the brain, and
    is not a polynomial, becomes a reference to the codeword that resembles it. This file shows that
    the three packers are then [Approximator]s, and follows their output through the readers. *)

From S2P Require Import Prelude Binary Sha256 Externals Crypto Format FormatIO Delta Chunker.
From S2P Require Import Codebook Merkle Entropy Search Unpack Pack ChunkCodec BlockCodec.
From S2P Require Import RoundTrip PackFile VfsReader VfsRead VfsMount.
#[local] Open Scope Z_scope.
Import codebook Format.

(** What a chunk may come back as: itself, or the beginning of a codeword. *)
Definition resembles (cb : option Reader) (data d : bytes) : Prop :=
  d = data \/ exists r id, cb = Some r /\ 0 <= id < count r /\ d = ztake (zlen data) (codeword r id).

(** The options under which residuals are dropped, and not sealed either. *)
Class lossy (opts : PackOptions) : Prop := {
  ly_edge : is_edge opts = true;
  ly_plain : o_UseConvergentEncryption opts && negb (zlen (o_GlobalSecret opts) =? 0) = false;
}.

Section edge.
Context {Z0 : Zstd} {C0 : Cipher} {F0 : Files} {hash64 : XXHash} {log2 : MathLog2} {order : MapOrder}.
Variable hasSIMD : bool.

(** ** The size of the chunks

    Cut along the codewords, no chunk is longer than one. *)

Lemma fixed_small n data : 0 < n -> Forall (fun c => zlen (c_Data c) <= n) (FixedChunker_Split (NewFixedChunker n) data).
Proof.
  intros Hn. unfold NewFixedChunker. rewrite (proj2 (Z.leb_gt _ _)) by lia. apply Forall_lookup. intros i c Hc.
  destruct (fixed_loop_sizes (length data) n data 0 i c Hn ltac:(lia) Hc). lia.
Qed.

Lemma emit_literal_small fuel size data from to :
  0 < size -> 0 <= from -> to <= zlen data -> Forall (fun c => zlen (c_Data c) <= size) (emit_literal fuel size data from to).
Proof.
  intros Hs. revert from; induction fuel as [|fuel IH]; intros from Hf Ht; cbn [emit_literal]; [constructor|].
  destruct (Z.ltb_spec from to); [|constructor]. set (end_ := if _ >? _ then _ else _).
  assert (from < end_ <= to /\ end_ <= from + size) by (unfold end_; case_cmp; lia).
  constructor; [cbn [makeChunk c_Data]; rewrite zlen_sub; lia|]. apply IH; lia.
Qed.

Lemma aligned_small fuel ac data literalStart pos :
  0 < ac_size ac -> 0 <= literalStart -> 0 <= pos <= zlen data ->
  Forall (fun c => zlen (c_Data c) <= ac_size ac) (aligned_ref fuel ac data literalStart pos).
Proof.
  intros Hs. revert literalStart pos; induction fuel as [|fuel IH]; intros literalStart pos Hl Hp; cbn [aligned_ref]; [constructor|].
  destruct (Z.leb_spec (pos + ac_size ac) (zlen data)); [|by apply emit_literal_small].
  destruct (is_codeword _ _ _); [|apply IH; lia].
  apply Forall_app. split; [apply emit_literal_small; lia|].
  constructor; [cbn [makeChunk c_Data]; rewrite zlen_sub; lia|]. apply IH; lia.
Qed.

Lemma brain_chunker_small r split :
  good_brain r -> brain_chunker r (size r) = Ok split -> small_chunks (size r) split.
Proof.
  intros Hb. pose proof (wfr_size r (gb_wf r Hb)) as Hs. unfold brain_chunker, small_chunks. destruct (_ >=? _).
  - intros (ac & Hac & [= <-])%bind_ok data _. rewrite (Aligned_Split_eq r ac data Hb Hac).
    pose proof (NewAlignedChunker_ok r ac Hb Hac) as [Hpos _]. pose proof (zlen_nonneg data).
    assert (E : ac_size ac = size r) by (unfold NewAlignedChunker in Hac; by apply bind_ok in Hac as (w & _ & [= <-])).
    rewrite <-E. apply aligned_small; lia.
  - intros [= <-] data _. by apply fixed_small.
Qed.

(** ** One chunk *)

Lemma resembles_refl cb data : resembles cb data data.
Proof. by left. Qed.

(** A reference to a codeword, without a residual, decodes to the codeword. *)
Lemma word_approximates r id index c sim :
  good_brain r -> 0 <= id < count r -> good_chunk c -> is_u8 index -> index <> FractalCodebookIndex ->
  zlen (c_Data c) <= size r ->
  exists d, resembles (Some r) (c_Data c) d /\ zlen d = zlen (c_Data c) /\ decodes (Some r) d (word_chunk id index [] c sim).
Proof.
  intros Hb Hid Hc Hi Hf Hl. pose proof Hb as [Hwf _ Hs]. pose proof Hc as [Hok Hlen Hsz].
  pose proof (codeword_bytes r id Hb) as Hw. pose proof (zlen_codeword r id Hwf Hid) as Hwl.
  set (d := ztake (zlen (c_Data c)) (codeword r id)).
  assert (Hd : zlen d = zlen (c_Data c)) by (unfold d; rewrite zlen_ztake; lia).
  exists d. split; [right; by exists r, id|]. split; [done|].
  set (c' := {| c_Data := d; c_Offset := c_Offset c; c_Size := c_Size c; c_Hash := c_Hash c |}).
  assert (Hc' : good_chunk c').
  { constructor; cbn; [unfold d; rewrite ztake_take; by apply Forall_take|by rewrite Hd|by rewrite Hd]. }
  change (word_chunk id index [] c sim) with (word_chunk id index [] c' sim).
  change d with (c_Data c') at 1. apply exact_decodes; try done. cbn [c' c_Data]. unfold cut_pattern. rewrite Hd, Hwl.
  destruct (Z.gtb_spec (size r) (zlen (c_Data c))); [done|]. unfold d. by rewrite ztake_ge by lia.
Qed.

(** A match encoded in the edge mode is the bare reference. *)
Lemma encode_match_edge r chunkEntropy data m sim :
  wf_reader r -> 0 <= m_CodebookID m < count r ->
  encode_match true chunkEntropy data m 0 sim = {| b_sim := sim; b_res := []; b_id := m_CodebookID m; b_index := 0 |}.
Proof.
  intros Hwf Hid. destruct (codeword_id r (m_CodebookID m) Hwf Hid) as (_ & H1 & _ & _ & H2 & _).
  unfold encode_match. rewrite andb_false_r. change (u8 0) with 0.
  destruct (bytes_eqb _ _); [by rewrite H1|]. destruct (f64_leb _ sim); [|by rewrite H1].
  destruct (_ && _); [by rewrite H2|by rewrite H1].
Qed.

Section steps.
Variables (opts : PackOptions) (cb : option Reader).
Context {Hly : lossy opts}.

(** The size of the codewords; without a brain any chunk will do. *)
Definition edge_limit : Z := match cb with Some r => size r | None => BlockSize end.

Abbreviation edge_step step c :=
  (exists p ss' d, step = Ok (Ok p, ss') /\ resembles cb (c_Data c) d /\ zlen d = zlen (c_Data c) /\
    decodes cb d p /\ searchers_ok cb ss').

(** A step that keeps the chunk. *)
Lemma exact_step ss c p :
  searchers_ok cb ss -> decodes cb (c_Data c) p -> edge_step (Ok (Ok p, ss)) c.
Proof. intros Hss Hp. exists p, ss, (c_Data c). by split_and!; [|left|..]. Qed.

(** A step that keeps a reference to the best match. *)
Lemma reference_step s c sim :
  cb = Some (ls_cb s) -> ls_ok s -> good_chunk c -> zlen (c_Data c) <= edge_limit ->
  exists m s', FindBestMatch hasSIMD s (c_Data c) = Ok (m, s') /\ 0 <= m_CodebookID m < count (ls_cb s) /\
    f64_ltb (f64_of_int (-1)) (Similarity m (zlen (c_Data c) * 8)) = true /\
    edge_step (Ok (Ok (word_chunk (m_CodebookID m) 0 [] c (sim m)), [s'])) c.
Proof.
  intros Hcb Hs Hc Hl. destruct (search_match hasSIMD s c Hs Hc) as (m & s' & E & (Hid & _) & Hs' & Hsim).
  exists m, s'. do 3 (split; [done|]). unfold edge_limit in Hl. rewrite Hcb in *.
  destruct (word_approximates (ls_cb s) (m_CodebookID m) 0 c (sim m)) as (d & Hd & Hdl & Hdd); try done; [apply Hs|].
  by exists (word_chunk (m_CodebookID m) 0 [] c (sim m)), [s'], d.
Qed.

#[export] Instance pack_chunk_edge literalIfNotExact :
  Approximator cb (resembles cb) edge_limit (pack_chunk hasSIMD opts literalIfNotExact).
Proof.
  intros ss c Hss Hc Hl. unfold pack_chunk. rewrite ly_edge. cbn [negb andb].
  destruct cb as [r|] eqn:Ecb; [|cbn in Hss; subst ss; rewrite <-Ecb; by apply exact_step; rewrite Ecb; [|apply literal_decodes]].
  pose proof Hss as (s & -> & Hs & <-). rewrite <-Ecb in *.
  cbn [find_exact]. destruct (FindExact_sound s (c_Data c) Hs) as (found & -> & Hfound). cbn [mbind res_bind].
  destruct found as [id|]; cbn [mbind res_bind].
  { destruct (Hfound id eq_refl). apply exact_step; [done|]. rewrite Ecb. by apply found_decodes. }
  case_match eqn:Ef.
  { destruct (f64_leb _ _); [|done]. apply exact_step; [done|]. rewrite Ecb. by apply fractal_decodes. }
  unfold pack_near. rewrite ly_edge. cbn [best_candidate].
  destruct (reference_step s c (fun m => Similarity m (zlen (c_Data c) * 8)) Ecb Hs Hc Hl) as (m & s' & -> & Hid & Hsim & Hstep).
  rewrite Hsim, (encode_match_edge (ls_cb s)) by (done || apply Hs). cbn [b_sim].
  destruct (f64_leb (f64_lit 95 100) (Similarity m _)); cbn [mbind res_bind default from_option id b_sim b_res b_id b_index];
    unfold seal_residual; rewrite ly_plain; exact Hstep.
Qed.

#[export] Instance pack_chunk_stream_edge chunkSize :
  Approximator cb (resembles cb) edge_limit (pack_chunk_stream hasSIMD opts chunkSize).
Proof.
  intros ss c Hss Hc Hl. unfold pack_chunk_stream. rewrite ly_edge. cbn [negb andb].
  destruct cb as [r|] eqn:Ecb; [|cbn in Hss; subst ss; rewrite <-Ecb; by apply exact_step; rewrite Ecb; [|apply literal_decodes]].
  pose proof Hss as (s & -> & Hs & <-). rewrite <-Ecb in *.
  destruct (FindExact_sound s (c_Data c) Hs) as (found & -> & Hfound). cbn [mbind res_bind].
  destruct found as [id|].
  { destruct (Hfound id eq_refl). apply exact_step; [done|]. rewrite Ecb. by apply found_decodes. }
  destruct (reference_step s c (fun m => Similarity m (zlen (c_Data c) * 8)) Ecb Hs Hc Hl) as (m & s' & -> & _ & _ & Hstep).
  rewrite andb_false_r.
  replace (u32 (zlen (c_Data c))) with (c_Size c)
    by (rewrite (gc_size c Hc); symmetry; apply u32_small; destruct (chunk_bits c Hc), Hc; unfold is_u32; lia).
  exact Hstep.
Qed.
End steps.

#[export] Instance pack_chunk_bytes_edge opts chunkSize r :
  lossy opts -> Approximator (Some r) (resembles (Some r)) (size r) (pack_chunk_bytes hasSIMD opts chunkSize).
Proof.
  intros Hly ss c (s & -> & Hs & Hr) Hc Hl. assert (Ecb : Some r = Some (ls_cb s)) by by rewrite Hr.
  assert (Hss : searchers_ok (Some r) [s]) by by exists s.
  unfold pack_chunk_bytes. rewrite ly_edge. cbn [negb andb].
  destruct (FindExact_sound s (c_Data c) Hs) as (found & -> & Hfound). cbn [mbind res_bind].
  destruct found as [id|].
  { destruct (Hfound id eq_refl). apply exact_step; [done|]. rewrite Ecb. by apply found_decodes. }
  destruct (reference_step (Some r) s c (fun m => Similarity m (zlen (c_Data c) * 8)) Ecb Hs Hc Hl) as (m & s' & -> & _ & _ & Hstep).
  rewrite andb_false_r. destruct (bytes_eqb _ _); exact Hstep.
Qed.

(** ** Whole files *)

Section files.
Context {ZL : ZstdLaws Z0} {CL : CipherLaws C0} {OL : MapOrderLaws order}.

(** An exact copy resembles its original. *)
Lemma approximated_refl cb split input :
  (forall data, tiles data 0 (split data)) -> approximated (resembles cb) split input input.
Proof.
  intros Hsplit. destruct (read_blocks_full (length input) input ltac:(unfold zlen; lia)) as [_ Hcat].
  exists (input_blocks input). split; [|by symmetry]. induction (input_blocks input) as [|b bs IH]; constructor; [|done].
  split; [|done]. exists (map c_Data (split b)). split.
  - induction (split b) as [|c cs IHc]; constructor; [split; [apply resembles_refl|done]|done].
  - symmetry. etrans; [by apply (tiles_concat b 0)|apply zdrop_0].
Qed.

(** Without a brain nothing can be lost. *)
Lemma approximated_no_brain split input out :
  (forall data, tiles data 0 (split data)) -> approximated (resembles None) split input out -> out = input.
Proof.
  intros Hsplit (outs & Houts & ->). apply (approximated_eq split); [done|]. exists outs. split; [|done].
  eapply Forall2_impl; [exact Houts|]. intros b o [(ds & Hds & ->) Hl]. split; [|done]. exists ds. split; [|done].
  eapply Forall2_impl; [exact Hds|]. intros c d [[->|(r & id & [=] & _)] Hd]. done.
Qed.

(** Chunks cut for the brain fit its codewords. *)
Lemma pick_chunker_small rnd input path opts cb pl split :
  brain_at path cb -> o_CodebookPaths opts = [] -> o_UseCDC opts = false -> o_UseACAC opts = false ->
  make_plan rnd input path opts = Ok pl -> pick_chunker opts pl = Ok split -> small_chunks (edge_limit cb) split.
Proof.
  intros Hat Hp Hcdc Hacac Epl Es. destruct (make_plan_ok rnd input path opts cb Hat Hp) as (pl' & Epl' & Hcbs & Hsize & _).
  rewrite Epl in Epl'. injection Epl' as <-. pose proof Hat as [Hfit _]. destruct cb as [r|]; cbn [edge_limit].
  - assert (Ec : pl_chunkSize pl = size r).
    { revert Epl Hcbs. unfold make_plan. destruct (Analyze _ _). intros (cbs & _ & Epl)%bind_ok. apply bind_ok in Epl as (d & _ & [= <-]).
      cbn [pl_cbs pl_chunkSize]. intros ->. cbn [brains]. by rewrite Hcdc, Hacac. }
    unfold pick_chunker in Es. rewrite Hacac, Hcdc, Hcbs, Ec in Es. by apply brain_chunker_small; [apply Hfit|].
  - destruct (pick_chunker_ok opts pl None Hfit Hcbs Hsize) as (split' & Es' & Hsplit). rewrite Es in Es'. injection Es' as <-.
    by apply tiles_small.
Qed.

(** What [Pack] writes in the edge mode. *)
Lemma Pack_edge_file rnd schedule input path cb opts :
  rnd_ok rnd -> (forall i n, schedule i n ≡ₚ seq 0 n) -> brain_at path cb -> o_CodebookPaths opts = [] ->
  (cb = None -> o_EmbedBrain opts = false) -> lossy opts -> o_UseCDC opts = false -> o_UseACAC opts = false ->
  bytes_ok input -> zlen input < 2 ^ 48 ->
  (forall pl split, make_plan rnd input path opts = Ok pl -> pick_chunker opts pl = Ok split ->
     total_chunks split input <= 2 ^ 27) ->
  packs (fun file => exists pl split out, make_plan rnd input path opts = Ok pl /\ pick_chunker opts pl = Ok split /\
           approximated (resembles cb) split input out /\ (cb = None -> out = input) /\
           ((exists pss, chunked_file out path cb opts pss file) \/ out = input /\ stored_file input path opts file))
    opts (Pack hasSIMD rnd schedule input path opts).
Proof.
  intros Hrnd Hsched Hat Hp Hembed Hly Hcdc Hacac Hok Hlen Htot.
  destruct (make_plan_ok rnd input path opts cb Hat Hp) as (pl & Epl & Hcbs & Hsize & Hplkey & Hdict).
  destruct (pick_chunker_ok opts pl cb (proj1 Hat) Hcbs Hsize) as (split & Es & Hsplit).
  unfold Pack. rewrite Epl. cbn [mbind res_bind]. destruct (pl_passthrough pl) eqn:Ept.
  - destruct (pack_passthrough_ok rnd input path cb opts pl) as (file & -> & Hf); [done..|]. exists pl, split, input.
    split_and!; try done; [by apply approximated_refl|by right].
  - pose proof (chunked_input rnd input path opts pl Epl Ept) as Hlong.
    assert (Hnone : forall out, approximated (resembles cb) split input out -> cb = None -> out = input).
    { intros out Happ ->. by apply (approximated_no_brain split). }
    assert (H : packs (fun file => stored_file input path opts file \/
        exists out pss, kept input opts pl (resembles cb) out /\ zlen out = zlen input /\ chunked_file out path cb opts pss file)
      opts (pack_file hasSIMD rnd schedule input path opts pl)).
    { apply (pack_file_approx hasSIMD rnd schedule input path path cb opts pl Hrnd Hsched Hat Hp Hok Hlen Hcbs Hsize Hplkey Hdict
        (resembles cb) (edge_limit cb)); try done; [intros s; by apply (pick_chunker_small rnd input path opts cb pl)| |lia|intros s; by apply (Htot pl)].
      intros Hlossy out (split' & Es' & Happ). rewrite Es in Es'. injection Es' as <-. apply Hnone; [done|].
      revert Hlossy. unfold has_brain. rewrite Hp, ly_edge, andb_true_r. change (zlen [] =? 0) with true. rewrite orb_false_r.
      destruct Hat as [_ Ho]. destruct cb as [r|]; [|done]. destruct Ho as [Hne _].
      by rewrite (proj2 (Z.eqb_neq _ _)) by (by intros ?%zlen_0_nil). }
    unfold packs in *. destruct (pack_file _ _ _ _ _ _ _) as [file|e|p]; [|done|done].
    destruct H as [Hf|(out & pss & (split' & Es' & Happ) & _ & Hf)].
    + exists pl, split, input. split_and!; try done; [by apply approximated_refl|by right].
    + rewrite Es in Es'. injection Es' as <-. exists pl, split, out. split_and!; try done; [by apply Hnone|left; by exists pss].
Qed.

(** Such a file unpacks, whatever fuzziness was asked for when there is a brain. *)
Lemma edge_file_unpacks intn input out path cb opts uopts file :
  is_edge opts = true -> u_EncryptionKey uopts = o_EncryptionKey opts -> (cb = None -> u_Fuzziness uopts = f64_of_int 0) ->
  (exists pss, chunked_file out path cb opts pss file) \/ (out = input /\ stored_file input path opts file) ->
  Unpack intn file path uopts = Ok out.
Proof.
  intros He Hkey Hfuzz [(pss & Hfile)|[-> Hfile]].
  - destruct Hfile as (dict & h & frames & metadata & -> & Har & Hlossy & Hopen).
    apply (Unpack_packed cb dict (o_EncryptionKey opts) h out pss frames); [done|done| |done].
    rewrite Hlossy. destruct cb; [by rewrite He|by intros _; apply Hfuzz].
  - destruct Hfile as (h & payload & -> & Hplain & _). apply Unpack_plain. by rewrite Hkey.
Qed.

(** [C4] The edge mode loses only what a codeword can stand for. For every input, with or without a brain,
    whatever the worker schedule, the passphrase, the counting pass and the embedding, as long as the chunks are cut
    for the brain: [Pack] succeeds, unless the brain to embed is too large. The file unpacks - strictly or not, and
    whatever fuzziness was asked for when there is a brain - to something of the length of the input in which
    every chunk is either the chunk itself or the beginning of a codeword, and to the input itself when there is no brain;
    mounted with any cache, it reads as exactly what it unpacks to. *)
Theorem Unpack_Pack_edge rnd schedule intn input path cb opts uopts :
  rnd_ok rnd -> (forall i n, schedule i n ≡ₚ seq 0 n) -> brain_at path cb -> o_CodebookPaths opts = [] ->
  (cb = None -> o_EmbedBrain opts = false) ->
  is_edge opts = true -> o_UseConvergentEncryption opts = false -> o_UseCDC opts = false -> o_UseACAC opts = false ->
  bytes_ok input -> zlen input < 2 ^ 48 ->
  (forall pl split, make_plan rnd input path opts = Ok pl -> pick_chunker opts pl = Ok split ->
     total_chunks split input <= 2 ^ 27) ->
  u_EncryptionKey uopts = o_EncryptionKey opts -> (cb = None -> u_Fuzziness uopts = f64_of_int 0) ->
  match Pack hasSIMD rnd schedule input path opts with
  | Ok file => exists pl split out, make_plan rnd input path opts = Ok pl /\ pick_chunker opts pl = Ok split /\
      approximated (resembles cb) split input out /\ zlen out = zlen input /\ (cb = None -> out = input) /\
      Unpack intn file path uopts = Ok out /\
      forall F (R : ReaderAt F) (ok : F -> Prop) f maxMB, ReaderAtLaws R file ok -> ok f -> maxMB < 2 ^ 42 ->
        exists rr, open_mount file f path (o_EncryptionKey opts) maxMB = Ok rr /\
          forall reads, in_file reads -> run_reads reads rr = Ok (file_reads out reads)
  | Err e => o_EmbedBrain opts = true /\ e = "pack: embedded brain exceeds the format limit"%string
  | Panic _ => False
  end.
Proof.
  intros Hrnd Hsched Hat Hp Hembed He Hu Hcdc Hacac Hok Hlen Htot Hkey Hfuzz.
  assert (Hly : lossy opts) by (split; [done|by rewrite Hu]).
  pose proof (Pack_edge_file rnd schedule input path cb opts Hrnd Hsched Hat Hp Hembed Hly Hcdc Hacac Hok Hlen Htot) as H.
  destruct (Pack _ _ _ _ _ _) as [file|e|p]; [|exact H|exact H].
  destruct H as (pl & split & out & Epl & Es & Happ & Hnone & Hfile). exists pl, split, out. do 3 (split; [done|]).
  pose proof (approximated_len _ _ _ _ Happ) as Hol. do 2 (split; [done|]).
  split; [by apply (edge_file_unpacks intn input out path cb opts uopts file)|]. intros F R ok f maxMB RL Hf Hmax.
  destruct Hfile as [(pss & Hfile)|[-> Hfile]].
  - destruct (chunked_mounted out path cb opts pss file ok f maxMB Hfile RL Hf Hmax) as (rr & E & _ & I & HI & Hs).
    exists rr. split; [done|]. intros reads Hreads. by apply (run_reads_ok out I).
  - destruct (stored_mounted input path opts file ok f maxMB Hfile Hlen RL Hf Hmax) as (rr & E & _ & I & HI & Hs).
    exists rr. split; [done|]. intros reads Hreads. by apply (run_reads_ok input I).
Qed.

(** The in-memory API: the chunks are always cut for the brain. *)
Theorem UnpackBytes_PackBytes_edge input codebookData r opts :
  OpenFromBytes codebookData = Ok r -> good_brain r -> 0 < count r ->
  is_edge opts = true -> o_UseConvergentEncryption opts = false ->
  bytes_ok input -> 0 < zlen input <= 2 ^ 27 ->
  exists file split out, PackBytes hasSIMD input codebookData opts = Ok file /\
    brain_chunker r (size r) = Ok split /\ approximated (resembles (Some r)) split input out /\ zlen out = zlen input /\
    (forall exact, UnpackBytes file codebookData [] exact = Ok out) /\
    (forall intn path uopts, path <> [] -> Open path = Ok r -> u_EncryptionKey uopts = [] -> Unpack intn file path uopts = Ok out).
Proof.
  intros Hopen Hb Hc He Hu Hok Hl. assert (Hly : lossy opts) by (split; [done|by rewrite Hu]).
  destruct (PackBytes_approx hasSIMD (resembles (Some r)) (size r) input codebookData r opts Hopen (opened_hash _ _ Hopen Hb)
    (conj Hb Hc)) as (dict & h & split & out & pss & frames & metadata & E & Es & Happ & Har & _ & Hm & Hlossy); try done.
  { intros split. by apply brain_chunker_small. }
  { by rewrite He. }
  exists (metadata ++ concat frames), split, out. do 3 (split; [done|]). split; [by eapply approximated_len|]. split.
  - intros exact. by apply (UnpackBytes_packed (Some r) dict [] h out pss frames metadata Har r).
  - intros intn path uopts Hpath Hop Hkey. apply (Unpack_packed (Some r) dict [] h out pss frames metadata Har); [done| |].
    + by rewrite Hlossy, He.
    + intros r' [= <-]. by apply open_brain_path, Har.
Qed.

(** A pipe, under the same conditions as a file. *)
Theorem Unpack_PackStream_edge schedule intn input path cb opts uopts :
  let chunker := stream_chunker opts cb (stream_chunkSize opts cb) in
  brain_at path cb -> is_edge opts = true -> o_UseConvergentEncryption opts = false ->
  o_UseCDC opts = false -> o_UseACAC opts = false -> (forall i n, schedule i n ≡ₚ seq 0 n) ->
  bytes_ok input -> 0 < zlen input < 2 ^ 48 ->
  (forall split, chunker = Ok split -> total_chunks split input <= 2 ^ 27) ->
  u_EncryptionKey uopts = [] -> (cb = None -> u_Fuzziness uopts = f64_of_int 0) ->
  exists file split out, PackStream hasSIMD schedule input path opts = Ok file /\ chunker = Ok split /\
    approximated (resembles cb) split input out /\ zlen out = zlen input /\ (cb = None -> out = input) /\
    Unpack intn file path uopts = Ok out.
Proof.
  intros chunker Hat He Hu Hcdc Hacac Hsched Hok Hl Htot Hkey Hfuzz.
  assert (Hly : lossy opts) by (split; [done|by rewrite Hu]). pose proof Hat as [Hfit _].
  assert (Hsplit : forall split, chunker = Ok split -> forall data, tiles data 0 (split data)).
  { intros split E. destruct (stream_chunker_ok opts cb (stream_chunkSize opts cb) Hfit) as (split' & E' & Ht).
    unfold chunker in E. rewrite E in E'. by injection E' as <-. }
  assert (Hsmall : forall split, chunker = Ok split -> small_chunks (edge_limit cb) split).
  { intros split E. destruct cb as [r|]; [|by apply tiles_small, Hsplit].
    unfold chunker, stream_chunker, stream_chunkSize in E. rewrite Hcdc, Hacac in E. by apply brain_chunker_small; [apply Hfit|]. }
  assert (Hnone : forall split out, chunker = Ok split -> approximated (resembles cb) split input out -> cb = None -> out = input).
  { intros split out E Happ ->. by apply (approximated_no_brain split); [apply Hsplit|]. }
  destruct (PackStream_approx hasSIMD (resembles cb) (edge_limit cb) schedule input path cb opts Hat Hsmall)
    as (dict & h & split & out & pss & frames & metadata & -> & Es & Happ & Har & _ & Hlossy & Hopen); try done.
  { rewrite He, andb_true_r. intros Hcb split out Es Happ. apply (Hnone split out Es Happ). by destruct cb. }
  exists (metadata ++ concat frames), split, out. do 3 (split; [done|]). split; [by eapply approximated_len|].
  split; [by apply (Hnone split)|]. rewrite <-Hkey in Har. apply (Unpack_packed cb dict (u_EncryptionKey uopts) h out pss frames metadata Har); [done| |by rewrite Hkey].
  rewrite Hlossy, He, andb_true_r. destruct cb; [done|by intros _; apply Hfuzz].
Qed.
End files.
End edge.

(** ** Witnesses *)

Definition sample_edge_options : PackOptions := {|
  o_Mode := "edge"; o_CodebookPaths := []; o_EncryptionKey := str "key"; o_UseConvergentEncryption := false;
  o_GlobalSecret := []; o_ChunkSize := 0; o_UseCDC := false; o_UseACAC := false; o_ACACDelimiter := 0;
  o_MultiPass := true; o_MaxCompression := false; o_EmbedBrain := false |}.

Definition edge_pack (opts : PackOptions) (input : bytes) : res bytes :=
  Pack (F0 := brain_disk) (log2 := log2_minus8) (order := key_order) true sample_rnd (fun _ n => reverse (seq 0 n)) input
    (str "brain") opts.

Definition edge_unpack (key : bytes) (file : bytes) : res bytes :=
  Unpack (F0 := brain_disk) (fun _ => 0) file (str "brain")
    {| u_Fuzziness := f64_of_int 3; u_EncryptionKey := key; u_Strict := true |}.

(** Variational fuzziness is asked for, and ignored; the runs of sevens come back as codewords. *)
Lemma Unpack_Pack_edge_witness :
  exists file out, edge_pack sample_edge_options long_input = Ok file /\ edge_unpack (str "key") file = Ok out /\
    zlen out = zlen long_input /\ out <> long_input.
Proof.
  pose proof (Unpack_Pack_edge (F0 := brain_disk) (log2 := log2_minus8) (order := key_order) true sample_rnd
    (fun _ n => reverse (seq 0 n)) (fun _ => 0) long_input (str "brain") (Some sample_reader) sample_edge_options
    {| u_Fuzziness := f64_of_int 3; u_EncryptionKey := str "key"; u_Strict := true |}) as H. fold (edge_pack sample_edge_options long_input) in H.
  assert (Hfile : match edge_pack sample_edge_options long_input with
    | Ok file => match edge_unpack (str "key") file with Ok out => negb (bytes_eqb out long_input) | _ => false end
    | _ => false end = true) by (vm_compute; reflexivity).
  destruct (edge_pack sample_edge_options long_input) as [file|e|p]; [|discriminate Hfile|discriminate Hfile].
  destruct H as (pl & split & out & _ & _ & _ & Hlen & _ & Hun & _).
  - constructor; reflexivity.
  - intros _ n. apply reverse_Permutation.
  - apply sample_brain_at.
  - reflexivity.
  - discriminate.
  - reflexivity.
  - reflexivity.
  - reflexivity.
  - reflexivity.
  - apply long_input_ok.
  - vm_compute. reflexivity.
  - apply (few_chunks (F0 := brain_disk) (log2 := log2_minus8) (order := key_order) _ _ _ _ (Some sample_reader));
      [apply sample_brain_at|reflexivity|vm_compute; congruence].
  - reflexivity.
  - discriminate.
  - exists file, out. split; [reflexivity|]. split; [exact Hun|]. split; [exact Hlen|]. intros ->.
    unfold edge_unpack in Hfile. rewrite Hun, bytes_eqb_refl in Hfile. discriminate Hfile.
Defined.

(** The condition on the chunker is needed: a content-defined chunk can be longer than the codewords, and then
    the file comes back shorter than it was, without an error. *)
Definition sample_cdc_options : PackOptions := {|
  o_Mode := "edge"; o_CodebookPaths := []; o_EncryptionKey := []; o_UseConvergentEncryption := false;
  o_GlobalSecret := []; o_ChunkSize := 64; o_UseCDC := true; o_UseACAC := false; o_ACACDelimiter := 0;
  o_MultiPass := false; o_MaxCompression := false; o_EmbedBrain := false |}.

Definition varied_input : bytes := map (fun i => (7 * i + i * i / 3) mod 251) (seqZ 0 300).

Example edge_cdc_truncates :
  match edge_pack sample_cdc_options varied_input with
  | Ok file => match edge_unpack [] file with Ok out => zlen out <? zlen varied_input | _ => false end
  | _ => false
  end = true.
Proof. vm_compute. reflexivity. Qed.

Lemma UnpackBytes_PackBytes_edge_witness :
  exists file out,
    PackBytes (log2 := log2_minus8) (order := key_order) true sample_input sample_brain sample_edge_options = Ok file /\
    (forall exact, UnpackBytes file sample_brain [] exact = Ok out) /\ zlen out = zlen sample_input.
Proof.
  destruct (UnpackBytes_PackBytes_edge (F0 := brain_disk) (log2 := log2_minus8) (order := key_order) true sample_input sample_brain
    sample_reader sample_edge_options) as (file & split & out & H1 & _ & _ & H2 & H3 & _).
  - vm_compute. reflexivity.
  - apply good_sample_reader.
  - reflexivity.
  - reflexivity.
  - reflexivity.
  - apply sample_input_ok.
  - vm_compute. split; congruence.
  - exists file, out. split; [exact H1|]. split; [exact H3|exact H2].
Defined.
