(* ===== verification/Mutation.v ===== *)
(** [pkg/cromlib/mutator.go] and [internal/vfs/writer.go]: the mutation log at the end of a file,
    and the write-ahead log of a mounted one.

    The log is flushed by a background worker, by [Flush] of the file system and by [Close]. Only
    the buffer is under the lock: the flushes themselves run side by side, which [wal_step] models
    thread by thread, one system call a step. *)

From S2P Require Import Prelude Binary Sha256 Externals Crypto Format FormatIO Delta Chunker Codebook.
From S2P Require Import Fractal Entropy Search Unpack Pack ChunkCodec BlockCodec RoundTrip PackFile Archive.
From S2P Require Import VfsCache VfsReader VfsRead VfsMount.
Import codebook Format.

(** ** Appending a record *)

(** [header.Bytes()] of the record for [patchBytes], stamped [now]. *)
Definition mutation_header (now : Z) (patchBytes : bytes) : V9MutationHeader :=
  {| mh_Magic := str "CMUT"; mh_Timestamp := now; mh_DiffPatchSize := u32 (zlen patchBytes) |}.

(** The descriptor is positioned at the end, then the header and the patch are written there. *)
Definition AppendMutation (now : Z) (patchBytes file : bytes) : bytes :=
  let pos := zlen file in
  let header := V9MutationHeader_Bytes (mutation_header now patchBytes) in
  let file := file_write pos header file in
  if zlen patchBytes >? 0 then file_write (pos + zlen header) patchBytes file else file.

(** ** The write-ahead log *)

Record WriteAheadLog := {
  wal_buffer : bytes;
  wal_lastWriteTime : Z;
  wal_done : bool;
}.

Definition NewWriteAheadLog : WriteAheadLog := {| wal_buffer := []; wal_lastWriteTime := 0; wal_done := false |}.

(** [Append]: the offset of the write is not kept. *)
Definition wal_Append (now : Z) (data : bytes) (offset : Z) (wal : WriteAheadLog) : WriteAheadLog :=
  {| wal_buffer := wal_buffer wal ++ data; wal_lastWriteTime := now; wal_done := wal_done wal |}.

Definition wal_reset (wal : WriteAheadLog) : WriteAheadLog :=
  {| wal_buffer := []; wal_lastWriteTime := wal_lastWriteTime wal; wal_done := wal_done wal |}.

(** [commitToDisk]; [opened] tells whether the file could be opened. Times are in nanoseconds, the
    stamp of a record in seconds. *)
Definition commitToDisk (opened : bool) (now : Z) (payload disk : bytes) : res unit * bytes :=
  if opened then (Ok tt, AppendMutation (now / 1000000000) payload disk) else (Err "open", disk).

(** The error of a flush is printed and dropped. *)
Definition tryFlush (opened : bool) (now : Z) (wal : WriteAheadLog) (disk : bytes) : WriteAheadLog * bytes :=
  if (zlen (wal_buffer wal) =? 0) || (now - wal_lastWriteTime wal <? 1000000000) then (wal, disk)
  else (wal_reset wal, snd (commitToDisk opened now (wal_buffer wal) disk)).

Definition forceFlush (opened : bool) (now : Z) (wal : WriteAheadLog) (disk : bytes) : WriteAheadLog * bytes :=
  if zlen (wal_buffer wal) =? 0 then (wal, disk)
  else (wal_reset wal, snd (commitToDisk opened now (wal_buffer wal) disk)).

Definition wal_Close (opened : bool) (now : Z) (wal : WriteAheadLog) (disk : bytes) : WriteAheadLog * bytes :=
  forceFlush opened now {| wal_buffer := wal_buffer wal; wal_lastWriteTime := wal_lastWriteTime wal; wal_done := true |} disk.

(** ** Flushes one after the other *)

Inductive wal_op :=
  | OpWrite (now : Z) (data : bytes) (offset : Z)
  | OpTick (opened : bool) (now : Z)
  | OpFlush (opened : bool) (now : Z).

Definition run_op (op : wal_op) (s : WriteAheadLog * bytes) : WriteAheadLog * bytes :=
  match op with
  | OpWrite now data offset => (wal_Append now data offset s.1, s.2)
  | OpTick opened now => tryFlush opened now s.1 s.2
  | OpFlush opened now => forceFlush opened now s.1 s.2
  end.

Definition run_ops (ops : list wal_op) (s : WriteAheadLog * bytes) : WriteAheadLog * bytes := foldl (fun s op => run_op op s) s ops.

Definition written (op : wal_op) : bytes := match op with OpWrite _ data _ => data | _ => [] end.
Definition op_time (op : wal_op) : Z := match op with OpWrite now _ _ | OpTick _ now | OpFlush _ now => now end.
Definition opens (op : wal_op) : bool := match op with OpWrite _ _ _ => true | OpTick o _ => o | OpFlush o _ => o end.

(** The records of a log, each with its time. *)
Definition mutation_record (r : Z * bytes) : bytes := V9MutationHeader_Bytes (mutation_header r.1 r.2) ++ r.2.
Definition log_of (records : list (Z * bytes)) : bytes := concat (map mutation_record records).

(** ** Flushes side by side *)

(** Where a flush is: the payload it took, and the position of its descriptor. *)
Inductive flush_pc :=
  | Idle
  | Taken (payload : bytes)
  | Seeked (payload : bytes) (pos : Z)
  | HeaderDone (payload : bytes) (pos : Z).

Record wal_state := {
  ws_wal : WriteAheadLog;
  ws_thread : nat -> flush_pc;
  ws_disk : bytes;
}.

Definition set_thread (t : nat) (pc : flush_pc) (s : wal_state) : wal_state :=
  {| ws_wal := ws_wal s; ws_thread := fun i => if decide (i = t) then pc else ws_thread s i; ws_disk := ws_disk s |}.

Definition write_disk (pos : Z) (data : bytes) (s : wal_state) : wal_state :=
  {| ws_wal := ws_wal s; ws_thread := ws_thread s; ws_disk := file_write pos data (ws_disk s) |}.

(** One step of a writer, of the worker (thread 0) or of a flush. *)
Inductive wal_step : wal_state -> wal_state -> Prop :=
  | step_write now data offset s :
      wal_step s {| ws_wal := wal_Append now data offset (ws_wal s); ws_thread := ws_thread s; ws_disk := ws_disk s |}
  | step_take t now s :
      ws_thread s t = Idle -> wal_buffer (ws_wal s) <> [] ->
      (t = O -> wal_done (ws_wal s) = false /\ 1000000000 <= now - wal_lastWriteTime (ws_wal s)) ->
      wal_step s (set_thread t (Taken (wal_buffer (ws_wal s)))
        {| ws_wal := wal_reset (ws_wal s); ws_thread := ws_thread s; ws_disk := ws_disk s |})
  | step_fail t payload s :
      ws_thread s t = Taken payload -> wal_step s (set_thread t Idle s)
  | step_seek t payload s :
      ws_thread s t = Taken payload -> wal_step s (set_thread t (Seeked payload (zlen (ws_disk s))) s)
  | step_header t now payload pos s :
      ws_thread s t = Seeked payload pos ->
      wal_step s (set_thread t (HeaderDone payload (pos + V9MutationHeaderSize))
        (write_disk pos (V9MutationHeader_Bytes (mutation_header now payload)) s))
  | step_close s :
      wal_step s {| ws_wal := {| wal_buffer := wal_buffer (ws_wal s); wal_lastWriteTime := wal_lastWriteTime (ws_wal s);
        wal_done := true |}; ws_thread := ws_thread s; ws_disk := ws_disk s |}
  | step_payload t payload pos s :
      ws_thread s t = HeaderDone payload pos -> wal_step s (set_thread t Idle (write_disk pos payload s)).

(** ** Lemmas *)

(** A write past the end of [base] leaves [base] alone. *)
Lemma file_write_past base tail pos data :
  zlen base <= pos -> file_write pos data (base ++ tail) = base ++ file_write (pos - zlen base) data tail.
Proof.
  intros Hp. pose proof (zlen_nonneg base). pose proof (zlen_nonneg data). unfold file_write.
  rewrite zlen_app, zdrop_app_ge by lia. replace (pos + zlen data - zlen base) with (pos - zlen base + zlen data) by lia.
  replace (pos - (zlen base + zlen tail)) with (pos - zlen base - zlen tail) by lia.
  assert (Ht : ztake pos (base ++ tail) = base ++ ztake (pos - zlen base) tail); [|by rewrite Ht, <-app_assoc].
  unfold zlen in *. rewrite !ztake_take, take_app_ge by lia. do 2 f_equal. lia.
Qed.

Lemma file_write_end base data : file_write (zlen base) data base = base ++ data.
Proof.
  rewrite <-(app_nil_r base) at 2. rewrite file_write_past, Z.sub_diag by lia. f_equal. apply app_nil_r.
Qed.

Lemma zlen_mutation_header now patch : zlen (V9MutationHeader_Bytes (mutation_header now patch)) = V9MutationHeaderSize.
Proof. reflexivity. Qed.

Lemma AppendMutation_record now patch file : AppendMutation now patch file = file ++ mutation_record (now, patch).
Proof.
  unfold AppendMutation, mutation_record. cbv zeta. cbn [fst snd]. rewrite file_write_end.
  set (header := V9MutationHeader_Bytes _). rewrite <-zlen_app, file_write_end, <-app_assoc.
  destruct (Z.gtb_spec (zlen patch) 0); [done|]. assert (patch = []) as ->; [|by rewrite app_nil_r].
  apply zlen_0_nil. pose proof (zlen_nonneg patch). lia.
Qed.

(** ** The log on disk *)

(** The payload in the buffer reaches the log, or stays in the buffer. *)
Lemma run_op_log op wal disk :
  opens op = true ->
  let '(wal', disk') := run_op op (wal, disk) in
  exists records, disk' = disk ++ log_of records /\ Forall (fun r => r.2 <> []) records /\
    concat (map snd records) ++ wal_buffer wal' = wal_buffer wal ++ written op /\
    Forall (fun r => r.1 = op_time op / 1000000000) records.
Proof.
  assert (Hnone : exists records, disk = disk ++ log_of records /\ Forall (fun r => r.2 <> []) records /\
    concat (map snd records) ++ wal_buffer wal = wal_buffer wal ++ [] /\
    Forall (fun r => r.1 = op_time op / 1000000000) records).
  { exists []. by rewrite !app_nil_r. }
  assert (Hone : (zlen (wal_buffer wal) =? 0) = false ->
    exists records, AppendMutation (op_time op / 1000000000) (wal_buffer wal) disk = disk ++ log_of records /\ Forall (fun r => r.2 <> []) records /\
      concat (map snd records) ++ [] = wal_buffer wal ++ [] /\
      Forall (fun r => r.1 = op_time op / 1000000000) records).
  { intros Hne. exists [(op_time op / 1000000000, wal_buffer wal)]. rewrite AppendMutation_record. unfold log_of. cbn [map concat snd].
    rewrite !app_nil_r. split; [done|]. split; [repeat constructor; cbn [snd]; by intros E; rewrite E in Hne|]. by repeat constructor. }
  destruct op as [now data offset|opened now|opened now]; cbn [opens run_op fst snd written].
  - intros _. exists []. unfold log_of. cbn [map concat wal_buffer wal_Append]. by rewrite app_nil_r.
  - intros ->. unfold tryFlush. destruct (zlen (wal_buffer wal) =? 0) eqn:E; [done|]. cbn [orb].
    destruct (_ <? _); [done|]. by apply Hone.
  - intros ->. unfold forceFlush. destruct (zlen (wal_buffer wal) =? 0) eqn:E; [done|]. by apply Hone.
Qed.

Lemma is_i64_seconds t : is_i64 t -> is_i64 (t / 1000000000).
Proof. unfold is_i64. Z.to_euclidean_division_equations. lia. Qed.

Lemma run_ops_log ops wal disk :
  Forall (fun op => opens op = true /\ is_i64 (op_time op)) ops ->
  let '(wal', disk') := run_ops ops (wal, disk) in
  exists records, disk' = disk ++ log_of records /\ Forall (fun r => r.2 <> [] /\ is_i64 r.1) records /\
    concat (map snd records) ++ wal_buffer wal' = wal_buffer wal ++ concat (map written ops).
Proof.
  intros Hops. revert wal disk; induction Hops as [|op ops [Ho Ht] _ IH]; intros wal disk.
  { exists []. unfold run_ops, log_of. cbn. by rewrite !app_nil_r. }
  unfold run_ops in *. cbn [foldl map concat]. pose proof (run_op_log op wal disk Ho) as H1.
  destruct (run_op op (wal, disk)) as [wal1 disk1]. destruct H1 as (r1 & -> & N1 & E1 & T1).
  specialize (IH wal1 (disk ++ log_of r1)). destruct (foldl _ _ ops) as [wal2 disk2]. destruct IH as (r2 & -> & N2 & E2).
  exists (r1 ++ r2). unfold log_of in *. rewrite map_app, map_app, !concat_app, <-!app_assoc. split; [done|]. split.
  - apply Forall_app. split; [|done]. apply Forall_forall. intros r Hr. split; [by apply (proj1 (Forall_forall _ _) N1)|].
    rewrite (proj1 (Forall_forall _ _) T1 r Hr). by apply is_i64_seconds.
  - by rewrite E2, app_assoc, E1, <-app_assoc.
Qed.

(** Reading a log back, record by record. *)
Fixpoint read_log (fuel : nat) (log : bytes) : res (list (Z * bytes)) :=
  match fuel with
  | O => Ok []
  | S fuel =>
      if zlen log =? 0 then Ok [] else
      header ← ParseV9MutationHeader log;
      payload ← slice log V9MutationHeaderSize (V9MutationHeaderSize + mh_DiffPatchSize header);
      rest ← slice log (V9MutationHeaderSize + mh_DiffPatchSize header) (zlen log);
      records ← read_log fuel rest;
      Ok ((mh_Timestamp header, payload) :: records)
  end.

Lemma read_log_of records fuel :
  Forall (fun r => is_i64 r.1 /\ is_u32 (zlen r.2)) records -> (length records <= fuel)%nat ->
  read_log fuel (log_of records) = Ok records.
Proof.
  intros Hr. revert fuel; induction Hr as [|[now patch] records [Ht Hs] _ IH]; intros fuel Hf; [by destruct fuel|].
  destruct fuel as [|fuel]; [cbn in Hf; lia|]. cbn [length] in Hf. cbn [fst snd] in *. cbn [read_log].
  assert (E : log_of ((now, patch) :: records) =
    V9MutationHeader_Bytes (mutation_header now patch) ++ patch ++ log_of records).
  { unfold log_of, mutation_record. cbn [map concat fst snd]. by rewrite <-app_assoc. }
  pose proof (zlen_mutation_header now patch) as Hh. unfold V9MutationHeaderSize in *. pose proof (zlen_nonneg patch).
  pose proof (zlen_nonneg (log_of records)). rewrite E, (proj2 (Z.eqb_neq _ _)) by (rewrite !zlen_app; lia).
  rewrite ParseV9MutationHeader_Bytes; [|done|done|cbn; rewrite u32_small by done; done]. cbn [mbind res_bind mh_DiffPatchSize mh_Timestamp mutation_header].
  rewrite u32_small by done. rewrite !(slice_skip 16 (V9MutationHeader_Bytes _)) by (done || lia). rewrite (slice_here (zlen patch) patch _ (16 - 16)) by (done || lia).
  cbn [mbind res_bind]. rewrite (slice_skip (zlen patch) patch) by (done || lia). rewrite !zlen_app, Hh.
  rewrite slice_ok by lia. cbn [mbind res_bind].
  replace (sub _ _ (log_of records)) with (log_of records).
  - by rewrite IH by lia.
  - unfold sub. replace (16 + zlen patch - 16 - zlen patch) with 0 by lia. rewrite zdrop_0, ztake_ge by lia. done.
Qed.

Lemma log_length records : (length records <= length (log_of records))%nat.
Proof.
  unfold log_of. induction records as [|r records IH]; cbn [map concat length]; [lia|]. rewrite length_app.
  unfold mutation_record at 1. rewrite length_app. change (length (V9MutationHeader_Bytes _)) with 16%nat. lia.
Qed.

Lemma zlen_concat_le {A} (x : list A) ls : x ∈ ls -> zlen x <= zlen (concat ls).
Proof.
  intros Hx. apply list_elem_of_split in Hx as (l1 & l2 & ->). rewrite concat_mid, !zlen_app.
  pose proof (zlen_nonneg (concat l1)). pose proof (zlen_nonneg (concat l2)). lia.
Qed.

(** [C25] No write is lost, and none is reordered, while the flushes do not overlap. After any
    sequence of writes, ticks of the worker and flushes in which the file can be opened, [Close]
    leaves an empty buffer and a file that is the old one followed by a log: the log reads back
    as records that are never empty, and their payloads are the data written, in order. *)
Theorem wal_Close_log ops now disk :
  Forall (fun op => opens op = true /\ is_i64 (op_time op)) ops -> is_i64 now -> zlen (concat (map written ops)) < 2 ^ 32 ->
  let '(wal, disk') := let '(wal, disk) := run_ops ops (NewWriteAheadLog, disk) in wal_Close true now wal disk in
  exists log records, disk' = disk ++ log /\ wal_buffer wal = [] /\ read_log (S (length log)) log = Ok records /\
    Forall (fun r => r.2 <> []) records /\ concat (map snd records) = concat (map written ops).
Proof.
  intros Hops Hnow Hlen. pose proof (run_ops_log ops NewWriteAheadLog disk Hops) as H.
  destruct (run_ops ops (NewWriteAheadLog, disk)) as [wal disk1]. destruct H as (rs & -> & Hrs & E). cbn [wal_buffer NewWriteAheadLog app] in E.
  unfold wal_Close.
  pose proof (run_op_log (OpFlush true now) {| wal_buffer := wal_buffer wal; wal_lastWriteTime := wal_lastWriteTime wal; wal_done := true |}
    (disk ++ log_of rs) eq_refl) as H. cbn [run_op fst snd written] in H.
  assert (Hempty : forall opened d, wal_buffer (forceFlush opened now {| wal_buffer := wal_buffer wal;
    wal_lastWriteTime := wal_lastWriteTime wal; wal_done := true |} d).1 = []).
  { intros opened d. unfold forceFlush. cbn [wal_buffer]. destruct (Z.eqb_spec (zlen (wal_buffer wal)) 0) as [Hz|]; [|done].
    by apply zlen_0_nil in Hz. }
  specialize (Hempty true (disk ++ log_of rs)). destruct (forceFlush _ _ _ _) as [wal' disk']. cbn [fst] in Hempty.
  destruct H as (r2 & -> & N2 & E2 & T2). rewrite Hempty, !app_nil_r in E2. cbn [wal_buffer] in E2.
  assert (Hall : Forall (fun r => r.2 <> [] /\ is_i64 r.1) (rs ++ r2)).
  { apply Forall_app. split; [done|]. apply Forall_forall. intros r Hr. split; [by apply (proj1 (Forall_forall _ _) N2)|].
    rewrite (proj1 (Forall_forall _ _) T2 r Hr). by apply is_i64_seconds. }
  assert (Hcat : concat (map snd (rs ++ r2)) = concat (map written ops)) by (by rewrite map_app, concat_app, E2).
  exists (log_of (rs ++ r2)), (rs ++ r2). split; [unfold log_of; by rewrite map_app, concat_app, app_assoc|]. split; [done|].
  split; [|split; [|done]].
  - apply read_log_of.
    + apply Forall_forall. intros r Hr. split; [by apply (proj1 (Forall_forall _ _) Hall)|].
      pose proof (zlen_concat_le r.2 (map snd (rs ++ r2))) as Hl. rewrite Hcat in Hl.
      specialize (Hl (list_elem_of_fmap_2 snd _ _ Hr)). pose proof (zlen_nonneg r.2). unfold is_u32. lia.
    + pose proof (log_length (rs ++ r2)). lia.
  - apply Forall_forall. intros r Hr. by apply (proj1 (Forall_forall _ _) Hall).
Qed.

Lemma wal_Close_log_witness :
  let ops := [OpWrite 0 [1; 2] 10; OpTick true 500000000; OpWrite 600000000 [3] 0; OpTick true 1700000000; OpWrite 1800000000 [4] 7] in
  let '(wal, disk') := let '(wal, disk) := run_ops ops (NewWriteAheadLog, [7; 7; 7]) in wal_Close true 1900000000 wal disk in
  exists log records, disk' = [7; 7; 7] ++ log /\ wal_buffer wal = [] /\ read_log (S (length log)) log = Ok records /\
    Forall (fun r => r.2 <> []) records /\ concat (map snd records) = [1; 2; 3; 4].
Proof.
  apply (wal_Close_log [OpWrite 0 [1; 2] 10; OpTick true 500000000; OpWrite 600000000 [3] 0; OpTick true 1700000000;
    OpWrite 1800000000 [4] 7] 1900000000 [7; 7; 7]).
  - repeat constructor; vm_compute; congruence.
  - vm_compute. split; congruence.
  - vm_compute. reflexivity.
Defined.

(** ** Any interleaving *)

Definition fresh_wal (disk : bytes) : wal_state := {| ws_wal := NewWriteAheadLog; ws_thread := fun _ => Idle; ws_disk := disk |}.

(** No flush writes before the end of [base]. *)
Definition wal_inv (base : bytes) (s : wal_state) : Prop :=
  (exists tail, ws_disk s = base ++ tail) /\
  forall t, match ws_thread s t with Seeked _ pos | HeaderDone _ pos => zlen base <= pos | _ => True end.

Lemma wal_inv_thread base t pc s :
  wal_inv base s -> match pc with Seeked _ pos | HeaderDone _ pos => zlen base <= pos | _ => True end -> wal_inv base (set_thread t pc s).
Proof. intros [Hd Ht] Hpc. split; [done|]. intros i. cbn [ws_thread set_thread]. destruct (decide (i = t)); [done|apply Ht]. Qed.

Lemma wal_inv_write base pos data s : wal_inv base s -> zlen base <= pos -> wal_inv base (write_disk pos data s).
Proof.
  intros [[tail Hd] Ht] Hp. split; [|done]. cbn [ws_disk write_disk]. rewrite Hd, file_write_past by done. eauto.
Qed.

Lemma wal_step_inv base s s' : wal_step s s' -> wal_inv base s -> wal_inv base s'.
Proof.
  intros Hstep Hi. pose proof Hi as [[tail Hd] Ht].
  destruct Hstep as [| | | |t ? ? ? ? E| |t ? ? ? E];
    try exact Hi; try (apply wal_inv_thread; [exact Hi|exact I]).
  - apply wal_inv_thread; [done|]. rewrite Hd, zlen_app. pose proof (zlen_nonneg tail). lia.
  - specialize (Ht t). rewrite E in Ht. apply wal_inv_thread; [by apply wal_inv_write|]. unfold V9MutationHeaderSize. lia.
  - specialize (Ht t). rewrite E in Ht. apply wal_inv_thread; [by apply wal_inv_write|done].
Qed.

Section mounted.
Context {Z0 : Zstd} {C0 : Cipher} {F0 : Files} {ZL : ZstdLaws Z0} {CL : CipherLaws C0}.

(** The mount reads the file as it is when it reads. *)
Definition with_file (disk : bytes) (rr : RandomReader (F := bytes)) : RandomReader :=
  set_state disk (rr_memCache rr) (rr_passthroughPlain rr) rr.

(** Reads of the mount, with their answers, between steps of the log. *)
Inductive mount_run : wal_state * RandomReader -> list (Z * Z * res bytes) -> wal_state * RandomReader -> Prop :=
  | mount_done s : mount_run s [] s
  | mount_wal s s' rr reads end_ : wal_step s s' -> mount_run (s', rr) reads end_ -> mount_run (s, rr) reads end_
  | mount_read s rr n off data rr' reads end_ :
      CromFile_Read n off (with_file (ws_disk s) rr) = Ok (data, rr') ->
      mount_run (s, rr') reads end_ -> mount_run (s, rr) ((n, off, data) :: reads) end_.

Definition answered (input : bytes) (r : Z * Z * res bytes) : Prop :=
  let '(n, off, data) := r in 0 <= n -> 0 <= off -> data = Ok (sub off (off + n) input).

Lemma growing_file_laws base : ReaderAtLaws os_File base (fun f => exists tail, f = base ++ tail).
Proof.
  intros f off n [tail ->] Ho Hn Hl. unfold read_at, os_File. rewrite (proj2 (Z.ltb_ge _ _)) by lia.
  pose proof (zlen_nonneg tail). do 2 eexists. split; [|split; [|by exists tail]].
  - do 3 f_equal. rewrite <-(ztake_app base tail) at 2. by rewrite sub_ztake by lia.
  - rewrite zlen_sub by (rewrite ?zlen_app; lia). rewrite (proj2 (Z.ltb_ge _ _)) by lia. by left.
Qed.

Section archive.
Variables (cb : option Reader) (dict passphrase : bytes) (h : Header) (input : bytes)
  (pss : list (list processedChunk)) (frames : list bytes) (metadata : bytes).
Hypothesis Har : archive cb dict passphrase h input pss frames metadata.

Abbreviation file := (metadata ++ concat frames).
Abbreviation grown := (fun f : bytes => exists tail, f = (metadata ++ concat frames) ++ tail).

#[local] Instance grown_laws : ReaderAtLaws os_File (metadata ++ concat frames ++ []) grown.
Proof.
  rewrite app_nil_r. apply growing_file_laws.
Qed.

Variables (hd : Header) (size : Z).
Hypothesis Hhd : exists n, hd = set_table_bytes n (stored_header h).

Abbreviation mounted := (ready grown cb passphrase h input pss frames metadata hd size).

Lemma mounted_read s rr n off :
  wal_inv file s -> mounted rr ->
  0 <= n -> 0 <= off ->
  exists rr', CromFile_Read n off (with_file (ws_disk s) rr) = Ok (Ok (sub off (off + n) input), rr') /\ mounted rr'.
Proof.
  intros [[tail Hd] _] (f & c & -> & _ & Hc) Hn Ho.
  destruct (archive_serves grown cb dict passphrase h input pss frames metadata [] Har hd size Hhd
    (with_file (ws_disk s) (opened cb passphrase h pss frames metadata hd size f c)) n off) as (r & rr' & E & Hr & ->); [|done|done|by exists rr'].
  exists (ws_disk s), c. split; [done|]. split; [|done]. by exists tail.
Qed.

Lemma mount_run_ok start reads end_ :
  mount_run start reads end_ -> wal_inv file start.1 -> mounted start.2 -> Forall (fun r => 0 <= r.1.1 /\ 0 <= r.1.2) reads ->
  Forall (answered input) reads /\ wal_inv file end_.1 /\ mounted end_.2.
Proof.
  induction 1 as [s|s s' rr reads end_ Hstep _ IH|s rr n off data rr' reads end_ Hread _ IH]; intros Hi Hm Hreads; cbn [fst snd] in *.
  - done.
  - apply IH; [by apply (wal_step_inv _ s)|done|done].
  - apply Forall_cons in Hreads as [[Hn Ho] Hreads]. cbn [fst snd] in Hn, Ho.
    destruct (mounted_read s rr n off Hi Hm Hn Ho) as (rr1 & E & Hm1). rewrite E in Hread. injection Hread as <- <-.
    destruct (IH Hi Hm1 Hreads) as (? & ? & ?). split; [|done]. by constructor.
Qed.
End archive.

(** [C28] Writing to a mounted archive never damages it. In every interleaving of writes, of any
    number of flushes - each of them several system calls that may overlap with the others or
    fail - and of reads, each read is answered with that range of the input and the next one
    would be; the file on disk keeps the archive as a prefix, and still unpacks to the input. *)
Theorem mounted_archive_intact cb dict passphrase h input pss frames metadata path maxMB rr s reads rr' intn uopts :
  archive cb dict passphrase h input pss frames metadata ->
  (forall r, cb = Some r -> open_brain (stored_header h) path passphrase = Ok r) -> maxMB < 2 ^ 42 ->
  let file := metadata ++ concat frames in
  open_mount file file path passphrase maxMB = Ok rr ->
  mount_run (fresh_wal file, rr) reads (s, rr') -> Forall (fun r => 0 <= r.1.1 /\ 0 <= r.1.2) reads ->
  u_EncryptionKey uopts = passphrase -> u_Fuzziness uopts = f64_of_int 0 ->
  Forall (answered input) reads /\
  (forall n off, 0 <= n -> 0 <= off -> exists rr'',
     CromFile_Read n off (with_file (ws_disk s) rr') = Ok (Ok (sub off (off + n) input), rr'')) /\
  (exists tail, ws_disk s = file ++ tail) /\ Unpack intn (ws_disk s) path uopts = Ok input.
Proof.
  intros Har Hopen Hmax file Hmount Hrun Hreads Hkey Hfuzz.
  destruct (open_mount_opened cb dict passphrase h input pss frames metadata [] Har file path maxMB Hopen) as (hd & Hhd & E).
  rewrite app_nil_r in E. fold file in E. rewrite E in Hmount. injection Hmount as <-.
  destruct (mount_run_ok cb dict passphrase h input pss frames metadata Har hd (zlen file) Hhd _ _ _ Hrun)
    as (Hans & Hi & Hm); [|exists file, (NewMemoryCache maxMB)| |].
  - split; [exists []; by rewrite app_nil_r|done].
  - split; [done|]. split; [exists []; by rewrite app_nil_r|by apply NewMemoryCache_ok].
  - done.
  - cbn [fst snd] in Hi, Hm. split; [done|]. split; [|pose proof Hi as [[tail Hd] _]; split; [by exists tail|]].
    + intros n off Hn Ho. destruct (mounted_read cb dict passphrase h input pss frames metadata Har hd (zlen file) Hhd s rr' n off Hi Hm Hn Ho)
        as (rr'' & E' & _). by exists rr''.
    + rewrite Hd. unfold file. rewrite <-app_assoc. by apply (Unpack_appended cb dict passphrase h input pss frames metadata Har).
Qed.

End mounted.

(** One write is flushed to the archive of a sample. *)
Lemma mounted_archive_intact_witness :
  exists file rr s rr',
    PackStream (F0 := brain_disk) (log2 := log2_minus8) (order := key_order) true (fun _ n => reverse (seq 0 n)) sample_input
      (str "brain") DefaultPackOptions = Ok file /\
    open_mount (F0 := brain_disk) file file (str "brain") [] 1 = Ok rr /\
    ws_disk s = file ++ mutation_record (5, [1; 2; 3]) /\
    (exists rr'', CromFile_Read 2 0 (with_file (ws_disk s) rr') = Ok (Ok (sub 0 2 sample_input), rr'')) /\
    Unpack (F0 := brain_disk) (fun _ => 0) (ws_disk s) (str "brain") DefaultUnpackOptions = Ok sample_input.
Proof.
  destruct (PackStream_file (F0 := brain_disk) (log2 := log2_minus8) (order := key_order) true (fun _ n => reverse (seq 0 n))
    sample_input (str "brain") (Some sample_reader) DefaultPackOptions sample_brain_at ltac:(split; reflexivity)
    (fun _ n => reverse_Permutation _) sample_input_ok ltac:(vm_compute; split; congruence)) as
    (dict & h & pss & frames & metadata & Hpack & Har & _ & _ & Hopen).
  { intros split E. destruct (stream_chunker_ok DefaultPackOptions (Some sample_reader)
      (stream_chunkSize DefaultPackOptions (Some sample_reader)) (conj good_sample_reader eq_refl)) as (split' & E' & Ht).
    rewrite E in E'. injection E' as <-. etrans; [apply (total_chunks_bound split sample_input Ht)|]. vm_compute. congruence. }
  destruct (open_mount_opened (F0 := brain_disk) (Some sample_reader) dict [] h sample_input pss frames metadata [] Har
    (metadata ++ concat frames) (str "brain") 1 Hopen) as (hd & _ & E). rewrite app_nil_r in E.
  set (file := metadata ++ concat frames) in *. set (rr := opened _ _ _ _ _ _ _ _ _ _) in E.
  set (s1 := {| ws_wal := wal_Append 4 [1; 2; 3] 0 NewWriteAheadLog; ws_thread := fun _ => Idle; ws_disk := file |}).
  set (s2 := set_thread 1 (Taken [1; 2; 3]) {| ws_wal := wal_reset (ws_wal s1); ws_thread := ws_thread s1; ws_disk := file |}).
  set (s3 := set_thread 1 (Seeked [1; 2; 3] (zlen file)) s2).
  set (s4 := set_thread 1 (HeaderDone [1; 2; 3] (zlen file + V9MutationHeaderSize))
    (write_disk (zlen file) (V9MutationHeader_Bytes (mutation_header 5 [1; 2; 3])) s3)).
  set (s5 := set_thread 1 Idle (write_disk (zlen file + V9MutationHeaderSize) [1; 2; 3] s4)).
  exists file, rr, s5, rr. split; [exact Hpack|]. split; [exact E|]. split.
  { change (ws_disk s5) with (AppendMutation 5 [1; 2; 3] file). apply AppendMutation_record. }
  assert (Hrun : mount_run (fresh_wal file, rr) [] (s5, rr)).
  { apply (mount_wal _ s1); [apply (step_write 4 [1; 2; 3] 0)|].
    apply (mount_wal _ s2); [apply (step_take 1 5 s1); [reflexivity|discriminate|discriminate]|].
    apply (mount_wal _ s3); [apply (step_seek 1 [1; 2; 3] s2); reflexivity|].
    apply (mount_wal _ s4); [apply (step_header 1 5 [1; 2; 3] (zlen file) s3); reflexivity|].
    apply (mount_wal _ s5); [apply (step_payload 1 [1; 2; 3] _ s4); reflexivity|]. apply mount_done. }
  destruct (mounted_archive_intact (F0 := brain_disk) (Some sample_reader) dict [] h sample_input pss frames metadata (str "brain") 1
    rr s5 [] rr (fun _ => 0) DefaultUnpackOptions Har Hopen ltac:(reflexivity) E Hrun (Forall_nil_2 _) eq_refl eq_refl)
    as (_ & Hread & _ & Hun).
  split; [apply (Hread 2 0); discriminate|exact Hun].
Defined.

(** Two flushes that overlap lose a write: both descriptors seek to the same end of file, and
    the second record is written over the first. The lock of the log covers the buffer only. *)
Theorem flush_race_loses_write disk :
  exists s, rtc wal_step (fresh_wal disk) s /\ (forall t, ws_thread s t = Idle) /\ wal_buffer (ws_wal s) = [] /\
    (exists s1 s2, rtc wal_step (fresh_wal disk) s1 /\ wal_buffer (ws_wal s1) = [1] /\
       rtc wal_step s1 s2 /\ wal_buffer (ws_wal s2) = [2] /\ rtc wal_step s2 s) /\
    ws_disk s = disk ++ mutation_record (9, [2]).
Proof.
  set (s1 := {| ws_wal := wal_Append 0 [1] 0 NewWriteAheadLog; ws_thread := fun _ => Idle; ws_disk := disk |}).
  set (a1 := set_thread 0 (Taken [1]) {| ws_wal := wal_reset (ws_wal s1); ws_thread := ws_thread s1; ws_disk := disk |}).
  set (s2 := {| ws_wal := wal_Append 2000000000 [2] 1 (ws_wal a1); ws_thread := ws_thread a1; ws_disk := disk |}).
  set (a2 := set_thread 1 (Taken [2]) {| ws_wal := wal_reset (ws_wal s2); ws_thread := ws_thread s2; ws_disk := disk |}).
  set (a3 := set_thread 0 (Seeked [1] (zlen disk)) a2).
  set (a4 := set_thread 1 (Seeked [2] (zlen disk)) a3).
  set (a5 := set_thread 0 (HeaderDone [1] (zlen disk + V9MutationHeaderSize))
    (write_disk (zlen disk) (V9MutationHeader_Bytes (mutation_header 8 [1])) a4)).
  set (a6 := set_thread 0 Idle (write_disk (zlen disk + V9MutationHeaderSize) [1] a5)).
  set (a7 := set_thread 1 (HeaderDone [2] (zlen disk + V9MutationHeaderSize))
    (write_disk (zlen disk) (V9MutationHeader_Bytes (mutation_header 9 [2])) a6)).
  set (a8 := set_thread 1 Idle (write_disk (zlen disk + V9MutationHeaderSize) [2] a7)).
  assert (R1 : rtc wal_step (fresh_wal disk) s1) by (apply rtc_once, (step_write 0 [1] 0)).
  assert (R2 : rtc wal_step s1 s2).
  { eapply rtc_l; [apply (step_take 0 2000000000 s1); [done|done|done]|]. apply rtc_once, (step_write 2000000000 [2] 1 a1). }
  assert (R3 : rtc wal_step s2 a8).
  { eapply rtc_l; [apply (step_take 1 0 s2); done|]. eapply rtc_l; [apply (step_seek 0 [1] a2); done|].
    eapply rtc_l; [apply (step_seek 1 [2] a3); done|]. eapply rtc_l; [apply (step_header 0 8 [1] (zlen disk) a4); done|].
    eapply rtc_l; [apply (step_payload 0 [1] (zlen disk + V9MutationHeaderSize) a5); done|]. eapply rtc_l; [apply (step_header 1 9 [2] (zlen disk) a6); done|].
    apply rtc_once, (step_payload 1 [2] (zlen disk + V9MutationHeaderSize) a7). done. }
  exists a8. split; [by do 2 (etrans; [done|])|]. split; [by intros [|[|t]]|]. split; [done|]. split; [by exists s1, s2|].
  set (h1 := V9MutationHeader_Bytes (mutation_header 8 [1])). set (h2 := V9MutationHeader_Bytes (mutation_header 9 [2])).
  change (file_write (zlen disk + 16) [2] (file_write (zlen disk) h2 (AppendMutation 8 [1] disk)) = disk ++ h2 ++ [2]).
  rewrite AppendMutation_record, file_write_past, Z.sub_diag, file_write_past by lia.
  replace (zlen disk + 16 - zlen disk) with 16 by lia. f_equal.
Qed.

(** ** Files without chunks *)

(** A mutation corrupts a file that was not chunked: its payload has no length of its own, so
    that the appended record becomes part of the content and [Unpack] refuses the file, which it
    accepted before. *)
Theorem AppendMutation_breaks_plain {Z0 : Zstd} {C0 : Cipher} {F0 : Files} intn path uopts h payload input now patch :
  plain_file (u_EncryptionKey uopts) h input payload -> h_IsEncrypted h = false -> h_IsLossy h = false ->
  u_Fuzziness uopts = f64_of_int 0 -> Sum256 (input ++ mutation_record (now, patch)) <> Sum256 input ->
  Unpack intn ((Serialize h).2 ++ payload) path uopts = Ok input /\
  Unpack intn (AppendMutation now patch ((Serialize h).2 ++ payload)) path uopts = Err "unpack: SECURITY/INTEGRITY FAILURE".
Proof.
  intros Hplain He Hlossy Hfuzz Hne. split; [by apply Unpack_plain|]. rewrite AppendMutation_record.
  destruct uopts as [fz ek strict]. cbn [u_EncryptionKey u_Fuzziness] in *. destruct Hplain as [Hwf Hv Hc Hpass Hhash _ Hdec].
  specialize (Hdec ""%string). unfold decrypt_block, table_key in Hdec. rewrite He in Hdec. injection Hdec as ->. subst fz.
  rewrite <-app_assoc. set (content := input ++ mutation_record (now, patch)) in *.
  pose proof (ReadMetadata_payload ek h content Hwf Hv Hpass Hc) as Hmeta.
  destruct (stored_fields h 0 Hv) as (E1 & E2 & E3 & E4 & E5 & E6 & E7 & E8 & _). rewrite set_table_bytes_0 in *.
  set (h' := stored_header h) in *. clearbody h'. unfold Unpack. cbn [u_EncryptionKey u_Fuzziness u_Strict].
  rewrite Hmeta. cbn [wrap_err mbind res_bind needs_brain existsb]. rewrite E2, E4, E8, Hlossy, Hc, He.
  cbv zeta. cbn [u_EncryptionKey u_Fuzziness u_Strict]. rewrite Z.eqb_refl, orb_true_r.
  change (f64_eqb (f64_of_int 0) (f64_of_int 0)) with true. cbn [unpack_passthrough mbind res_bind negb andb].
  unfold finish_unpack. cbn. rewrite E7, Hhash. destruct (bytes_eqb (Sum256 content) (Sum256 input)) eqn:E; [|done].
  by apply bytes_eqb_true in E.
Qed.

Definition plain_header (input : bytes) : Header := {|
  h_Version := 3; h_IsEncrypted := false; h_IsPassthrough := true; h_IsConvergentEncrypted := false; h_IsLossy := false;
  h_UsesBrainDict := false; h_CompressedTable := false; h_TableBytes := 0; h_Salt := make_bytes 16;
  h_OriginalHash := Sum256 input; h_OriginalSize := zlen input; h_ChunkCount := 0; h_ChunkSize := 0;
  h_CodebookHash := make_bytes 8; h_CodebookHashes := (make_bytes 8, make_bytes 8, make_bytes 8);
  h_MerkleRoot := make_bytes 32; h_MicroDictSize := 0; h_MicroDictionaryData := []; h_Mutations := [] |}.

Lemma plain_header_ok : plain_file [] (plain_header [1; 2; 3]) [1; 2; 3] [1; 2; 3].
Proof. constructor; try reflexivity; try discriminate; [|done]. constructor; vm_compute; try done; repeat constructor; done. Qed.

Lemma AppendMutation_breaks_plain_witness :
  Unpack (F0 := brain_disk) (fun _ => 0) ((Serialize (plain_header [1; 2; 3])).2 ++ [1; 2; 3]) [] DefaultUnpackOptions = Ok [1; 2; 3] /\
  Unpack (F0 := brain_disk) (fun _ => 0) (AppendMutation 7 [4] ((Serialize (plain_header [1; 2; 3])).2 ++ [1; 2; 3])) []
    DefaultUnpackOptions = Err "unpack: SECURITY/INTEGRITY FAILURE".
Proof.
  apply (AppendMutation_breaks_plain (fun _ => 0) [] DefaultUnpackOptions (plain_header [1; 2; 3]) [1; 2; 3] [1; 2; 3] 7 [4]).
  - exact plain_header_ok.
  - reflexivity.
  - reflexivity.
  - reflexivity.
  - vm_compute. discriminate.
Defined.
