(* ===== verification/Cloud.v ===== *)
(** [internal/remote/cloud.go]: a file behind an HTTP server, read by pages.

    The server is a parameter, the page cache (hashicorp/golang-lru) too: [PageCacheLaws] is its
    contract. Prefetches run in other goroutines: a schedule says which of them complete before
    each page is looked up, and while it waits for a download in flight. A load is one step, since
    its only shared state, the cache, is behind its own lock. *)

From S2P Require Import Prelude Binary Sha256 Externals Crypto Format FormatIO Delta Chunker Codebook.
From S2P Require Import Fractal Entropy Search Unpack Pack ChunkCodec BlockCodec RoundTrip Archive VfsCache VfsReader.

Definition PageSize : Z := 256 * 1024.
Definition MaxPages : Z := 256.
Definition PrefetchDepth : Z := 2.

(** ** What the reader runs on *)

(** A [GET] of the bytes [first] to [last]: the status and the body, which may be cut short, or the
    error of the request; a [HEAD]: the status and the declared length, 0 when there is none. *)
Class Http (W : Type) := {
  http_head : W -> res (Z * Z) * W;
  http_get : Z -> Z -> W -> res (Z * bytes) * W;
}.

Class PageCache (P : Type) := {
  lru_New : Z -> P;
  lru_Get : Z -> P -> option bytes * P;
  lru_Add : Z -> bytes -> P -> P;
}.

(** A hit is what was last added under that key. *)
Class PageCacheLaws {P} (C : PageCache P) := {
  lru_holds : P -> Z -> bytes -> Prop;
  lru_New_empty n k d : ~ lru_holds (lru_New n) k d;
  lru_Get_hit k d c c' : lru_Get k c = (Some d, c') -> lru_holds c k d;
  lru_Get_keeps k a c c' k' d : lru_Get k c = (a, c') -> lru_holds c' k' d -> lru_holds c k' d;
  lru_Add_holds k v c k' d : lru_holds (lru_Add k v c) k' d -> (k' = k /\ d = v) \/ lru_holds c k' d;
}.

Section cloud.
Context {W P : Type} {H : Http W} {C : PageCache P}.

Record CloudReader := {
  cr_world : W;
  cr_offset : Z;
  cr_size : Z;
  cr_cache : P;
}.

Definition set_cr (w : W) (p : P) (c : CloudReader) : CloudReader :=
  {| cr_world := w; cr_offset := cr_offset c; cr_size := cr_size c; cr_cache := p |}.

Definition NewCloudReader (w : W) : res CloudReader :=
  let '(resp, w) := http_head w in
  '(status, size) ← wrap_err "remote: head request failed" resp;
  if negb (status =? 200) then Err "remote: file error, status code"
  else if size <=? 0 then Err "remote: invalid file size (must be greater than 0)"
  else Ok {| cr_world := w; cr_offset := 0; cr_size := size; cr_cache := lru_New MaxPages |}.

(** The download of a page, into the cache. *)
Definition fetchPage (pageNum : Z) (c : CloudReader) : res bytes * CloudReader :=
  let startByte := pageNum * PageSize in
  if startByte >=? cr_size c then (Err "EOF", c) else
  let endByte := startByte + PageSize - 1 in
  let endByte := if endByte >=? cr_size c then cr_size c - 1 else endByte in
  let '(resp, w) := http_get startByte endByte (cr_world c) in
  let c := set_cr w (cr_cache c) c in
  match resp with
  | Ok (status, pageData) =>
      if negb (status =? 206) && negb (status =? 200) then (Err "remote status", c)
      else (Ok pageData, set_cr w (lru_Add pageNum pageData (cr_cache c)) c)
  | Err _ => (Err "get", c)
  | Panic p => (Panic p, c)
  end.

(** [cache.Get], then what to do on a miss. *)
Definition cached (pageNum : Z) (miss : CloudReader -> res bytes * CloudReader) (c : CloudReader) : res bytes * CloudReader :=
  let '(hit, cache) := lru_Get pageNum (cr_cache c) in
  let c := set_cr (cr_world c) cache c in
  match hit with Some data => (Ok data, c) | None => miss c end.

(** [prefetchPhantom]: the result is dropped. *)
Definition prefetchPhantom (pageNum : Z) (c : CloudReader) : CloudReader := (cached pageNum (fetchPage pageNum) c).2.
Definition prefetch (pages : list Z) (c : CloudReader) : CloudReader := foldl (fun c p => prefetchPhantom p c) c pages.

(** [loadPage]. With [Some others] another goroutine is downloading the page: this one waits, while
    [others] complete, and looks again. *)
Definition loadPage (wait : option (list Z)) (pageNum : Z) (c : CloudReader) : res bytes * CloudReader :=
  cached pageNum (fun c =>
    match wait with
    | Some others => cached pageNum (fetchPage pageNum) (prefetch others c)
    | None => fetchPage pageNum c
    end) c.

(** The loop over the pages; [dest] is what has been read of the [n] bytes at [off]. *)
Fixpoint read_pages (fuel : nat) (sched : Z -> list Z * option (list Z)) (n off pageNum endPage : Z) (dest : bytes)
    (c : CloudReader) : res ((bytes * option string) * CloudReader) :=
  match fuel with
  | O => Ok ((dest, None), c)
  | S fuel =>
      if negb (pageNum <=? endPage) then Ok ((dest, None), c) else
      let '(before, wait) := sched pageNum in
      let '(page, c) := loadPage wait pageNum (prefetch before c) in
      match page with
      | Panic p => Panic p
      | Err e =>
          if String.eqb e "EOF" then Ok ((dest, None), c)
          else Ok ((dest, Some "remote: failed to fetch page"), c)
      | Ok pageData =>
          if zlen pageData =? 0 then Ok ((dest, None), c) else
          let copyStart := off + zlen dest - pageNum * PageSize in
          let copyStart := if copyStart <? 0 then 0 else copyStart in
          let copyLen := zlen pageData - copyStart in
          let copyLen := if zlen dest + copyLen >? n then n - zlen dest else copyLen in
          part ← slice pageData copyStart (copyStart + copyLen);
          let dest := dest ++ part in
          if (zlen dest =? n) || (zlen pageData <? PageSize) then Ok ((dest, None), c)
          else read_pages fuel sched n off (pageNum + 1) endPage dest c
      end
  end.

Definition Cloud_ReadAt (sched : Z -> list Z * option (list Z)) (n off : Z) (c : CloudReader)
    : res ((bytes * option string) * CloudReader) :=
  if off >=? cr_size c then Ok (([], Some "EOF"), c) else
  let bytesToRead := if off + n >? cr_size c then cr_size c - off else n in
  if bytesToRead <=? 0 then Ok (([], None), c) else
  let startPage := Z.quot off PageSize in
  let endPage := Z.quot (off + bytesToRead - 1) PageSize in
  '((dest, err), c) ← read_pages (Z.to_nat (endPage - startPage + 1)) sched bytesToRead off startPage endPage [] c;
  match err with
  | Some e => Ok ((dest, Some e), c)
  | None => if zlen dest =? 0 then Ok (([], Some "EOF"), c) else Ok ((dest, None), c)
  end.

(** The prefetches that a read starts: the next pages that exist. *)
Definition prefetched (n off : Z) (c : CloudReader) : list Z :=
  let bytesToRead := if off + n >? cr_size c then cr_size c - off else n in
  let endPage := Z.quot (off + bytesToRead - 1) PageSize in
  filter (fun p => p * PageSize < cr_size c) (map (fun i => endPage + i) (seqZ 1 PrefetchDepth)).

(** [Read], sequential. *)
Definition Cloud_Read (sched : Z -> list Z * option (list Z)) (n : Z) (c : CloudReader)
    : res ((bytes * option string) * CloudReader) :=
  '((data, err), c) ← Cloud_ReadAt sched n (cr_offset c) c;
  Ok ((data, err), {| cr_world := cr_world c; cr_offset := cr_offset c + zlen data; cr_size := cr_size c; cr_cache := cr_cache c |}).

(** The reader, under a schedule, behind [io.ReaderAt]. *)
#[export] Instance Cloud_ReaderAt (sched : Z -> list Z * option (list Z)) : ReaderAt CloudReader :=
  fun c off n => Cloud_ReadAt sched n off c.
End cloud.
Arguments CloudReader : clear implicits.

(** ** An honest server *)

(** It answers a range with that range of the file, in whatever state it is. *)
Class HonestServer {W} (H : Http W) (file : bytes) (okw : W -> Prop) : Prop :=
  http_range first last w : okw w -> 0 <= first <= last -> last < zlen file ->
    exists w', http_get first last w = (Ok (206, sub first (last + 1) file), w') /\ okw w'.

(** Pages that goroutines ask for. *)
Definition sched_ok (sched : Z -> list Z * option (list Z)) : Prop :=
  forall p, Forall (fun k => 0 <= k) (sched p).1 /\ Forall (fun k => 0 <= k) (default [] (sched p).2).

Section honest.
Context {W P : Type} {H : Http W} {C : PageCache P} {CL : PageCacheLaws C} (file : bytes) (okw : W -> Prop)
  {HS : HonestServer H file okw}.

Definition page_of (k : Z) : bytes := sub (k * PageSize) ((k + 1) * PageSize) file.

(** The cache holds pages of the file. *)
Record cloud_ok (c : CloudReader W P) : Prop := {
  co_world : okw (cr_world c);
  co_size : cr_size c = zlen file;
  co_cache k d : lru_holds (cr_cache c) k d -> k * PageSize < zlen file /\ d = page_of k;
}.

(** What loading page [k] gives. *)
Definition loads (k : Z) (r : res bytes * CloudReader W P) : Prop :=
  r.1 = (if k * PageSize <? zlen file then Ok (page_of k) else Err "EOF") /\ cloud_ok r.2.

Lemma fetchPage_ok k c : 0 <= k -> cloud_ok c -> loads k (fetchPage k c).
Proof.
  intros Hk [Hw Hs Hc]. unfold fetchPage, loads, PageSize in *. rewrite Hs. rewrite Z.geb_leb, Z.ltb_antisym.
  destruct (Z.leb_spec (zlen file) (k * (256 * 1024))) as [Hge|Hlt]; cbn [negb]; [by split|].
  set (last := if _ >=? _ then _ else _).
  assert (Hlast : k * (256 * 1024) <= last < zlen file /\ sub (k * (256 * 1024)) (last + 1) file = page_of k).
  { unfold page_of, PageSize, last. rewrite Z.geb_leb. destruct (Z.leb_spec (zlen file) (k * (256 * 1024) + 256 * 1024 - 1)).
    - split; [lia|]. replace (zlen file - 1 + 1) with (zlen file) by lia. symmetry. apply sub_clip; lia.
    - split; [lia|]. f_equal. lia. }
  destruct Hlast as [Hlast Hsub]. destruct (http_range (k * (256 * 1024)) last (cr_world c) Hw) as (w' & -> & Hw'); [lia|lia|].
  rewrite Hsub. split; [done|]. constructor; [done|done|]. cbn [snd set_cr cr_cache].
  intros k' d [[-> ->]|Hd]%lru_Add_holds; [done|by apply Hc].
Qed.

Lemma cached_ok k miss c : cloud_ok c -> (forall c, cloud_ok c -> loads k (miss c)) -> loads k (cached k miss c).
Proof.
  intros Hok Hm. pose proof Hok as [Hw Hs Hc]. unfold cached. destruct (lru_Get k (cr_cache c)) as [hit cache] eqn:E.
  assert (Hok' : cloud_ok (set_cr (cr_world c) cache c)).
  { constructor; [done|done|]. intros k' d Hd. apply Hc. by apply (lru_Get_keeps k hit (cr_cache c) cache). }
  destruct hit as [d|]; [|by apply Hm]. destruct (Hc k d (lru_Get_hit k d _ _ E)) as [Hk ->].
  split; [|done]. cbn [fst]. by rewrite (proj2 (Z.ltb_lt _ _)).
Qed.

Lemma prefetch_ok pages c : Forall (fun k => 0 <= k) pages -> cloud_ok c -> cloud_ok (prefetch pages c).
Proof.
  intros Hp. revert c; induction Hp as [|k pages Hk _ IH]; intros c Hc; [done|]. apply IH. unfold prefetchPhantom.
  apply (cached_ok k (fetchPage k) c Hc). intros c' Hc'. by apply fetchPage_ok.
Qed.

Lemma loadPage_ok wait k c : 0 <= k -> Forall (fun k => 0 <= k) (default [] wait) -> cloud_ok c -> loads k (loadPage wait k c).
Proof.
  intros Hk Hw Hc. apply cached_ok; [done|]. intros c' Hc'. destruct wait as [others|]; [|by apply fetchPage_ok].
  apply cached_ok; [by apply prefetch_ok|]. intros c'' Hc''. by apply fetchPage_ok.
Qed.

Variable sched : Z -> list Z * option (list Z).
Hypothesis Hsched : sched_ok sched.

(** The prefetches that reads start are such pages. *)
Lemma prefetched_ok n off (c : CloudReader W P) :
  0 <= off < cr_size c -> 0 < n -> Forall (fun k => 0 <= k) (prefetched n off c).
Proof.
  intros Ho Hn. unfold prefetched. set (m := if _ >? _ then _ else n).
  assert (Hm : 0 < m) by (unfold m; destruct (_ >? _); lia). apply Forall_forall.
  intros k [_ Hk]%list_elem_of_filter. apply list_elem_of_fmap in Hk as (i & -> & Hi%elem_of_seqZ).
  assert (0 <= Z.quot (off + m - 1) PageSize) by (apply Z.quot_pos; [lia|done]). lia.
Qed.

(** One page of a read: the part of the page that the read asks for. *)
Lemma page_part n off pageNum dest c :
  cloud_ok c -> 0 <= off -> off + n <= zlen file -> zlen dest < n -> 0 <= pageNum ->
  pageNum * PageSize <= off + zlen dest < (pageNum + 1) * PageSize ->
  dest = sub off (off + zlen dest) file ->
  exists m, 0 < m /\ zlen dest + m <= n /\ (zlen dest + m < n -> off + zlen dest + m = (pageNum + 1) * PageSize /\ zlen (page_of pageNum) = PageSize) /\
    (let pageData := page_of pageNum in
     let copyStart := off + zlen dest - pageNum * PageSize in
     let copyStart := if copyStart <? 0 then 0 else copyStart in
     let copyLen := zlen pageData - copyStart in
     let copyLen := if zlen dest + copyLen >? n then n - zlen dest else copyLen in
     (zlen pageData =? 0) = false /\ slice pageData copyStart (copyStart + copyLen) = Ok (sub (off + zlen dest) (off + zlen dest + m) file)) /\
    dest ++ sub (off + zlen dest) (off + zlen dest + m) file = sub off (off + (zlen dest + m)) file.
Proof.
  intros Hc Ho Hn Hd Hp Hpage Hdest. pose proof (zlen_nonneg dest). unfold PageSize in *.
  set (start := pageNum * (256 * 1024)) in *. set (e := Z.min (zlen file) ((pageNum + 1) * (256 * 1024))).
  assert (He : page_of pageNum = sub start e file /\ zlen (page_of pageNum) = e - start).
  { assert (Hsub : page_of pageNum = sub start e file).
    { unfold page_of, PageSize, e, start. destruct (Z.le_gt_cases ((pageNum + 1) * (256 * 1024)) (zlen file)).
      - f_equal. lia.
      - rewrite sub_clip by lia. f_equal. lia. }
    split; [done|]. rewrite Hsub, zlen_sub; lia. }
  destruct He as [Hsub Hlen]. set (m := Z.min (e - (off + zlen dest)) (n - zlen dest)). exists m.
  split; [lia|]. split; [lia|]. split; [intros; split; lia|]. split.
  - cbv zeta. rewrite Hlen. rewrite (proj2 (Z.ltb_ge _ _)) by lia. split; [apply Z.eqb_neq; lia|].
    assert (Hm : (if zlen dest + (e - start - (off + zlen dest - start)) >? n then n - zlen dest else e - start - (off + zlen dest - start)) = m).
    { rewrite Z.gtb_ltb. destruct (Z.ltb_spec n (zlen dest + (e - start - (off + zlen dest - start)))); lia. }
    rewrite Hm, slice_ok by lia. f_equal. rewrite Hsub, sub_sub by lia. f_equal; lia.
  - rewrite Hdest at 1. rewrite sub_join by lia. f_equal. lia.
Qed.

Lemma read_pages_ok fuel n off pageNum dest c :
  cloud_ok c -> 0 <= off -> off + n <= zlen file -> zlen dest < n -> 0 <= pageNum ->
  pageNum * PageSize <= off + zlen dest < (pageNum + 1) * PageSize -> dest = sub off (off + zlen dest) file ->
  let endPage := Z.quot (off + n - 1) PageSize in
  endPage - pageNum + 1 <= Z.of_nat fuel ->
  exists c', read_pages fuel sched n off pageNum endPage dest c = Ok ((sub off (off + n) file, None), c') /\ cloud_ok c'.
Proof.
  intros Hc Ho Hn Hd Hp Hpage Hdest endPage. revert pageNum dest c Hc Hd Hp Hpage Hdest.
  induction fuel as [|fuel IH]; intros pageNum dest c Hc Hd Hp Hpage Hdest Hf; pose proof (zlen_nonneg dest).
  all: assert (Hend : pageNum <= endPage) by (unfold endPage, PageSize in *; Z.to_euclidean_division_equations; lia).
  { lia. }
  cbn [read_pages]. rewrite (proj2 (Z.leb_le _ _)) by lia. cbn [negb].
  destruct (sched pageNum) as [before wait] eqn:Es. destruct (Hsched pageNum) as [Hb Hw]. rewrite Es in Hb, Hw. cbn [fst snd] in Hb, Hw.
  destruct (loadPage_ok wait pageNum (prefetch before c) Hp Hw (prefetch_ok before c Hb Hc)) as [Er Hc'].
  destruct (loadPage wait pageNum (prefetch before c)) as [page c1]. cbn [fst snd] in Er, Hc'.
  rewrite (proj2 (Z.ltb_lt _ _)) in Er by lia. subst page.
  destruct (page_part n off pageNum dest c1 Hc' Ho Hn Hd Hp Hpage Hdest) as (m & Hm & Hle & Hnext & (Hne & Hpart) & Hjoin).
  rewrite Hne. cbv zeta in Hpart. rewrite Hpart. cbn [mbind res_bind]. rewrite Hjoin.
  assert (Hlen : zlen (sub off (off + (zlen dest + m)) file) = zlen dest + m) by (rewrite zlen_sub; lia). rewrite Hlen.
  destruct (Z.eqb_spec (zlen dest + m) n) as [E|Hne'].
  - cbn [orb]. exists c1. by rewrite E.
  - destruct (Hnext ltac:(lia)) as [Hstart Hfull]. rewrite Hfull, Z.ltb_irrefl. cbn [orb].
    apply IH; rewrite ?Hlen; [done|lia|lia|unfold PageSize in *; lia|done|lia].
Qed.

(** [C24] A remote file reads like a local one. With a server that answers range requests honestly,
    and whatever the cache keeps or evicts and whatever the prefetching goroutines load before or
    during each page, [ReadAt] returns exactly the range asked for, cut at the end of the file,
    with no error, and [io.EOF] past the end: it is a reader as the mounted file system requires. *)
Theorem Cloud_ReadAt_range c n off :
  cloud_ok c -> 0 <= n -> 0 <= off ->
  (exists c', Cloud_ReadAt sched n off c =
     Ok ((sub off (off + n) file, if off >=? zlen file then Some "EOF"%string else None), c') /\ cloud_ok c') /\
  ReaderAtLaws (Cloud_ReaderAt sched) file cloud_ok.
Proof.
  enough (Hread : forall c n off, cloud_ok c -> 0 <= n -> 0 <= off -> exists c', Cloud_ReadAt sched n off c =
     Ok ((sub off (off + n) file, if off >=? zlen file then Some "EOF"%string else None), c') /\ cloud_ok c').
  { intros Hc Hn Ho. split; [by apply Hread|]. clear c n off Hc Hn Ho. intros c off n Hc Ho Hn Hl.
    destruct (Hread c n off Hc Hn Ho) as (c' & E & Hc'). do 2 eexists. split; [exact E|]. split; [|done].
    destruct (_ >=? _); [by right|by left]. }
  clear c n off. intros c n off Hc Hn Ho. unfold Cloud_ReadAt. rewrite (co_size c Hc), Z.geb_leb.
  destruct (Z.leb_spec (zlen file) off); [exists c; by rewrite sub_past|].
  destruct (sub_clipped off n file ltac:(lia) Hn) as (Hm & Hle & ->). set (m := if _ >? _ then _ else n) in *. clearbody m.
  destruct (Z.leb_spec m 0); [assert (m = 0) as -> by lia; exists c; by rewrite Z.add_0_r, sub_empty|].
  assert (Hq : Z.quot off PageSize = off / PageSize /\ Z.quot (off + m - 1) PageSize = (off + m - 1) / PageSize)
    by (unfold PageSize; Z.to_euclidean_division_equations; lia). destruct Hq as [-> Hq].
  destruct (read_pages_ok (Z.to_nat (Z.quot (off + m - 1) PageSize - off / PageSize + 1)) m off (off / PageSize) [] c Hc Ho Hle)
    as (c' & E & Hc'); change (zlen (@nil Z)) with 0; rewrite ?Z.add_0_r, ?sub_empty; try done; try lia.
  { unfold PageSize. Z.to_euclidean_division_equations. lia. }
  { unfold PageSize. Z.to_euclidean_division_equations. lia. }
  rewrite E. cbn [mbind res_bind]. exists c'. rewrite zlen_sub, (proj2 (Z.eqb_neq _ _)) by lia. done.
Qed.
End honest.

Lemma NewCloudReader_ok {W P} {H : Http W} {C : PageCache P} {CL : PageCacheLaws C} file okw w w' :
  http_head w = (Ok (200, zlen file), w') -> okw w' -> file <> [] ->
  exists c : CloudReader W P, NewCloudReader w = Ok c /\ cloud_ok file okw c.
Proof.
  intros Hh Hw Hf. unfold NewCloudReader. rewrite Hh. cbn [wrap_err mbind res_bind Z.eqb negb].
  rewrite (proj2 (Z.leb_gt _ _)).
  2:{ pose proof (zlen_nonneg file). destruct (Z.eq_dec (zlen file) 0) as [E%zlen_0_nil|]; [done|lia]. }
  eexists. split; [done|]. constructor; [done|done|]. cbn [cr_cache]. by intros k d Hd%lru_New_empty.
Qed.

(** ** Other servers *)

Section other.
Context {W P : Type} {H : Http W} {C : PageCache P} {CL : PageCacheLaws C}.

Abbreviation alone := (fun _ : Z => (@nil Z, @None (list Z))).

Definition fresh_reader (w : W) (size : Z) : CloudReader W P :=
  {| cr_world := w; cr_offset := 0; cr_size := size; cr_cache := lru_New MaxPages |}.

(** The first read inside one page, whatever the server answers. *)
Lemma first_page w size k o n status body w' :
  0 <= k -> 0 <= o -> 0 < n -> o + n <= PageSize -> k * PageSize + o + n <= size ->
  (forall last, http_get (k * PageSize) last w = (Ok (status, body), w')) -> status = 206 \/ status = 200 -> 0 < zlen body ->
  exists c', Cloud_ReadAt alone n (k * PageSize + o) (fresh_reader w size) =
    ('((dest, err), c) ←
       (part ← slice body o (o + (if 0 + (zlen body - o) >? n then n - 0 else zlen body - o));
        if (zlen part =? n) || (zlen body <? PageSize) then Ok ((part, @None string), c')
        else read_pages 0 alone n (k * PageSize + o) (k + 1) k part c');
     match err with
     | Some e => Ok ((dest, Some e), c)
     | None => if zlen dest =? 0 then Ok (([], Some "EOF"%string), c) else Ok ((dest, None), c)
     end).
Proof.
  intros Hk Ho Hn Hp Hs Hget Hst Hb. unfold Cloud_ReadAt. cbn [cr_size fresh_reader].
  rewrite Z.geb_leb, (proj2 (Z.leb_gt _ _)), Z.gtb_ltb, (proj2 (Z.ltb_ge _ _)), (proj2 (Z.leb_gt n 0)) by lia.
  assert (Hq : Z.quot (k * PageSize + o) PageSize = k /\ Z.quot (k * PageSize + o + n - 1) PageSize = k)
    by (unfold PageSize in *; Z.to_euclidean_division_equations; lia). destruct Hq as [-> ->].
  rewrite Z.sub_diag. change (Z.to_nat (0 + 1)) with 1%nat. cbn [read_pages]. rewrite Z.leb_refl. cbn [negb prefetch foldl].
  assert (Hload : exists c', loadPage None k (fresh_reader w size) = (Ok body, c')).
  { unfold loadPage, cached. cbn [cr_cache fresh_reader]. destruct (lru_Get k (lru_New MaxPages)) as [hit cache] eqn:E.
    destruct hit as [d|]; [exfalso; by apply (lru_New_empty MaxPages k d), (lru_Get_hit k d _ cache)|].
    unfold fetchPage. cbn [cr_size set_cr cr_world cr_cache fresh_reader]. rewrite Z.geb_leb, (proj2 (Z.leb_gt _ _)) by lia.
    rewrite Hget. destruct Hst as [-> | ->]; cbn [Z.eqb negb andb]; eauto. }
  destruct Hload as [c' ->]. exists c'. rewrite (proj2 (Z.eqb_neq (zlen body) 0)) by lia.
  change (zlen (@nil Z)) with 0. rewrite Z.add_0_r. replace (k * PageSize + o - k * PageSize) with o by lia.
  rewrite (proj2 (Z.ltb_ge o 0)) by lia. cbn [app]. destruct (slice body o _); done.
Qed.

(** A server that ignores the [Range] header, as HTTP allows, and answers 200 with the whole file
    is taken for an honest one: past the first page, the reader returns bytes from the wrong
    place, without an error. *)
Theorem Cloud_full_body file w k o n :
  (forall first last, http_get first last w = (Ok (200, file), w)) ->
  1 <= k -> 0 <= o -> 0 < n -> o + n <= PageSize -> k * PageSize + o + n <= zlen file ->
  exists c', Cloud_ReadAt alone n (k * PageSize + o) (fresh_reader w (zlen file)) = Ok ((sub o (o + n) file, None), c').
Proof.
  intros Hget Hk Ho Hn Hp Hl. assert (Hpage : 0 < PageSize) by done. assert (Hkp : PageSize <= k * PageSize) by nia.
  destruct (first_page w (zlen file) k o n 200 file w) as (c' & ->); try done; try lia.
  rewrite Z.gtb_ltb, (proj2 (Z.ltb_lt n _)), Z.sub_0_r by lia. rewrite slice_ok by lia. cbn [mbind res_bind].
  rewrite zlen_sub by lia. replace (o + n - o) with n by lia. rewrite Z.eqb_refl. cbn [orb mbind res_bind].
  rewrite zlen_sub, (proj2 (Z.eqb_neq _ _)) by lia. by exists c'.
Qed.

(** A body cut short - which the reader accepts, since it drops [io.ErrUnexpectedEOF] - crashes the
    read that starts beyond it: the bounds of the copy are inverted. *)
Theorem Cloud_short_page w size k o n body w' :
  (forall first last, http_get first last w = (Ok (206, body), w')) ->
  0 <= k -> 0 < n -> o + n <= PageSize -> k * PageSize + o + n <= size -> 0 < zlen body < o ->
  Cloud_ReadAt alone n (k * PageSize + o) (fresh_reader w size) = Panic SliceBounds.
Proof.
  intros Hget Hk Hn Hp Hs Hb. destruct (first_page w size k o n 206 body w') as (c' & ->); try done; try lia.
  rewrite slice_panic; [done|]. rewrite Z.gtb_ltb. destruct (Z.ltb_spec n (0 + (zlen body - o))); lia.
Qed.
End other.

(** ** Instances *)

(** A server of one file; its state is the file. *)
Definition static_server : Http bytes := {|
  http_head w := (Ok (200, zlen w), w);
  http_get first last w := (Ok (206, sub first (last + 1) w), w) |}.

Definition whole_server : Http bytes := {|
  http_head w := (Ok (200, zlen w), w);
  http_get _ _ w := (Ok (200, w), w) |}.

(** A server whose connections break after the bytes of its state. *)
Definition broken_server : Http bytes := {|
  http_head w := (Ok (200, 1000), w);
  http_get _ _ w := (Ok (206, w), w) |}.

(** A cache that keeps the last pages added. *)
Fixpoint find_page (k : Z) (l : list (Z * bytes)) : option bytes :=
  match l with
  | [] => None
  | (k', d) :: l => if k =? k' then Some d else find_page k l
  end.

#[export] Instance page_list : PageCache (list (Z * bytes)) := {
  lru_New _ := [];
  lru_Get k l := (find_page k l, l);
  lru_Add k d l := take 256 ((k, d) :: l);
}.

#[export] Program Instance page_list_laws : PageCacheLaws page_list := {| lru_holds l k d := (k, d) ∈ l |}.
Next Obligation. cbn. intros n k d H. by apply not_elem_of_nil in H. Qed.
Next Obligation.
  cbn. intros k d c c' [= E <-]. revert E. induction c as [|[k' d'] c IH]; [done|]. cbn [find_page].
  destruct (Z.eqb_spec k k') as [->|]; [intros [= ->]; left|right; by apply IH].
Qed.
Next Obligation. cbn. by intros k a c c' k' d [= _ <-]. Qed.
Next Obligation.
  cbn. intros k v c k' d H. apply elem_of_cons in H as [[= -> ->]|H]; [by left|right].
  by apply elem_of_take in H as (i & ?%list_elem_of_lookup_2 & _).
Qed.

Lemma static_honest file : HonestServer static_server file (fun w => w = file).
Proof. intros first last w -> _ _. by exists file. Qed.

Lemma Cloud_ReadAt_range_witness :
  let c := fresh_reader [1; 2; 3] 3 in
  exists c', Cloud_ReadAt (H := static_server) (fun _ => ([1; 2], Some [0])) 5 1 c = Ok (([2; 3], None), c') /\
    cloud_ok [1; 2; 3] (fun w => w = [1; 2; 3]) c'.
Proof.
  intros c. apply (Cloud_ReadAt_range (H := static_server) (HS := static_honest [1; 2; 3]) [1; 2; 3] (fun w => w = [1; 2; 3])
    (fun _ => ([1; 2], Some [0]))).
  - intros _. split; repeat constructor; discriminate.
  - constructor; [reflexivity|reflexivity|]. intros k d Hd. by apply not_elem_of_nil in Hd.
  - discriminate.
  - discriminate.
Defined.

(** Reading three bytes of the second page gives the first three bytes of the file. *)
Lemma Cloud_full_body_witness :
  let file := make_bytes PageSize ++ [7; 8; 9] in
  exists c', Cloud_ReadAt (H := whole_server) (fun _ => ([], None)) 3 PageSize (fresh_reader file (PageSize + 3)) =
    Ok (([0; 0; 0], None), c').
Proof.
  intros file. destruct (Cloud_full_body (H := whole_server) file file 1 0 3) as [c' E].
  - reflexivity.
  - discriminate.
  - discriminate.
  - reflexivity.
  - discriminate.
  - unfold file. rewrite zlen_app, zlen_make; discriminate.
  - exists c'. unfold file in *. rewrite zlen_app, zlen_make in E by discriminate. exact E.
Defined.

Lemma Cloud_short_page_witness :
  Cloud_ReadAt (H := broken_server) (fun _ => ([], None)) 4 10 (fresh_reader [1; 2] 1000) = Panic SliceBounds.
Proof.
  apply (Cloud_short_page (H := broken_server) [1; 2] 1000 0 10 4 [1; 2] [1; 2]).
  - reflexivity.
  - discriminate.
  - reflexivity.
  - discriminate.
  - discriminate.
  - split; reflexivity.
Defined.
