(* ===== verification/Sync.v ===== *)
(** [pkg/sync/manifest.go]: the manifest of a file - which codeword and which residual each chunk is
    made of - its binary form, and the comparison of two manifests. *)

From S2P Require Import Prelude Binary Sha256 Externals Crypto Format FormatIO Delta Chunker Codebook.
From S2P Require Import Fractal Entropy Search Unpack Pack ChunkCodec BlockCodec RoundTrip Archive.
Import codebook Format.

Definition ManifestVersion : Z := 1.
Definition ManifestEntryBinarySize : Z := 21.

Record ManifestEntry := {
  me_CodebookID : Z;
  me_DeltaHash : Z;
  me_ChunkSize : Z;
  me_CodebookIndex : Z;
}.

Record ChunkManifest := {
  m_Version : Z;
  m_OriginalHash : bytes;
  m_OriginalSize : Z;
  m_ChunkCount : Z;
  m_Entries : list ManifestEntry;
}.

Record DiffResult := {
  d_Missing : list ManifestEntry;
  d_Extra : list ManifestEntry;
}.

#[export] Instance ManifestEntry_eq_dec : EqDecision ManifestEntry.
Proof. solve_decision. Defined.

(** [&ManifestEntry{}] *)
Definition zero_manifest_entry : ManifestEntry :=
  {| me_CodebookID := 0; me_DeltaHash := 0; me_ChunkSize := 0; me_CodebookIndex := 0 |}.

(** ** Block by block *)

Section for_each.
Context {Z0 : Zstd} {C0 : Cipher} {T : Type}.
(** The closures share the state [T]. *)
Variables (want : Z -> Z -> T -> bool) (fn : Z -> Z -> bytes -> T -> res T).

Fixpoint for_each_block (dict : bytes) (key : option bytes) (starts : list Z) (numEntries i : Z) (blockTable : list Z)
    (r : bytes) (s : T) : res T :=
  match blockTable with
  | [] => Ok s
  | blockSize :: blockTable =>
      '(first, end_) ← BlockRange starts i numEntries;
      if negb (want first end_ s) then
        '(_, r) ← ReadFull "sync: skip block" blockSize r;
        for_each_block dict key starts numEntries (i + 1) blockTable r s
      else
        '(blockData, r) ← ReadFull "sync: read block" blockSize r;
        blockData ← decrypt_block "sync: decrypt block" key blockData;
        pool ← wrap_err "sync: decompress block" (DecompressPoolDict blockData dict);
        s ← fn first end_ pool s;
        for_each_block dict key starts numEntries (i + 1) blockTable r s
  end.

Definition ForEachBlock (r : bytes) (header : Header) (blockTable : list Z) (entries : list ChunkEntry) (dict encryptionKey : bytes)
    (s : T) : res T :=
  if h_Version header <? Version2 then Err "sync: version is not supported" else
  let starts := BlockStarts entries in
  if negb (zlen starts =? zlen blockTable) then Err "sync: chunk table does not match the block table" else
  let key := if h_IsEncrypted header then Some (DeriveKey encryptionKey (h_Salt header)) else None in
  for_each_block dict key starts (zlen entries) 0 blockTable r s.
End for_each.

(** The residual of [entry] in the pool of its block, [None] when it is out of bounds. *)
Definition residual_at (entry : ChunkEntry) (base : Z) (pool : bytes) : res (option bytes) :=
  let from := u64 (e_DeltaOffset entry - base) in
  let to := u64 (from + e_DeltaSize entry) in
  if to >? zlen pool then Ok None else r ← slice pool from to; Ok (Some r).

(** ** The manifest of a file *)

Section manifest.
Context {Z0 : Zstd} {C0 : Cipher} {F0 : Files} {hash64 : XXHash}.

Definition manifest_entry (entry : ChunkEntry) (residual : bytes) : ManifestEntry :=
  {| me_CodebookID := e_CodebookID entry; me_DeltaHash := xxhash_Sum64 residual; me_ChunkSize := e_OriginalSize entry;
     me_CodebookIndex := e_CodebookIndex entry |}.

(** The loop over the chunks of a block, from [i]. *)
Fixpoint manifest_block (entries : list ChunkEntry) (i base : Z) (pool : bytes) (out : list ManifestEntry)
    : res (list ManifestEntry) :=
  match entries with
  | [] => Ok out
  | entry :: entries =>
      residual ← residual_at entry base pool;
      match residual with
      | None => Err "manifest: delta bounds error"
      | Some residual => manifest_block entries (i + 1) base pool (<[Z.to_nat i := manifest_entry entry residual]> out)
      end
  end.

Definition manifest_fn (entries : list ChunkEntry) (first end_ : Z) (pool : bytes) (out : list ManifestEntry)
    : res (list ManifestEntry) :=
  e ← index entries first;
  manifest_block (sub first end_ entries) first (e_DeltaOffset e) pool out.

Definition GenerateManifest (cromFile codebookPath encryptionKey : bytes) : res ChunkManifest :=
  cb ← wrap_err "manifest: open codebook" (Open codebookPath);
  '((header, blockTable, entries), rStream) ← wrap_err "manifest: parse error" (ReadMetadata encryptionKey cromFile);
  dict ← (if h_UsesBrainDict header then Dictionary cb else Ok []);
  out ← wrap_err "manifest" (ForEachBlock (fun _ _ _ => true) (manifest_fn entries) rStream header blockTable entries dict
    encryptionKey (replicate (length entries) zero_manifest_entry));
  Ok {| m_Version := ManifestVersion; m_OriginalHash := h_OriginalHash header; m_OriginalSize := h_OriginalSize header;
        m_ChunkCount := h_ChunkCount header; m_Entries := out |}.
End manifest.

(** ** Binary form *)

Definition manifest_header_size : Z := 2 + 32 + 8 + 4.

(** The loop writes each entry to the four columns; [n] is the number of entries. *)
Fixpoint put_entries (n i prevID : Z) (entries : list ManifestEntry) (buf : bytes) : bytes :=
  match entries with
  | [] => buf
  | e :: entries =>
      let buf := blit buf (manifest_header_size + i * 8) (le_put 8 (u64 (me_CodebookID e - prevID))) in
      let buf := blit buf (manifest_header_size + n * 8 + i * 8) (le_put 8 (me_DeltaHash e)) in
      let buf := blit buf (manifest_header_size + n * 16 + i * 4) (le_put 4 (me_ChunkSize e)) in
      let buf := blit buf (manifest_header_size + n * 20 + i) [me_CodebookIndex e] in
      put_entries n (i + 1) (me_CodebookID e) entries buf
  end.

Definition ToBinary (m : ChunkManifest) : bytes :=
  let n := zlen (m_Entries m) in
  let buf := make_bytes (manifest_header_size + n * ManifestEntryBinarySize) in
  let buf := blit buf 0 (le_put 2 (m_Version m)) in
  let buf := blit buf 2 (m_OriginalHash m) in
  let buf := blit buf 34 (le_put 8 (m_OriginalSize m)) in
  let buf := blit buf 42 (le_put 4 (m_ChunkCount m)) in
  put_entries n 0 0 (m_Entries m) buf.

Fixpoint get_entries (fuel : nat) (n i prevID : Z) (data : bytes) : res (list ManifestEntry) :=
  match fuel with
  | O => Ok []
  | S fuel =>
      id ← get_le 8 data (manifest_header_size + i * 8);
      let prevID := u64 (prevID + id) in
      hash ← get_le 8 data (manifest_header_size + n * 8 + i * 8);
      size ← get_le 4 data (manifest_header_size + n * 16 + i * 4);
      index ← index data (manifest_header_size + n * 20 + i);
      rest ← get_entries fuel n (i + 1) prevID data;
      Ok ({| me_CodebookID := prevID; me_DeltaHash := hash; me_ChunkSize := size; me_CodebookIndex := index |} :: rest)
  end.

Definition FromBinary (data : bytes) : res ChunkManifest :=
  if zlen data <? manifest_header_size then Err "manifest: binary data too short" else
  version ← get_le 2 data 0;
  hash ← slice data 2 34;
  size ← get_le 8 data 34;
  count ← get_le 4 data 42;
  if zlen data <? manifest_header_size + count * ManifestEntryBinarySize then Err "manifest: binary data truncated" else
  entries ← get_entries (Z.to_nat count) count 0 0 data;
  Ok {| m_Version := version; m_OriginalHash := hash; m_OriginalSize := size; m_ChunkCount := count; m_Entries := entries |}.

(** ** Comparing manifests *)

Definition chunk_key (e : ManifestEntry) : Z * Z := (me_CodebookID e, me_DeltaHash e).

Definition key_set (l : list ManifestEntry) : gset (Z * Z) := list_to_set (map chunk_key l).

Definition Diff (local remote : ChunkManifest) : DiffResult :=
  let localSet := key_set (m_Entries local) in
  let remoteSet := key_set (m_Entries remote) in
  {| d_Missing := filter (fun e => chunk_key e ∉ localSet) (m_Entries remote);
     d_Extra := filter (fun e => chunk_key e ∉ remoteSet) (m_Entries local) |}.

(** ** The binary layout *)

Fixpoint id_column (prevID : Z) (entries : list ManifestEntry) : bytes :=
  match entries with
  | [] => []
  | e :: entries => le_put 8 (u64 (me_CodebookID e - prevID)) ++ id_column (me_CodebookID e) entries
  end.

Definition column (w : Z) (f : ManifestEntry -> Z) (entries : list ManifestEntry) : bytes := concat (map (fun e => le_put w (f e)) entries).
Definition index_column (entries : list ManifestEntry) : bytes := map me_CodebookIndex entries.

Definition manifest_header (m : ChunkManifest) : bytes :=
  le_put 2 (m_Version m) ++ m_OriginalHash m ++ le_put 8 (m_OriginalSize m) ++ le_put 4 (m_ChunkCount m).

Definition manifest_image (m : ChunkManifest) : bytes :=
  let es := m_Entries m in
  manifest_header m ++ id_column 0 es ++ column 8 me_DeltaHash es ++ column 4 me_ChunkSize es ++ index_column es.

Lemma zlen_id_column prev es : zlen (id_column prev es) = 8 * zlen es.
Proof.
  revert prev; induction es as [|e es IH]; intros prev; [done|]. cbn [id_column].
  rewrite zlen_app, zlen_cons, IH, zlen_le_put by lia. lia.
Qed.

Lemma zlen_column w f es : 0 <= w -> zlen (column w f es) = w * zlen es.
Proof.
  intros Hw. induction es as [|e es IH]; [rewrite Z.mul_0_r; done|]. unfold column in *. cbn [map concat].
  rewrite zlen_app, zlen_cons, IH, zlen_le_put by lia. lia.
Qed.

Lemma zlen_index_column es : zlen (index_column es) = zlen es.
Proof. unfold index_column, zlen. by rewrite length_map. Qed.

Record wf_manifest_entry (e : ManifestEntry) : Prop := {
  wme_id : is_u64 (me_CodebookID e);
  wme_hash : is_u64 (me_DeltaHash e);
  wme_size : is_u32 (me_ChunkSize e);
  wme_index : is_u8 (me_CodebookIndex e);
}.

Record wf_manifest (m : ChunkManifest) : Prop := {
  wm_version : is_u16 (m_Version m);
  wm_hash : zlen (m_OriginalHash m) = 32;
  wm_size : is_u64 (m_OriginalSize m);
  wm_count : m_ChunkCount m = zlen (m_Entries m);
  wm_limit : zlen (m_Entries m) < 2 ^ 32;
  wm_entries : Forall wf_manifest_entry (m_Entries m);
}.

Lemma zlen_manifest_header m : wf_manifest m -> zlen (manifest_header m) = manifest_header_size.
Proof. intros []. unfold manifest_header. rewrite !zlen_app, !zlen_le_put by lia. rewrite wm_hash0. done. Qed.

(** Writing the next cell of a column that is filled from left to right. *)
Lemma blit_cell w k pre col post src off :
  zlen pre + zlen col = off -> zlen src = w -> 0 <= w -> 0 <= k ->
  blit (pre ++ (col ++ make_bytes (w + k)) ++ post) off src = pre ++ ((col ++ src) ++ make_bytes k) ++ post.
Proof.
  intros Ho Hs Hw Hk. rewrite make_split by lia. rewrite <-!app_assoc. rewrite (app_assoc pre col).
  rewrite blit_mid; [by rewrite <-!app_assoc|by rewrite zlen_app|]. rewrite zlen_make by lia. done.
Qed.

(** The buffer when the first entries of each column are written and [k] are left. *)
Definition partial (hdr c1 c2 c3 c4 : bytes) (k : Z) : bytes :=
  hdr ++ (c1 ++ make_bytes (8 * k)) ++ (c2 ++ make_bytes (8 * k)) ++ (c3 ++ make_bytes (4 * k)) ++ (c4 ++ make_bytes k).

Lemma put_entries_partial es n i prev hdr c1 c2 c3 c4 :
  zlen hdr = manifest_header_size -> zlen c1 = 8 * i -> zlen c2 = 8 * i -> zlen c3 = 4 * i -> zlen c4 = i ->
  n = i + zlen es ->
  put_entries n i prev es (partial hdr c1 c2 c3 c4 (zlen es)) =
    hdr ++ (c1 ++ id_column prev es) ++ (c2 ++ column 8 me_DeltaHash es) ++ (c3 ++ column 4 me_ChunkSize es) ++
      (c4 ++ index_column es).
Proof.
  revert i prev c1 c2 c3 c4. induction es as [|e es IH]; intros i prev c1 c2 c3 c4 Hh H1 H2 H3 H4 Hn.
  { unfold partial. change (zlen []) with 0. rewrite !Z.mul_0_r. by rewrite (make_bytes_0 0). }
  pose proof (zlen_nonneg es) as Hk. rewrite zlen_cons in *. cbn [put_entries].
  assert (Hs8 : forall v, zlen (le_put 8 v) = 8) by (intros; by apply zlen_le_put).
  assert (Hs4 : forall v, zlen (le_put 4 v) = 4) by (intros; by apply zlen_le_put).
  unfold partial at 1. replace (8 * (zlen es + 1)) with (8 + 8 * zlen es) by lia.
  replace (4 * (zlen es + 1)) with (4 + 4 * zlen es) by lia. replace (zlen es + 1) with (1 + zlen es) by lia.
  rewrite (blit_cell 8 (8 * zlen es) hdr c1) by (rewrite ?Hs8; lia).
  rewrite (app_assoc hdr (_ ++ make_bytes (8 * zlen es))).
  rewrite (blit_cell 8 (8 * zlen es) _ c2) by (rewrite ?zlen_app, ?Hs8, ?zlen_make; lia).
  rewrite (app_assoc _ ((c2 ++ _) ++ _)).
  rewrite (blit_cell 4 (4 * zlen es) _ c3) by (rewrite ?zlen_app, ?Hs8, ?Hs4, ?zlen_make; lia).
  rewrite (app_assoc _ ((c3 ++ _) ++ _)). rewrite <-(app_nil_r (c4 ++ _)).
  rewrite (blit_cell 1 (zlen es) _ c4) by (rewrite ?zlen_app, ?Hs8, ?Hs4, ?zlen_make; try done; lia).
  match goal with |- put_entries _ _ _ _ ?b = _ =>
    replace b with (partial hdr (c1 ++ le_put 8 (u64 (me_CodebookID e - prev))) (c2 ++ le_put 8 (me_DeltaHash e))
      (c3 ++ le_put 4 (me_ChunkSize e)) (c4 ++ [me_CodebookIndex e]) (zlen es)) by (unfold partial; by rewrite app_nil_r, <-!app_assoc) end.
  rewrite IH by (rewrite ?zlen_app, ?Hs8, ?Hs4, ?zlen_singleton; lia).
  unfold column. cbn [id_column index_column map concat]. by rewrite <-!app_assoc.
Qed.

Lemma ToBinary_image m : wf_manifest m -> ToBinary m = manifest_image m.
Proof.
  intros Hm. pose proof (zlen_manifest_header m Hm) as Hh. destruct Hm as [Hv Hhash Hs Hc Hl He]. pose proof (zlen_nonneg (m_Entries m)) as Hn.
  unfold ToBinary. cbv zeta. set (n := zlen (m_Entries m)) in *.
  assert (H2 : zlen (le_put 2 (m_Version m)) = 2) by by apply zlen_le_put.
  assert (H8 : zlen (le_put 8 (m_OriginalSize m)) = 8) by by apply zlen_le_put.
  assert (H4 : zlen (le_put 4 (m_ChunkCount m)) = 4) by by apply zlen_le_put.
  change (make_bytes (manifest_header_size + n * ManifestEntryBinarySize)) with ([] ++ make_bytes (manifest_header_size + n * ManifestEntryBinarySize)).
  unfold manifest_header_size, ManifestEntryBinarySize in *.
  rewrite blit_fill by (done || lia). rewrite blit_fill by (rewrite ?zlen_app; done || lia).
  rewrite blit_fill by (rewrite ?zlen_app, ?H2, ?Hhash; done || lia). rewrite blit_fill by (rewrite ?zlen_app, ?H2, ?Hhash, ?H8; done || lia).
  replace (_ - _) with (8 * n + (8 * n + (4 * n + n))) by lia. rewrite !make_split by lia.
  match goal with |- put_entries _ _ _ _ ?b = _ => replace b with (partial (manifest_header m) [] [] [] [] n) end.
  - unfold n at 2. rewrite put_entries_partial; [done|done|done|done|done|done|done].
  - unfold partial, manifest_header. cbn [app]. by rewrite <-!app_assoc.
Qed.

(** Reading the cells back, with [c1] to [c4] the cells before them. *)
Lemma get_entries_image es n i prev hdr c1 c2 c3 c4 rest :
  Forall wf_manifest_entry es -> zlen hdr = manifest_header_size ->
  zlen c1 = 8 * i -> zlen c2 = 8 * i -> zlen c3 = 4 * i -> zlen c4 = i -> n = i + zlen es -> is_u64 prev ->
  get_entries (length es) n i prev (hdr ++ (c1 ++ id_column prev es) ++ (c2 ++ column 8 me_DeltaHash es) ++
    (c3 ++ column 4 me_ChunkSize es) ++ (c4 ++ index_column es) ++ rest) = Ok es.
Proof.
  intros Hes. revert i prev c1 c2 c3 c4; induction Hes as [|e es [Hid Hhash Hsize Hix] _ IH];
    intros i prev c1 c2 c3 c4 Hh H1 H2 H3 H4 Hn Hp; [done|].
  set (data := hdr ++ _). rewrite zlen_cons in Hn. cbn [length get_entries].
  assert (Hs8 : forall v, zlen (le_put 8 v) = 8) by (intros; by apply zlen_le_put).
  assert (Hs4 : forall v, zlen (le_put 4 v) = 4) by (intros; by apply zlen_le_put).
  assert (Hz1 : forall p, zlen (id_column p es) = 8 * zlen es) by (intros; apply zlen_id_column).
  assert (Hz2 : zlen (column 8 me_DeltaHash es) = 8 * zlen es) by by apply zlen_column.
  assert (Hz3 : zlen (column 4 me_ChunkSize es) = 4 * zlen es) by by apply zlen_column.
  assert (E : data = hdr ++ ((c1 ++ le_put 8 (u64 (me_CodebookID e - prev))) ++ id_column (me_CodebookID e) es) ++
    ((c2 ++ le_put 8 (me_DeltaHash e)) ++ column 8 me_DeltaHash es) ++
    ((c3 ++ le_put 4 (me_ChunkSize e)) ++ column 4 me_ChunkSize es) ++ ((c4 ++ [me_CodebookIndex e]) ++ index_column es) ++ rest).
  { unfold data, column. cbn [id_column index_column map concat]. by rewrite <-!app_assoc. }
  assert (G1 : get_le 8 data (manifest_header_size + i * 8) = Ok (u64 (me_CodebookID e - prev))).
  { rewrite E, <-(app_assoc c1), (app_assoc hdr), <-!app_assoc. rewrite (app_assoc hdr).
    rewrite get_le_app by (rewrite ?zlen_app; lia). change (2 ^ (8 * 8)) with (2 ^ 64). fold (u64 (u64 (me_CodebookID e - prev))).
    by rewrite u64_u64. }
  assert (G2 : get_le 8 data (manifest_header_size + n * 8 + i * 8) = Ok (me_DeltaHash e)).
  { rewrite E. rewrite <-!app_assoc. rewrite 4!app_assoc. rewrite get_le_app; [|lia|rewrite !zlen_app, Hs8, Hz1; lia].
    f_equal. by apply u64_small. }
  assert (G3 : get_le 4 data (manifest_header_size + n * 16 + i * 4) = Ok (me_ChunkSize e)).
  { rewrite E. rewrite <-!app_assoc. rewrite 7!app_assoc. rewrite get_le_app; [|lia|rewrite !zlen_app, !Hs8, Hz1, Hz2; lia].
    f_equal. by apply u32_small. }
  assert (G4 : index data (manifest_header_size + n * 20 + i) = Ok (me_CodebookIndex e)).
  { rewrite E. rewrite <-!app_assoc. rewrite 10!app_assoc. cbn [app]. apply index_app_mid.
    rewrite !zlen_app, !Hs8, Hs4, Hz1, Hz2, Hz3. lia. }
  rewrite G1. cbn [mbind res_bind]. rewrite G2. cbn [mbind res_bind]. rewrite G3. cbn [mbind res_bind]. rewrite G4.
  cbn [mbind res_bind].
  assert (Hnext : u64 (prev + u64 (me_CodebookID e - prev)) = me_CodebookID e).
  { rewrite u64_add_r. replace (prev + _) with (me_CodebookID e) by lia. by apply u64_small. }
  rewrite Hnext, E, IH by (rewrite ?zlen_app, ?Hs8, ?Hs4, ?zlen_singleton; done || lia). cbn [mbind res_bind]. by destruct e.
Qed.

Lemma FromBinary_image m rest : wf_manifest m -> FromBinary (manifest_image m ++ rest) = Ok m.
Proof.
  intros Hm. pose proof (zlen_manifest_header m Hm) as Hh. destruct Hm as [Hv Hhash Hs Hc Hl He].
  pose proof (zlen_nonneg (m_Entries m)) as Hn. pose proof (zlen_nonneg rest).
  assert (Hd : zlen (manifest_image m ++ rest) = manifest_header_size + zlen (m_Entries m) * ManifestEntryBinarySize + zlen rest).
  { unfold manifest_image. rewrite !zlen_app, Hh, zlen_id_column, !zlen_column, zlen_index_column by lia. unfold ManifestEntryBinarySize. lia. }
  assert (Hcols : get_entries (length (m_Entries m)) (zlen (m_Entries m)) 0 0 (manifest_image m ++ rest) = Ok (m_Entries m)).
  { unfold manifest_image. rewrite <-!app_assoc.
    by apply (get_entries_image (m_Entries m) (zlen (m_Entries m)) 0 0 (manifest_header m) [] [] [] [] rest). }
  unfold FromBinary. rewrite Hd. unfold manifest_header_size, ManifestEntryBinarySize in *. rewrite (proj2 (Z.ltb_ge _ _)) by lia.
  revert Hcols. unfold manifest_image, manifest_header. rewrite <-!app_assoc. set (cols := _ ++ rest). intros Hcols.
  assert (H2 : zlen (le_put 2 (m_Version m)) = 2) by by apply zlen_le_put.
  assert (H8 : zlen (le_put 8 (m_OriginalSize m)) = 8) by by apply zlen_le_put.
  rewrite get_le_here by (done || lia). cbn [mbind res_bind].
  rewrite (slice_skip 2), (slice_here 32) by (done || lia). cbn [mbind res_bind].
  rewrite (get_le_skip 8 2), (get_le_skip 8 32), get_le_here by (done || lia). cbn [mbind res_bind].
  rewrite (get_le_skip 4 2), (get_le_skip 4 32), (get_le_skip 4 8), get_le_here; try done; try lia.
  cbn [mbind res_bind]. rewrite (proj2 (Z.ltb_ge _ _)), Hc by lia.
  replace (Z.to_nat (zlen (m_Entries m))) with (length (m_Entries m)) by (unfold zlen; lia). rewrite Hc in Hcols. rewrite Hcols.
  cbn [mbind res_bind]. rewrite <-Hc. by destruct m.
Qed.

(** A manifest survives the wire: [FromBinary] of [ToBinary] is the manifest, whatever follows
    it, for every version, hash, size, and list of entries whose fields fit their widths -
    the identifiers travel as differences that wrap around. [ToBinary] takes 46 + 21 n bytes. *)
Theorem FromBinary_ToBinary m rest :
  wf_manifest m ->
  FromBinary (ToBinary m ++ rest) = Ok m /\
  zlen (ToBinary m) = 46 + 21 * zlen (m_Entries m).
Proof.
  intros Hm. rewrite ToBinary_image by done. split; [by apply FromBinary_image|].
  unfold manifest_image. rewrite !zlen_app, zlen_manifest_header, zlen_id_column, !zlen_column, zlen_index_column by done.
  unfold manifest_header_size. lia.
Qed.

Lemma FromBinary_ToBinary_witness :
  let m := {| m_Version := 1; m_OriginalHash := make_bytes 32; m_OriginalSize := 700; m_ChunkCount := 2;
    m_Entries := [{| me_CodebookID := 2 ^ 64 - 1; me_DeltaHash := 5; me_ChunkSize := 512; me_CodebookIndex := 255 |};
                  {| me_CodebookID := 3; me_DeltaHash := 2 ^ 63; me_ChunkSize := 188; me_CodebookIndex := 0 |}] |} in
  FromBinary (ToBinary m ++ [1; 2; 3]) = Ok m /\ zlen (ToBinary m) = 88.
Proof.
  intros m. apply (FromBinary_ToBinary m [1; 2; 3]). constructor; try reflexivity.
  - split; [discriminate|reflexivity].
  - split; [discriminate|reflexivity].
  - repeat constructor; try discriminate; reflexivity.
Defined.

(** Nothing a peer sends makes the parser crash. *)
Lemma get_entries_no_panic fuel n i prev data :
  0 <= i -> n = i + Z.of_nat fuel -> manifest_header_size + n * ManifestEntryBinarySize <= zlen data ->
  no_panic (get_entries fuel n i prev data).
Proof.
  revert i prev; induction fuel as [|fuel IH]; intros i prev Hi Hn Hd; [done|]. cbn [get_entries].
  unfold manifest_header_size, ManifestEntryBinarySize in *.
  repeat (apply no_panic_bind; [first [apply no_panic_get_le; lia|apply no_panic_index; lia]|intros ? _]).
  apply no_panic_bind; [apply IH; lia|done].
Qed.

Lemma FromBinary_no_panic data : bytes_ok data -> no_panic (FromBinary data).
Proof.
  intros Hok. unfold FromBinary, manifest_header_size. destruct (Z.ltb_spec (zlen data) (2 + 32 + 8 + 4)); [done|].
  apply no_panic_bind; [apply no_panic_get_le; lia|intros version _].
  apply no_panic_bind; [apply no_panic_slice; lia|intros hash _].
  apply no_panic_bind; [apply no_panic_get_le; lia|intros size _].
  apply no_panic_bind; [apply no_panic_get_le; lia|]. intros count Hc. destruct (Z.ltb_spec (zlen data) (2 + 32 + 8 + 4 + count * ManifestEntryBinarySize)); [done|].
  apply no_panic_bind; [|done].
  assert (0 <= count).
  { unfold get_le in Hc. destruct (slice data 42 (42 + 4)) as [b| |] eqn:E; try done. injection Hc as <-.
    rewrite slice_ok in E by lia. injection E as <-. apply le_get_range. by apply bytes_ok_sub. }
  apply get_entries_no_panic; unfold manifest_header_size; lia.
Qed.

(** ** Blocks of an archive *)

(** What [ForEachBlock] comes down to on an archive: the closures over the chunks of each block. *)
Fixpoint each_block {T} (want : Z -> Z -> T -> bool) (fn : Z -> Z -> bytes -> T -> res T) (first : Z)
    (pss : list (list processedChunk)) (s : T) : res T :=
  match pss with
  | [] => Ok s
  | ps :: pss =>
      if negb (want first (first + zlen ps) s) then each_block want fn (first + zlen ps) pss s
      else s ← fn first (first + zlen ps) (pool_of ps) s; each_block want fn (first + zlen ps) pss s
  end.

Section archive.
Context {Z0 : Zstd} {C0 : Cipher} {F0 : Files} {hash64 : XXHash} {ZL : ZstdLaws Z0} {CL : CipherLaws C0}.

Lemma for_each_block_packed {T} want (fn : Z -> Z -> bytes -> T -> res T) cb dict key off blocks pss frames bss tail s :
  packed cb dict key off blocks pss frames -> wf_blocks (bss ++ entries_of pss) ->
  let entries := concat (bss ++ entries_of pss) in
  for_each_block want fn dict key (BlockStarts entries) (zlen entries) (zlen bss) (table_of frames) (concat frames ++ tail) s =
    each_block want fn (zlen (concat bss)) pss s.
Proof.
  intros Hpk. revert bss s. induction Hpk as [|off datas blocks ps pss frame frames Hps Hlo Hf Hpk IH]; intros bss s Hwf; [done|].
  cbn zeta. cbn [table_of map concat for_each_block]. rewrite <-app_assoc. fold (table_of frames).
  destruct (block_turn dict key bss ps pss frame (concat frames ++ tail) "sync: skip block" "sync: decrypt block" Hwf Hf)
    as ((z & Hskip & Hz & Hd) & Hrange & _).
  destruct (block_turn dict key bss ps pss frame (concat frames ++ tail) "sync: read block" "sync: decrypt block" Hwf Hf)
    as ((z' & Hread & Hz' & Hd') & _ & _). rewrite Hz in Hz'. injection Hz' as <-.
  rewrite Hrange. cbn [mbind res_bind each_block]. rewrite zlen_map_entry.
  destruct (entries_snoc bss ps pss) as (E1 & E2 & E3). rewrite zlen_map_entry in E3. rewrite E1 in *. rewrite <-E2, <-E3.
  destruct (want _ _ s); cbn [negb].
  - rewrite Hread. cbn [mbind res_bind]. rewrite Hz. cbn [mbind res_bind]. rewrite Hd. cbn [wrap_err mbind res_bind].
    destruct (fn _ _ _ s) as [s'|e|p]; [|done|done]. cbn [mbind res_bind]. by apply IH.
  - rewrite Hskip. cbn [mbind res_bind]. by apply IH.
Qed.

Variables (cb : option Reader) (dict passphrase : bytes) (h : Header) (input : bytes)
  (pss : list (list processedChunk)) (frames : list bytes) (metadata : bytes).
Hypothesis Har : archive cb dict passphrase h input pss frames metadata.

Abbreviation entries := (concat (entries_of pss)).

Lemma ForEachBlock_archive {T} want (fn : Z -> Z -> bytes -> T -> res T) n tail s :
  let hd := set_table_bytes n (stored_header h) in
  ForEachBlock want fn (concat frames ++ tail) hd (table_of frames) entries dict passphrase s = each_block want fn 0 pss s.
Proof.
  intros hd. pose proof (ar_describes _ _ _ _ _ _ _ _ Har) as Hds. destruct (archive_read _ _ _ _ _ _ _ _ Har) as (_ & _ & _ & _ & Hst).
  destruct (archive_blocks _ _ _ _ _ _ _ _ Har) as (Hwf & _).
  destruct (stored_fields h n (ds_version _ _ _ Hds)) as (E1 & E2 & _ & _ & _ & E6 & _). fold hd in E1, E2, E6.
  pose proof (ds_version _ _ _ Hds). unfold ForEachBlock, Version2. rewrite E1, (proj2 (Z.ltb_ge _ _)), Hst, E2, E6 by lia.
  cbn [negb]. fold (table_key passphrase h).
  exact (for_each_block_packed want fn cb dict (table_key passphrase h) 0 (input_blocks input) pss frames [] tail s
    (ar_packed _ _ _ _ _ _ _ _ Har) Hwf).
Qed.

(** ** The manifest of an archive *)

Definition manifest_chunk (p : processedChunk) : ManifestEntry := manifest_entry (p_entry p) (p_res p).

Definition manifest_of (input : bytes) (pss : list (list processedChunk)) : ChunkManifest :=
  {| m_Version := ManifestVersion; m_OriginalHash := Sum256 input; m_OriginalSize := zlen input; m_ChunkCount := zlen (concat pss);
     m_Entries := map manifest_chunk (concat pss) |}.

(** Filling the next cells of the list of entries. *)
Lemma insert_next (done_ rest : list ManifestEntry) x y : <[length done_ := x]> (done_ ++ y :: rest) = done_ ++ x :: rest.
Proof. rewrite insert_app_r_alt by lia. by rewrite Nat.sub_diag. Qed.

Lemma manifest_block_ok base q1 ps filled rest more :
  laid_out base (q1 ++ ps) -> Forall (fun p => e_DeltaSize (p_entry p) = zlen (p_res p)) ps -> zlen (pool_of (q1 ++ ps)) < 2 ^ 48 ->
  length rest = length ps ->
  manifest_block (map p_entry ps) (zlen filled) base (pool_of (q1 ++ ps)) (filled ++ rest ++ more) =
    Ok (filled ++ map manifest_chunk ps ++ more).
Proof.
  revert q1 filled rest; induction ps as [|p ps IH]; intros q1 filled rest Hlo Hsz Hb Hlen.
  { destruct rest; [|done]. done. }
  destruct rest as [|y rest]; [done|]. cbn [map manifest_block app]. apply Forall_cons in Hsz as [Hs Hsz].
  destruct (residual_bounds base q1 p ps (laid_out_at _ _ _ _ Hlo) Hs Hb) as [E1 E2]. cbv zeta in E1, E2.
  unfold residual_at. rewrite E1, E2. cbn [mbind res_bind].
  assert (Hi : Z.to_nat (zlen filled) = length filled) by (unfold zlen; lia). rewrite Hi, insert_next.
  change (manifest_entry (p_entry p) (p_res p)) with (manifest_chunk p).
  specialize (IH (q1 ++ [p]) (filled ++ [manifest_chunk p]) rest). rewrite <-!app_assoc in IH. cbn [app] in IH.
  rewrite zlen_app in IH. apply IH; [done|done|done|]. by injection Hlen.
Qed.

Lemma each_block_manifest p1 p2 :
  pss = p1 ++ p2 ->
  each_block (fun _ _ _ => true) (manifest_fn entries) (zlen (concat p1)) p2
    (map manifest_chunk (concat p1) ++ replicate (length (concat p2)) zero_manifest_entry) = Ok (map manifest_chunk (concat pss)).
Proof.
  revert p1; induction p2 as [|ps p2 IH]; intros p1 E.
  { cbn [each_block concat length replicate]. rewrite E, !app_nil_r. done. }
  cbn [each_block negb]. destruct (archive_block _ _ _ _ _ _ _ _ Har p1 ps p2 E) as ((e & E1 & E2) & E3 & Hlo & Hsz & Hb & _).
  assert (Hfn : forall pool out, manifest_fn entries (zlen (concat p1)) (zlen (concat p1) + zlen ps) pool out =
    manifest_block (map p_entry ps) (zlen (concat p1)) (zlen (concat (map pool_of p1))) pool out).
  { intros pool out. unfold manifest_fn. rewrite E1. cbn [mbind res_bind]. by rewrite E2, E3. }
  rewrite Hfn. cbn [concat]. rewrite length_app, replicate_add.
  pose proof (zlen_nonneg (concat (map pool_of p1))).
  pose proof (manifest_block_ok _ [] ps (map manifest_chunk (concat p1)) (replicate (length ps) zero_manifest_entry)
    (replicate (length (concat p2)) zero_manifest_entry) Hlo Hsz ltac:(cbn [app]; lia) (length_replicate _ _)) as Hblock.
  replace (zlen (map manifest_chunk (concat p1))) with (zlen (concat p1)) in Hblock by (unfold zlen; by rewrite length_map).
  cbn [app] in Hblock. rewrite Hblock. cbn [mbind res_bind].
  specialize (IH (p1 ++ [ps])). rewrite concat_app, map_app, zlen_app in IH. cbn [concat] in IH. rewrite app_nil_r, <-!app_assoc in IH.
  by apply IH.
Qed.

(** The manifest of an archive lists its chunks, whatever was appended to the file. *)
Lemma GenerateManifest_archive path r tail :
  Open path = Ok r -> cb = None \/ cb = Some r -> h_IsLossy h = false ->
  GenerateManifest (metadata ++ concat frames ++ tail) path passphrase = Ok (manifest_of input pss).
Proof.
  intros Ho Hcb Hlossy. pose proof (ar_describes _ _ _ _ _ _ _ _ Har) as Hds. destruct (archive_read _ _ _ _ _ _ _ _ Har) as (n & _ & _ & Hmeta & _).
  unfold GenerateManifest. rewrite Ho, Hmeta. cbn [wrap_err mbind res_bind]. set (hd := set_table_bytes n (stored_header h)).
  destruct (stored_fields h n (ds_version _ _ _ Hds)) as (_ & _ & _ & _ & E5 & _ & E7 & E8 & _). fold hd in E5, E7, E8.
  assert (Hdict : (if h_UsesBrainDict hd then Dictionary r else Ok []) = Ok dict).
  { rewrite E5. pose proof (ar_brain _ _ _ _ _ _ _ _ Har) as Hb. destruct Hcb as [-> | ->]; destruct Hb as [-> Hb]; by rewrite Hb. }
  rewrite Hdict. cbn [mbind res_bind]. unfold hd. rewrite ForEachBlock_archive.
  pose proof (each_block_manifest [] pss eq_refl) as Hm. cbn [concat map app] in Hm. change (zlen []) with 0 in Hm.
  assert (Hlen : length entries = length (concat pss)) by (rewrite concat_entries_of; by rewrite length_map).
  rewrite Hlen, Hm. cbn [wrap_err mbind res_bind]. fold hd. rewrite E7, E8. unfold manifest_of. destruct Hds. do 2 f_equal; [by apply ds_hash| |done].
  unfold hd, stored_header. destruct (h_CodebookHashes h) as [[? ?] ?]. exact ds_size.
Qed.
End archive.
