(* ===== verification/Bitswap.v ===== *)
(** [internal/network/bitswap.go]: the chunks a node sends to a peer, and the archive the peer rebuilds
    from them, from the manifest and from the version of the file it already has. *)

From stdpp Require Import sorting.
From S2P Require Import Prelude Binary Sha256 Externals Crypto Format FormatIO Delta Chunker Codebook.
From S2P Require Import Fractal Entropy Search Unpack Pack ChunkCodec BlockCodec RoundTrip Archive Sync.
Import codebook Format.

(** The streaming side of zstd: what [BrainWriter] puts on the wire, and what [BrainReader] yields from
    a stream before it stops, at the end of the stream or with an error. *)
Class ZstdWire := {
  wire_enc : bytes -> bytes -> bytes;
  wire_dec : bytes -> bytes -> bytes * option string;
}.

Class ZstdWireLaws (W0 : ZstdWire) :=
  wire_dec_enc dict plain : bytes_ok plain -> wire_dec dict (wire_enc dict plain) = (plain, None).

#[export] Instance stored_wire : ZstdWire := {
  wire_enc _ plain := 0x28 :: plain;
  wire_dec _ stream := match stream with 0x28 :: plain => (plain, None) | _ => ([], Some "magic number mismatch"%string) end;
}.

#[export] Instance stored_wire_laws : ZstdWireLaws stored_wire.
Proof. intros dict plain _. done. Qed.

Section bitswap.
Context {Z0 : Zstd} {W0 : ZstdWire} {C0 : Cipher} {F0 : Files} {hash64 : XXHash}.

(** ** The sender *)

(** [[Chunk Index (4)] [Residual Size (4)] [Residual Data]] *)
Definition wire_record (idx : Z) (residual : bytes) : bytes :=
  le_put 4 idx ++ le_put 4 (u32 (zlen residual)) ++ residual.

(** [ordered] is what is left of the requested indices, [out] what was written. *)
Fixpoint stream_block (entries : list ChunkEntry) (first end_ base : Z) (pool : bytes) (ordered : list Z) (out : bytes)
    : res (list Z * bytes) :=
  match ordered with
  | [] => Ok ([], out)
  | idx :: rest =>
      if idx <? end_ then
        if idx <? first then stream_block entries first end_ base pool rest out else
        entry ← index entries idx;
        residual ← residual_at entry base pool;
        match residual with
        | None => Err "bitswap: bounds error on chunk"
        | Some residual => stream_block entries first end_ base pool rest (out ++ wire_record idx residual)
        end
      else Ok (ordered, out)
  end.

Definition stream_want (first end_ : Z) (st : list Z * bytes) : bool :=
  match st.1 with [] => false | idx :: _ => idx <? end_ end.

Definition stream_fn (entries : list ChunkEntry) (first end_ : Z) (pool : bytes) (st : list Z * bytes) : res (list Z * bytes) :=
  e ← index entries first;
  stream_block entries first end_ (e_DeltaOffset e) pool st.1 st.2.

(** What goes to the stream. *)
Definition StreamChunks (file codebookPath encryptionKey : bytes) (indices : list Z) : res bytes :=
  '((header, blockTable, entries), rStream) ← ReadMetadata encryptionKey file;
  wireCb ← wrap_err "bitswap: open codebook" (Open codebookPath);
  dict ← Dictionary wireCb;
  let poolDict := if h_UsesBrainDict header then dict else [] in
  let ordered := merge_sort Z.le indices in
  '(_, out) ← ForEachBlock stream_want (stream_fn entries) rStream header blockTable entries poolDict encryptionKey (ordered, []);
  Ok (wire_enc dict out).

(** ** The receiver *)

Definition maxPatchOverhead : Z := 256.

(** Where a residual is in the spill file. *)
Record spilled := { sp_off : Z; sp_size : Z }.

Definition keep (data spill : bytes) : spilled * bytes :=
  ({| sp_off := zlen spill; sp_size := u32 (zlen data) |}, spill ++ data).

(** [io.ReadFull] on the decompressed stream; [None] is [io.EOF]. *)
Definition read_wire (n : Z) (w : bytes * option string) : res (option (bytes * (bytes * option string))) :=
  let '(plain, stop) := w in
  if n <=? zlen plain then Ok (Some (ztake n plain, (zdrop n plain, stop))) else
  match stop with
  | Some e => Err e
  | None => if zlen plain =? 0 then Ok None else Err "unexpected EOF"
  end.

(** 1. The missing chunks, [n] of them at most. *)
Fixpoint receive_loop (n : nat) (manifest : ChunkManifest) (w : bytes * option string) (spill : bytes) (residuals : gmap Z spilled)
    : res (bytes * gmap Z spilled) :=
  match n with
  | O => Ok (spill, residuals)
  | S n =>
      header ← wrap_err "bitswap: read header" (read_wire 8 w);
      match header with
      | None => Ok (spill, residuals)
      | Some (header, w) =>
          idx ← get_le 4 header 0;
          size ← get_le 4 header 4;
          invalid ← (if idx >=? m_ChunkCount manifest then Ok true
                     else e ← index (m_Entries manifest) idx; Ok (size >? u32 (me_ChunkSize e + maxPatchOverhead)));
          if (invalid : bool) then Err "bitswap: invalid chunk" else
          data ← (if size >? 0 then wrap_err "bitswap: read residual data" (read_wire size w) else Ok (Some ([], w)));
          match data with
          | None => Err "bitswap: read residual data"
          | Some (residual, w) =>
              let '(ref, spill) := keep residual spill in
              receive_loop n manifest w spill (<[idx := ref]> residuals)
          end
      end
  end.

(** 2. The residuals of the local version that are still of use. *)
Fixpoint needed_keys (residuals : gmap Z spilled) (i : Z) (entries : list ManifestEntry) : gset (Z * Z) :=
  match entries with
  | [] => ∅
  | e :: entries =>
      let needed := needed_keys residuals (i + 1) entries in
      match residuals !! u32 i with
      | None => {[chunk_key e]} ∪ needed
      | Some _ => needed
      end
  end.

Fixpoint keep_local (needed : gset (Z * Z)) (base : Z) (pool : bytes) (entries : list ChunkEntry)
    (st : bytes * gmap (Z * Z) spilled) : res (bytes * gmap (Z * Z) spilled) :=
  match entries with
  | [] => Ok st
  | le :: entries =>
      residual ← residual_at le base pool;
      match residual with
      | None => keep_local needed base pool entries st
      | Some residual =>
          let key := (e_CodebookID le, xxhash_Sum64 residual) in
          let '(spill, local) := st in
          if bool_decide (key ∈ needed) && bool_decide (local !! key = None) then
            let '(ref, spill) := keep residual spill in
            keep_local needed base pool entries (spill, <[key := ref]> local)
          else keep_local needed base pool entries st
      end
  end.

Definition local_fn (needed : gset (Z * Z)) (lEnts : list ChunkEntry) (first end_ : Z) (pool : bytes)
    (st : bytes * gmap (Z * Z) spilled) : res (bytes * gmap (Z * Z) spilled) :=
  e ← index lEnts first;
  keep_local needed (e_DeltaOffset e) pool (sub first end_ lEnts) st.

(** [outFile] is the local version, if there is one. *)
Definition local_chunks (outFile : option bytes) (brainDict encryptionKey : bytes) (needed : gset (Z * Z)) (spill : bytes)
    : res (bytes * gmap (Z * Z) spilled) :=
  match outFile with
  | None => Ok (spill, ∅)
  | Some file =>
      match ReadMetadata encryptionKey file with
      | Panic p => Panic p
      | Err _ => Ok (spill, ∅)
      | Ok ((lHeader, lBlockTable, lEnts), rStream) =>
          if h_ChunkCount lHeader >? 0 then
            let localDict := if h_UsesBrainDict lHeader then brainDict else [] in
            wrap_err "bitswap: read local version"
              (ForEachBlock (fun _ _ _ => true) (local_fn needed lEnts) rStream lHeader lBlockTable lEnts localDict encryptionKey (spill, ∅))
          else Ok (spill, ∅)
      end
  end.

(** 3. The archive. *)
Definition initial_entry (e : ManifestEntry) : ChunkEntry :=
  {| e_CodebookID := me_CodebookID e; e_DeltaOffset := 0; e_DeltaSize := 0; e_OriginalSize := me_ChunkSize e;
     e_CodebookIndex := me_CodebookIndex e |}.

Definition zero_entry : ChunkEntry :=
  {| e_CodebookID := 0; e_DeltaOffset := 0; e_DeltaSize := 0; e_OriginalSize := 0; e_CodebookIndex := 0 |}.

(** A slice of [ChunkCount] entries, filled from the manifest. *)
Definition initial_entries (manifest : ChunkManifest) : res (list ChunkEntry) :=
  let n := m_ChunkCount manifest in
  if zlen (m_Entries manifest) >? n then Panic IndexOutOfRange
  else Ok (map initial_entry (m_Entries manifest) ++ replicate (Z.to_nat (n - zlen (m_Entries manifest))) zero_entry).

Definition find_residual (manifest : ChunkManifest) (residuals : gmap Z spilled) (local : gmap (Z * Z) spilled) (idx : Z) : res spilled :=
  match residuals !! u32 idx with
  | Some ref => Ok ref
  | None =>
      e ← index (m_Entries manifest) idx;
      match local !! chunk_key e with
      | Some ref => Ok ref
      | None => Err "bitswap: missing chunk for reconstruction"
      end
  end.

Definition read_spill (spill : bytes) (ref : spilled) : res bytes :=
  if sp_size ref >? 0 then
    if sp_off ref + sp_size ref >? zlen spill then Err "bitswap: read residual"
    else Ok (sub (sp_off ref) (sp_off ref + sp_size ref) spill)
  else Ok [].

Definition set_delta (off size : Z) (e : ChunkEntry) : ChunkEntry :=
  {| e_CodebookID := e_CodebookID e; e_DeltaOffset := off; e_DeltaSize := size;
     e_OriginalSize := e_OriginalSize e; e_CodebookIndex := e_CodebookIndex e |}.

Section rebuild.
Variables (find : Z -> res spilled) (spill brainDict : bytes) (newKey : option bytes) (nonce : Z -> bytes).

(** The chunks of a block, [n] of them from [idx]. *)
Fixpoint rebuild_block (n : nat) (idx : Z) (finalEntries : list ChunkEntry) (currentOffset : Z) (deltas : bytes)
    : res (list ChunkEntry * Z * bytes) :=
  match n with
  | O => Ok (finalEntries, currentOffset, deltas)
  | S n =>
      ref ← find idx;
      residual ← read_spill spill ref;
      e ← index finalEntries idx;
      let finalEntries := <[Z.to_nat idx := set_delta currentOffset (u32 (zlen residual)) e]> finalEntries in
      rebuild_block n (idx + 1) finalEntries (u64 (currentOffset + zlen residual)) (deltas ++ residual)
  end.

(** The blocks, [n] of them from [b]: the entries and the frames. *)
Fixpoint rebuild_blocks (n : nat) (blockStarts : list Z) (b : Z) (finalEntries : list ChunkEntry) (currentOffset : Z)
    (frames : list bytes) : res (list ChunkEntry * list bytes) :=
  match n with
  | O => Ok (finalEntries, frames)
  | S n =>
      '(startIdx, endIdx) ← BlockRange blockStarts b (zlen finalEntries);
      '(finalEntries, currentOffset, deltas) ← rebuild_block (Z.to_nat (endIdx - startIdx)) startIdx finalEntries currentOffset [];
      compBlock ← seal_block "bitswap: encrypt block" newKey (nonce b) (CompressPoolDict deltas brainDict);
      rebuild_blocks n blockStarts (b + 1) finalEntries currentOffset (frames ++ [compBlock])
  end.
End rebuild.

Definition sync_header (manifest : ChunkManifest) (encryptionKey salt : bytes) : Header :=
  pack_header Version7 (negb (zlen encryptionKey =? 0)) false false true true
    (if zlen encryptionKey =? 0 then make_bytes 16 else salt) (m_OriginalHash manifest) (m_OriginalSize manifest) (m_ChunkCount manifest) 0
    (make_bytes 8) zero_hashes (make_bytes 32) [].

(** The end: the compressed table can be made once the blocks are there, which then follow it. *)
Definition write_synced (fileHeader : Header) (newKey : option bytes) (nonce : bytes) (finalEntries : list ChunkEntry) (frames : list bytes) :
    res bytes :=
  tableData ← EncodeCompressedTable nonce finalEntries Version7 newKey;
  Ok ((Serialize fileHeader).2 ++ put_u32s (map (fun f => u32 (zlen f)) frames) ++ tableData ++ concat frames).

(** The file at [tempPath]; [salt] and [nonce] are the random draws, the table's nonce after those of the blocks. *)
Definition ReceiveChunks (outFile : option bytes) (manifest : ChunkManifest) (missingIndices : list Z) (stream : bytes)
    (codebookPath encryptionKey salt : bytes) (nonce : Z -> bytes) : res bytes :=
  cb ← wrap_err "bitswap: open codebook" (Open codebookPath);
  brainDict ← Dictionary cb;
  '(spill, residuals) ← receive_loop (length missingIndices) manifest (wire_dec brainDict stream) [] ∅;
  let needed := needed_keys residuals 0 (m_Entries manifest) in
  '(spill, local) ← local_chunks outFile brainDict encryptionKey needed spill;
  let fileHeader := sync_header manifest encryptionKey salt in
  let newKey := if zlen encryptionKey =? 0 then None else Some (DeriveKey encryptionKey salt) in
  finalEntries ← initial_entries manifest;
  let blockStarts := BlockStarts finalEntries in
  '(finalEntries, frames) ← rebuild_blocks (find_residual manifest residuals local) spill brainDict newKey nonce
    (length blockStarts) blockStarts 0 finalEntries 0 [];
  write_synced fileHeader newKey (nonce (zlen blockStarts)) finalEntries frames.
End bitswap.
