(* ===== verification/Transfer.v ===== *)
(** A transfer between two nodes: the archive that [ReceiveChunks] makes of what [StreamChunks] sent, of a
    manifest and of the local version is an archive of the remote file. *)

From stdpp Require Import sorting.
From S2P Require Import Prelude Binary Sha256 Externals Crypto Format FormatIO Delta Chunker Codebook.
From S2P Require Import Fractal Entropy Search Unpack Pack ChunkCodec BlockCodec RoundTrip Archive Sync Bitswap.
Import codebook Format.

(** The residual of chunk [i]. *)
Definition residual_of (chunks : list processedChunk) (i : Z) : bytes :=
  match chunks !! Z.to_nat i with Some p => p_res p | None => [] end.

Definition records (chunks : list processedChunk) (indices : list Z) : bytes :=
  concat (map (fun i => wire_record i (residual_of chunks i)) indices).

Lemma records_cons chunks i indices : records chunks (i :: indices) = wire_record i (residual_of chunks i) ++ records chunks indices.
Proof. done. Qed.

Lemma residual_of_mid q1 p q2 i : i = zlen q1 -> residual_of (q1 ++ p :: q2) i = p_res p.
Proof.
  intros ->. unfold residual_of, zlen. rewrite Nat2Z.id. by rewrite list_lookup_middle.
Qed.

Lemma lookup_chunk (chunks : list processedChunk) i :
  0 <= i < zlen chunks -> exists q1 p q2, chunks = q1 ++ p :: q2 /\ i = zlen q1.
Proof.
  intros Hi. destruct (lookup_lt_is_Some_2 chunks (Z.to_nat i)) as [p Hp]; [unfold zlen in *; lia|].
  exists (take (Z.to_nat i) chunks), p, (drop (S (Z.to_nat i)) chunks). split; [by rewrite take_drop_middle|].
  unfold zlen in *. rewrite length_take. lia.
Qed.

(** ** Sending *)

Section sending.
Context {Z0 : Zstd} {W0 : ZstdWire} {C0 : Cipher} {F0 : Files} {hash64 : XXHash} {ZL : ZstdLaws Z0} {CL : CipherLaws C0}.
Variables (cb : option Reader) (dict passphrase : bytes) (h : Header) (input : bytes)
  (pss : list (list processedChunk)) (frames : list bytes) (metadata : bytes).
Hypothesis Har : archive cb dict passphrase h input pss frames metadata.

Abbreviation entries := (concat (entries_of pss)).
Abbreviation chunks := (concat pss).

(** The requested chunks of a block are cut out of its pool. *)
Lemma stream_block_ok p1 ps p2 ordered out :
  pss = p1 ++ ps :: p2 -> Forall (fun i => zlen (concat p1) <= i) ordered ->
  let end_ := zlen (concat p1) + zlen ps in
  exists a b, ordered = a ++ b /\ match b with [] => True | i :: _ => end_ <= i end /\
    stream_block entries (zlen (concat p1)) end_ (zlen (concat (map pool_of p1))) (pool_of ps) ordered out =
      Ok (b, out ++ records chunks a).
Proof.
  intros E Hge end_. destruct (archive_block _ _ _ _ _ _ _ _ Har p1 ps p2 E) as (_ & _ & Hlo & Hsz & Hb & _).
  pose proof (zlen_nonneg (concat (map pool_of p1))). pose proof (zlen_nonneg (concat p1)).
  revert out; induction Hge as [|idx rest Hi Hge IH]; intros out.
  { exists [], []. cbn. by rewrite app_nil_r. }
  cbn [stream_block]. destruct (Z.ltb_spec idx end_); [|exists [], (idx :: rest); unfold records; cbn [map concat app]; by rewrite app_nil_r].
  rewrite (proj2 (Z.ltb_ge _ _)) by done. unfold end_ in *.
  destruct (lookup_chunk ps (idx - zlen (concat p1)) ltac:(lia)) as (q1 & p & q2 & -> & Eq).
  assert (Hmid : chunks = (concat p1 ++ q1) ++ p :: (q2 ++ concat p2)).
  { rewrite E, concat_mid. by rewrite <-!app_assoc. }
  assert (Hidx : index entries idx = Ok (p_entry p)).
  { rewrite concat_entries_of, Hmid, map_app. cbn [map]. apply index_app_mid. rewrite zlen_map_entry, zlen_app. lia. }
  rewrite Hidx. cbn [mbind res_bind].
  destruct (residual_bounds _ q1 p q2 (laid_out_at _ _ _ _ Hlo)) as [E1 E2]; [|lia|].
  { apply Forall_app in Hsz as [_ Hsz]. by apply Forall_cons in Hsz as [? _]. }
  cbv zeta in E1, E2. unfold residual_at at 1. rewrite E1, E2. cbn [mbind res_bind].
  destruct (IH (out ++ wire_record idx (p_res p))) as (a & b & -> & Hb' & ->).
  exists (idx :: a), b. do 2 (split; [done|]). rewrite records_cons, Hmid, residual_of_mid by (rewrite zlen_app; lia).
  by rewrite <-!app_assoc.
Qed.

Lemma sorted_rest a b (e : Z) :
  StronglySorted Z.le (a ++ b) -> match b with [] => True | i :: _ => e <= i end -> StronglySorted Z.le b /\ Forall (fun i => e <= i) b.
Proof.
  intros Hs%StronglySorted_app_1_r Hb. split; [done|]. destruct b as [|i b]; [constructor|].
  apply StronglySorted_inv in Hs as [_ Hs]. constructor; [done|]. eapply Forall_impl; [exact Hs|]. cbn. lia.
Qed.

Lemma each_block_stream p1 p2 ordered out :
  pss = p1 ++ p2 -> StronglySorted Z.le ordered ->
  Forall (fun i => zlen (concat p1) <= i) ordered -> Forall (fun i => i < zlen chunks) ordered ->
  each_block stream_want (stream_fn entries) (zlen (concat p1)) p2 (ordered, out) = Ok ([], out ++ records chunks ordered).
Proof.
  revert p1 ordered out; induction p2 as [|ps p2 IH]; intros p1 ordered out E Hs Hge Hlt.
  { destruct ordered as [|i ordered]; [by cbn; rewrite app_nil_r|]. exfalso.
    apply Forall_cons in Hge as [? _]. apply Forall_cons in Hlt as [Hi _]. rewrite E, app_nil_r in Hi. lia. }
  destruct (stream_block_ok p1 ps p2 ordered out E Hge) as (a & b & Eo & Hb & Hblock). cbv zeta in Hb, Hblock.
  assert (Hnext : zlen (concat (p1 ++ [ps])) = zlen (concat p1) + zlen ps).
  { rewrite concat_app, zlen_app. cbn [concat]. by rewrite app_nil_r. }
  specialize (IH (p1 ++ [ps])). rewrite Hnext, <-app_assoc in IH.
  cbn [each_block]. destruct (stream_want _ _ _) eqn:Hw; cbn [negb].
  - destruct (archive_block _ _ _ _ _ _ _ _ Har p1 ps p2 E) as ((e & E1 & E2) & _).
    assert (Hfn : stream_fn entries (zlen (concat p1)) (zlen (concat p1) + zlen ps) (pool_of ps) (ordered, out) = Ok (b, out ++ records chunks a)).
    { unfold stream_fn. rewrite E1. cbn [mbind res_bind fst snd]. by rewrite E2. }
    rewrite Hfn. cbn [mbind res_bind].
    rewrite Eo in Hs, Hlt |- *. apply Forall_app in Hlt as [_ Hlt].
    destruct (sorted_rest a b _ Hs Hb) as [Hsb Hgb]. rewrite (IH b _ E Hsb Hgb Hlt).
    unfold records. by rewrite map_app, concat_app, <-!app_assoc.
  - apply IH; [done|done| |done]. apply (sorted_rest [] ordered); [done|].
    destruct ordered as [|i ordered]; [done|]. unfold stream_want in Hw. cbn [fst] in Hw. by apply Z.ltb_ge in Hw.
Qed.

(** What goes on the wire: the residuals of the requested chunks, in increasing order. *)
Lemma StreamChunks_archive path r brainDict indices tail :
  Open path = Ok r -> Dictionary r = Ok brainDict -> cb = None \/ cb = Some r ->
  Forall (fun i => 0 <= i < zlen chunks) indices ->
  StreamChunks (metadata ++ concat frames ++ tail) path passphrase indices =
    Ok (wire_enc brainDict (records chunks (merge_sort Z.le indices))).
Proof.
  intros Ho Hd Hcb Hi. pose proof (ar_describes _ _ _ _ _ _ _ _ Har) as Hds.
  destruct (archive_read _ _ _ _ _ _ _ _ Har) as (n & _ & _ & Hmeta & _).
  unfold StreamChunks. rewrite Hmeta. cbn [mbind res_bind]. rewrite Ho. cbn [wrap_err mbind res_bind]. rewrite Hd. cbn [mbind res_bind].
  destruct (stored_fields h n (ds_version _ _ _ Hds)) as (_ & _ & _ & _ & E5 & _).
  assert (Hdict : (if h_UsesBrainDict (set_table_bytes n (stored_header h)) then brainDict else []) = dict).
  { rewrite E5. pose proof (ar_brain _ _ _ _ _ _ _ _ Har) as Hb. destruct Hcb as [-> | ->]; destruct Hb as [-> Hb]; [done|congruence]. }
  cbv zeta. rewrite Hdict. rewrite (ForEachBlock_archive cb dict passphrase h input pss frames metadata Har).
  pose proof (each_block_stream [] pss (merge_sort Z.le indices) [] eq_refl) as He. cbn [concat] in He. change (zlen (@nil processedChunk)) with 0 in He.
  rewrite He; [done| | |].
  - apply StronglySorted_merge_sort; [intros ???; lia|intros ??; lia].
  - rewrite merge_sort_Permutation. eapply Forall_impl; [exact Hi|]. cbn. lia.
  - rewrite merge_sort_Permutation. eapply Forall_impl; [exact Hi|]. cbn. lia.
Qed.
End sending.

(** ** The spill file *)

(** [ref] is where [data] is in [spill]. *)
Record held (spill : bytes) (ref : spilled) (data : bytes) : Prop := {
  hd_off : 0 <= sp_off ref;
  hd_size : sp_size ref = zlen data;
  hd_end : sp_off ref + sp_size ref <= zlen spill;
  hd_data : sub (sp_off ref) (sp_off ref + sp_size ref) spill = data;
}.

Lemma keep_held data spill : is_u32 (zlen data) -> held (keep data spill).2 (keep data spill).1 data.
Proof.
  intros Hd. pose proof (zlen_nonneg spill). pose proof (zlen_nonneg data). unfold keep. cbn [fst snd].
  constructor; cbn [sp_off sp_size]; rewrite ?u32_small by done; [done|done|rewrite zlen_app; lia|].
  rewrite <-(app_nil_r (spill ++ data)), <-app_assoc. apply sub_app_mid; lia.
Qed.

Lemma held_app spill more ref data : held spill ref data -> held (spill ++ more) ref data.
Proof.
  intros [Ho Hs He Hd]. pose proof (zlen_nonneg more). pose proof (zlen_nonneg data).
  constructor; [done|done|rewrite zlen_app; lia|].
  rewrite <-(sub_ztake (zlen spill) _ _ (spill ++ more)) by lia. by rewrite ztake_app, Hd.
Qed.

Lemma read_held spill ref data : held spill ref data -> read_spill spill ref = Ok data.
Proof.
  intros [Ho Hs He Hd]. unfold read_spill. rewrite !Z.gtb_ltb, (proj2 (Z.ltb_ge (zlen spill) _)), Hd by done.
  destruct (Z.ltb_spec 0 (sp_size ref)); [done|]. pose proof (zlen_nonneg data).
  by rewrite (zlen_0_nil data) by lia.
Qed.

(** ** Receiving *)

Lemma read_wire_app n a rest stop : zlen a = n -> read_wire n (a ++ rest, stop) = Ok (Some (a, (rest, stop))).
Proof.
  intros Hn. unfold read_wire. rewrite zlen_app, (proj2 (Z.leb_le _ _)) by (pose proof (zlen_nonneg rest); lia).
  by rewrite ztake_app_eq, zdrop_app_eq.
Qed.

(** A chunk that a packer made. *)
Definition sound_chunk (cb : option Reader) (p : processedChunk) : Prop := exists d, decodes cb d p.

Section receiving.
Context {Z0 : Zstd} {W0 : ZstdWire} {C0 : Cipher} {F0 : Files} {hash64 : XXHash} {ZL : ZstdLaws Z0} {CL : CipherLaws C0}.

Lemma packed_sound cb dict key off blocks pss frames :
  packed cb dict key off blocks pss frames -> Forall (sound_chunk cb) (concat pss).
Proof.
  induction 1 as [|off datas blocks ps pss frame frames Hps _ _ _ IH]; [constructor|]. cbn [concat]. apply Forall_app. split; [|done].
  clear -Hps. induction Hps as [|d p datas ps Hd _ IH]; constructor; [by exists d|done].
Qed.

Variables (cb : option Reader) (input : bytes) (pss : list (list processedChunk)).
Abbreviation chunks := (concat pss).
Abbreviation manifest := (manifest_of input pss).
Hypotheses (Hsound : Forall (sound_chunk cb) chunks) (Hcount : zlen chunks < 2 ^ 32).

Lemma manifest_index q1 p q2 i :
  chunks = q1 ++ p :: q2 -> i = zlen q1 -> index (m_Entries manifest) i = Ok (manifest_chunk p).
Proof.
  intros E ->. cbn [manifest_of m_Entries]. rewrite E, map_app. cbn [map]. apply index_app_mid. unfold zlen. by rewrite length_map.
Qed.

(** What is spilled for each received chunk is its residual. *)
Definition residuals_ok (spill : bytes) (residuals : gmap Z spilled) : Prop :=
  map_Forall (fun i ref => held spill ref (residual_of chunks i)) residuals.

Lemma residuals_ok_app spill more residuals : residuals_ok spill residuals -> residuals_ok (spill ++ more) residuals.
Proof. intros H i ref Hr. by apply held_app, H. Qed.

Lemma receive_loop_ok indices rest stop spill residuals :
  Forall (fun i => 0 <= i < zlen chunks) indices -> residuals_ok spill residuals ->
  exists more residuals',
    receive_loop (length indices) manifest (records chunks indices ++ rest, stop) spill residuals = Ok (spill ++ more, residuals') /\
    residuals_ok (spill ++ more) residuals' /\
    (forall i, residuals' !! i = None -> residuals !! i = None /\ i ∉ indices).
Proof.
  intros Hi. revert spill residuals; induction Hi as [|i indices Hi _ IH]; intros spill residuals Hr.
  { exists [], residuals. rewrite app_nil_r. split; [done|]. split; [done|]. intros i Hn. split; [done|]. by intros ?%elem_of_nil. }
  destruct (lookup_chunk chunks i Hi) as (q1 & p & q2 & E & Ei).
  assert (Hp : sound_chunk cb p) by (rewrite E in Hsound; by apply Forall_app in Hsound as [_ [? _]%Forall_cons]).
  destruct Hp as (d & [Hd _ Hl _ Ho _ _ _ _]). unfold BlockSize in *. pose proof (zlen_nonneg (p_res p)).
  assert (Hres : residual_of chunks i = p_res p) by (rewrite E; by apply residual_of_mid).
  cbn [length receive_loop]. rewrite records_cons, Hres. unfold wire_record. rewrite <-!app_assoc, (app_assoc (le_put 4 _)).
  rewrite read_wire_app by (rewrite zlen_app, !zlen_le_put; lia). cbn [wrap_err mbind res_bind].
  rewrite (get_le_here 4 i _ 0) by (done || lia). cbn [mbind res_bind].
  rewrite <-(app_nil_r (le_put 4 (u32 _))), (get_le_skip 4 4), get_le_here by (rewrite ?zlen_le_put; try apply u32_range; done || lia).
  cbn [mbind res_bind]. rewrite (u32_small (zlen (p_res p))) by (unfold is_u32; lia).
  cbn [manifest_of m_ChunkCount]. rewrite Z.geb_leb, (proj2 (Z.leb_gt _ _)), (manifest_index q1 p q2 i E Ei) by lia.
  cbn [mbind res_bind manifest_chunk manifest_entry me_ChunkSize]. unfold maxPatchOverhead. rewrite Ho, u32_small by (unfold is_u32; lia).
  rewrite !Z.gtb_ltb, (proj2 (Z.ltb_ge (zlen d + 256) _)) by lia.
  assert (Hdata : (if 0 <? zlen (p_res p) then wrap_err "bitswap: read residual data" (read_wire (zlen (p_res p)) (p_res p ++ records chunks indices ++ rest, stop))
    else Ok (Some ([], (p_res p ++ records chunks indices ++ rest, stop)))) = Ok (Some (p_res p, (records chunks indices ++ rest, stop)))).
  { destruct (Z.ltb_spec 0 (zlen (p_res p))); [by rewrite read_wire_app|]. by rewrite (zlen_0_nil (p_res p)) by lia. }
  rewrite Hdata. cbn [mbind res_bind]. destruct (keep (p_res p) spill) as [ref spill'] eqn:Ek.
  pose proof (keep_held (p_res p) spill ltac:(unfold is_u32; lia)) as Hh. rewrite Ek in Hh. cbn [fst snd] in Hh.
  injection Ek as _ <-. destruct (IH (spill ++ p_res p) (<[i:=ref]> residuals)) as (more & residuals' & Hrun & Hok & Hnone).
  { apply map_Forall_insert_2; [by rewrite Hres|by apply residuals_ok_app]. }
  exists (p_res p ++ more), residuals'. rewrite app_assoc. split; [exact Hrun|]. split; [done|].
  intros k Hk. destruct (Hnone k Hk) as [[Hk1 Hk2]%lookup_insert_None Hk3]. split; [done|]. by apply not_elem_of_cons.
Qed.
End receiving.

(** ** The local version *)

Definition key_of_chunk `{XXHash} (p : processedChunk) : Z * Z := chunk_key (manifest_chunk p).

Lemma needed_keys_spec residuals i entries k e :
  entries !! k = Some e -> residuals !! u32 (i + Z.of_nat k) = None -> chunk_key e ∈ needed_keys residuals i entries.
Proof.
  revert i k; induction entries as [|e' entries IH]; intros i k He Hn; [done|]. cbn [needed_keys]. destruct k as [|k].
  - injection He as ->. rewrite Z.add_0_r in Hn. rewrite Hn. set_solver.
  - assert (Hin : chunk_key e ∈ needed_keys residuals (i + 1) entries).
    { apply (IH _ k); [done|]. by replace (i + 1 + Z.of_nat k) with (i + Z.of_nat (S k)) by lia. }
    destruct (residuals !! u32 i); set_solver.
Qed.

Section local.
Context {Z0 : Zstd} {W0 : ZstdWire} {C0 : Cipher} {F0 : Files} {hash64 : XXHash} {ZL : ZstdLaws Z0} {CL : CipherLaws C0}.

(** The kept residuals are residuals of local chunks under their keys. *)
Definition local_ok (lchunks : list processedChunk) (spill : bytes) (local : gmap (Z * Z) spilled) : Prop :=
  map_Forall (fun key ref => exists p, p ∈ lchunks /\ key_of_chunk p = key /\ held spill ref (p_res p)) local.

Lemma local_ok_app lchunks spill more local : local_ok lchunks spill local -> local_ok lchunks (spill ++ more) local.
Proof. intros H key ref Hr. destruct (H key ref Hr) as (p & ? & ? & ?). exists p. eauto using held_app. Qed.

(** The state after a pass that saw the chunks [ps]. *)
Record local_pass (needed : gset (Z * Z)) (lchunks ps : list processedChunk) (before after : bytes * gmap (Z * Z) spilled) : Prop := {
  lp_spill : exists more, after.1 = before.1 ++ more;
  lp_ok : local_ok lchunks after.1 after.2;
  lp_kept key : is_Some (before.2 !! key) -> is_Some (after.2 !! key);
  lp_found p : p ∈ ps -> key_of_chunk p ∈ needed -> is_Some (after.2 !! key_of_chunk p);
}.

Lemma local_pass_refl needed lchunks st : local_ok lchunks st.1 st.2 -> local_pass needed lchunks [] st st.
Proof. intros H. constructor; [by exists []; rewrite app_nil_r|done|done|by intros p ?%elem_of_nil]. Qed.

Lemma local_pass_trans needed lchunks ps qs a b c :
  local_pass needed lchunks ps a b -> local_pass needed lchunks qs b c -> local_pass needed lchunks (ps ++ qs) a c.
Proof.
  intros [[m1 E1] _ K1 F1] [[m2 E2] O2 K2 F2]. constructor; [exists (m1 ++ m2); by rewrite E2, E1, app_assoc|done|auto|].
  intros p [Hp|Hp]%elem_of_app Hn; auto.
Qed.

Lemma keep_local_ok needed lchunks base q1 ps st :
  laid_out base (q1 ++ ps) -> Forall (fun p => e_DeltaSize (p_entry p) = zlen (p_res p)) ps -> zlen (pool_of (q1 ++ ps)) < 2 ^ 48 ->
  Forall (fun p => p ∈ lchunks /\ is_u32 (zlen (p_res p))) ps -> local_ok lchunks st.1 st.2 ->
  exists st', keep_local needed base (pool_of (q1 ++ ps)) (map p_entry ps) st = Ok st' /\ local_pass needed lchunks ps st st'.
Proof.
  revert q1 st; induction ps as [|p ps IH]; intros q1 st Hlo Hsz Hb Hin Hok; [exists st; eauto using local_pass_refl|].
  apply Forall_cons in Hsz as [Hs Hsz]. apply Forall_cons in Hin as [[Hp Hl] Hin]. cbn [map keep_local].
  destruct (residual_bounds base q1 p ps (laid_out_at _ _ _ _ Hlo) Hs Hb) as [E1 E2]. cbv zeta in E1, E2.
  unfold residual_at. rewrite E1, E2. cbn [mbind res_bind].
  change (e_CodebookID (p_entry p), xxhash_Sum64 (p_res p)) with (key_of_chunk p).
  replace (q1 ++ p :: ps) with ((q1 ++ [p]) ++ ps) in * by by rewrite <-app_assoc.
  destruct st as [spill local]. cbn [fst snd] in Hok.
  assert (Hstep : exists st1, (if bool_decide (key_of_chunk p ∈ needed) && bool_decide (local !! key_of_chunk p = None)
      then let '(ref, spill) := keep (p_res p) spill in keep_local needed base (pool_of ((q1 ++ [p]) ++ ps)) (map p_entry ps) (spill, <[key_of_chunk p := ref]> local)
      else keep_local needed base (pool_of ((q1 ++ [p]) ++ ps)) (map p_entry ps) (spill, local)) =
        keep_local needed base (pool_of ((q1 ++ [p]) ++ ps)) (map p_entry ps) st1 /\ local_pass needed lchunks [p] (spill, local) st1).
  { destruct (bool_decide_reflect (key_of_chunk p ∈ needed)) as [Hn|Hn]; [destruct (bool_decide_reflect (local !! key_of_chunk p = None)) as [Hx|Hx]|];
      cbn [andb].
    - pose proof (keep_held (p_res p) spill Hl) as Hh. destruct (keep (p_res p) spill) as [ref spill'] eqn:Ek. cbn [fst snd] in Hh.
      injection Ek as _ <-. eexists. split; [done|]. constructor; cbn [fst snd]; [by eexists| | |].
      + apply map_Forall_insert_2; [by exists p|by apply local_ok_app].
      + intros key Hk. destruct (decide (key_of_chunk p = key)) as [<-|]; [by rewrite lookup_insert_eq|by rewrite lookup_insert_ne].
      + intros p' ->%list_elem_of_singleton _. by rewrite lookup_insert_eq.
    - eexists. split; [done|]. constructor; cbn [fst snd]; [by exists []; rewrite app_nil_r|done|done|].
      intros p' ->%list_elem_of_singleton _. by apply not_eq_None_Some.
    - eexists. split; [done|]. constructor; cbn [fst snd]; [by exists []; rewrite app_nil_r|done|done|].
      by intros p' ->%list_elem_of_singleton. }
  destruct Hstep as (st1 & -> & Hpass). destruct (IH (q1 ++ [p]) st1 Hlo Hsz Hb Hin (lp_ok _ _ _ _ _ Hpass)) as (st' & E & Hpass').
  exists st'. split; [exact E|]. by apply (local_pass_trans _ _ [p] ps _ st1).
Qed.

(** An exact archive of [input] that the passphrase and the brain [r] open, whatever was appended to it; [chunks]
    are what it is made of. *)
Definition archived (r : Reader) (passphrase input file : bytes) (chunks : list processedChunk) : Prop :=
  exists cb dict h pss frames metadata tail,
    file = metadata ++ concat frames ++ tail /\ archive cb dict passphrase h input pss frames metadata /\ (cb = None \/ cb = Some r) /\ chunks = concat pss /\
    h_IsLossy h = false.

(** What the receiver has of the file: nothing, or an archive of anything. *)
Definition local_version (r : Reader) (passphrase : bytes) (file : option bytes) (chunks : list processedChunk) : Prop :=
  match file with
  | None => chunks = []
  | Some file => exists old, archived r passphrase old file chunks
  end.

Section old.
Variables (cb : option Reader) (dict passphrase : bytes) (h : Header) (input : bytes)
  (pss : list (list processedChunk)) (frames : list bytes) (metadata : bytes).
Hypothesis Har : archive cb dict passphrase h input pss frames metadata.

Lemma each_block_local needed p1 p2 st :
  pss = p1 ++ p2 -> local_ok (concat pss) st.1 st.2 ->
  exists st', each_block (fun _ _ _ => true) (local_fn needed (concat (entries_of pss))) (zlen (concat p1)) p2 st = Ok st' /\
    local_pass needed (concat pss) (concat p2) st st'.
Proof.
  revert p1 st; induction p2 as [|ps p2 IH]; intros p1 st E Hok; [exists st; eauto using local_pass_refl|].
  cbn [each_block negb]. destruct (archive_block _ _ _ _ _ _ _ _ Har p1 ps p2 E) as ((e & E1 & E2) & E3 & Hlo & Hsz & Hb & _).
  assert (Hin : Forall (fun p => p ∈ concat pss /\ is_u32 (zlen (p_res p))) ps).
  { pose proof (packed_sound _ _ _ _ _ _ _ (ar_packed _ _ _ _ _ _ _ _ Har)) as Hs. apply Forall_forall. intros p Hp.
    assert (Hpc : p ∈ concat pss) by (rewrite E, concat_mid; set_solver). split; [done|].
    destruct (proj1 (Forall_forall _ _) Hs p Hpc) as (d & [? _ ? _ _ _ _ _ _]). pose proof (zlen_nonneg (p_res p)).
    unfold is_u32, BlockSize in *. lia. }
  pose proof (zlen_nonneg (concat (map pool_of p1))).
  destruct (keep_local_ok needed (concat pss) _ [] ps st Hlo Hsz ltac:(cbn [app]; lia) Hin Hok) as (st1 & Hst1 & Hpass).
  assert (Hfn : local_fn needed (concat (entries_of pss)) (zlen (concat p1)) (zlen (concat p1) + zlen ps) (pool_of ps) st = Ok st1).
  { unfold local_fn. rewrite E1. cbn [mbind res_bind]. by rewrite E2, E3. }
  rewrite Hfn. cbn [mbind res_bind concat].
  destruct (IH (p1 ++ [ps]) st1) as (st' & E' & Hpass'); [by rewrite <-app_assoc|by apply Hpass|].
  rewrite concat_app, zlen_app in E'. cbn [concat] in E'. rewrite app_nil_r in E'. exists st'. split; [done|].
  by apply (local_pass_trans _ _ ps _ _ st1).
Qed.
End old.

Lemma local_chunks_ok r dict passphrase file lchunks needed spill :
  local_version r passphrase file lchunks -> Dictionary r = Ok dict ->
  exists st, local_chunks file dict passphrase needed spill = Ok st /\ local_pass needed lchunks lchunks (spill, ∅) st.
Proof.
  intros Hv Hd. destruct file as [file|]; cbn [local_version] in Hv.
  2:{ subst lchunks. exists (spill, ∅). split; [done|]. by apply local_pass_refl. }
  destruct Hv as (input & cb & dict' & h & pss & frames & metadata & tail & -> & Har & Hcb & -> & _).
  pose proof (ar_describes _ _ _ _ _ _ _ _ Har) as Hds. destruct (archive_read _ _ _ _ _ _ _ _ Har) as (n & _ & _ & Hmeta & _).
  unfold local_chunks. rewrite Hmeta. destruct (stored_fields h n (ds_version _ _ _ Hds)) as (_ & _ & _ & _ & E5 & _ & _ & E8 & _).
  pose proof (chunks_present _ _ _ _ _ _ _ _ Har) as Hc. apply Z.eqb_neq in Hc.
  assert (Hpos : (h_ChunkCount h >? 0) = true).
  { rewrite (ds_count _ _ _ Hds) in *. pose proof (zlen_nonneg (concat pss)). rewrite Z.gtb_ltb. apply Z.ltb_lt. lia. }
  cbv zeta. rewrite E8, Hpos. assert (Hdict : (if h_UsesBrainDict (set_table_bytes n (stored_header h)) then dict else []) = dict').
  { rewrite E5. pose proof (ar_brain _ _ _ _ _ _ _ _ Har) as Hb. destruct Hcb as [-> | ->]; destruct Hb as [-> Hb]; [done|congruence]. }
  rewrite Hdict, (ForEachBlock_archive cb dict' passphrase h input pss frames metadata Har).
  destruct (each_block_local cb dict' passphrase h input pss frames metadata Har needed [] pss (spill, ∅) eq_refl) as (st & E & Hp); [done|].
  change (zlen (concat [])) with 0 in E. rewrite E. by exists st.
Qed.
End local.

(** ** Rebuilding *)

(** An entry before its residual is placed. *)
Definition blank `{XXHash} (p : processedChunk) : ChunkEntry := initial_entry (manifest_chunk p).

Lemma blank_placed `{XXHash} p : set_delta (e_DeltaOffset (p_entry p)) (e_DeltaSize (p_entry p)) (blank p) = p_entry p.
Proof. unfold blank, set_delta. cbn. by destruct (p_entry p). Qed.

Lemma block_starts_sizes i filled es es' :
  map e_OriginalSize es = map e_OriginalSize es' -> block_starts_from i filled es = block_starts_from i filled es'.
Proof.
  revert i filled es'; induction es as [|e es IH]; intros i filled [|e' es'] E; try done. cbn in E. injection E as E1 E2.
  cbn [block_starts_from]. by rewrite E1, (IH _ _ es' E2).
Qed.

Lemma insert_mid {A} (done_ rest : list A) x y i : i = zlen done_ -> <[Z.to_nat i := x]> (done_ ++ y :: rest) = done_ ++ x :: rest.
Proof. intros ->. rewrite insert_app_r_alt by (unfold zlen; lia). unfold zlen. by rewrite Nat2Z.id, Nat.sub_diag. Qed.

Lemma read_blocks_le fuel input : Forall (fun b => zlen b <= BlockSize) (read_blocks fuel input).
Proof.
  revert input; induction fuel as [|fuel IH]; intros input; [constructor|]. cbn [read_blocks].
  destruct input as [|x input]; constructor; [|apply IH]. rewrite zlen_ztake. unfold BlockSize. lia.
Qed.

Section rebuilding.
Context {Z0 : Zstd} {W0 : ZstdWire} {C0 : Cipher} {F0 : Files} {hash64 : XXHash} {ZL : ZstdLaws Z0} {CL : CipherLaws C0}.
Variables (find : Z -> res spilled) (spill dict : bytes) (newKey : option bytes) (nonce : Z -> bytes).

(** [find] gives the residual of each of [chunks] from [first] on. *)
Definition finds (first : Z) (ps : list processedChunk) : Prop :=
  forall q1 p q2, ps = q1 ++ p :: q2 -> exists ref, find (first + zlen q1) = Ok ref /\ held spill ref (p_res p).

Lemma finds_app first ps qs : finds first (ps ++ qs) <-> finds first ps /\ finds (first + zlen ps) qs.
Proof.
  split.
  - intros H. split; [intros q1 p q2 ->; apply (H _ p (q2 ++ qs)); by rewrite <-app_assoc|].
    intros q1 p q2 ->. destruct (H (ps ++ q1) p q2) as (ref & ? & ?); [by rewrite <-app_assoc|]. exists ref.
    rewrite zlen_app, Z.add_assoc in *. done.
  - intros [H1 H2] q1 p q2 E. apply app_eq_inv in E as [(k & -> & E)|(k & -> & E)].
    + destruct k as [|x k]; [|by cbn in E; injection E as <- ->; apply (H1 q1 p k)].
      cbn in E. rewrite app_nil_r in H2. specialize (H2 [] p q2 (eq_sym E)). change (zlen (@nil processedChunk)) with 0 in H2.
      by rewrite Z.add_0_r in H2.
    + rewrite zlen_app, Z.add_assoc. by apply (H2 _ _ q2).
Qed.

Lemma finds_mid first p qs : finds first (p :: qs) <-> (exists ref, find first = Ok ref /\ held spill ref (p_res p)) /\ finds (first + 1) qs.
Proof.
  change (p :: qs) with ([p] ++ qs). rewrite finds_app. change (zlen [p]) with 1. split; (intros [H1 H2]; split; [|done]).
  - specialize (H1 [] p [] eq_refl). by rewrite Z.add_0_r in H1.
  - intros q1 p' q2 E. destruct q1 as [|? q1]; [|by destruct q1]. injection E as <- _. by rewrite Z.add_0_r.
Qed.

Lemma rebuild_block_ok filled ps rest off deltas :
  finds (zlen filled) ps -> laid_out off ps -> Forall (fun p => e_DeltaSize (p_entry p) = zlen (p_res p)) ps ->
  0 <= off -> off + zlen (pool_of ps) < 2 ^ 31 * 2 ^ 31 -> Forall (fun p => is_u32 (zlen (p_res p))) ps ->
  rebuild_block find spill (length ps) (zlen filled) (filled ++ map blank ps ++ rest) off deltas =
    Ok (filled ++ map p_entry ps ++ rest, off + zlen (pool_of ps), deltas ++ pool_of ps).
Proof.
  revert filled off deltas; induction ps as [|p ps IH]; intros filled off deltas Hf Hlo Hsz Ho Hl Hu.
  { cbn. by rewrite Z.add_0_r, app_nil_r. }
  apply finds_mid in Hf as [(ref & Hf & Hh) Hfs]. destruct Hlo as [Eo Hlo]. apply Forall_cons in Hsz as [Hs Hsz]. apply Forall_cons in Hu as [Hu Hus].
  cbn [length rebuild_block map app]. rewrite Hf. cbn [mbind res_bind]. rewrite (read_held _ _ _ Hh). cbn [mbind res_bind].
  rewrite (index_app_mid (zlen filled) filled) by done. cbn [mbind res_bind]. rewrite insert_mid by done.
  unfold pool_of in *. cbn [map concat] in *. rewrite zlen_app in Hl |- *. pose proof (zlen_nonneg (p_res p)). pose proof (zlen_nonneg (concat (map p_res ps))).
  rewrite u64_small by (unfold is_u64; lia). rewrite (u32_small _ Hu), <-Hs, <-Eo, blank_placed.
  specialize (IH (filled ++ [p_entry p]) (off + zlen (p_res p)) (deltas ++ p_res p)).
  rewrite zlen_app, <-!app_assoc in IH. change (zlen [p_entry p]) with 1 in IH. cbn [app] in IH.
  rewrite Hs, Eo, IH by (done || lia). by rewrite Z.add_assoc, <-?app_assoc.
Qed.

Hypotheses (Hkey : forall k, newKey = Some k -> zlen k = 32) (Hnonce : newKey <> None -> forall i, zlen (nonce i) = gcmNonceSize).

Section archived.
Variables (cb : option Reader) (dict' passphrase : bytes) (h : Header) (input : bytes)
  (pss : list (list processedChunk)) (frames : list bytes) (metadata : bytes).
Hypothesis Har : archive cb dict' passphrase h input pss frames metadata.

Abbreviation entries := (concat (entries_of pss)).

Lemma rebuild_blocks_ok p1 p2 acc :
  pss = p1 ++ p2 -> finds (zlen (concat p1)) (concat p2) ->
  exists frames', rebuild_blocks find spill dict newKey nonce (length p2) (BlockStarts entries) (zlen p1)
      (map p_entry (concat p1) ++ map blank (concat p2)) (zlen (concat (map pool_of p1))) acc = Ok (entries, acc ++ frames') /\
    Forall2 (frame_of dict newKey) frames' (map pool_of p2).
Proof.
  revert p1 acc; induction p2 as [|ps p2 IH]; intros p1 acc E Hf.
  { exists []. cbn [length rebuild_blocks concat map]. rewrite concat_entries_of, E, !app_nil_r. split; [done|constructor]. }
  destruct (archive_block _ _ _ _ _ _ _ _ Har p1 ps p2 E) as (_ & _ & Hlo & Hsz & Hb & _).
  pose proof (ar_packed _ _ _ _ _ _ _ _ Har) as Hpk. rewrite E in Hpk.
  destruct (packed_block _ _ _ _ _ _ _ _ _ Hpk) as (b1 & datas & b2 & _ & _ & _ & Eb & _ & _ & _ & Hps & _).
  destruct (decodes_pool cb _ _ Hps) as [Hpl Hpok].
  assert (Hlen : zlen (concat datas) <= BlockSize).
  { pose proof (read_blocks_le (length input) input) as Hz. unfold input_blocks in *. rewrite Eb in Hz. by apply Forall_app in Hz as [_ [? _]%Forall_cons]. }
  assert (Hu : Forall (fun p => is_u32 (zlen (p_res p))) ps).
  { clear -Hps. induction Hps as [|d p datas ps [? _ ? _ _ _ _ _ _] _ IH]; constructor; [|done]. unfold is_u32, BlockSize in *.
    pose proof (zlen_nonneg (p_res p)). lia. }
  cbn [length rebuild_blocks concat] in *. apply finds_app in Hf as [Hf Hfs].
  destruct (archive_blocks _ _ _ _ _ _ _ _ Har) as (Hwf & _). rewrite E, entries_blocks in Hwf.
  pose proof (BlockRange_concat _ _ _ Hwf) as Hrange. cbv zeta in Hrange. rewrite <-entries_blocks, <-E in Hrange.
  assert (Hzn : zlen (map p_entry (concat p1) ++ map blank (ps ++ concat p2)) = zlen entries).
  { rewrite zlen_entries, E, concat_mid, !zlen_app. unfold zlen. rewrite !length_map, length_app. lia. }
  assert (H1 : zlen (entries_of p1) = zlen p1) by (unfold entries_of, zlen; by rewrite length_map).
  assert (H2 : zlen (concat (entries_of p1)) = zlen (concat p1)) by apply zlen_entries.
  rewrite H1, H2, zlen_map_entry in Hrange. rewrite Hzn, Hrange. cbn [mbind res_bind]. rewrite map_app.
  replace (Z.to_nat (zlen (concat p1) + zlen ps - zlen (concat p1))) with (length ps) by (unfold zlen; lia).
  pose proof (zlen_nonneg (concat (map pool_of p1))).
  pose proof (rebuild_block_ok (map p_entry (concat p1)) ps (map blank (concat p2)) (zlen (concat (map pool_of p1))) []) as Hblock.
  rewrite zlen_map_entry in Hblock. rewrite Hblock by (done || lia). cbn [mbind res_bind app].
  destruct (seal_block_ok dict newKey "bitswap: encrypt block" (nonce (zlen p1)) false (pool_of ps) Hpok ltac:(lia) (fun H => Hnonce H _) Hkey)
    as (frame & Hseal & Hframe). cbn [compress_block] in Hseal. rewrite Hseal. cbn [mbind res_bind].
  specialize (IH (p1 ++ [ps]) (acc ++ [frame])). rewrite !concat_app, !map_app, concat_app, !zlen_app in IH. cbn [concat map] in IH.
  rewrite !app_nil_r in IH. change (zlen [ps]) with 1 in IH. rewrite <-!app_assoc in IH.
  destruct (IH E) as (frames' & -> & Hfs'); [done|]. exists (frame :: frames'). split; [by rewrite <-app_assoc|]. by constructor.
Qed.
End archived.
End rebuilding.

(** ** The transfer *)

Section transfer.
Context {Z0 : Zstd} {W0 : ZstdWire} {C0 : Cipher} {F0 : Files} {hash64 : XXHash}
  {ZL : ZstdLaws Z0} {WL : ZstdWireLaws W0} {CL : CipherLaws C0}.

Lemma records_bytes_ok cb chunks indices : Forall (sound_chunk cb) chunks -> bytes_ok (records chunks indices).
Proof.
  intros Hs. unfold records, wire_record. apply Forall_concat, Forall_map, Forall_forall. intros i _.
  do 2 (apply Forall_app; split; [by apply bytes_ok_le_put|]). unfold residual_of.
  destruct (chunks !! Z.to_nat i) as [p|] eqn:E; [|constructor]. by destruct (Forall_lookup_1 _ _ _ _ Hs E) as (d & []).
Qed.

Lemma table_key_len passphrase h k : table_key passphrase h = Some k -> zlen k = 32.
Proof. unfold table_key. destruct (h_IsEncrypted h); [|done]. intros [= <-]. apply zlen_DeriveKey. Qed.

(** A literal chunk rebuilds with a brain as it does without. *)
Lemma decodes_brain cb r d p : cb = None \/ cb = Some r -> decodes cb d p -> decodes (Some r) d p.
Proof.
  intros [-> | ->]; [|done]. intros []. constructor; try done. destruct dc_rebuilds as [Hid ->].
  unfold rebuilds, reconstructChunk. by rewrite Hid.
Qed.

(** The same chunks in other frames. *)
Lemma packed_reframe cb r dict key dict' key' off blocks pss frames frames' :
  packed cb dict key off blocks pss frames -> cb = None \/ cb = Some r ->
  Forall2 (frame_of dict' key') frames' (map pool_of pss) -> packed (Some r) dict' key' off blocks pss frames'.
Proof.
  intros Hpk Hcb. revert frames'. induction Hpk as [|off datas blocks ps pss frame frames Hps Hlo _ _ IH]; intros frames' Hf.
  { by apply Forall2_nil_inv_r in Hf as ->; constructor. }
  apply Forall2_cons_inv_r in Hf as (f & fs & Hf & Hfs & ->). constructor; [|done|done|by apply IH].
  eapply Forall2_impl; [exact Hps|]. intros d p. by apply decodes_brain.
Qed.

(** No two residuals of one codeword share a 64-bit hash. *)
Definition hash_distinguishes (chunks lchunks : list processedChunk) : Prop :=
  forall p q, p ∈ chunks -> q ∈ lchunks -> key_of_chunk p = key_of_chunk q -> p_res p = p_res q.

(** Every chunk is requested, or known locally. *)
Definition covered (chunks lchunks : list processedChunk) (indices : list Z) : Prop :=
  forall q1 p q2, chunks = q1 ++ p :: q2 -> zlen q1 ∈ indices \/ exists q, q ∈ lchunks /\ key_of_chunk q = key_of_chunk p.

Variables (cb : option Reader) (dict' : bytes) (passphrase : bytes) (h : Header) (input : bytes)
  (pss : list (list processedChunk)) (frames : list bytes) (metadata : bytes).
Hypothesis Har : archive cb dict' passphrase h input pss frames metadata.

Abbreviation chunks := (concat pss).

(** Each chunk is found after the two passes. *)
Lemma find_residual_ok lchunks indices spill residuals more local :
  zlen chunks <= 2 ^ 27 -> residuals_ok pss spill residuals -> (forall i, residuals !! i = None -> i ∉ indices) ->
  local_pass (needed_keys residuals 0 (m_Entries (manifest_of input pss))) lchunks lchunks (spill, ∅) (spill ++ more, local) ->
  covered chunks lchunks indices -> hash_distinguishes chunks lchunks ->
  finds (find_residual (manifest_of input pss) residuals local) (spill ++ more) 0 chunks.
Proof.
  intros Hn Hr Hmiss [_ Hok _ Hfound] Hcov Hdist q1 p q2 E. rewrite Z.add_0_l. pose proof (zlen_nonneg q1).
  assert (Hq : zlen q1 < zlen chunks) by (rewrite E, zlen_app, zlen_cons; pose proof (zlen_nonneg q2); lia).
  unfold find_residual. rewrite u32_small by (unfold is_u32; lia).
  destruct (residuals !! zlen q1) as [ref|] eqn:Er.
  { exists ref. split; [done|]. apply held_app. rewrite <-(residual_of_mid q1 p q2 (zlen q1)) by done. rewrite <-E. by apply Hr. }
  rewrite (manifest_index input pss q1 p q2 _ E) by done. cbn [mbind res_bind].
  destruct (Hcov q1 p q2 E) as [Hin|(q & Hq1 & Hq2)]; [by destruct (Hmiss _ Er)|].
  fold (key_of_chunk p). cbn [fst snd] in *. rewrite <-Hq2.
  destruct (Hfound q Hq1) as [ref Href].
  { rewrite Hq2. apply (needed_keys_spec _ 0 _ (length q1)); [|by rewrite Z.add_0_l, u32_small by (unfold is_u32, zlen in *; lia)].
    cbn [manifest_of m_Entries]. rewrite E, map_app. cbn [map]. by rewrite list_lookup_middle by by rewrite length_map. }
  rewrite Href. exists ref. split; [done|]. destruct (Hok _ _ Href) as (q' & Hq' & Hk & Hh).
  rewrite (Hdist p q'); [done| |done|by rewrite Hk]. rewrite E. set_solver.
Qed.

(** The header of the rebuilt file. *)
Lemma sync_describes key salt :
  zlen salt = 16 -> describes (sync_header (manifest_of input pss) key salt) input pss.
Proof.
  intros Hs. pose proof (ar_describes _ _ _ _ _ _ _ _ Har) as []. constructor; try done.
  pose proof (zlen_nonneg chunks). apply wf_pack_header; try done; try by apply zlen_make.
  - by destruct (zlen key =? 0).
  - cbn. unfold is_u64. lia.
  - cbn. unfold is_u32. lia.
Qed.

Lemma ReceiveChunks_archive path r dict key salt nonce outFile lchunks indices :
  Open path = Ok r -> Dictionary r = Ok dict -> cb = None \/ cb = Some r ->
  zlen salt = 16 -> (forall i, zlen (nonce i) = gcmNonceSize) ->
  Forall (fun i => 0 <= i < zlen chunks) indices ->
  local_version r key outFile lchunks -> covered chunks lchunks indices -> hash_distinguishes chunks lchunks ->
  let h' := sync_header (manifest_of input pss) key salt in
  exists metadata' frames',
    ReceiveChunks outFile (manifest_of input pss) indices (wire_enc dict (records chunks (merge_sort Z.le indices)))
      path key salt nonce = Ok (metadata' ++ concat frames') /\
    archive (Some r) dict key h' input pss frames' metadata'.
Proof.
  intros Ho Hd Hcb Hsalt Hnonce Hi Hlocal Hcov Hdist h'. pose proof (ar_describes _ _ _ _ _ _ _ _ Har) as Hds.
  pose proof (ds_limit _ _ _ Hds) as Hlim. pose proof (ar_packed _ _ _ _ _ _ _ _ Har) as Hpk.
  pose proof (packed_sound _ _ _ _ _ _ _ Hpk) as Hsound. pose proof (merge_sort_Permutation Z.le indices) as Hperm.
  assert (Hi' : Forall (fun i => 0 <= i < zlen chunks) (merge_sort Z.le indices)) by by rewrite Hperm.
  unfold ReceiveChunks, write_synced. rewrite Ho. cbn [wrap_err mbind res_bind]. rewrite Hd. cbn [mbind res_bind].
  rewrite wire_dec_enc by (by eapply records_bytes_ok).
  destruct (receive_loop_ok cb input pss Hsound ltac:(lia) (merge_sort Z.le indices) [] None [] ∅ Hi' (map_Forall_empty _))
    as (spill & residuals & Hloop & Hres & Hnone).
  rewrite app_nil_r, (Permutation_length Hperm) in Hloop. cbn [app] in *. rewrite Hloop. cbn [mbind res_bind].
  destruct (local_chunks_ok r dict key outFile lchunks (needed_keys residuals 0 (m_Entries (manifest_of input pss))) spill Hlocal Hd)
    as ([spill' local] & -> & Hpass). cbn [mbind res_bind]. destruct (lp_spill _ _ _ _ _ Hpass) as [more Hmore]. cbn [fst] in Hmore. subst spill'.
  assert (Hinit : initial_entries (manifest_of input pss) = Ok (map blank chunks)).
  { unfold initial_entries. cbn [manifest_of m_Entries m_ChunkCount]. replace (zlen (map manifest_chunk chunks)) with (zlen chunks) by (unfold zlen; by rewrite length_map).
    rewrite Z.gtb_ltb, Z.ltb_irrefl, Z.sub_diag. cbn [Z.to_nat replicate]. by rewrite app_nil_r, map_map. }
  rewrite Hinit. cbn [mbind res_bind].
  assert (Hstarts : BlockStarts (map blank chunks) = BlockStarts (concat (entries_of pss))).
  { apply block_starts_sizes. by rewrite concat_entries_of, !map_map. }
  destruct (archive_blocks _ _ _ _ _ _ _ _ Har) as (Hwf & _).
  assert (Hnb : zlen (BlockStarts (concat (entries_of pss))) = zlen pss).
  { unfold BlockStarts. rewrite block_starts_concat, zlen_starts_of by done. unfold entries_of, zlen. by rewrite length_map. }
  rewrite Hstarts. replace (length (BlockStarts _)) with (length pss) by (unfold zlen in Hnb; lia).
  assert (Hkey : (if zlen key =? 0 then None else Some (DeriveKey key salt)) = table_key key h').
  { unfold table_key, h', sync_header, pack_header. simpl_header. by destruct (zlen key =? 0). }
  rewrite Hkey.
  assert (Hmiss : forall i, residuals !! i = None -> i ∉ indices) by (intros i Hx; destruct (Hnone i Hx) as [_ Hy]; by rewrite Hperm in Hy).
  pose proof (find_residual_ok lchunks indices spill residuals more local Hlim Hres Hmiss Hpass Hcov Hdist) as Hfinds.
  destruct (rebuild_blocks_ok (find_residual (manifest_of input pss) residuals local) (spill ++ more) dict (table_key key h') nonce
    (table_key_len key h') (fun _ => Hnonce) cb dict' passphrase h input pss frames metadata Har [] pss [] eq_refl Hfinds)
    as (frames' & Hrun & Hframes).
  cbn [concat map app] in Hrun. change (zlen []) with 0 in Hrun. rewrite Hrun. cbn [mbind res_bind].
  destruct (EncodeCompressedTable_ok (nonce (zlen (BlockStarts (concat (entries_of pss))))) (concat (entries_of pss)) Version7 key h') as [table Htable].
  rewrite Htable. cbn [mbind res_bind].
  exists ((Serialize h').2 ++ put_u32s (table_of frames') ++ table), frames'. split; [by rewrite <-!app_assoc|].
  constructor; [by eapply packed_reframe|by apply sync_describes| |by split|].
  - unfold h', sync_header, pack_header. simpl_header. by intros He ->.
  - exists (nonce (zlen (BlockStarts (concat (entries_of pss))))), table. split; [done|]. split; [|done]. by rewrite <-concat_entries_of.
Qed.
End transfer.

Section nodes.
Context {Z0 : Zstd} {W0 : ZstdWire} {C0 : Cipher} {F0 : Files} {hash64 : XXHash}
  {ZL : ZstdLaws Z0} {WL : ZstdWireLaws W0} {CL : CipherLaws C0}.

(** The manifest of a file made of [chunks]. *)
Definition manifest_for (input : bytes) (chunks : list processedChunk) : ChunkManifest :=
  {| m_Version := ManifestVersion; m_OriginalHash := Sum256 input; m_OriginalSize := zlen input;
     m_ChunkCount := zlen chunks; m_Entries := map manifest_chunk chunks |}.

Lemma archived_manifest r passphrase input file chunks path :
  archived r passphrase input file chunks -> Open path = Ok r ->
  GenerateManifest file path passphrase = Ok (manifest_for input chunks).
Proof.
  intros (cb & dict' & h & pss & frames & metadata & tail & -> & Har & Hcb & -> & Hlossy) Ho.
  by apply (GenerateManifest_archive cb dict' passphrase h input pss frames metadata Har path r).
Qed.

(** What a synchronisation leaves: an archive of [input] in the format of the receiver, without a brain of its own. *)
Definition synced (r : Reader) (passphrase input file : bytes) (chunks : list processedChunk) : Prop :=
  exists dict salt pss frames metadata, file = metadata ++ concat frames /\
    archive (Some r) dict passphrase (sync_header (manifest_of input pss) passphrase salt) input pss frames metadata /\ chunks = concat pss.

Lemma synced_archived r passphrase input file chunks : synced r passphrase input file chunks -> archived r passphrase input file chunks.
Proof.
  intros (dict & salt & pss & frames & metadata & -> & Har & ->).
  exists (Some r), dict, (sync_header (manifest_of input pss) passphrase salt), pss, frames, metadata, []. rewrite app_nil_r. auto.
Qed.

Lemma synced_Unpack r passphrase input file chunks path intn uopts :
  synced r passphrase input file chunks -> Open path = Ok r -> path <> [] ->
  u_EncryptionKey uopts = passphrase -> u_Fuzziness uopts = f64_of_int 0 -> Unpack intn file path uopts = Ok input.
Proof.
  intros (dict & salt & pss & frames & metadata & -> & Har & ->) Ho Hp Hkey Hfuzz. rewrite <-Hkey in Har.
  apply (Unpack_packed _ _ _ _ _ _ _ _ Har); [done|done|]. intros r' [= <-]. rewrite Hkey. by apply open_brain_path, Har.
Qed.

(** From the archive at one node to the archive at the other. *)
Lemma archived_transfer r dict passphrase input file chunks path path' key salt nonce outFile lchunks indices :
  archived r passphrase input file chunks -> Open path = Ok r -> Open path' = Ok r -> path' <> [] -> Dictionary r = Ok dict ->
  zlen salt = 16 -> (forall i, zlen (nonce i) = gcmNonceSize) ->
  Forall (fun i => 0 <= i < zlen chunks) indices -> local_version r key outFile lchunks ->
  covered chunks lchunks indices -> hash_distinguishes chunks lchunks ->
  exists wire file', StreamChunks file path passphrase indices = Ok wire /\
    ReceiveChunks outFile (manifest_for input chunks) indices wire path' key salt nonce = Ok file' /\ synced r key input file' chunks.
Proof.
  intros (cb & dict' & h & pss & frames & metadata & tail & -> & Har & Hcb & -> & Hlossy) Ho Ho' Hp' Hd Hsalt Hnonce Hi Hlocal Hcov Hdist.
  destruct (ReceiveChunks_archive cb dict' passphrase h input pss frames metadata Har path' r dict key salt nonce outFile lchunks indices
    Ho' Hd Hcb Hsalt Hnonce Hi Hlocal Hcov Hdist) as (metadata' & frames' & Hrec & Har').
  exists (wire_enc dict (records (concat pss) (merge_sort Z.le indices))), (metadata' ++ concat frames').
  split; [by apply (StreamChunks_archive cb dict' passphrase h input pss frames metadata Har path r)|]. split; [exact Hrec|].
  by exists dict, salt, pss, frames', metadata'.
Qed.
End nodes.
