(* ===== verification/Protocol.v ===== *)
(** [internal/network/protocol.go]: the messages two nodes exchange to bring a file up to date, the
    server's loop and the client's request. *)

From S2P Require Import Prelude Binary Sha256 Externals Crypto Format FormatIO Delta Chunker Codebook.
From S2P Require Import Fractal Entropy Search Unpack Pack ChunkCodec BlockCodec RoundTrip Archive Sync Bitswap Transfer.
Import codebook Format.

(** ** [path/filepath] on Unix *)

Definition slash : Z := 47.

(** [path] without its trailing slashes, reversed. *)
Fixpoint strip_slashes (rpath : bytes) : bytes :=
  match rpath with
  | c :: rest => if c =? slash then strip_slashes rest else rpath
  | [] => []
  end.

Fixpoint last_element (rpath acc : bytes) : bytes :=
  match rpath with
  | c :: rest => if c =? slash then acc else last_element rest (c :: acc)
  | [] => acc
  end.

Definition Base (path : bytes) : bytes :=
  if zlen path =? 0 then str "." else
  let base := last_element (strip_slashes (rev path)) [] in
  if zlen base =? 0 then str "/" else base.

(** The elements between the slashes, [cur] being read. *)
Fixpoint split_path (path cur : bytes) : list bytes :=
  match path with
  | [] => [rev cur]
  | c :: path => if c =? slash then rev cur :: split_path path [] else split_path path (c :: cur)
  end.

Definition clean_element (rooted : bool) (stack : list bytes) (elem : bytes) : list bytes :=
  if bytes_eqb elem [] || bytes_eqb elem (str ".") then stack else
  if bytes_eqb elem (str "..") then
    match stack with
    | [] => if rooted then [] else [elem]
    | top :: rest => if bytes_eqb top (str "..") then elem :: stack else rest
    end
  else elem :: stack.

Fixpoint join_slash (elems : list bytes) : bytes :=
  match elems with
  | [] => []
  | [e] => e
  | e :: elems => e ++ slash :: join_slash elems
  end.

Definition Clean (path : bytes) : bytes :=
  match path with
  | [] => str "."
  | c :: _ =>
      let rooted := c =? slash in
      let body := join_slash (rev (fold_left (clean_element rooted) (split_path path []) [])) in
      if rooted then slash :: body else if zlen body =? 0 then str "." else body
  end.

Definition Join (dir name : bytes) : bytes :=
  if zlen dir =? 0 then (if zlen name =? 0 then [] else Clean name) else Clean (dir ++ slash :: name).

Definition HasSuffix (s suffix : bytes) : bool :=
  (zlen suffix <=? zlen s) && bytes_eqb (zdrop (zlen s - zlen suffix) s) suffix.

(** ** Messages *)

Definition MsgSyncReq : Z := 0x01.
Definition MsgManifest : Z := 0x02.
Definition MsgDiffReq : Z := 0x03.
Definition MsgChunkData : Z := 0x04.
Definition MsgError : Z := 0xFF.
Definition maxRequestSize : Z := 64 * 1024 * 1024.
Definition maxManifestSize : Z := 1024 * 1024 * 1024.

(** What goes to the stream. *)
Definition sendMsg (msgType : Z) (payload : bytes) : bytes :=
  [msgType] ++ le_put 4 (u32 (zlen payload)) ++ payload.

Definition sendError (errMsg : string) : bytes := sendMsg MsgError (str errMsg).

Definition readMsg : reader (Z * bytes) := fun r =>
  '(header, r) ← ReadFull "EOF" 5 r;
  msgType ← index header 0;
  length ← get_le 4 header 1;
  if length >? 100 * 1024 * 1024 then Err "payload too large" else
  '(payload, r) ← (if length >? 0 then ReadFull "unexpected EOF" length r else Ok ([], r));
  Ok ((msgType, payload), r).

(** ** The nodes *)

(** The fields of [CromNode] that the protocols use, and the node's disk. *)
Record CromNode := {
  n_ID : bytes;
  n_CodebookHash : bytes;
  n_DataDir : bytes;
  n_EncKey : bytes;
  n_CodebookPath : bytes;
  n_authenticated : gset bytes;
  n_disk : gmap bytes bytes;
}.

Definition IsAuthenticated (n : CromNode) (pid : bytes) : bool := bool_decide (pid ∈ n_authenticated n).

Section protocol.
Context {Z0 : Zstd} {W0 : ZstdWire} {C0 : Cipher} {F0 : Files} {hash64 : XXHash}.

(** *** The server *)

Definition served_path (n : CromNode) (filename : bytes) : bytes :=
  let cleanName := Base filename in
  Join (n_DataDir n) (if HasSuffix cleanName (str ".crom") then cleanName else cleanName ++ str ".crom").

Definition handleSyncReq (n : CromNode) (filename : bytes) : res bytes :=
  match n_disk n !! served_path n filename with
  | None => Ok (sendError "Arquivo nao encontrado na seed")
  | Some file =>
      match GenerateManifest file (n_CodebookPath n) (n_EncKey n) with
      | Panic p => Panic p
      | Err e => Ok (sendError ("Erro ao gerar manifest: " ++ e))
      | Ok manifest => Ok (sendMsg MsgManifest (CompressPool (ToBinary manifest)))
      end
  end.

(** The indices of a request, from the [i]th; the arithmetic is on 32 bits. *)
Fixpoint read_indices (count : nat) (i offset : Z) (payload : bytes) : res (list Z) :=
  match count with
  | O => Ok []
  | S count =>
      let lo := u32 (offset + u32 (i * 4)) in
      cell ← slice payload lo (u32 (lo + 4));
      rest ← read_indices count (i + 1) offset payload;
      Ok (le_get cell :: rest)
  end.

(** An error of [StreamChunks] leaves a stream cut somewhere. *)
Definition handleDiffReq (n : CromNode) (payload : bytes) : res bytes :=
  if zlen payload <? 6 then Ok (sendError "Payload invalido") else
  nameLen ← get_le 2 payload 0;
  if zlen payload <? u16 (2 + nameLen + 4) then Ok (sendError "Payload truncado") else
  filename ← slice payload 2 (u16 (2 + nameLen));
  let offset := u16 (2 + nameLen) in
  cell ← slice payload offset (u32 (offset + 4));
  let numIndices := le_get cell in
  let offset := u32 (offset + 4) in
  if u32 (zlen payload) <? u32 (offset + u32 (numIndices * 4)) then Ok (sendError "Lista de indices incompleta") else
  indices ← read_indices (Z.to_nat numIndices) 0 offset payload;
  match n_disk n !! served_path n filename with
  | None => Ok []
  | Some file => StreamChunks file (n_CodebookPath n) (n_EncKey n) indices
  end.

(** The loop over the requests of a stream: what is sent back. *)
Fixpoint serve (fuel : nat) (n : CromNode) (r : bytes) : res bytes :=
  match fuel, r with
  | S fuel, msgType :: r =>
      match ReadFull "" 4 r with
      | Ok (lenBuf, r) =>
          let payloadLen := le_get lenBuf in
          if payloadLen >? maxRequestSize then Ok [] else
          match ReadFull "" payloadLen r with
          | Ok (payload, r) =>
              out ← (if msgType =? MsgSyncReq then handleSyncReq n payload
                     else if msgType =? MsgDiffReq then handleDiffReq n payload else Ok []);
              rest ← serve fuel n r;
              Ok (out ++ rest)
          | _ => Ok []
          end
      | _ => Ok []
      end
  | _, _ => Ok []
  end.

(** All that the node answers to all that [remote] sent. *)
Definition handleStream (n : CromNode) (remote input : bytes) : res bytes :=
  if IsAuthenticated n remote then serve (length input) n input else Ok (sendError "Autenticacao necessaria").

(** *** The client *)

Definition all_indices (count : Z) : list Z := map Z.of_nat (seq 0 (Z.to_nat count)).

Fixpoint select_missing (missing : gset (Z * Z)) (i : Z) (entries : list ManifestEntry) : list Z :=
  match entries with
  | [] => []
  | e :: entries =>
      let rest := select_missing missing (i + 1) entries in
      if bool_decide (chunk_key e ∈ missing) then u32 i :: rest else rest
  end.

(** The chunks to ask for; [None] when the local file counts as up to date. *)
Definition missingIndices (n : CromNode) (destPath : bytes) (remoteManifest : ChunkManifest) : res (option (list Z)) :=
  match n_disk n !! destPath with
  | None => Ok (Some (all_indices (m_ChunkCount remoteManifest)))
  | Some file =>
      match GenerateManifest file (n_CodebookPath n) (n_EncKey n) with
      | Panic p => Panic p
      | Err _ => Ok (Some (all_indices (m_ChunkCount remoteManifest)))
      | Ok localManifest =>
          let diffRes := Diff localManifest remoteManifest in
          if zlen (d_Missing diffRes) =? 0 then Ok None
          else Ok (Some (select_missing (key_set (d_Missing diffRes)) 0 (m_Entries remoteManifest)))
      end
  end.

Definition dest_path (n : CromNode) (filename : bytes) : bytes :=
  let destPath := Join (n_DataDir n) filename in
  if HasSuffix destPath (str ".crom") then destPath else destPath ++ str ".crom".

Definition diff_payload (filename : bytes) (indices : list Z) : bytes :=
  le_put 2 (u16 (zlen filename)) ++ filename ++ le_put 4 (u32 (zlen indices)) ++ put_u32s indices.

(** What the client has to do to its disk. *)
Inductive outcome :=
  | UpToDate
  | Rebuilt (file : res bytes).

(** [answers] is what the peer sends back, as a function of what was sent to it so far. *)
Definition request (n : CromNode) (answers : bytes -> bytes) (filename salt : bytes) (nonce : Z -> bytes) : res outcome :=
  let filename := Base filename in
  let sent := sendMsg MsgSyncReq filename in
  '((msgType, payload), r) ← wrap_err "sync: read response" (readMsg (answers sent));
  if msgType =? MsgError then Err "remote error" else
  if negb (msgType =? MsgManifest) then Err "esperava MANIFEST" else
  manifestBin ← wrap_err "sync: decompress remote manifest" (DecompressPoolLimit payload maxManifestSize);
  remoteManifest ← wrap_err "sync: parse remote manifest" (FromBinary manifestBin);
  if (m_ChunkCount remoteManifest =? 0) && (m_OriginalSize remoteManifest >? 0) then Err "sync: foi empacotado sem chunks" else
  let destPath := dest_path n filename in
  missing ← missingIndices n destPath remoteManifest;
  match missing with
  | None | Some [] => Ok UpToDate
  | Some indices =>
      let sent' := sent ++ sendMsg MsgDiffReq (diff_payload filename indices) in
      let stream := zdrop (zlen (answers sent) - zlen r) (answers sent') in
      Ok (Rebuilt (ReceiveChunks (n_disk n !! destPath) remoteManifest indices stream (n_CodebookPath n) (n_EncKey n) salt nonce))
  end.

(** The client's disk afterwards, and what [RequestSync] returns. *)
Definition RequestSync (n : CromNode) (answers : bytes -> bytes) (filename salt : bytes) (nonce : Z -> bytes) : gmap bytes bytes * res unit :=
  let destPath := dest_path n (Base filename) in
  let tempPath := destPath ++ str ".tmp" in
  let disk := n_disk n in
  match request n answers filename salt nonce with
  | Ok UpToDate => (disk, Ok tt)
  | Ok (Rebuilt (Ok file)) => (<[destPath := file]> (delete tempPath disk), Ok tt)
  | Ok (Rebuilt (Err _)) => (delete tempPath disk, Err "sync: bitswap merge error")
  | Ok (Rebuilt (Panic p)) => (disk, Panic p)
  | Err e => (disk, Err e)
  | Panic p => (disk, Panic p)
  end.
End protocol.
