(* ===== verification/SyncRun.v ===== *)
(** A synchronisation from end to end: the messages, the manifest, the difference, the chunks and the
    rebuilt archive of [RequestSync] against a node that runs [handleStream]. *)

From S2P Require Import Prelude Binary Sha256 Externals Crypto Format FormatIO Delta Chunker Codebook.
From S2P Require Import Fractal Entropy Search Unpack Pack ChunkCodec BlockCodec RoundTrip Archive Sync Bitswap Transfer Protocol.
Import codebook Format.
#[local] Set Warnings "-clear-no-such-hyp".

(** ** Framing *)

Lemma zlen_sendMsg t payload : zlen (sendMsg t payload) = 5 + zlen payload.
Proof. unfold sendMsg. rewrite !zlen_app, zlen_le_put by lia. change (zlen [t]) with 1. lia. Qed.

Lemma readMsg_sendMsg t payload rest :
  zlen payload <= 100 * 1024 * 1024 -> readMsg (sendMsg t payload ++ rest) = Ok ((t, payload), rest).
Proof.
  intros Hl. pose proof (zlen_nonneg payload). unfold readMsg, sendMsg.
  replace (([t] ++ le_put 4 (u32 (zlen payload)) ++ payload) ++ rest) with ((t :: le_put 4 (u32 (zlen payload))) ++ payload ++ rest)
    by (cbn [app]; by rewrite <-app_assoc).
  rewrite ReadFull_app by (rewrite zlen_cons, zlen_le_put; lia). cbn [mbind res_bind].
  rewrite index_here by done. cbn [mbind res_bind]. rewrite <-(app_nil_r (t :: _)). change (t :: ?l) with ([t] ++ l). rewrite <-app_assoc.
  rewrite (get_le_skip 4 1), get_le_here by (try apply u32_range; done || lia). cbn [mbind res_bind].
  rewrite u32_small, Z.gtb_ltb, (proj2 (Z.ltb_ge _ _)), Z.gtb_ltb by (unfold is_u32; lia).
  destruct (Z.ltb_spec 0 (zlen payload)); [by rewrite ReadFull_app|]. by rewrite (zlen_0_nil payload) by lia.
Qed.

Section serving.
Context {Z0 : Zstd} {W0 : ZstdWire} {C0 : Cipher} {F0 : Files} {hash64 : XXHash}.

(** A request is answered, then the next ones. *)
Lemma serve_request fuel n t payload r :
  zlen payload <= maxRequestSize ->
  serve (S fuel) n (sendMsg t payload ++ r) =
    (out ← (if t =? MsgSyncReq then handleSyncReq n payload
            else if t =? MsgDiffReq then handleDiffReq n payload else Ok []);
     rest ← serve fuel n r; Ok (out ++ rest)).
Proof.
  unfold maxRequestSize. intros Hl. pose proof (zlen_nonneg payload). unfold sendMsg. cbn [app serve]. rewrite <-app_assoc.
  rewrite ReadFull_app by (by apply zlen_le_put). cbn [mbind res_bind].
  rewrite le_get_put_u32 by apply u32_range.
  unfold maxRequestSize. rewrite u32_small, Z.gtb_ltb, (proj2 (Z.ltb_ge _ _)) by (unfold is_u32; lia). by rewrite ReadFull_app.
Qed.

Lemma serve_nil fuel n : serve fuel n [] = Ok [].
Proof. by destruct fuel. Qed.

(** ** The difference request *)

Lemma read_indices_ok l pre i payload offset :
  zlen payload < 2 ^ 32 -> Forall is_u32 l -> payload = pre ++ put_u32s l -> zlen pre = offset + i * 4 -> 0 <= offset -> 0 <= i ->
  read_indices (length l) i offset payload = Ok l.
Proof.
  intros Hp Hl. revert pre i; induction Hl as [|x l Hx Hl IH]; intros pre i E Hpre Ho Hi; [done|].
  cbn [length read_indices]. pose proof (zlen_nonneg (put_u32s l)).
  assert (Ex : put_u32s (x :: l) = le_put 4 x ++ put_u32s l) by done. rewrite Ex in E.
  assert (Hlen : zlen payload = zlen pre + 4 + zlen (put_u32s l)) by (rewrite E, !zlen_app, zlen_le_put by lia; lia).
  rewrite (u32_small (i * 4)), (u32_small (offset + i * 4)), (u32_small (_ + 4)) by (unfold is_u32; lia).
  assert (Hcell : slice payload (offset + i * 4) (offset + i * 4 + 4) = Ok (le_put 4 x)).
  { rewrite slice_ok by lia. rewrite E. f_equal. apply sub_app_mid; rewrite ?zlen_le_put; lia. }
  rewrite Hcell. cbn [mbind res_bind].
  rewrite (IH (pre ++ le_put 4 x) (i + 1)); [|by rewrite <-app_assoc|rewrite zlen_app, zlen_le_put; lia|done|lia].
  cbn [mbind res_bind]. by rewrite le_get_put_u32.
Qed.

Lemma zlen_diff_payload filename indices : zlen (diff_payload filename indices) = 6 + zlen filename + 4 * zlen indices.
Proof. unfold diff_payload. rewrite !zlen_app, !zlen_le_put, zlen_put_u32s by lia. lia. Qed.

(** The parser of the server reads what the client wrote. *)
Lemma handleDiffReq_payload n filename indices file :
  zlen filename + 6 < 2 ^ 16 -> zlen (diff_payload filename indices) <= maxRequestSize -> Forall is_u32 indices ->
  n_disk n !! served_path n filename = Some file ->
  handleDiffReq n (diff_payload filename indices) = StreamChunks file (n_CodebookPath n) (n_EncKey n) indices.
Proof.
  intros Hf Hl Hi Hfile. pose proof (zlen_diff_payload filename indices) as Hlen. unfold maxRequestSize in *.
  pose proof (zlen_nonneg filename). pose proof (zlen_nonneg indices).
  unfold handleDiffReq. rewrite (proj2 (Z.ltb_ge _ _)) by lia.
  assert (G1 : get_le 2 (diff_payload filename indices) 0 = Ok (zlen filename)).
  { unfold diff_payload. rewrite u16_small by (unfold is_u16; lia). apply get_le_here; lia. }
  rewrite G1. cbn [mbind res_bind]. rewrite !(u16_small (2 + _)), (u16_small (_ + 4)) by (unfold is_u16; lia).
  rewrite (proj2 (Z.ltb_ge _ _)) by lia.
  assert (G2 : slice (diff_payload filename indices) 2 (2 + zlen filename) = Ok filename).
  { unfold diff_payload. rewrite (slice_skip 2) by (done || lia). rewrite (slice_here (zlen filename)); [done|done|lia|lia]. }
  assert (G3 : slice (diff_payload filename indices) (2 + zlen filename) (2 + zlen filename + 4) = Ok (le_put 4 (u32 (zlen indices)))).
  { unfold diff_payload. rewrite (slice_skip 2), (slice_skip (zlen filename)) by (done || lia). apply (slice_here 4); [by apply zlen_le_put|lia|lia]. }
  rewrite G2. cbn [mbind res_bind]. rewrite !(u32_small (2 + zlen filename + 4)), G3 by (unfold is_u32; lia). cbn [mbind res_bind].
  rewrite le_get_put_u32 by apply u32_range. rewrite !(u32_small (zlen indices)) by (unfold is_u32; lia).
  rewrite (u32_small (zlen indices * 4)), (u32_small (zlen (diff_payload _ _))), (u32_small (_ + zlen indices * 4)) by (unfold is_u32; lia).
  rewrite (proj2 (Z.ltb_ge _ _)) by lia. replace (Z.to_nat (zlen indices)) with (length indices) by (unfold zlen; lia).
  rewrite (read_indices_ok indices (le_put 2 (u16 (zlen filename)) ++ filename ++ le_put 4 (u32 (zlen indices)))); [|lia|done| | |lia|lia].
  - cbn [mbind res_bind]. by rewrite Hfile.
  - unfold diff_payload. by rewrite <-!app_assoc.
  - rewrite !zlen_app, !zlen_le_put by lia. lia.
Qed.

(** ** What is missing *)

Lemma all_indices_in count i : 0 <= i < count -> i ∈ all_indices count.
Proof.
  intros Hi. unfold all_indices. apply list_elem_of_fmap. exists (Z.to_nat i). split; [lia|]. apply elem_of_seq. lia.
Qed.

Lemma all_indices_range count : Forall (fun i => 0 <= i < count) (all_indices count).
Proof. apply Forall_fmap, Forall_seq. intros j Hj. cbn. lia. Qed.

Lemma zlen_all_indices count : 0 <= count -> zlen (all_indices count) = count.
Proof. intros. unfold all_indices, zlen. rewrite length_map, length_seq. lia. Qed.

Lemma select_missing_range missing i entries :
  0 <= i -> i + zlen entries <= 2 ^ 32 -> Forall (fun k => i <= k < i + zlen entries) (select_missing missing i entries).
Proof.
  revert i; induction entries as [|e entries IH]; intros i Hi Hl; [constructor|]. rewrite zlen_cons in *. pose proof (zlen_nonneg entries).
  cbn [select_missing]. assert (Hrest : Forall (fun k => i <= k < i + (zlen entries + 1)) (select_missing missing (i + 1) entries)).
  { eapply Forall_impl; [apply IH; lia|]. cbn. lia. }
  destruct (bool_decide _); [|done]. constructor; [|done]. rewrite u32_small; unfold is_u32; lia.
Qed.

Lemma zlen_select_missing missing i entries : zlen (select_missing missing i entries) <= zlen entries.
Proof.
  revert i; induction entries as [|e entries IH]; intros i; [done|]. cbn [select_missing]. specialize (IH (i + 1)).
  destruct (bool_decide _); rewrite ?zlen_cons; lia.
Qed.

Lemma select_missing_in missing i q1 e q2 :
  0 <= i -> i + zlen q1 < 2 ^ 32 -> chunk_key e ∈ missing -> i + zlen q1 ∈ select_missing missing i (q1 ++ e :: q2).
Proof.
  revert i; induction q1 as [|e' q1 IH]; intros i Hi Hl Hin; cbn [app select_missing].
  - change (zlen (@nil ManifestEntry)) with 0 in *. rewrite bool_decide_eq_true_2 by done. rewrite Z.add_0_r, u32_small by (unfold is_u32; lia).
    left.
  - rewrite zlen_cons in *. pose proof (zlen_nonneg q1). replace (i + (zlen q1 + 1)) with (i + 1 + zlen q1) by lia.
    assert (i + 1 + zlen q1 ∈ select_missing missing (i + 1) (q1 ++ e :: q2)) by (apply IH; [lia|lia|done]).
    destruct (bool_decide _); [by right|done].
Qed.

Lemma key_set_spec k l : k ∈ key_set l <-> exists e, e ∈ l /\ chunk_key e = k.
Proof. unfold key_set. rewrite elem_of_list_to_set, list_elem_of_fmap. naive_solver. Qed.

(** What [Diff] finds missing, and what it does not. *)
Lemma missing_keys local remote k :
  k ∈ key_set (d_Missing (Diff local remote)) <-> k ∈ key_set (m_Entries remote) /\ k ∉ key_set (m_Entries local).
Proof.
  rewrite key_set_spec. unfold Diff. cbn [d_Missing]. setoid_rewrite list_elem_of_filter. rewrite (key_set_spec k (m_Entries remote)).
  naive_solver.
Qed.

Lemma key_set_chunks (k : Z * Z) (chunks : list processedChunk) :
  k ∈ key_set (map manifest_chunk chunks) <-> exists p, p ∈ chunks /\ key_of_chunk p = k.
Proof.
  rewrite key_set_spec. split.
  - intros (e & (p & -> & Hp)%list_elem_of_fmap & <-). by exists p.
  - intros (p & Hp & <-). exists (manifest_chunk p). split; [|done]. apply list_elem_of_fmap. by exists p.
Qed.

Context {ZL : ZstdLaws Z0} {WL : ZstdWireLaws W0} {CL : CipherLaws C0}.

(** The indices the client asks for. *)
Lemma missingIndices_ok n r destPath input chunks lchunks :
  Open (n_CodebookPath n) = Ok r -> local_version r (n_EncKey n) (n_disk n !! destPath) lchunks ->
  zlen chunks < 2 ^ 32 -> (exists p, p ∈ chunks /\ forall q, q ∈ lchunks -> key_of_chunk q <> key_of_chunk p) ->
  exists indices, missingIndices n destPath (manifest_for input chunks) = Ok (Some indices) /\ indices <> [] /\
    Forall (fun i => 0 <= i < zlen chunks) indices /\ zlen indices <= zlen chunks /\ covered chunks lchunks indices.
Proof.
  intros Ho Hlocal Hl (p & Hp & Hnew). pose proof (zlen_nonneg chunks). unfold missingIndices.
  assert (Hpos : forall q1 (x : processedChunk) q2, chunks = q1 ++ x :: q2 -> 0 <= zlen q1 < zlen chunks).
  { intros q1 x q2 ->. pose proof (zlen_nonneg q1). pose proof (zlen_nonneg q2). rewrite zlen_app, zlen_cons. lia. }
  apply list_elem_of_split in Hp as (p1 & p2 & Ep). pose proof (Hpos p1 p p2 Ep) as Hp1.
  destruct (n_disk n !! destPath) as [file|]; cbn [local_version] in Hlocal.
  - destruct Hlocal as (old & Hold). rewrite (archived_manifest r _ _ _ _ _ Hold Ho).
    set (missing := key_set _). assert (Hmiss : forall q1 x q2, chunks = q1 ++ x :: q2 -> key_of_chunk x ∈ missing -> zlen q1 ∈ select_missing missing 0 (map manifest_chunk chunks)).
    { intros q1 x q2 E Hx. pose proof (Hpos q1 x q2 E). rewrite E, map_app. cbn [map]. replace (zlen q1) with (0 + zlen (map manifest_chunk q1)) by (unfold zlen; by rewrite length_map).
      apply select_missing_in; [lia| |done]. replace (zlen (map manifest_chunk q1)) with (zlen q1) by (unfold zlen; by rewrite length_map). lia. }
    assert (Hin : forall x, x ∈ chunks -> key_of_chunk x ∈ missing <-> key_of_chunk x ∉ key_set (map manifest_chunk lchunks)).
    { intros x Hx. unfold missing. rewrite missing_keys. cbn [manifest_for m_Entries]. split; [tauto|]. split; [|done].
      apply key_set_chunks. by exists x. }
    assert (Hp : key_of_chunk p ∈ missing).
    { apply Hin; [rewrite Ep; set_solver|]. rewrite key_set_chunks. intros (q & Hq & Hk). by apply (Hnew q). }
    rewrite (proj2 (Z.eqb_neq _ _)).
    2:{ intros E%zlen_0_nil. unfold missing in Hp. rewrite E in Hp. by apply elem_of_empty in Hp. }
    exists (select_missing missing 0 (map manifest_chunk chunks)). split; [done|].
    assert (Hz : zlen (map manifest_chunk chunks) = zlen chunks) by (unfold zlen; by rewrite length_map).
    split; [|split; [|split]].
    + intros E. pose proof (Hmiss p1 p p2 Ep Hp) as Hx. rewrite E in Hx. by apply elem_of_nil in Hx.
    + pose proof (select_missing_range missing 0 (map manifest_chunk chunks)) as Hr. rewrite Hz in Hr. apply Hr; lia.
    + rewrite <-Hz. apply zlen_select_missing.
    + intros q1 x q2 E. destruct (decide (key_of_chunk x ∈ missing)) as [Hx|Hx]; [left; by apply (Hmiss q1 x q2)|right].
      rewrite Hin in Hx by (rewrite E; set_solver). apply dec_stable in Hx. by apply key_set_chunks in Hx.
  - subst lchunks. exists (all_indices (zlen chunks)). cbn [manifest_for m_ChunkCount]. split; [done|].
    split; [|split; [apply all_indices_range|split; [by rewrite zlen_all_indices by lia|]]].
    + intros E. pose proof (all_indices_in (zlen chunks) (zlen p1) Hp1) as Hx. rewrite E in Hx. by apply elem_of_nil in Hx.
    + intros q1 x q2 E. left. apply all_indices_in. by apply (Hpos q1 x q2).
Qed.
End serving.

(** ** The whole exchange *)

(** A 64-bit hash. *)
Class XXHashWidth (H : XXHash) := xxhash_u64 data : is_u64 (xxhash_Sum64 data).

#[export] Instance fnv_width : XXHashWidth fnv_xxhash.
Proof.
  intros data. unfold fnv_xxhash, xxhash_Sum64, fnv1a. destruct data as [|b data] using rev_ind; [done|].
  rewrite fold_left_app. apply u64_range.
Qed.

Lemma bytes_ok_id_column prev es : bytes_ok (id_column prev es).
Proof.
  revert prev; induction es as [|e es IH]; intros prev; [constructor|]. cbn [id_column]. apply Forall_app.
  split; [by apply bytes_ok_le_put|apply IH].
Qed.

Lemma bytes_ok_column w f es : 0 <= w -> bytes_ok (column w f es).
Proof. intros. unfold column. apply Forall_concat, Forall_map, Forall_true. intros e. by apply bytes_ok_le_put. Qed.

Lemma bytes_ok_manifest m : wf_manifest m -> bytes_ok (m_OriginalHash m) -> bytes_ok (ToBinary m).
Proof.
  intros Hm Hh. rewrite ToBinary_image by done. unfold manifest_image, manifest_header.
  assert (Hix : bytes_ok (index_column (m_Entries m))).
  { apply Forall_map. eapply Forall_impl; [apply Hm|]. by intros e []. }
  repeat (apply Forall_app; split); first [done|apply bytes_ok_id_column|by apply bytes_ok_column|by apply bytes_ok_le_put].
Qed.

Section exchange.
Context {Z0 : Zstd} {W0 : ZstdWire} {C0 : Cipher} {F0 : Files} {hash64 : XXHash}
  {ZL : ZstdLaws Z0} {WL : ZstdWireLaws W0} {CL : CipherLaws C0} {HW : XXHashWidth hash64}.

Lemma archived_sound r passphrase input file chunks :
  archived r passphrase input file chunks -> Forall (sound_chunk (Some r)) chunks /\ 0 < zlen input < 2 ^ 48 /\ zlen chunks <= 2 ^ 27.
Proof.
  intros (cb & dict & h & pss & frames & metadata & tail & _ & Har & Hcb & -> & _). pose proof (ar_describes _ _ _ _ _ _ _ _ Har) as [].
  split; [|done]. eapply Forall_impl; [by apply (packed_sound cb dict _ _ _ _ _ (ar_packed _ _ _ _ _ _ _ _ Har))|].
  intros p (d & Hd). exists d. by apply (decodes_brain cb).
Qed.

Lemma wf_manifest_for r passphrase input file chunks :
  archived r passphrase input file chunks -> wf_manifest (manifest_for input chunks).
Proof.
  intros Ha. destruct (archived_sound _ _ _ _ _ Ha) as (Hs & Hin & Hc). unfold manifest_for.
  assert (Hz : zlen (map manifest_chunk chunks) = zlen chunks) by (unfold zlen; by rewrite length_map).
  constructor; cbn [m_Version m_OriginalHash m_OriginalSize m_ChunkCount m_Entries].
  - done.
  - apply zlen_Sum256.
  - unfold is_u64. lia.
  - by rewrite Hz.
  - rewrite Hz. lia.
  - apply Forall_map. eapply Forall_impl; [exact Hs|]. intros p (d & []). unfold BlockSize in *. constructor; cbn.
    + unfold is_u64. destruct dc_id as [->|]; unfold LiteralCodebookID; lia.
    + apply xxhash_u64.
    + unfold is_u32. lia.
    + done.
Qed.

(** What a peer that runs [handleStream] sends back. *)
Definition answers_of (n : CromNode) (remote sent : bytes) : bytes :=
  match handleStream n remote sent with Ok out => out | _ => [] end.

(** The manifest arrives. *)
Lemma manifest_reply A remote r input file chunks name :
  IsAuthenticated A remote = true -> Open (n_CodebookPath A) = Ok r -> zlen name <= maxRequestSize ->
  n_disk A !! served_path A name = Some file -> archived r (n_EncKey A) input file chunks -> zlen chunks <= 2 ^ 22 ->
  let m := manifest_for input chunks in
  let reply := sendMsg MsgManifest (CompressPool (ToBinary m)) in
  (forall r, handleStream A remote (sendMsg MsgSyncReq name ++ r) =
     (rest ← serve (length (le_put 4 (u32 (zlen name)) ++ name ++ r)) A r; Ok (reply ++ rest))) /\
  readMsg reply = Ok ((MsgManifest, CompressPool (ToBinary m)), []) /\
  DecompressPoolLimit (CompressPool (ToBinary m)) maxManifestSize = Ok (ToBinary m) /\ FromBinary (ToBinary m) = Ok m.
Proof.
  intros Hauth Ho Hname Hfile Ha Hn m reply. pose proof (wf_manifest_for _ _ _ _ _ Ha) as Hm. fold m in Hm.
  assert (Hlen : zlen (ToBinary m) = 46 + 21 * zlen chunks).
  { rewrite ToBinary_image by done. unfold manifest_image. rewrite !zlen_app, zlen_manifest_header, zlen_id_column, !zlen_column, zlen_index_column by done.
    unfold m, manifest_header_size. cbn [manifest_for m_Entries]. replace (zlen (map manifest_chunk chunks)) with (zlen chunks) by (unfold zlen; by rewrite length_map). lia. }
  assert (Hok : bytes_ok (ToBinary m)) by (apply bytes_ok_manifest; [done|apply bytes_ok_Sum256]).
  pose proof (zlen_nonneg chunks). split; [|split; [|split]].
  - intros rest. unfold handleStream. rewrite Hauth. unfold sendMsg at 1. cbn [app length]. change (MsgSyncReq :: le_put 4 (u32 (zlen name)) ++ name) with (sendMsg MsgSyncReq name).
    rewrite <-(app_assoc (le_put 4 _)). rewrite serve_request by done. cbn [Z.eqb]. unfold MsgSyncReq at 1 2. rewrite Z.eqb_refl.
    unfold handleSyncReq. rewrite Hfile, (archived_manifest r _ _ _ _ _ Ha Ho). done.
  - unfold reply. rewrite <-(app_nil_r (sendMsg _ _)). apply readMsg_sendMsg. unfold CompressPool.
    pose proof (zstd_bound [] (ToBinary m)). rewrite Hlen in *. Z.to_euclidean_division_equations. lia.
  - unfold DecompressPoolLimit, CompressPool. rewrite zstd_dec_enc by done. unfold maxManifestSize.
    rewrite Z.gtb_ltb, (proj2 (Z.ltb_ge _ _)) by lia. done.
  - rewrite ToBinary_image by done. rewrite <-(app_nil_r (manifest_image m)). by apply FromBinary_image.
Qed.

(** The chunks arrive. *)
Lemma chunks_reply A remote r input file chunks name indices wire :
  IsAuthenticated A remote = true -> Open (n_CodebookPath A) = Ok r ->
  n_disk A !! served_path A name = Some file -> archived r (n_EncKey A) input file chunks -> zlen chunks <= 2 ^ 22 ->
  zlen name + 6 < 2 ^ 16 -> zlen indices <= zlen chunks -> Forall is_u32 indices ->
  StreamChunks file (n_CodebookPath A) (n_EncKey A) indices = Ok wire ->
  let reply := sendMsg MsgManifest (CompressPool (ToBinary (manifest_for input chunks))) in
  let sent := sendMsg MsgSyncReq name in
  answers_of A remote sent = reply /\
  answers_of A remote (sent ++ sendMsg MsgDiffReq (diff_payload name indices)) = reply ++ wire.
Proof.
  intros Hauth Ho Hfile Ha Hn Hname Hi Hu Hwire reply sent. unfold maxRequestSize in *.
  destruct (manifest_reply A remote r input file chunks name Hauth Ho ltac:(unfold maxRequestSize; lia) Hfile Ha Hn) as (Hserve & _).
  fold reply sent in Hserve. unfold answers_of. split.
  - rewrite <-(app_nil_r sent), Hserve, serve_nil. cbn [mbind res_bind]. by rewrite app_nil_r.
  - rewrite Hserve. destruct (length (le_put 4 (u32 (zlen name)) ++ _)) as [|fuel] eqn:El.
    { exfalso. rewrite length_app in El. pose proof (zlen_le_put 4 (u32 (zlen name)) ltac:(lia)) as H4. unfold zlen in *. lia. }
    rewrite <-(app_nil_r (sendMsg MsgDiffReq _)), serve_request by (rewrite zlen_diff_payload; unfold maxRequestSize; lia).
    unfold MsgDiffReq, MsgSyncReq at 1. cbn [Z.eqb Pos.eqb].
    rewrite (handleDiffReq_payload A name indices file) by (rewrite ?zlen_diff_payload; unfold maxRequestSize; done || lia).
    rewrite Hwire, serve_nil. cbn [mbind res_bind]. by rewrite app_nil_r.
Qed.

(** A whole synchronisation. *)
Lemma RequestSync_archive A B r input file chunks lchunks filename salt nonce :
  brain_at (n_CodebookPath A) (Some r) -> brain_at (n_CodebookPath B) (Some r) -> IsAuthenticated A (n_ID B) = true ->
  n_disk A !! served_path A (Base filename) = Some file -> archived r (n_EncKey A) input file chunks ->
  local_version r (n_EncKey B) (n_disk B !! dest_path B (Base filename)) lchunks ->
  (exists p, p ∈ chunks /\ forall q, q ∈ lchunks -> key_of_chunk q <> key_of_chunk p) ->
  hash_distinguishes chunks lchunks ->
  zlen (Base filename) + 6 < 2 ^ 16 -> zlen chunks <= 2 ^ 22 -> zlen salt = 16 -> (forall i, zlen (nonce i) = gcmNonceSize) ->
  let dest := dest_path B (Base filename) in
  exists file',
    RequestSync B (answers_of A (n_ID B)) filename salt nonce = (<[dest := file']> (delete (dest ++ str ".tmp") (n_disk B)), Ok tt) /\
    synced r (n_EncKey B) input file' chunks.
Proof.
  intros [Hfit [_ HoA]] [_ [Hp HoB]] Hauth Hfile Ha Hlocal Hnew Hdist Hname Hn Hsalt Hnonce dest.
  destruct Hfit as [Hgood _]. destruct (Dictionary_ok r (gb_wf r Hgood)) as (dict & Hd & _).
  set (m := manifest_for input chunks).
  pose proof (zlen_nonneg (Base filename)).
  destruct (missingIndices_ok B r dest input chunks lchunks HoB Hlocal ltac:(lia) Hnew) as (indices & Hmiss & Hne & Hi & Hil & Hcov).
  destruct (archived_transfer r dict (n_EncKey A) input file chunks (n_CodebookPath A) (n_CodebookPath B) (n_EncKey B) salt nonce
    (n_disk B !! dest) lchunks indices Ha HoA HoB Hp Hd Hsalt Hnonce Hi Hlocal Hcov Hdist) as (wire & file' & Hwire & Hrec & Hsynced).
  destruct (manifest_reply A (n_ID B) r input file chunks (Base filename) Hauth HoA ltac:(unfold maxRequestSize; lia) Hfile Ha Hn)
    as (_ & Hread & Hdec & Hbin). fold m in Hread, Hdec, Hbin, Hmiss.
  assert (Hu : Forall is_u32 indices) by (eapply Forall_impl; [exact Hi|]; cbn; unfold is_u32; lia).
  destruct (chunks_reply A (n_ID B) r input file chunks (Base filename) indices wire Hauth HoA Hfile Ha Hn Hname Hil Hu Hwire) as [H1 H2].
  fold m in H1, H2. exists file'. split; [|done]. unfold RequestSync.
  assert (Hreq : request B (answers_of A (n_ID B)) filename salt nonce = Ok (Rebuilt (Ok file'))); [|by rewrite Hreq].
  unfold request. rewrite H1, Hread. cbn [wrap_err mbind res_bind]. unfold MsgManifest, MsgError. cbn [Z.eqb Pos.eqb negb].
  rewrite Hdec. cbn [wrap_err mbind res_bind]. rewrite Hbin. cbn [wrap_err mbind res_bind].
  assert (Hcount : (m_ChunkCount m =? 0) = false).
  { destruct Hnew as (p & Hpin & _). apply list_elem_of_split in Hpin as (p1 & p2 & E). unfold m. cbn [manifest_for m_ChunkCount].
    apply Z.eqb_neq. rewrite E, zlen_app, zlen_cons. pose proof (zlen_nonneg p1). pose proof (zlen_nonneg p2). lia. }
  rewrite Hcount. cbn [andb]. fold dest. rewrite Hmiss. cbn [mbind res_bind]. destruct indices as [|i indices]; [done|].
  change (zlen (@nil Z)) with 0. rewrite Z.sub_0_r, H2, zdrop_app. do 2 f_equal. exact Hrec.
Qed.

(** [C8] A synchronisation fetches the file. Let two nodes share a brain, and let the server [A] have
    authenticated the client [B] and hold an archive of [input] under the requested name, encrypted with
    its own key or not; let [B] hold nothing under its destination, or an archive of anything. If some
    chunk of the remote file is not among the local ones, [RequestSync] against [handleStream] succeeds:
    after the manifest, the difference, the transfer of the missing chunks only and the rebuild,
    the destination is an archive under [B]'s key that unpacks to [input], and no other file but the
    temporary one changed. Residuals of one codeword must not collide under xxhash, and the request must
    fit the limits on messages. *)
Theorem RequestSync_fetches A B r input file chunks lchunks filename salt nonce :
  brain_at (n_CodebookPath A) (Some r) -> brain_at (n_CodebookPath B) (Some r) -> IsAuthenticated A (n_ID B) = true ->
  n_disk A !! served_path A (Base filename) = Some file -> archived r (n_EncKey A) input file chunks ->
  local_version r (n_EncKey B) (n_disk B !! dest_path B (Base filename)) lchunks ->
  (exists p, p ∈ chunks /\ forall q, q ∈ lchunks -> key_of_chunk q <> key_of_chunk p) ->
  hash_distinguishes chunks lchunks ->
  zlen (Base filename) + 6 < 2 ^ 16 -> zlen chunks <= 2 ^ 22 -> zlen salt = 16 -> (forall i, zlen (nonce i) = gcmNonceSize) ->
  let dest := dest_path B (Base filename) in
  exists file',
    RequestSync B (answers_of A (n_ID B)) filename salt nonce = (<[dest := file']> (delete (dest ++ str ".tmp") (n_disk B)), Ok tt) /\
    archived r (n_EncKey B) input file' chunks /\
    forall intn uopts, u_EncryptionKey uopts = n_EncKey B -> u_Fuzziness uopts = f64_of_int 0 ->
      Unpack intn file' (n_CodebookPath B) uopts = Ok input.
Proof.
  intros HA HB Hauth Hfile Ha Hlocal Hnew Hdist Hname Hn Hsalt Hnonce dest. pose proof HB as (_ & Hp & Ho).
  destruct (RequestSync_archive A B r input file chunks lchunks filename salt nonce HA HB Hauth Hfile Ha Hlocal Hnew Hdist Hname Hn Hsalt Hnonce)
    as (file' & Hsync & Hsynced).
  exists file'. split; [done|]. split; [by apply synced_archived|]. intros intn uopts. by apply (synced_Unpack _ _ _ _ _ _ intn uopts Hsynced).
Qed.

(** What [RequestSync] takes for up to date. When every chunk of the remote file is also a chunk of the local
    one - in any order, any number of times, among any others - it reports success and leaves the disk as
    it was, whatever the two files contain: the difference compares sets of chunks, not files. *)
Theorem RequestSync_same_chunks A B r input old file oldFile chunks lchunks filename salt nonce :
  Open (n_CodebookPath A) = Ok r -> Open (n_CodebookPath B) = Ok r -> IsAuthenticated A (n_ID B) = true ->
  n_disk A !! served_path A (Base filename) = Some file -> archived r (n_EncKey A) input file chunks ->
  n_disk B !! dest_path B (Base filename) = Some oldFile -> archived r (n_EncKey B) old oldFile lchunks ->
  (forall p, p ∈ chunks -> exists q, q ∈ lchunks /\ key_of_chunk q = key_of_chunk p) ->
  zlen (Base filename) <= maxRequestSize -> zlen chunks <= 2 ^ 22 ->
  RequestSync B (answers_of A (n_ID B)) filename salt nonce = (n_disk B, Ok tt).
Proof.
  intros HoA HoB Hauth Hfile Ha Hdest Hold Hsub Hname Hn. set (m := manifest_for input chunks).
  destruct (manifest_reply A (n_ID B) r input file chunks (Base filename) Hauth HoA Hname Hfile Ha Hn) as (Hserve & Hread & Hdec & Hbin).
  fold m in Hserve, Hread, Hdec, Hbin.
  assert (H1 : answers_of A (n_ID B) (sendMsg MsgSyncReq (Base filename)) = sendMsg MsgManifest (CompressPool (ToBinary m))).
  { unfold answers_of. rewrite <-(app_nil_r (sendMsg MsgSyncReq _)), Hserve, serve_nil. cbn [mbind res_bind]. by rewrite app_nil_r. }
  assert (Hcount : (m_ChunkCount m =? 0) = false).
  { destruct Ha as (cb & dict & h & pss & frames & metadata & tail & _ & Har & _ & E & _).
    pose proof (chunks_present _ _ _ _ _ _ _ _ Har) as Hc. unfold m. cbn [manifest_for m_ChunkCount]. rewrite E.
    by rewrite (ds_count _ _ _ (ar_describes _ _ _ _ _ _ _ _ Har)) in Hc. }
  assert (Hmiss : missingIndices B (dest_path B (Base filename)) m = Ok None).
  { unfold missingIndices. rewrite Hdest, (archived_manifest r _ _ _ _ _ Hold HoB).
    assert (Hd : d_Missing (Diff (manifest_for old lchunks) m) = []).
    { destruct (d_Missing _) as [|e l] eqn:E; [done|].
      assert (Hk : chunk_key e ∈ key_set (d_Missing (Diff (manifest_for old lchunks) m))) by (apply key_set_spec; exists e; rewrite E; split; [left|done]).
      apply missing_keys in Hk as [(p & Hp & Hpk)%key_set_chunks Hk]. destruct Hk. apply key_set_chunks. rewrite <-Hpk. by apply Hsub. }
    by rewrite Hd. }
  unfold RequestSync. assert (Hreq : request B (answers_of A (n_ID B)) filename salt nonce = Ok UpToDate); [|by rewrite Hreq].
  unfold request. rewrite H1, Hread. cbn [wrap_err mbind res_bind]. unfold MsgManifest, MsgError. cbn [Z.eqb Pos.eqb negb].
  rewrite Hdec. cbn [wrap_err mbind res_bind]. rewrite Hbin. cbn [wrap_err mbind res_bind]. rewrite Hcount. cbn [andb].
  by rewrite Hmiss.
Qed.

(** Eleven bytes stop a node. A peer that passed the handshake sends a difference request of six bytes whose
    name length is 65534: the length checks add in 16 bits, wrap around and pass, and the slice of the name
    is taken backwards - a panic, in a goroutine that nothing recovers. *)
Theorem handleStream_crash n remote rest :
  IsAuthenticated n remote = true ->
  handleStream n remote ([MsgDiffReq; 6; 0; 0; 0; 0xFE; 0xFF; 0; 0; 0; 0] ++ rest) = Panic SliceBounds.
Proof.
  intros Ha. unfold handleStream. rewrite Ha. cbn [app length].
  change (serve _ n _) with (serve (S (10 + length rest)) n (sendMsg MsgDiffReq [0xFE; 0xFF; 0; 0; 0; 0] ++ rest)).
  rewrite serve_request by (vm_compute; congruence). reflexivity.
Qed.
End exchange.

Lemma handleStream_crash_witness :
  let n := {| n_ID := []; n_CodebookHash := []; n_DataDir := []; n_EncKey := []; n_CodebookPath := []; n_authenticated := {[str "peer"]}; n_disk := ∅ |} in
  handleStream (F0 := brain_disk) n (str "peer") [MsgDiffReq; 6; 0; 0; 0; 0xFE; 0xFF; 0; 0; 0; 0] = Panic SliceBounds.
Proof.
  intros n. apply (handleStream_crash (F0 := brain_disk) n (str "peer") []). vm_compute. reflexivity.
Defined.
(** ** Deciding the hypotheses on a given pair of files *)

Section decide.
Context {Z0 : Zstd} {W0 : ZstdWire} {C0 : Cipher} {F0 : Files} {hash64 : XXHash}
  {ZL : ZstdLaws Z0} {WL : ZstdWireLaws W0} {CL : CipherLaws C0}.

Fixpoint collect_block (entries : list ChunkEntry) (base : Z) (pool : bytes) (out : list (Z * bytes)) : res (list (Z * bytes)) :=
  match entries with
  | [] => Ok out
  | entry :: entries =>
      residual ← residual_at entry base pool;
      collect_block entries base pool (out ++ [(e_CodebookID entry, default [] residual)])
  end.

(** The codeword and the residual of each chunk of a file. *)
Definition chunk_residuals (file codebookPath encryptionKey : bytes) : res (list (Z * bytes)) :=
  cb ← Open codebookPath;
  '((header, blockTable, entries), r) ← ReadMetadata encryptionKey file;
  dict ← (if h_UsesBrainDict header then Dictionary cb else Ok []);
  ForEachBlock (fun _ _ _ => true)
    (fun first end_ pool out => e ← index entries first; collect_block (sub first end_ entries) (e_DeltaOffset e) pool out)
    r header blockTable entries dict encryptionKey [].

Definition id_residual (p : processedChunk) : Z * bytes := (e_CodebookID (p_entry p), p_res p).

Lemma collect_block_ok base q1 ps out :
  laid_out base (q1 ++ ps) -> Forall (fun p => e_DeltaSize (p_entry p) = zlen (p_res p)) ps -> zlen (pool_of (q1 ++ ps)) < 2 ^ 48 ->
  collect_block (map p_entry ps) base (pool_of (q1 ++ ps)) out = Ok (out ++ map id_residual ps).
Proof.
  revert q1 out; induction ps as [|p ps IH]; intros q1 out Hlo Hsz Hb; [cbn; by rewrite app_nil_r|].
  apply Forall_cons in Hsz as [Hs Hsz]. cbn [map collect_block].
  destruct (residual_bounds base q1 p ps (laid_out_at _ _ _ _ Hlo) Hs Hb) as [E1 E2]. cbv zeta in E1, E2.
  unfold residual_at. rewrite E1, E2. cbn [mbind res_bind default from_option id].
  replace (q1 ++ p :: ps) with ((q1 ++ [p]) ++ ps) in * by by rewrite <-app_assoc.
  rewrite IH by done. by rewrite <-app_assoc.
Qed.

Lemma chunk_residuals_ok r passphrase input file chunks path :
  archived r passphrase input file chunks -> Open path = Ok r -> chunk_residuals file path passphrase = Ok (map id_residual chunks).
Proof.
  intros (cb & dict & h & pss & frames & metadata & tail & -> & Har & Hcb & -> & _) Ho.
  pose proof (ar_describes _ _ _ _ _ _ _ _ Har) as Hds. destruct (archive_read _ _ _ _ _ _ _ _ Har) as (n & _ & _ & Hmeta & _).
  unfold chunk_residuals. rewrite Ho, Hmeta. cbn [mbind res_bind].
  destruct (stored_fields h n (ds_version _ _ _ Hds)) as (_ & _ & _ & _ & E5 & _). rewrite E5.
  assert (Hdict : (if h_UsesBrainDict h then Dictionary r else Ok []) = Ok dict).
  { pose proof (ar_brain _ _ _ _ _ _ _ _ Har) as Hb. destruct Hcb as [-> | ->]; destruct Hb as [-> Hb]; by rewrite Hb. }
  rewrite Hdict. cbn [mbind res_bind]. rewrite (ForEachBlock_archive cb dict passphrase h input pss frames metadata Har).
  enough (Hgen : forall p1 p2 out, pss = p1 ++ p2 ->
    each_block (fun _ _ _ => true) (fun first end_ pool out => e ← index (concat (entries_of pss)) first;
      collect_block (sub first end_ (concat (entries_of pss))) (e_DeltaOffset e) pool out) (zlen (concat p1)) p2 out =
    Ok (out ++ map id_residual (concat p2))) by apply (Hgen [] pss [] eq_refl).
  intros p1 p2. revert p1. induction p2 as [|ps p2 IH]; intros p1 out E; [cbn; by rewrite app_nil_r|].
  cbn [each_block negb]. destruct (archive_block _ _ _ _ _ _ _ _ Har p1 ps p2 E) as ((e & E1 & E2) & E3 & Hlo & Hsz & Hb & _).
  pose proof (zlen_nonneg (concat (map pool_of p1))). rewrite E1. cbn [mbind res_bind]. rewrite E2, E3.
  pose proof (collect_block_ok (zlen (concat (map pool_of p1))) [] ps out) as Hblock. cbn [app] in Hblock.
  rewrite Hblock by (done || lia). cbn [mbind res_bind].
  specialize (IH (p1 ++ [ps]) (out ++ map id_residual ps)). rewrite concat_app, zlen_app, <-app_assoc in IH. cbn [concat] in IH.
  rewrite app_nil_r in IH. rewrite IH by done. cbn [concat]. by rewrite map_app, <-app_assoc.
Qed.

Definition wire_key (c : Z * bytes) : Z * Z := (c.1, xxhash_Sum64 c.2).

Definition distinguishes_dec (cs lcs : list (Z * bytes)) : bool :=
  forallb (fun a => forallb (fun b => negb (bool_decide (wire_key a = wire_key b)) || bytes_eqb a.2 b.2) lcs) cs.

Definition new_dec (cs lcs : list (Z * bytes)) : bool :=
  existsb (fun a => forallb (fun b => negb (bool_decide (wire_key b = wire_key a))) lcs) cs.

(** Every chunk of the first list is in the second. *)
Definition known_dec (cs lcs : list (Z * bytes)) : bool :=
  forallb (fun a => existsb (fun b => bool_decide (wire_key b = wire_key a)) lcs) cs.

Lemma known_dec_ok chunks lchunks :
  known_dec (map id_residual chunks) (map id_residual lchunks) = true ->
  forall p, p ∈ chunks -> exists q, q ∈ lchunks /\ key_of_chunk q = key_of_chunk p.
Proof.
  unfold known_dec. rewrite forallb_forall. intros H p Hp. specialize (H _ (in_map id_residual _ _ (proj1 (list_elem_of_In _ _) Hp))).
  apply existsb_exists in H as (b & (q & <- & Hq)%in_map_iff & E%bool_decide_eq_true_1). exists q. split; [by apply list_elem_of_In|done].
Qed.

Lemma distinguishes_dec_ok chunks lchunks :
  distinguishes_dec (map id_residual chunks) (map id_residual lchunks) = true -> hash_distinguishes chunks lchunks.
Proof.
  unfold distinguishes_dec. rewrite forallb_forall. intros H p q Hp Hq E. specialize (H (id_residual p)).
  rewrite forallb_forall in H. specialize (H (in_map _ _ _ (proj1 (list_elem_of_In _ _) Hp)) _ (in_map id_residual _ _ (proj1 (list_elem_of_In _ _) Hq))).
  rewrite bool_decide_eq_true_2 in H by done. cbn [negb orb] in H. by apply bytes_eqb_true in H.
Qed.

Lemma new_dec_ok chunks lchunks :
  new_dec (map id_residual chunks) (map id_residual lchunks) = true ->
  exists p, p ∈ chunks /\ forall q, q ∈ lchunks -> key_of_chunk q <> key_of_chunk p.
Proof.
  unfold new_dec. rewrite existsb_exists. intros (a & (p & <- & Hp)%in_map_iff & H). exists p. split; [by apply list_elem_of_In|].
  rewrite forallb_forall in H. intros q Hq E. specialize (H _ (in_map id_residual _ _ (proj1 (list_elem_of_In _ _) Hq))).
  by rewrite bool_decide_eq_true_2 in H.
Qed.
End decide.

(** ** Two nodes *)

Lemma archive_key {Z0 : Zstd} {C0 : Cipher} cb dict p p' h input pss frames metadata :
  h_IsEncrypted h = false -> archive cb dict p h input pss frames metadata -> archive cb dict p' h input pss frames metadata.
Proof.
  intros He [Hpk Hds _ Hb (nonce & table & Hn & Ht & Hm)]. assert (Hk : table_key p' h = table_key p h) by (unfold table_key; by rewrite He).
  constructor; [by rewrite Hk|done|by rewrite He|done|]. exists nonce, table. by rewrite Hk.
Qed.

Definition packed_sample (input : bytes) : bytes :=
  match PackBytes (log2 := log2_minus8) (order := key_order) true input sample_brain DefaultPackOptions with Ok file => file | _ => [] end.

(** A new version of the file: bytes changed, moved and added. *)
Definition new_input : bytes := [9; 9; 1; 2; 3; 4; 5; 6; 7; 8; 200; 1; 2; 3; 4; 5; 6; 7; 8].

Definition node_at (id dir key : bytes) (peers : gset bytes) (file : bytes) : CromNode :=
  {| n_ID := id; n_CodebookHash := []; n_DataDir := dir; n_EncKey := key; n_CodebookPath := str "brain"; n_authenticated := peers;
     n_disk := {[ dir ++ str "/x.crom" := file ]} |}.

Definition sample_server : CromNode := node_at (str "A") (str "/a") [] {[str "B"]} (packed_sample new_input).
Definition sample_client : CromNode := node_at (str "B") (str "/b") (str "key") ∅ (packed_sample sample_input).

Lemma packed_sample_archived input key :
  bytes_ok input -> 0 < zlen input <= 2 ^ 27 ->
  exists chunks, archived sample_reader key input (packed_sample input) chunks.
Proof.
  intros Hok Hl. destruct (PackBytes_file (log2 := log2_minus8) (order := key_order) true input sample_brain sample_reader
    DefaultPackOptions ltac:(vm_compute; reflexivity) ltac:(vm_compute; reflexivity) (conj good_sample_reader eq_refl) ltac:(by split) Hok Hl)
    as (dict & h & pss & frames & metadata & E & Har & He & _ & Hlossy).
  exists (concat pss). exists (Some sample_reader), dict, h, pss, frames, metadata, []. unfold packed_sample. rewrite E, app_nil_r.
  split; [done|]. split; [by apply (archive_key _ _ [])|auto].
Qed.

(** Compute the left side of an equation. *)
Ltac eval_lhs H :=
  match type of H with ?l = _ =>
    let v := eval vm_compute in l in
    let Hv := fresh in assert (Hv : l = v) by (vm_compute; reflexivity); rewrite Hv in H; clear Hv
  end.

Lemma RequestSync_fetches_witness :
  exists file' disk',
    RequestSync (F0 := brain_disk) sample_client (answers_of (F0 := brain_disk) sample_server (str "B")) (str "dir/x") (make_bytes 16) (fun _ => make_bytes 12)
      = (disk', Ok tt) /\ disk' !! str "/b/x.crom" = Some file' /\
    Unpack (F0 := brain_disk) (fun _ => 0) file' (str "brain") {| u_Fuzziness := f64_of_int 0; u_EncryptionKey := str "key"; u_Strict := true |} = Ok new_input.
Proof.
  assert (Hok : bytes_ok new_input) by by apply bytes_ok_dec.
  destruct (packed_sample_archived new_input [] Hok) as [chunks Ha]; [vm_compute; split; congruence|].
  destruct (packed_sample_archived sample_input (str "key") sample_input_ok) as [lchunks Hl]; [vm_compute; split; congruence|].
  pose proof (chunk_residuals_ok (F0 := brain_disk) _ _ _ _ _ (str "brain") Ha ltac:(vm_compute; reflexivity)) as Ec.
  pose proof (chunk_residuals_ok (F0 := brain_disk) _ _ _ _ _ (str "brain") Hl ltac:(vm_compute; reflexivity)) as El.
  eval_lhs Ec. eval_lhs El. injection Ec as Ec. injection El as El.
  destruct (RequestSync_fetches (F0 := brain_disk) sample_server sample_client sample_reader new_input (packed_sample new_input) chunks lchunks
    (str "dir/x") (make_bytes 16) (fun _ => make_bytes 12)) as (file' & Hrun & _ & Hun).
  - apply sample_brain_at.
  - apply sample_brain_at.
  - vm_compute. reflexivity.
  - vm_compute. reflexivity.
  - exact Ha.
  - assert (Hd : n_disk sample_client !! dest_path sample_client (Base (str "dir/x")) = Some (packed_sample sample_input)) by (vm_compute; reflexivity).
    rewrite Hd. exists sample_input. exact Hl.
  - apply new_dec_ok. rewrite <-Ec, <-El. vm_compute. reflexivity.
  - apply distinguishes_dec_ok. rewrite <-Ec, <-El. vm_compute. reflexivity.
  - vm_compute. reflexivity.
  - assert (Hn : zlen (map id_residual chunks) <= 2 ^ 22) by (rewrite <-Ec; vm_compute; congruence).
    unfold zlen in *. by rewrite length_map in Hn.
  - reflexivity.
  - reflexivity.
  - exists file'. eexists. split; [exact Hrun|]. split; [vm_compute; reflexivity|]. by apply Hun.
Defined.

(** The server holds the first eight bytes of the client's file; the client keeps its own and reports success. *)
Lemma RequestSync_same_chunks_witness :
  let server := node_at (str "A") (str "/a") [] {[str "B"]} (packed_sample (ztake 8 sample_input)) in
  RequestSync (F0 := brain_disk) sample_client (answers_of (F0 := brain_disk) server (str "B")) (str "x.crom") (make_bytes 16) (fun _ => make_bytes 12)
    = (n_disk sample_client, Ok tt) /\ ztake 8 sample_input <> sample_input.
Proof.
  intros server. split; [|discriminate].
  assert (Hok : bytes_ok (ztake 8 sample_input)) by by apply bytes_ok_dec.
  destruct (packed_sample_archived (ztake 8 sample_input) [] Hok) as [chunks Ha]; [vm_compute; split; congruence|].
  destruct (packed_sample_archived sample_input (str "key") sample_input_ok) as [lchunks Hl]; [vm_compute; split; congruence|].
  pose proof (chunk_residuals_ok (F0 := brain_disk) _ _ _ _ _ (str "brain") Ha ltac:(vm_compute; reflexivity)) as Ec.
  pose proof (chunk_residuals_ok (F0 := brain_disk) _ _ _ _ _ (str "brain") Hl ltac:(vm_compute; reflexivity)) as El.
  eval_lhs Ec. eval_lhs El. injection Ec as Ec. injection El as El.
  apply (RequestSync_same_chunks (F0 := brain_disk) server sample_client sample_reader (ztake 8 sample_input) sample_input
    (packed_sample (ztake 8 sample_input)) (packed_sample sample_input) chunks lchunks).
  - vm_compute. reflexivity.
  - vm_compute. reflexivity.
  - vm_compute. reflexivity.
  - vm_compute. reflexivity.
  - exact Ha.
  - vm_compute. reflexivity.
  - exact Hl.
  - apply known_dec_ok. rewrite <-Ec, <-El. vm_compute. reflexivity.
  - vm_compute. congruence.
  - assert (Hn : zlen (map id_residual chunks) <= 2 ^ 22) by (rewrite <-Ec; vm_compute; congruence).
    unfold zlen in *. by rewrite length_map in Hn.
Defined.
