(* ===== verification/Handshake.v ===== *)
(** [internal/network/auth.go]: the mutual challenge by which two nodes prove to each other that they hold
    the same brain. Both ends run [handshake] over a pair of byte streams; the model is a step
    relation on the two ends and what is in flight between them. *)

From stdpp Require Import relations.
From S2P Require Import Prelude Sha256 Externals Crypto Format Codebook Bitswap Protocol.
Import codebook Format.

Definition authNonceSize : Z := 32.
Definition sha256_Size : Z := 32.

Definition errBrainMismatch : string := "Codebook diferente (Sovereignty violation)".

(** [authProof] *)
Definition authProof (n : CromNode) (sender nonce : bytes) : bytes :=
  hmac_sha256 (n_CodebookHash n) (str "crom-auth-v2" ++ sender ++ nonce).

(** Where an end is in [handshake]. *)
Inductive hs_pc :=
  | SendNonce
  | ReadNonce
  | SendProof (remoteNonce : bytes)
  | ReadProof
  | Ack
  | Done (err : option string).

#[export] Instance hs_pc_eq_dec : EqDecision hs_pc.
Proof. solve_decision. Defined.

(** [io.ReadFull] from what has arrived; [None] when it has to wait. *)
Definition read_arrived (n : Z) (inbox : bytes) (closed : bool) : option (option (bytes * bytes)) :=
  if n <=? zlen inbox then Some (Some (ztake n inbox, zdrop n inbox))
  else if closed then Some None else None.

(** A step of one end: where it is next, what is left to read, what it writes, and whether it records
    the other end as authenticated. [closed] says that the other end has finished. *)
Definition handshake (n : CromNode) (initiator : bool) (remote ourNonce : bytes) (pc : hs_pc) (inbox : bytes) (closed : bool)
    : option (hs_pc * bytes * bytes * bool) :=
  match pc with
  | SendNonce => Some (ReadNonce, inbox, ourNonce, false)
  | ReadNonce =>
      match read_arrived authNonceSize inbox closed with
      | None => None
      | Some None => Some (Done (Some "read nonce"%string), [], [], false)
      | Some (Some (remoteNonce, inbox)) => Some (SendProof remoteNonce, inbox, [], false)
      end
  | SendProof remoteNonce => Some (ReadProof, inbox, authProof n (n_ID n) remoteNonce, false)
  | ReadProof =>
      match read_arrived sha256_Size inbox closed with
      | None => None
      | Some None => Some (Done (Some "read proof"%string), [], [], false)
      | Some (Some (remoteProof, inbox)) =>
          if bytes_eqb remoteProof (authProof n remote ourNonce) then Some (Ack, inbox, [], true)
          else Some (Done (Some errBrainMismatch), inbox, [], false)
      end
  | Ack =>
      if initiator then
        match read_arrived 1 inbox closed with
        | None => None
        | Some None => Some (Done (Some "read ack"%string), [], [], false)
        | Some (Some (_, inbox)) => Some (Done None, inbox, [], false)
        end
      else Some (Done None, inbox, [0], false)
  | Done _ => None
  end.

(** The two ends, the bytes in flight in each direction, and the peers each node has authenticated. *)
Record hs_state := {
  hs_A : hs_pc;
  hs_B : hs_pc;
  hs_AB : bytes;
  hs_BA : bytes;
  hs_authA : gset bytes;
  hs_authB : gset bytes;
}.

Definition is_done (pc : hs_pc) : bool := match pc with Done _ => true | _ => false end.

Definition record_peer (store : bool) (peer : bytes) (auth : gset bytes) : gset bytes :=
  if store then {[peer]} ∪ auth else auth.

(** [A] runs [AuthenticatePeer], [B] runs [authHandler]. *)
Inductive hs_step (A B : CromNode) (nonceA nonceB : bytes) (st : hs_state) : hs_state -> Prop :=
  | initiator_step pc inbox out store :
      handshake A true (n_ID B) nonceA (hs_A st) (hs_BA st) (is_done (hs_B st)) = Some (pc, inbox, out, store) ->
      hs_step A B nonceA nonceB st
        {| hs_A := pc; hs_B := hs_B st; hs_AB := hs_AB st ++ out; hs_BA := inbox;
           hs_authA := record_peer store (n_ID B) (hs_authA st); hs_authB := hs_authB st |}
  | responder_step pc inbox out store :
      handshake B false (n_ID A) nonceB (hs_B st) (hs_AB st) (is_done (hs_A st)) = Some (pc, inbox, out, store) ->
      hs_step A B nonceA nonceB st
        {| hs_A := hs_A st; hs_B := pc; hs_AB := inbox; hs_BA := hs_BA st ++ out;
           hs_authA := hs_authA st; hs_authB := record_peer store (n_ID A) (hs_authB st) |}.

(** The deadline passes, or the connection breaks. *)
Inductive hs_fail (st : hs_state) : hs_state -> Prop :=
  | initiator_fails e :
      is_done (hs_A st) = false ->
      hs_fail st {| hs_A := Done (Some e); hs_B := hs_B st; hs_AB := hs_AB st; hs_BA := hs_BA st; hs_authA := hs_authA st; hs_authB := hs_authB st |}
  | responder_fails e :
      is_done (hs_B st) = false ->
      hs_fail st {| hs_A := hs_A st; hs_B := Done (Some e); hs_AB := hs_AB st; hs_BA := hs_BA st; hs_authA := hs_authA st; hs_authB := hs_authB st |}.

Definition hs_init (A B : CromNode) : hs_state :=
  {| hs_A := SendNonce; hs_B := SendNonce; hs_AB := []; hs_BA := []; hs_authA := n_authenticated A; hs_authB := n_authenticated B |}.

(** ** What is in flight *)

(** How many of the messages [nonce], [proof], [ack] an end has written, and read. *)
Definition sent (initiator : bool) (pc : hs_pc) : nat :=
  match pc with
  | SendNonce => 0 | ReadNonce | SendProof _ => 1 | ReadProof | Ack => 2
  | Done _ => if initiator then 2 else 3
  end.

Definition received (initiator : bool) (pc : hs_pc) : nat :=
  match pc with
  | SendNonce | ReadNonce => 0 | SendProof _ | ReadProof => 1 | Ack => 2
  | Done _ => if initiator then 3 else 2
  end.

Definition in_flight (msgs : list bytes) (written read : nat) : bytes := concat (drop read (take written msgs)).

Definition rank (pc : hs_pc) : nat :=
  match pc with SendNonce => 0 | ReadNonce => 1 | SendProof _ => 2 | ReadProof => 3 | Ack => 4 | Done _ => 5 end.

Lemma read_first n m rest closed : zlen m = n -> read_arrived n (m ++ rest) closed = Some (Some (m, rest)).
Proof.
  intros Hm. unfold read_arrived. rewrite zlen_app, (proj2 (Z.leb_le _ _)) by (pose proof (zlen_nonneg rest); lia).
  by rewrite ztake_app_eq, zdrop_app_eq.
Qed.

Lemma read_nothing n : 0 < n -> read_arrived n [] false = None.
Proof. intros. unfold read_arrived. change (zlen (@nil Z)) with 0. by rewrite (proj2 (Z.leb_gt _ _)) by lia. Qed.

Section run.
Variables (A B : CromNode) (nonceA nonceB : bytes).
Hypotheses (HnA : zlen nonceA = authNonceSize) (HnB : zlen nonceB = authNonceSize).

Definition proofA : bytes := authProof A (n_ID A) nonceB.
Definition proofB : bytes := authProof B (n_ID B) nonceA.
Definition msgsA : list bytes := [nonceA; proofA].
Definition msgsB : list bytes := [nonceB; proofB; [0]].

Lemma zlen_proofs : zlen proofA = sha256_Size /\ zlen proofB = sha256_Size.
Proof. split; apply zlen_hmac. Qed.

(** The position of an end that has seen only what the other end sends. *)
Definition on_track (nonce : bytes) (pc : hs_pc) : Prop :=
  match pc with SendProof r => r = nonce | Done e => e = None | _ => True end.

Record lockstep (st : hs_state) : Prop := {
  ls_A : on_track nonceB (hs_A st);
  ls_B : on_track nonceA (hs_B st);
  ls_rA : (received true (hs_A st) <= sent false (hs_B st))%nat;
  ls_rB : (received false (hs_B st) <= sent true (hs_A st))%nat;
  ls_AB : hs_AB st = in_flight msgsA (sent true (hs_A st)) (received false (hs_B st));
  ls_BA : hs_BA st = in_flight msgsB (sent false (hs_B st)) (received true (hs_A st));
  ls_authA : (4 <= rank (hs_A st))%nat -> n_ID B ∈ hs_authA st;
  ls_authB : (4 <= rank (hs_B st))%nat -> n_ID A ∈ hs_authB st;
}.

Section same_brain.
Hypothesis Hbrain : n_CodebookHash A = n_CodebookHash B.

Lemma same_proofs : authProof A (n_ID B) nonceA = proofB /\ authProof B (n_ID A) nonceB = proofA.
Proof. unfold proofA, proofB, authProof. by rewrite Hbrain. Qed.

Ltac hs_eval :=
  repeat match goal with
  | |- context [read_arrived _ (?m ++ ?r) _] => rewrite (read_first _ m r) by (done || apply zlen_proofs || apply HnA || apply HnB)
  | |- context [read_arrived _ [] false] => rewrite read_nothing by done
  | |- context [bytes_eqb ?a ?a] => rewrite bytes_eqb_refl
  end.

(** In step, the ends are never out of step: each step goes one further. *)
Lemma lockstep_initiator st :
  lockstep st ->
  match handshake A true (n_ID B) nonceA (hs_A st) (hs_BA st) (is_done (hs_B st)) with
  | Some (pc, inbox, out, store) =>
      rank pc = S (rank (hs_A st)) /\
      lockstep {| hs_A := pc; hs_B := hs_B st; hs_AB := hs_AB st ++ out; hs_BA := inbox;
        hs_authA := record_peer store (n_ID B) (hs_authA st); hs_authB := hs_authB st |}
  | None => (received true (hs_A st) = sent false (hs_B st) /\ hs_A st <> SendNonce)%nat \/ hs_A st = Done None
  end.
Proof.
  destruct st as [pcA pcB AB BA authA authB]. intros [LA LB RA RB EAB EBA UA UB]. cbn [hs_A hs_B hs_AB hs_BA hs_authA hs_authB] in *.
  destruct same_proofs as [EB EA]. subst AB BA.
  destruct pcA as [| |r| | |e], pcB as [| |r'| | |e']; cbn [received sent on_track rank] in *; try lia; subst;
    unfold in_flight, msgsA, msgsB; cbn [take drop concat app handshake is_done]; rewrite ?EB; hs_eval; cbn [rank record_peer];
    try (left; split; [done|discriminate]); try by right.
  all: split; [done|]; constructor; cbn [hs_A hs_B hs_AB hs_BA hs_authA hs_authB received sent on_track rank]; try done; try lia;
    unfold in_flight, msgsA, msgsB; cbn [take drop concat app]; rewrite ?app_nil_r; try done; try (intros _; set_solver).
Qed.

Lemma lockstep_responder st :
  lockstep st ->
  match handshake B false (n_ID A) nonceB (hs_B st) (hs_AB st) (is_done (hs_A st)) with
  | Some (pc, inbox, out, store) =>
      rank pc = S (rank (hs_B st)) /\
      lockstep {| hs_A := hs_A st; hs_B := pc; hs_AB := inbox; hs_BA := hs_BA st ++ out;
        hs_authA := hs_authA st; hs_authB := record_peer store (n_ID A) (hs_authB st) |}
  | None => (received false (hs_B st) = sent true (hs_A st) /\ hs_B st <> SendNonce /\ hs_B st <> Ack)%nat \/ hs_B st = Done None
  end.
Proof.
  destruct st as [pcA pcB AB BA authA authB]. intros [LA LB RA RB EAB EBA UA UB]. cbn [hs_A hs_B hs_AB hs_BA hs_authA hs_authB] in *.
  destruct same_proofs as [EB EA]. subst AB BA.
  destruct pcB as [| |r| | |e], pcA as [| |r'| | |e']; cbn [received sent on_track rank] in *; try lia; subst;
    unfold in_flight, msgsA, msgsB; cbn [take drop concat app handshake is_done]; rewrite ?EA; hs_eval; cbn [rank record_peer];
    try (left; repeat split; done || discriminate); try by right.
  all: split; [done|]; constructor; cbn [hs_A hs_B hs_AB hs_BA hs_authA hs_authB received sent on_track rank]; try done; try lia;
    unfold in_flight, msgsA, msgsB; cbn [take drop concat app]; rewrite ?app_nil_r; try done; try (intros _; set_solver).
Qed.

Lemma lockstep_init : lockstep (hs_init A B).
Proof. constructor; cbn; done || lia. Qed.

Definition hs_progress (st : hs_state) : nat := (rank (hs_A st) + rank (hs_B st))%nat.

Lemma lockstep_step st st' :
  lockstep st -> hs_step A B nonceA nonceB st st' -> lockstep st' /\ hs_progress st' = S (hs_progress st).
Proof.
  intros Hl [pc inbox out store E|pc inbox out store E]; unfold hs_progress.
  - pose proof (lockstep_initiator st Hl) as H. rewrite E in H. destruct H as [Hr H]. split; [done|]. cbn [hs_A hs_B]. lia.
  - pose proof (lockstep_responder st Hl) as H. rewrite E in H. destruct H as [Hr H]. split; [done|]. cbn [hs_A hs_B]. lia.
Qed.

Lemma lockstep_run n st : nsteps (hs_step A B nonceA nonceB) n (hs_init A B) st -> lockstep st /\ hs_progress st = n.
Proof.
  intros H. enough (Hgen : forall st0, nsteps (hs_step A B nonceA nonceB) n st0 st -> lockstep st0 -> lockstep st /\ hs_progress st = (n + hs_progress st0)%nat).
  { destruct (Hgen _ H lockstep_init) as [? E]. split; [done|]. rewrite E. unfold hs_progress. cbn. lia. }
  clear H. intros st0 H. induction H as [st0|n st0 st1 st2 Hs _ IH]; intros Hl; [done|].
  destruct (lockstep_step _ _ Hl Hs) as [Hl' Hp]. destruct (IH Hl') as [? ->]. split; [done|lia].
Qed.

Lemma rank_bound pc : (rank pc <= 5)%nat.
Proof. destruct pc; cbn; lia. Qed.

(** An end that cannot move has finished, or waits for the other; both cannot wait. *)
Lemma lockstep_progress st :
  lockstep st -> (exists st', hs_step A B nonceA nonceB st st') \/ (hs_A st = Done None /\ hs_B st = Done None).
Proof.
  intros Hl. pose proof (lockstep_initiator st Hl) as H1. pose proof (lockstep_responder st Hl) as H2.
  destruct (handshake A _ _ _ _ _ _) as [[[[pc inbox] out] store]|] eqn:E1; [left; eexists; eapply initiator_step, E1|].
  destruct (handshake B _ _ _ _ _ _) as [[[[pc inbox] out] store]|] eqn:E2; [left; eexists; eapply responder_step, E2|].
  destruct Hl as [LA LB RA RB _ _ _ _]. right.
  destruct (hs_A st) as [| |?| | |?], (hs_B st) as [| |?| | |?]; cbn [received sent on_track] in *; subst; try done;
    destruct H1 as [[H1 H1']|H1]; try done; destruct H2 as [(H2 & H2' & H2'')|H2]; try done; lia.
Qed.
End same_brain.
End run.

(** The initiator returns only when it has been accepted. *)
Lemma initiator_accepted A B nonceA nonceB n st :
  zlen nonceA = authNonceSize -> zlen nonceB = authNonceSize -> n_CodebookHash A = n_CodebookHash B ->
  nsteps (hs_step A B nonceA nonceB) n (hs_init A B) st -> is_done (hs_A st) = true -> hs_A st = Done None /\ n_ID A ∈ hs_authB st.
Proof.
  intros HnA HnB Hbrain Hrun Hd. destruct (lockstep_run A B nonceA nonceB HnA HnB Hbrain n st Hrun) as [[LA _ RA _ _ _ _ UB] _].
  destruct (hs_A st) as [| |?| | |e]; try done. cbn [on_track received] in LA, RA. subst e.
  split; [done|]. apply UB. destruct (hs_B st) as [| |?| | |?]; cbn [sent rank] in *; lia.
Qed.

(** [C16] The handshake of two nodes with the same brain completes, whatever the scheduling. As long as neither deadline
    passes, no interleaving of the two ends can make it fail, deadlock or run on: every run has at
    most ten steps, a state in which no end can move is one where both have returned without error, and
    there each node has recorded the other as authenticated - so that the initiator, which returns
    only after the acknowledgement, never asks a responder that has not accepted it. *)
Theorem handshake_completes A B nonceA nonceB n st :
  zlen nonceA = authNonceSize -> zlen nonceB = authNonceSize -> n_CodebookHash A = n_CodebookHash B ->
  nsteps (hs_step A B nonceA nonceB) n (hs_init A B) st ->
  (n <= 10)%nat /\
  ((exists st', hs_step A B nonceA nonceB st st') \/
   (hs_A st = Done None /\ hs_B st = Done None /\ n_ID B ∈ hs_authA st /\ n_ID A ∈ hs_authB st)) /\
  (is_done (hs_A st) = true -> hs_A st = Done None /\ n_ID A ∈ hs_authB st).
Proof.
  intros HnA HnB Hbrain Hrun. destruct (lockstep_run A B nonceA nonceB HnA HnB Hbrain n st Hrun) as [Hl Hn].
  pose proof (rank_bound (hs_A st)). pose proof (rank_bound (hs_B st)). unfold hs_progress in Hn. split; [lia|]. split.
  - destruct (lockstep_progress A B nonceA nonceB HnA HnB Hbrain st Hl) as [|[EA EB]]; [by left|right].
    destruct Hl as [_ _ _ _ _ _ UA UB]. rewrite EA, EB in *. cbn [rank] in *. repeat split; [apply UA; lia|apply UB; lia].
  - by apply (initiator_accepted A B nonceA nonceB n).
Qed.

Definition hs_node (id hash : bytes) : CromNode :=
  {| n_ID := id; n_CodebookHash := hash; n_DataDir := []; n_EncKey := []; n_CodebookPath := []; n_authenticated := ∅; n_disk := ∅ |}.

(** A run under a given schedule; [true] lets the initiator step. *)
Fixpoint run_schedule (A B : CromNode) (nonceA nonceB : bytes) (schedule : list bool) (st : hs_state) : option hs_state :=
  match schedule with
  | [] => Some st
  | true :: schedule =>
      '(pc, inbox, out, store) ← handshake A true (n_ID B) nonceA (hs_A st) (hs_BA st) (is_done (hs_B st));
      run_schedule A B nonceA nonceB schedule
        {| hs_A := pc; hs_B := hs_B st; hs_AB := hs_AB st ++ out; hs_BA := inbox;
           hs_authA := record_peer store (n_ID B) (hs_authA st); hs_authB := hs_authB st |}
  | false :: schedule =>
      '(pc, inbox, out, store) ← handshake B false (n_ID A) nonceB (hs_B st) (hs_AB st) (is_done (hs_A st));
      run_schedule A B nonceA nonceB schedule
        {| hs_A := hs_A st; hs_B := pc; hs_AB := inbox; hs_BA := hs_BA st ++ out;
           hs_authA := hs_authA st; hs_authB := record_peer store (n_ID A) (hs_authB st) |}
  end.

Lemma run_schedule_steps A B nonceA nonceB schedule st st' :
  run_schedule A B nonceA nonceB schedule st = Some st' -> nsteps (hs_step A B nonceA nonceB) (length schedule) st st'.
Proof.
  revert st; induction schedule as [|[] schedule IH]; intros st; [intros [= ->]; constructor| |]; cbn [run_schedule length].
  - intros ([[[pc inbox] out] store] & E & Hr)%bind_Some. eapply nsteps_l; [by eapply initiator_step|by apply IH].
  - intros ([[[pc inbox] out] store] & E & Hr)%bind_Some. eapply nsteps_l; [by eapply responder_step|by apply IH].
Qed.

Definition is_none (pc : hs_pc) : bool := match pc with Done None => true | _ => false end.

Lemma is_none_ok pc : is_none pc = true -> pc = Done None.
Proof. by destruct pc as [| | | | |[]]. Qed.

(** Ten steps: the responder first, then the initiator as far as it can go, and so on. *)
Lemma handshake_completes_witness :
  let A := hs_node (str "A") (str "brain") in
  let B := hs_node (str "B") (str "brain") in
  let nonceA := make_bytes 32 in
  let nonceB := replicate 32 7 in
  exists st, nsteps (hs_step A B nonceA nonceB) 10 (hs_init A B) st /\ (forall st', ~ hs_step A B nonceA nonceB st st') /\
    hs_A st = Done None /\ hs_B st = Done None /\ n_ID B ∈ hs_authA st /\ n_ID A ∈ hs_authB st.
Proof.
  intros A B nonceA nonceB.
  set (schedule := [false; true; true; true; false; false; false; true; false; true]).
  pose proof (run_schedule_steps A B nonceA nonceB schedule (hs_init A B)) as Hsteps.
  assert (Hdone : match run_schedule A B nonceA nonceB schedule (hs_init A B) with
    | Some st => is_none (hs_A st) && is_none (hs_B st) | None => false end = true) by (vm_compute; reflexivity).
  destruct (run_schedule _ _ _ _ _ _) as [st|]; [|discriminate]. specialize (Hsteps st eq_refl) as Hrun.
  apply andb_prop in Hdone as [EA%is_none_ok EB%is_none_ok]. exists st. split; [exact Hrun|].
  assert (Hstuck : forall st', ~ hs_step A B nonceA nonceB st st').
  { intros st' Hs. destruct Hs as [pc inbox out store E|pc inbox out store E]; [rewrite EA in E|rewrite EB in E]; discriminate E. }
  split; [exact Hstuck|].
  destruct (handshake_completes A B nonceA nonceB 10 st) as (_ & [[st' Hs]|H] & _); try reflexivity.
  - exact Hrun.
  - destruct (Hstuck st' Hs).
  - exact H.
Defined.

(** ** Different brains *)

(** What an end that never accepts has written. *)
Definition wrote (nonce proof : bytes) (pc : hs_pc) (w : bytes) : Prop :=
  match pc with
  | SendNonce => w = []
  | ReadNonce | SendProof _ => w = nonce
  | ReadProof => w = nonce ++ proof
  | Ack => False
  | Done e => e <> None /\ (w = [] \/ w = nonce \/ w = nonce ++ proof)
  end.

Definition has_read (pc : hs_pc) : Z := match pc with SendProof _ | ReadProof => 32 | _ => 0 end.

(** The view of an end that is not done: [w] is all that the other end wrote, [inbox] what is left of it. *)
Definition view (nonce : bytes) (pc : hs_pc) (w inbox : bytes) : Prop :=
  is_done pc = false -> has_read pc <= zlen w /\ inbox = zdrop (has_read pc) w /\ match pc with SendProof r => r = nonce | _ => True end.

Section one_end.
Variables (n : CromNode) (initiator : bool) (remote ourNonce theirNonce theirProof : bytes).
Hypotheses (Htheir : zlen theirNonce = authNonceSize) (Hproof : zlen theirProof = sha256_Size)
  (Hreject : authProof n remote ourNonce <> theirProof).

Abbreviation ourProof := (authProof n (n_ID n) theirNonce).

Lemma wrote_chain nonce proof pc w : wrote nonce proof pc w -> w = [] \/ w = nonce \/ w = nonce ++ proof.
Proof. destruct pc; cbn; tauto. Qed.

Lemma rejecting_step pc w inbox theirs closed pc' inbox' out store :
  wrote ourNonce ourProof pc w -> theirs = [] \/ theirs = theirNonce \/ theirs = theirNonce ++ theirProof ->
  view theirNonce pc theirs inbox -> handshake n initiator remote ourNonce pc inbox closed = Some (pc', inbox', out, store) ->
  store = false /\ wrote ourNonce ourProof pc' (w ++ out) /\ view theirNonce pc' theirs inbox'.
Proof.
  unfold authNonceSize, sha256_Size in *. intros Hw Ht Hv E. destruct pc as [| |r| | |e]; cbn [wrote handshake] in *; try done.
  - injection E as <- <- <- <-. subst w. split; [done|]. split; [done|]. intros _. apply Hv. done.
  - destruct (Hv eq_refl) as (_ & -> & _). cbn [has_read] in *. rewrite zdrop_0 in E. unfold read_arrived, authNonceSize in E. subst w.
    destruct (Z.leb_spec 32 (zlen theirs)) as [Hl|Hl].
    + injection E as <- <- <- <-. rewrite app_nil_r. split; [done|]. split; [done|]. intros _. cbn [has_read]. split; [done|]. split; [done|].
      destruct Ht as [->|[->| ->]]; [by change (zlen (@nil Z)) with 0 in Hl|by rewrite ztake_ge by lia|by apply ztake_app_eq].
    + destruct closed; [|done]. injection E as <- <- <- <-. rewrite app_nil_r. split; [done|]. split; [split; [done|tauto]|by intros ?].
  - injection E as <- <- <- <-. destruct (Hv eq_refl) as (H1 & H2 & ->). subst w. split; [done|]. split; [done|]. intros _. done.
  - destruct (Hv eq_refl) as (H1 & -> & _). cbn [has_read] in *. unfold read_arrived, sha256_Size in E. subst w.
    destruct (Z.leb_spec 32 (zlen (zdrop 32 theirs))) as [Hl|Hl].
    + assert (Hp : ztake 32 (zdrop 32 theirs) = theirProof).
      { destruct Ht as [->|[->| ->]]; [by change (zlen (@nil Z)) with 0 in H1| |rewrite zdrop_app_eq by done; rewrite ztake_ge by lia; done].
        rewrite zlen_zdrop in Hl. lia. }
      rewrite Hp in E. destruct (bytes_eqb _ _) eqn:Eb; [apply bytes_eqb_true in Eb; congruence|].
      injection E as <- <- <- <-. rewrite app_nil_r. split; [done|]. split; [split; [done|tauto]|by intros ?].
    + destruct closed; [|done]. injection E as <- <- <- <-. rewrite app_nil_r. split; [done|]. split; [split; [done|tauto]|by intros ?].
Qed.

(** The other end writes. *)
Lemma view_grow pc theirs inbox out : view theirNonce pc theirs inbox -> view theirNonce pc (theirs ++ out) (inbox ++ out).
Proof.
  intros Hv Hd. destruct (Hv Hd) as (H1 & -> & H3). rewrite zlen_app. pose proof (zlen_nonneg out). split; [lia|]. split; [|done].
  rewrite !zdrop_drop, drop_app. rewrite zdrop_drop in *. f_equal. replace (Z.to_nat (has_read pc) - length theirs)%nat with 0%nat; [done|].
  unfold zlen in *. lia.
Qed.
End one_end.

(** The node with the peers it has authenticated by now. *)
Definition with_peers (n : CromNode) (peers : gset bytes) : CromNode :=
  {| n_ID := n_ID n; n_CodebookHash := n_CodebookHash n; n_DataDir := n_DataDir n; n_EncKey := n_EncKey n;
     n_CodebookPath := n_CodebookPath n; n_authenticated := peers; n_disk := n_disk n |}.

Section strangers.
Context {Z0 : Zstd} {W0 : ZstdWire} {C0 : Cipher} {F0 : Files} {hash64 : XXHash}.

Record estranged (A B : CromNode) (nonceA nonceB wA wB : bytes) (st : hs_state) : Prop := {
  es_A : wrote nonceA (authProof A (n_ID A) nonceB) (hs_A st) wA;
  es_B : wrote nonceB (authProof B (n_ID B) nonceA) (hs_B st) wB;
  es_viewA : view nonceB (hs_A st) wB (hs_BA st);
  es_viewB : view nonceA (hs_B st) wA (hs_AB st);
  es_authA : hs_authA st = n_authenticated A;
  es_authB : hs_authB st = n_authenticated B;
}.

(** [C22] Different brains never pass. If the two nodes' proofs differ - the HMACs of the same message under the
    hashes of different brains - then in every run of the handshake, with deadlines and broken connections
    at any moment, neither node records the other and neither end returns success; and whatever the
    other then asks on a sync stream, a node answers with the refusal, without looking at its files. *)
Theorem handshake_sovereignty A B nonceA nonceB st :
  zlen nonceA = authNonceSize -> zlen nonceB = authNonceSize ->
  authProof A (n_ID B) nonceA <> authProof B (n_ID B) nonceA -> authProof B (n_ID A) nonceB <> authProof A (n_ID A) nonceB ->
  n_ID B ∉ n_authenticated A -> n_ID A ∉ n_authenticated B ->
  rtc (fun s s' => hs_step A B nonceA nonceB s s' \/ hs_fail s s') (hs_init A B) st ->
  hs_A st <> Done None /\ hs_B st <> Done None /\
  (forall sent, handleStream (with_peers A (hs_authA st)) (n_ID B) sent = Ok (sendError "Autenticacao necessaria")) /\
  (forall sent, handleStream (with_peers B (hs_authB st)) (n_ID A) sent = Ok (sendError "Autenticacao necessaria")).
Proof.
  intros HnA HnB HrA HrB HfA HfB Hrun.
  assert (Hinv : exists wA wB, estranged A B nonceA nonceB wA wB st).
  { refine (rtc_ind_r (fun s => exists wA wB, estranged A B nonceA nonceB wA wB s) (hs_init A B) _ _ st Hrun); clear st Hrun.
    - exists [], []. constructor; try done; by intros _.
    - intros st st' _ [Hs|Hf] (wA & wB & [EA EB VA VB UA UB]).
      + destruct Hs as [pc inbox out store E|pc inbox out store E].
        * destruct (rejecting_step A true (n_ID B) nonceA nonceB (authProof B (n_ID B) nonceA) HnB (zlen_hmac _ _) HrA _ wA _ wB _ _ _ _ _
            EA (wrote_chain _ _ _ _ EB) VA E) as (-> & Hw & Hv).
          exists (wA ++ out), wB. constructor; cbn; try done. by apply view_grow.
        * destruct (rejecting_step B false (n_ID A) nonceB nonceA (authProof A (n_ID A) nonceB) HnA (zlen_hmac _ _) HrB _ wB _ wA _ _ _ _ _
            EB (wrote_chain _ _ _ _ EA) VB E) as (-> & Hw & Hv).
          exists wA, (wB ++ out). constructor; cbn; try done. by apply view_grow.
      + exists wA, wB. destruct Hf as [e He|e He]; constructor; cbn; try done.
        * split; [done|]. by apply wrote_chain in EA.
        * split; [done|]. by apply wrote_chain in EB. }
  destruct Hinv as (wA & wB & [EA EB _ _ UA UB]).
  split; [intros E; rewrite E in EA; by destruct EA|]. split; [intros E; rewrite E in EB; by destruct EB|].
  split; intros sent; unfold handleStream, IsAuthenticated; cbn [with_peers n_authenticated].
  - rewrite UA. by rewrite bool_decide_eq_false_2.
  - rewrite UB. by rewrite bool_decide_eq_false_2.
Qed.
End strangers.

(** Brains "one" and "two": the initiator reaches the mismatch, then the responder finds its proof rejected. *)
Lemma handshake_sovereignty_witness :
  let A := hs_node (str "A") (str "one") in
  let B := hs_node (str "B") (str "two") in
  let nonceA := make_bytes 32 in
  let nonceB := replicate 32 7 in
  exists st, rtc (fun s s' => hs_step A B nonceA nonceB s s' \/ hs_fail s s') (hs_init A B) st /\ hs_A st = Done (Some errBrainMismatch) /\
    handleStream (F0 := fun _ => None) (with_peers B (hs_authB st)) (n_ID A) (str "anything") = Ok (sendError "Autenticacao necessaria").
Proof.
  intros A B nonceA nonceB.
  set (schedule := [true; false; false; false; true; true; true]).
  pose proof (run_schedule_steps A B nonceA nonceB schedule (hs_init A B)) as Hsteps.
  assert (Hdone : match run_schedule A B nonceA nonceB schedule (hs_init A B) with
    | Some st => bool_decide (hs_A st = Done (Some errBrainMismatch)) | None => false end = true) by (vm_compute; reflexivity).
  destruct (run_schedule _ _ _ _ _ _) as [st|]; [|discriminate]. specialize (Hsteps st eq_refl). apply bool_decide_eq_true_1 in Hdone.
  assert (Hrun : rtc (fun s s' => hs_step A B nonceA nonceB s s' \/ hs_fail s s') (hs_init A B) st).
  { apply (rtc_subrel (hs_step A B nonceA nonceB)); [by left|]. by apply rtc_nsteps_2 in Hsteps. }
  exists st. split; [exact Hrun|]. split; [exact Hdone|].
  apply (handshake_sovereignty (F0 := fun _ => None) A B nonceA nonceB st).
  - reflexivity.
  - reflexivity.
  - vm_compute. discriminate.
  - vm_compute. discriminate.
  - set_solver.
  - set_solver.
  - exact Hrun.
Defined.
