(* ===== verification/Trainer.v ===== *)
(** [internal/trainer]: how a brain is made - counting the patterns of a directory, choosing the best of
    them, merging pairs of tokens, and writing the [.cromdb] file. *)

From stdpp Require Import sorting.
From S2P Require Import Prelude Binary Sha256 Externals Crypto Chunker Codebook Entropy Search Pack.
Import codebook.

(** ** Pattern frequencies ([frequency.go]) *)

(** [Data] is [None] until the selected patterns are read back. *)
Record PatternEntry := {
  pe_Hash : Z;
  pe_Count : Z;
  pe_Data : option bytes;
  pe_First : Z;
  pe_Bucket : Z;
}.

#[export] Instance PatternEntry_eq_dec : EqDecision PatternEntry.
Proof. solve_decision. Defined.

Abbreviation FrequencyTable := (gmap Z PatternEntry).

Definition computeLSHBucket (data : bytes) : Z :=
  match data with
  | a :: b :: _ => Z.lor a (Z.shiftl b 8)
  | _ => 0
  end.

(** The files in the order of the walk, [None] for one that cannot be opened. *)
Abbreviation Corpus := (list (option bytes)).

Section trainer.
Context {hash64 : XXHash}.

Definition Record_ (data : bytes) (ft : FrequencyTable) : FrequencyTable :=
  let h := xxhash_Sum64 data in
  match ft !! h with
  | Some e => <[h := {| pe_Hash := pe_Hash e; pe_Count := u32 (pe_Count e + 1); pe_Data := pe_Data e; pe_First := pe_First e; pe_Bucket := pe_Bucket e |}]> ft
  | None => <[h := {| pe_Hash := h; pe_Count := 1; pe_Data := Some data; pe_First := 0; pe_Bucket := 0 |}]> ft
  end.

Definition RecordAt (data : bytes) (pos : Z) (ft : FrequencyTable) : FrequencyTable :=
  let h := xxhash_Sum64 data in
  match ft !! h with
  | Some e => <[h := {| pe_Hash := pe_Hash e; pe_Count := u32 (pe_Count e + 1); pe_Data := pe_Data e;
                        pe_First := if pos <? pe_First e then pos else pe_First e; pe_Bucket := pe_Bucket e |}]> ft
  | None => <[h := {| pe_Hash := h; pe_Count := 1; pe_Data := None; pe_First := pos; pe_Bucket := computeLSHBucket data |}]> ft
  end.

Definition RecordWithCount (data : bytes) (count : Z) (ft : FrequencyTable) : FrequencyTable :=
  let h := xxhash_Sum64 data in
  match ft !! h with
  | Some e => <[h := {| pe_Hash := pe_Hash e; pe_Count := u32 (pe_Count e + count); pe_Data := pe_Data e; pe_First := pe_First e; pe_Bucket := pe_Bucket e |}]> ft
  | None => <[h := {| pe_Hash := h; pe_Count := count; pe_Data := Some data; pe_First := 0; pe_Bucket := 0 |}]> ft
  end.

(** ** Sorting

    [sort.Slice] over the entries of a map: some order of decreasing counts. *)
Class CountOrder := by_count : FrequencyTable -> list PatternEntry.

Class CountOrderLaws (O : CountOrder) := {
  by_count_perm ft : by_count ft ≡ₚ map snd (map_to_list ft);
  by_count_sorted ft : StronglySorted (fun a b => pe_Count b <= pe_Count a) (by_count ft);
}.

(** [sort.SliceStable] by an integer key. *)
Fixpoint insert_by {A} (key : A -> Z) (x : A) (l : list A) : list A :=
  match l with
  | [] => [x]
  | y :: l' => if key x <=? key y then x :: l else y :: insert_by key x l'
  end.

Definition sort_stable {A} (key : A -> Z) (l : list A) : list A := foldr (insert_by key) [] l.

(** The workers take the files from a channel: their records interleave in some way. *)
Class Interleave := interleave : forall A : Type, list (list A) -> list A.
Arguments interleave {_ _} _.

Class InterleaveLaws (I : Interleave) := interleave_perm (A : Type) (ls : list (list A)) : @interleave I A ls ≡ₚ concat ls.

Context {CO : CountOrder} {IL : Interleave}.

(** ** Selection ([selector.go]) *)

Definition entry_bucket (e : PatternEntry) : Z :=
  match pe_Data e with Some data => computeLSHBucket data | None => pe_Bucket e end.

Fixpoint pick (maxCodewords maxPerBucket : Z) (all : list PatternEntry) (bucketCount : gmap Z Z) (picked : list PatternEntry)
    : list PatternEntry :=
  match all with
  | [] => picked
  | entry :: all =>
      if zlen picked >=? maxCodewords then picked else
      let bucket := entry_bucket entry in
      let n := default 0 (bucketCount !! bucket) in
      if n >=? maxPerBucket then pick maxCodewords maxPerBucket all bucketCount picked
      else pick maxCodewords maxPerBucket all (<[bucket := n + 1]> bucketCount) (picked ++ [entry])
  end.

Definition selectPicked (table : FrequencyTable) (maxCodewords maxPerBucket : Z) : list PatternEntry :=
  let maxPerBucket := if maxPerBucket <=? 0 then maxCodewords else maxPerBucket in
  sort_stable pe_First (pick maxCodewords maxPerBucket (by_count table) ∅ []).

Definition SelectElite (table : FrequencyTable) (maxCodewords maxPerBucket : Z) : list bytes :=
  map (fun e => default [] (pe_Data e)) (selectPicked table maxCodewords maxPerBucket).

(** ** Augmentation ([augmentation.go]) *)

Definition augment_entry (entry : PatternEntry) (ft : FrequencyTable) : res FrequencyTable :=
  let baseData := default [] (pe_Data entry) in
  if pe_Count entry <=? 1 then Ok ft else
  let augCount := if pe_Count entry / 2 =? 0 then 1 else pe_Count entry / 2 in
  match baseData with
  | [] => Panic SliceBounds
  | first :: tail =>
      let ft := RecordWithCount (tail ++ [0]) augCount ft in
      let ft := RecordWithCount (0 :: ztake (zlen baseData - 1) baseData) augCount ft in
      Ok (RecordWithCount (tail ++ [first]) augCount ft)
  end.

(** The entries are shared with the table: each is read as it is when its turn comes. *)
Fixpoint augment_all (entries : list PatternEntry) (ft : FrequencyTable) : res FrequencyTable :=
  match entries with
  | [] => Ok ft
  | entry :: entries => ft ← augment_entry (default entry (ft !! pe_Hash entry)) ft; augment_all entries ft
  end.

Definition AugmentPatterns (ft : FrequencyTable) (limit : Z) : res FrequencyTable :=
  augment_all (ztake limit (by_count ft)) ft.

(** ** Byte pairs ([bpe.go]) *)

(** [range] over the pair counts, in some order. *)
Class PairOrder := pair_order : gmap (Z * Z) Z -> list ((Z * Z) * Z).
Class PairOrderLaws (O : PairOrder) := pair_order_perm m : pair_order m ≡ₚ map_to_list m.
Context {PO : PairOrder}.

Record BPEBuilder := {
  bpe_vocab : gmap Z bytes;
  bpe_maxLen : Z;
  bpe_maxTokens : Z;
}.

Definition base_vocab : gmap Z bytes := list_to_map (map (fun i => (Z.of_nat i, [Z.of_nat i])) (seq 0 256)).

Definition NewBPEBuilder (maxTokens maxLen : Z) : BPEBuilder :=
  {| bpe_vocab := base_vocab; bpe_maxLen := maxLen; bpe_maxTokens := maxTokens |}.

Fixpoint count_pairs (tokens : list Z) (counts : gmap (Z * Z) Z) : gmap (Z * Z) Z :=
  match tokens with
  | a :: (b :: _) as rest => count_pairs rest (<[(a, b) := default 0 (counts !! (a, b)) + 1]> counts)
  | _ => counts
  end.

Definition word (vocab : gmap Z bytes) (id : Z) : bytes := default [] (vocab !! id).

Definition better_pair (vocab : gmap Z bytes) (maxLen : Z) (best : (Z * Z) * Z) (p : (Z * Z) * Z) : (Z * Z) * Z :=
  if zlen (word vocab p.1.1) + zlen (word vocab p.1.2) >? maxLen then best
  else if p.2 >? best.2 then p else best.

Definition best_pair (vocab : gmap Z bytes) (maxLen : Z) (counts : gmap (Z * Z) Z) : (Z * Z) * Z :=
  fold_left (better_pair vocab maxLen) (pair_order counts) ((0, 0), -1).

Fixpoint replace_pair (a b next : Z) (tokens : list Z) : list Z :=
  match tokens with
  | x :: ((y :: rest) as tl) => if (x =? a) && (y =? b) then next :: replace_pair a b next rest else x :: replace_pair a b next tl
  | _ => tokens
  end.

(** [n] is how many tokens may still be added. *)
Fixpoint bpe_loop (n : nat) (maxLen next : Z) (vocab : gmap Z bytes) (tokens : list Z) : gmap Z bytes * list Z :=
  match n with
  | O => (vocab, tokens)
  | S n =>
      if zlen tokens <? 2 then (vocab, tokens) else
      let '((a, b), bestCount) := best_pair vocab maxLen (count_pairs tokens ∅) in
      if bestCount <? 2 then (vocab, tokens) else
      bpe_loop n maxLen (next + 1) (<[next := word vocab a ++ word vocab b]> vocab) (replace_pair a b next tokens)
  end.

Definition bpe_Train (b : BPEBuilder) (data : bytes) : gmap Z bytes :=
  match data with
  | [] => bpe_vocab b
  | _ => (bpe_loop (Z.to_nat (u32 (bpe_maxTokens b) - 256)) (bpe_maxLen b) 256 (bpe_vocab b) data).1
  end.

(** ** The file ([codebook_writer.go]) *)

Definition WriteCodebook (patterns : list bytes) : res bytes :=
  match patterns with
  | [] => Err "trainer: no patterns to write"
  | first :: _ =>
      let cwSize := zlen first in
      let patterns := sort_stable computeLSHBucket patterns in
      let buildHash := Sum256 (concat patterns) in
      let header := make_bytes HeaderSize in
      let header := blit header 0 MagicString in
      let header := blit header 6 (le_put 2 Version1) in
      let header := blit header 8 (le_put 2 (u16 cwSize)) in
      let header := blit header 10 (le_put 8 (zlen patterns)) in
      let header := blit header 18 (le_put 8 HeaderSize) in
      let header := blit header 26 (ztake 32 buildHash) in
      Ok (header ++ concat patterns)
  end.

(** ** Training ([engine.go]) *)

Record TrainOptions := {
  t_InputDir : bytes;
  t_OutputPath : bytes;
  t_MaxCodewords : Z;
  t_MaxPerBucket : Z;
  t_ChunkSize : Z;
  t_DataAugmentation : bool;
  t_UseBPE : bool;
  t_UpdatePath : bytes;
  t_BasePath : bytes;
}.

Record TrainResult := {
  r_TotalBytes : Z;
  r_TotalFiles : Z;
  r_UniquePatterns : Z;
  r_SelectedElite : Z;
  r_MergedPatterns : Z;
  r_ReplacedSlots : Z;
}.

Definition hashPattern (data : bytes) : Z := fnv1a data.

Definition pattern_set (patterns : list bytes) : gset Z := list_to_set (map hashPattern patterns).

Definition countOverlap (original selected : list bytes) : Z :=
  zlen (filter (fun p => hashPattern p ∈ pattern_set selected) original).

Fixpoint add_new (baseSet : gset Z) (maxCodewords : Z) (newPatterns result : list bytes) : list bytes :=
  match newPatterns with
  | [] => result
  | p :: newPatterns =>
      if zlen result >=? maxCodewords then result
      else add_new baseSet maxCodewords newPatterns (if bool_decide (hashPattern p ∈ baseSet) then result else result ++ [p])
  end.

Definition mergeBaseWithNew (base newPatterns : list bytes) (maxCodewords : Z) : list bytes :=
  add_new (pattern_set base) maxCodewords newPatterns (ztake maxCodewords base).

(** The buffers of 16 MB that a worker reads a file in. *)
Definition file_blocks (file : option bytes) : list bytes :=
  match file with Some data => read_blocks (length data) data | None => [] end.

(** The records of a file, block by block from position [pos]. *)
Fixpoint block_records (chunkSize pos : Z) (blocks : list bytes) : list (bytes * Z) :=
  match blocks with
  | [] => []
  | block :: blocks =>
      map (fun c => (c_Data c, u64 (pos + c_Offset c)))
        (filter (fun c => zlen (c_Data c) = chunkSize) (FixedChunker_Split (NewFixedChunker chunkSize) block)) ++
      block_records chunkSize (u64 (pos + zlen block)) blocks
  end.

Fixpoint corpus_records (chunkSize i : Z) (files : Corpus) : list (list (bytes * Z)) :=
  match files with
  | [] => []
  | file :: files => block_records chunkSize (u64 (Z.shiftl i 44)) (file_blocks file) :: corpus_records chunkSize (i + 1) files
  end.

Definition count_patterns (augment : bool) (records : list (bytes * Z)) : FrequencyTable :=
  fold_left (fun ft r => if augment then Record_ r.1 ft else RecordAt r.1 r.2 ft) records ∅.

Definition bpeLimit : Z := 50 * 1024 * 1024.

Definition grow_corpus (corpus block : bytes) : bytes :=
  if zlen corpus <? bpeLimit then
    let add := if zlen corpus + zlen block >? bpeLimit then bpeLimit - zlen corpus else zlen block in
    corpus ++ ztake add block
  else corpus.

(** [readPickedData]: the patterns still [missing], and the bytes [found]. *)
Definition find_chunk (st : gset Z * gmap Z bytes) (c : Chunk) : gset Z * gmap Z bytes :=
  let '(missing, found) := st in
  if bool_decide (c_Hash c ∈ missing) then (missing ∖ {[c_Hash c]}, <[c_Hash c := c_Data c]> found) else st.

Definition find_in_block (chunkSize : Z) (st : gset Z * gmap Z bytes) (block : bytes) : gset Z * gmap Z bytes :=
  if bool_decide (st.1 = ∅) then st
  else fold_left find_chunk (FixedChunker_Split (NewFixedChunker chunkSize) block) st.

Definition set_data (found : gmap Z bytes) (e : PatternEntry) : PatternEntry :=
  match pe_Data e with
  | Some _ => e
  | None => {| pe_Hash := pe_Hash e; pe_Count := pe_Count e; pe_Data := found !! pe_Hash e; pe_First := pe_First e; pe_Bucket := pe_Bucket e |}
  end.

Definition readPickedData (chunkSize : Z) (picked : list PatternEntry) (files : Corpus) : res (list PatternEntry) :=
  let missing := list_to_set (map pe_Hash (filter (fun e => pe_Data e = None) picked)) in
  let '(missing, found) := fold_left (find_in_block chunkSize) (concat (map file_blocks files)) (missing, ∅) in
  if bool_decide (missing = ∅) then Ok (map (set_data found) picked)
  else Err "trainer: patterns disappeared from the corpus during training".

Definition elite (chunkSize maxCodewords maxPerBucket : Z) (ft : FrequencyTable) (files : Corpus) : res (list bytes) :=
  picked ← readPickedData chunkSize (selectPicked ft maxCodewords maxPerBucket) files;
  Ok (map (fun e => default [] (pe_Data e)) picked).

Definition pad_word (chunkSize : Z) (w : bytes) : bytes := blit (make_bytes chunkSize) 0 (ztake chunkSize w).

(** The words of the vocabulary, by identifier. *)
Definition bpe_selected (chunkSize : Z) (vocab : gmap Z bytes) : list bytes :=
  map (pad_word chunkSize) (omap (fun id => vocab !! Z.of_nat id) (seq 0 (length (map_to_list vocab)))).

Definition seed_existing (chunkSize : Z) (patterns : list bytes) (ft : FrequencyTable) : FrequencyTable :=
  fold_left (fun ft p => RecordWithCount p 100 ft) (filter (fun p => zlen p = chunkSize) patterns) ft.

(** The options with the defaults filled in. *)
Definition train_defaults (opts : TrainOptions) : TrainOptions :=
  let chunkSize := if t_ChunkSize opts <=? 0 then DefaultChunkSize else t_ChunkSize opts in
  {| t_InputDir := t_InputDir opts; t_OutputPath := t_OutputPath opts;
     t_MaxCodewords := if t_MaxCodewords opts <=? 0 then 8192 else t_MaxCodewords opts;
     t_MaxPerBucket := if chunkSize >=? AlignedMinCodewordSize then 0 else t_MaxPerBucket opts;
     t_ChunkSize := chunkSize; t_DataAugmentation := t_DataAugmentation opts; t_UseBPE := t_UseBPE opts;
     t_UpdatePath := t_UpdatePath opts; t_BasePath := t_BasePath opts |}.

Context {F0 : Files}.

(** The patterns and the counts of the result: unique, merged, replaced. *)
Definition choose_patterns (opts : TrainOptions) (files : Corpus) : res (list bytes * (Z * Z * Z)) :=
  let chunkSize := t_ChunkSize opts in
  if t_UseBPE opts then
    let bpeCorpus := fold_left grow_corpus (interleave (map file_blocks files)) [] in
    let vocab := bpe_Train (NewBPEBuilder (t_MaxCodewords opts) chunkSize) bpeCorpus in
    Ok (bpe_selected chunkSize vocab, (zlen (map_to_list vocab), 0, 0))
  else
    let ft := count_patterns (t_DataAugmentation opts) (interleave (corpus_records chunkSize 0 files)) in
    let uniquePatterns := zlen (map_to_list ft) in
    ft ← (if t_DataAugmentation opts then AugmentPatterns ft (t_MaxCodewords opts / 2) else Ok ft);
    if negb (zlen (t_UpdatePath opts) =? 0) then
      existingPatterns ← wrap_err "trainer: load update codebook" (ReadPatterns (t_UpdatePath opts));
      let mergedPatterns := zlen (filter (fun p => zlen p = chunkSize) existingPatterns) in
      selected ← elite chunkSize (t_MaxCodewords opts) (t_MaxPerBucket opts) (seed_existing chunkSize existingPatterns ft) files;
      Ok (selected, (uniquePatterns, mergedPatterns, mergedPatterns - countOverlap existingPatterns selected))
    else if negb (zlen (t_BasePath opts) =? 0) then
      basePatterns ← wrap_err "trainer: load base codebook" (ReadPatterns (t_BasePath opts));
      newElite ← elite chunkSize (t_MaxCodewords opts) (t_MaxPerBucket opts) ft files;
      let selected := mergeBaseWithNew basePatterns newElite (t_MaxCodewords opts) in
      Ok (selected, (uniquePatterns, zlen basePatterns, zlen selected - countOverlap basePatterns selected))
    else
      selected ← elite chunkSize (t_MaxCodewords opts) (t_MaxPerBucket opts) ft files;
      Ok (selected, (uniquePatterns, 0, 0)).

(** The file at [OutputPath] and the result. *)
Definition Train (files : Corpus) (opts : TrainOptions) : res (bytes * TrainResult) :=
  if (zlen (t_InputDir opts) =? 0) || (zlen (t_OutputPath opts) =? 0) then Err "trainer: InputDir and OutputPath are required" else
  let opts := train_defaults opts in
  if zlen files =? 0 then Err "trainer: no files found" else
  '(selected, (unique, merged, replaced)) ← choose_patterns opts files;
  file ← WriteCodebook selected;
  Ok (file, {| r_TotalBytes := u64 (zlen (concat (concat (map file_blocks files)))); r_TotalFiles := zlen files; r_UniquePatterns := unique;
               r_SelectedElite := zlen selected; r_MergedPatterns := merged; r_ReplacedSlots := replaced |}).
End trainer.

Arguments interleave {_ _} _.

(** Orders to evaluate with. *)
#[export] Instance sequential : Interleave := fun A ls => concat ls.
#[export] Instance sequential_laws : InterleaveLaws sequential.
Proof. intros A ls. reflexivity. Qed.

#[export] Instance stable_count_order : CountOrder := fun ft => sort_stable (fun e => - pe_Count e) (map snd (map_to_list ft)).

#[export] Instance key_pair_order : PairOrder := map_to_list.
#[export] Instance key_pair_order_laws : PairOrderLaws key_pair_order.
Proof. intros m. reflexivity. Qed.
