(* ===== verification/Training.v ===== *)
(** The steps of a training: a file that opens as a brain, a frequency table that does not depend on the
    order of the records, and a greedy selection. *)

From stdpp Require Import sorting.
From S2P Require Import Prelude Binary Sha256 Externals Crypto Chunker Codebook Entropy Search Pack Trainer.
Import codebook.
#[local] Set Warnings "-clear-no-such-hyp".

(** ** Stable sorting *)

Section sorting.
Context {A : Type} (key : A -> Z).

Lemma insert_by_perm x l : insert_by key x l ≡ₚ x :: l.
Proof.
  induction l as [|y l IH]; [done|]. cbn [insert_by]. destruct (_ <=? _); [done|]. rewrite IH. apply Permutation_swap.
Qed.

Lemma sort_stable_perm l : sort_stable key l ≡ₚ l.
Proof. induction l as [|x l IH]; [done|]. cbn [sort_stable foldr]. rewrite insert_by_perm. by constructor. Qed.

Lemma insert_by_sorted x l :
  StronglySorted (fun a b => key a <= key b) l -> StronglySorted (fun a b => key a <= key b) (insert_by key x l).
Proof.
  induction 1 as [|y l Hs IH Hy]; [repeat constructor|]. cbn [insert_by]. destruct (Z.leb_spec (key x) (key y)).
  - constructor; [by constructor|]. constructor; [done|]. eapply Forall_impl; [exact Hy|]. cbn. lia.
  - constructor; [done|]. rewrite insert_by_perm. constructor; [lia|done].
Qed.

Lemma sort_stable_sorted l : StronglySorted (fun a b => key a <= key b) (sort_stable key l).
Proof. induction l as [|x l IH]; [constructor|]. by apply insert_by_sorted. Qed.
End sorting.

#[export] Instance stable_count_order_laws : CountOrderLaws stable_count_order.
Proof.
  split; intros ft; unfold by_count, stable_count_order; [apply sort_stable_perm|].
  pose proof (sort_stable_sorted (fun e => - pe_Count e) (map snd (map_to_list ft))) as Hs.
  induction Hs as [|x l _ IH Hx]; constructor; [done|]. eapply Forall_impl; [exact Hx|]. cbn. lia.
Qed.

(** ** The file *)

Definition written_header (cwSize n : Z) (patterns : list bytes) : Header :=
  {| Magic := MagicString; Version := Version1; CodewordSize := cwSize; CodewordCount := n; DataOffset := HeaderSize;
     BuildHash := Sum256 (concat patterns) |}.

Lemma zlen_concat_same cw (ps : list bytes) : Forall (fun p => zlen p = cw) ps -> zlen (concat ps) = cw * zlen ps.
Proof. induction 1 as [|p ps Hp _ IH]; [by rewrite Z.mul_0_r|]. cbn [concat]. rewrite zlen_app, zlen_cons, IH, Hp. lia. Qed.

Lemma concat_cell cw (ps : list bytes) i p :
  Forall (fun p => zlen p = cw) ps -> ps !! i = Some p ->
  exists pre post, concat ps = pre ++ p ++ post /\ zlen pre = cw * Z.of_nat i.
Proof.
  intros Hl Hi. exists (concat (take i ps)), (concat (drop (S i) ps)). rewrite <-(take_drop_middle ps i p Hi) at 1.
  rewrite concat_app. split; [done|]. rewrite (zlen_concat_same cw) by by apply Forall_take.
  pose proof (lookup_lt_Some _ _ _ Hi). unfold zlen. rewrite length_take. lia.
Qed.

(** A header and the codewords it announces are a brain, and codeword [i] is where it should be. *)
Lemma Open_image h codewords :
  wf_header h -> bytes_ok (BuildHash h) -> DataOffset h = HeaderSize -> CodewordSize h * CodewordCount h = zlen codewords ->
  bytes_ok codewords -> zlen codewords < 2 ^ 59 ->
  let r := {| data := Serialize h ++ codewords; header := h |} in
  OpenFromBytes (Serialize h ++ codewords) = Ok r /\ good_brain r /\
  forall i, 0 <= i < count r -> Lookup r i = Ok (sub (i * size r) (i * size r + size r) codewords).
Proof.
  intros Hwf Hbh Ho Hcw Hok Hlen r. pose proof (zlen_nonneg codewords).
  pose proof Hwf as [Hm Hv [Hs0 Hs1] [Hc _] _ Hb]. assert (Hh : zlen (Serialize h) = HeaderSize).
  { rewrite Serialize_brain_image by (rewrite ?Hm; done). rewrite Hm, !zlen_app, Hb, !zlen_le_put, zlen_make by lia. done. }
  assert (Hdata : zlen (Serialize h ++ codewords) = HeaderSize + zlen codewords) by by rewrite zlen_app, Hh.
  assert (Hexp : expectedSize h = HeaderSize + zlen codewords).
  { unfold expectedSize. rewrite Hcw, Ho. unfold HeaderSize. rewrite u64_add_r, u64_small; [done|]. unfold is_u64. lia. }
  assert (Hwr : wf_reader r).
  { constructor; unfold size, count; cbn [r header data]; rewrite ?Hdata, ?Hcw, ?Ho; unfold HeaderSize; lia. }
  split; [|split].
  - unfold OpenFromBytes. rewrite Hdata, ParseHeader_brain by done. unfold HeaderSize in *. rewrite (proj2 (Z.ltb_ge _ _)) by lia.
    cbn [wrap_err mbind res_bind]. by rewrite Hexp, (proj2 (Z.ltb_ge _ _)) by lia.
  - constructor; [done| |unfold size; cbn; lia]. cbn [r data]. apply Forall_app. split; [|done].
    rewrite Serialize_brain_image by (rewrite ?Hm; done). rewrite Hm.
    repeat (apply Forall_app; split); first [by apply bytes_ok_le_put|done|by apply bytes_ok_dec].
  - intros i Hi. rewrite Lookup_ok by done. f_equal. unfold codeword, size, count in *. cbn [r data header] in *. rewrite Ho.
    unfold sub. rewrite zdrop_app_ge, Hh by (rewrite Hh; nia). f_equal; [lia|]. f_equal. lia.
Qed.

(** What the trainer writes, the brain reader opens. For any patterns of one size, up to 65535 bytes,
    [WriteCodebook] makes a file that [Open] accepts as a brain of that many codewords of that size;
    codeword [i] is the [i]th pattern of a stable sort by bucket of the patterns, nothing is lost or
    duplicated, and the build hash that names the brain is the digest of the codewords. *)
Theorem Open_WriteCodebook patterns cw :
  patterns <> [] -> Forall (fun p => zlen p = cw /\ bytes_ok p) patterns -> 0 < cw < 2 ^ 16 -> cw * zlen patterns < 2 ^ 59 ->
  let sorted := sort_stable computeLSHBucket patterns in
  exists file r, WriteCodebook patterns = Ok file /\ OpenFromBytes file = Ok r /\ good_brain r /\
    count r = zlen patterns /\ size r = cw /\ BuildHash (header r) = Sum256 (concat sorted) /\
    sorted ≡ₚ patterns /\ (forall i p, sorted !! i = Some p -> Lookup r (Z.of_nat i) = Ok p).
Proof.
  intros Hne Hall Hcw Hlen sorted. pose proof (sort_stable_perm computeLSHBucket patterns) as Hperm. fold sorted in Hperm.
  assert (Hs : Forall (fun p => zlen p = cw /\ bytes_ok p) sorted) by by rewrite Hperm.
  assert (Hsz : Forall (fun p => zlen p = cw) sorted) by (eapply Forall_impl; [exact Hs|]; by intros p []).
  assert (Hn : zlen sorted = zlen patterns) by (unfold zlen; by rewrite Hperm).
  assert (Hpos : 0 < zlen patterns).
  { destruct patterns as [|p ps]; [done|]. rewrite zlen_cons. pose proof (zlen_nonneg ps). lia. }
  set (h := written_header cw (zlen patterns) sorted).
  assert (Hfile : WriteCodebook patterns = Ok (Serialize h ++ concat sorted)).
  { destruct patterns as [|p ps]; [done|]. cbn [WriteCodebook]. apply Forall_cons in Hall as [[Hp _] _]. fold sorted.
    rewrite Hp, u16_small by (unfold is_u16; lia). rewrite Hn. done. }
  pose proof (zlen_concat_same cw sorted Hsz) as Hcat. rewrite Hn in Hcat.
  destruct (Open_image h (concat sorted)) as (Ho & Hg & Hlook); [|apply bytes_ok_Sum256|done|by rewrite Hcat| |by rewrite Hcat|].
  { constructor; cbn; try done; unfold is_u64; nia. }
  { apply Forall_concat. eapply Forall_impl; [exact Hs|]. by intros p []. }
  exists (Serialize h ++ concat sorted), {| data := Serialize h ++ concat sorted; header := h |}. split_and!; try done.
  intros i p Hi. destruct (concat_cell cw sorted i p Hsz Hi) as (pre & post & Ec & Hpre).
  pose proof (lookup_lt_Some _ _ _ Hi) as Hlt. pose proof (Forall_lookup_1 _ _ _ _ Hsz Hi) as Hp.
  rewrite Hlook by (unfold count; cbn; unfold zlen in *; lia). f_equal. unfold size. cbn [header h written_header CodewordSize].
  rewrite Ec. apply sub_app_mid; rewrite ?Hpre, ?Hp; lia.
Qed.

(** ** Counting *)

Section counting.
Context {hash64 : XXHash}.

(** The records of one hash. *)
Definition same_hash (h : Z) (records : list (bytes * Z)) : list (bytes * Z) := filter (fun r => xxhash_Sum64 r.1 = h) records.

(** The entry the records of a hash add up to. *)
Definition entry_of (h : Z) (l : list (bytes * Z)) : option PatternEntry :=
  match l with
  | [] => None
  | (d, p) :: rest =>
      Some {| pe_Hash := h; pe_Count := u32 (zlen l); pe_Data := None; pe_First := foldr Z.min p (map snd rest); pe_Bucket := computeLSHBucket d |}
  end.

Lemma foldr_min_snoc p l q : foldr Z.min p (l ++ [q]) = Z.min (foldr Z.min p l) q.
Proof. induction l as [|x l IH]; cbn [foldr app]; [lia|]. rewrite IH. lia. Qed.

Lemma count_patterns_lookup records h : count_patterns false records !! h = entry_of h (same_hash h records).
Proof.
  induction records as [|[d p] records IH] using rev_ind; [by unfold count_patterns; cbn [fold_left]; rewrite lookup_empty|].
  unfold count_patterns in *. rewrite fold_left_app. cbn [fold_left fst snd]. unfold RecordAt.
  set (ft := fold_left _ _ _) in *. unfold same_hash. rewrite filter_app. fold (same_hash h records).
  rewrite filter_cons, filter_nil. cbn [fst]. destruct (decide (xxhash_Sum64 d = h)) as [Ed|Ed].
  - rewrite Ed, IH. destruct (same_hash h records) as [|[d0 p0] rest]; cbn [entry_of app]; rewrite lookup_insert_eq; [done|].
    rewrite map_app. cbn [map snd]. rewrite foldr_min_snoc. cbn [pe_Hash pe_Count pe_Data pe_First pe_Bucket]. do 2 f_equal.
    + unfold u32. rewrite Zplus_mod_idemp_l. f_equal. rewrite app_comm_cons, zlen_app. done.
    + destruct (Z.ltb_spec p (foldr Z.min p0 (map snd rest))); lia.
  - rewrite app_nil_r, <-IH. destruct (ft !! xxhash_Sum64 d); by rewrite lookup_insert_ne.
Qed.

(** No two patterns share a hash. *)
Definition no_collisions (records : list (bytes * Z)) : Prop :=
  forall a b, a ∈ records -> b ∈ records -> xxhash_Sum64 a.1 = xxhash_Sum64 b.1 -> a.1 = b.1.

Lemma foldr_min_le p l x : x = p \/ x ∈ l -> foldr Z.min p l <= x.
Proof. revert x; induction l as [|y l IH]; intros x; cbn [foldr]; [intros [->|?%elem_of_nil]; [lia|done]|].
  intros [->|[->|Hx]%elem_of_cons]; [specialize (IH p ltac:(by left))|lia|specialize (IH x ltac:(by right))]; lia.
Qed.

Lemma foldr_min_in p l : foldr Z.min p l = p \/ foldr Z.min p l ∈ l.
Proof.
  induction l as [|y l IH]; cbn [foldr]; [by left|]. destruct (Z.min_spec y (foldr Z.min p l)) as [[_ ->]|[_ ->]]; [right; left|].
  destruct IH as [->|IH]; [by left|right; by right].
Qed.

Lemma entry_of_perm h l l' :
  l ≡ₚ l' -> (forall a b, a ∈ l -> b ∈ l -> a.1 = b.1) -> entry_of h l = entry_of h l'.
Proof.
  intros Hp Hsame. destruct l as [|[d p] rest].
  { by apply Permutation_nil_l in Hp as ->. }
  destruct l' as [|[d' p'] rest']; [by apply Permutation_nil_r in Hp|]. cbn [entry_of].
  assert (Hin : (d', p') ∈ (d, p) :: rest) by (rewrite Hp; left).
  pose proof (Hsame (d, p) (d', p') ltac:(left) Hin) as E. cbn in E. subst d'.
  assert (Hlen : zlen ((d, p) :: rest) = zlen ((d, p') :: rest')) by (unfold zlen; by rewrite Hp). rewrite Hlen.
  assert (Hq : p :: map snd rest ≡ₚ p' :: map snd rest') by (change (map snd ((d, p) :: rest) ≡ₚ map snd ((d, p') :: rest')); by rewrite Hp).
  do 2 f_equal. apply Z.le_antisymm; apply foldr_min_le.
  - assert (H : foldr Z.min p' (map snd rest') ∈ p :: map snd rest).
    { rewrite Hq. destruct (foldr_min_in p' (map snd rest')) as [->|]; [left|by right]. }
    by apply elem_of_cons in H.
  - assert (H : foldr Z.min p (map snd rest) ∈ p' :: map snd rest').
    { rewrite <-Hq. destruct (foldr_min_in p (map snd rest)) as [->|]; [left|by right]. }
    by apply elem_of_cons in H.
Qed.

Lemma count_patterns_perm records records' :
  records ≡ₚ records' -> no_collisions records -> count_patterns false records = count_patterns false records'.
Proof.
  intros Hp Hnc. apply map_eq. intros h. rewrite !count_patterns_lookup. apply entry_of_perm.
  - unfold same_hash. by rewrite Hp.
  - unfold same_hash. intros a b [Ha1 Ha2]%list_elem_of_filter [Hb1 Hb2]%list_elem_of_filter. apply Hnc; [done|done|congruence].
Qed.
End counting.

(** ** Selection *)

Definition in_bucket (b : Z) (l : list PatternEntry) : list PatternEntry := filter (fun e => entry_bucket e = b) l.

(** Why [e] was left out of [picked]: there was no room, or none in its bucket; either way what took its
    place is at least as frequent. *)
Definition outranked (maxCodewords limit : Z) (picked : list PatternEntry) (e : PatternEntry) : Prop :=
  (zlen picked = maxCodewords /\ Forall (fun p => pe_Count e <= pe_Count p) picked) \/
  (zlen (in_bucket (entry_bucket e) picked) = limit /\
   Forall (fun p => pe_Count e <= pe_Count p) (in_bucket (entry_bucket e) picked)).

Lemma in_bucket_snoc b l e :
  in_bucket b (l ++ [e]) = in_bucket b l ++ (if decide (entry_bucket e = b) then [e] else []).
Proof. unfold in_bucket. rewrite filter_app, filter_cons, filter_nil. done. Qed.

(** The state of the loop: the counters count, and what was picked outranks what is left. *)
Record picking (maxCodewords limit : Z) (all : list PatternEntry) (bucketCount : gmap Z Z) (picked : list PatternEntry) : Prop := {
  pk_counts b : default 0 (bucketCount !! b) = zlen (in_bucket b picked);
  pk_limit b : zlen (in_bucket b picked) <= limit;
  pk_size : zlen picked <= maxCodewords;
  pk_sorted : StronglySorted (fun a b => pe_Count b <= pe_Count a) all;
  pk_first e : e ∈ all -> Forall (fun p => pe_Count e <= pe_Count p) picked;
}.

Lemma pick_ok maxCodewords limit all bucketCount picked :
  0 < limit -> picking maxCodewords limit all bucketCount picked ->
  let result := pick maxCodewords limit all bucketCount picked in
  exists rest, result ++ rest ≡ₚ picked ++ all /\ zlen result <= maxCodewords /\
    (forall b, zlen (in_bucket b result) <= limit) /\
    (forall e, e ∈ rest -> outranked maxCodewords limit result e) /\ exists more, result = picked ++ more /\ Forall (fun p => p ∈ all) more.
Proof.
  intros Hlim. revert bucketCount picked; induction all as [|e all IH]; intros bucketCount picked [Hc Hl Hs Hsorted Hfirst]; cbn [pick].
  { exists []. rewrite !app_nil_r. do 3 (split; [done|]). split; [by intros e ?%elem_of_nil|]. exists []. by rewrite app_nil_r. }
  apply StronglySorted_inv in Hsorted as [Hsorted He]. rewrite !Z.geb_leb.
  assert (Hge : forall x, x ∈ e :: all -> Forall (fun p => pe_Count x <= pe_Count p) picked) by done.
  destruct (Z.leb_spec maxCodewords (zlen picked)) as [Hfull|Hroom].
  { exists (e :: all). split; [done|]. split; [lia|]. split; [done|]. split; [|exists []; by rewrite app_nil_r].
    intros x Hx. left. split; [lia|by apply Hge]. }
  rewrite Hc. destruct (Z.leb_spec limit (zlen (in_bucket (entry_bucket e) picked))) as [Hsat|Hfree].
  - destruct (IH bucketCount picked) as (rest & Hp & H1 & H2 & H3 & more & E & Hmore).
    { constructor; try done. intros x Hx. apply Hge. by right. }
    exists (e :: rest). split; [|split; [done|split; [done|split]]].
    + by rewrite <-!Permutation_middle, Hp.
    + intros x [->|Hx]%elem_of_cons; [|by apply H3]. right. pose proof (H2 (entry_bucket e)) as Hup. rewrite E in Hup |- *.
      unfold in_bucket in *. rewrite filter_app, zlen_app in *. pose proof (zlen_nonneg (filter (fun x => entry_bucket x = entry_bucket e) more)) as Hnn.
      assert (Hnil : filter (fun x => entry_bucket x = entry_bucket e) more = []) by (apply zlen_0_nil; lia).
      rewrite Hnil, app_nil_r. change (zlen (@nil PatternEntry)) with 0. split; [lia|].
      apply Forall_forall. intros p [_ Hp']%list_elem_of_filter. revert p Hp'. apply Forall_forall, Hge. left.
    + exists more. split; [done|]. eapply Forall_impl; [exact Hmore|]. intros x Hx. by right.
  - destruct (IH (<[entry_bucket e := zlen (in_bucket (entry_bucket e) picked) + 1]> bucketCount) (picked ++ [e])) as (rest & Hp & H1 & H2 & H3 & more & E & Hmore).
    { constructor; try done.
      - intros b. rewrite in_bucket_snoc, zlen_app. destruct (decide (entry_bucket e = b)) as [<-|Hb].
        + by rewrite lookup_insert_eq.
        + rewrite lookup_insert_ne, Hc by done. change (zlen (@nil PatternEntry)) with 0. lia.
      - intros b. rewrite in_bucket_snoc, zlen_app. specialize (Hl b). destruct (decide (entry_bucket e = b)) as [<-|Hb];
          [change (zlen [e]) with 1|change (zlen (@nil PatternEntry)) with 0]; lia.
      - rewrite zlen_app. change (zlen [e]) with 1. lia.
      - intros x Hx. apply Forall_app. split; [apply Hge; by right|]. constructor; [|constructor]. by apply (proj1 (Forall_forall _ _) He). }
    exists rest. split; [by rewrite Hp, <-app_assoc|]. split; [done|]. split; [done|]. split; [done|].
    exists (e :: more). rewrite E, <-app_assoc. split; [done|]. constructor; [left|]. eapply Forall_impl; [exact Hmore|]. intros x Hx. by right.
Qed.

Section selection.
Context {hash64 : XXHash} {CO : CountOrder} {COL : CountOrderLaws CO}.

Lemma selectPicked_ok table maxCodewords maxPerBucket :
  0 < maxCodewords ->
  let limit := if maxPerBucket <=? 0 then maxCodewords else maxPerBucket in
  let picked := selectPicked table maxCodewords maxPerBucket in
  exists rest, picked ++ rest ≡ₚ map snd (map_to_list table) /\ zlen picked <= maxCodewords /\
    (forall b, zlen (in_bucket b picked) <= limit) /\ StronglySorted (fun a b => pe_First a <= pe_First b) picked /\
    (forall e, e ∈ rest -> outranked maxCodewords limit picked e).
Proof.
  intros Hmax limit picked. unfold picked, selectPicked. fold limit.
  assert (Hlim : 0 < limit) by (unfold limit; destruct (Z.leb_spec maxPerBucket 0); lia).
  destruct (pick_ok maxCodewords limit (by_count table) ∅ [] Hlim) as (rest & Hp & H1 & H2 & H3 & _).
  { constructor; try done; [intros b; change (zlen (in_bucket b [])) with 0; lia|change (zlen (@nil PatternEntry)) with 0; lia|apply by_count_sorted]. }
  set (result := pick _ _ _ _ _) in *. pose proof (sort_stable_perm pe_First result) as Hs.
  assert (Hb : forall b, in_bucket b (sort_stable pe_First result) ≡ₚ in_bucket b result) by (intros b; unfold in_bucket; by rewrite Hs).
  exists rest. split; [rewrite Hs, Hp; apply by_count_perm|]. split; [unfold zlen; by rewrite Hs|].
  split; [intros b; unfold zlen; rewrite (Hb b); apply H2|]. split; [apply sort_stable_sorted|].
  intros e He. destruct (H3 e He) as [[? ?]|[? ?]]; [left|right]; unfold zlen; rewrite ?(Hb (entry_bucket e)), ?Hs; done.
Qed.
End selection.

