(* ===== verification/TrainRun.v ===== *)
(** Training as a whole: what the selection picks, that the schedule of the workers does not show, and that
    the brain of a standard training holds chunks of its corpus. *)

From stdpp Require Import sorting.
From S2P Require Import Prelude Binary Sha256 Externals Crypto Chunker Codebook Entropy Search Pack BlockCodec.
From S2P Require Import Trainer Training.
Import codebook.
#[local] Set Warnings "-clear-no-such-hyp".

Lemma elem_of_concat {A} (x : A) ls : x ∈ concat ls <-> exists l, x ∈ l /\ l ∈ ls.
Proof.
  rewrite list_elem_of_In, in_concat. split; intros (l & H1 & H2); exists l; rewrite !list_elem_of_In in *; done.
Qed.

Definition corpus_blocks (files : Corpus) : list bytes := concat (map file_blocks files).

Section corpus.
Context {hash64 : XXHash}.

(** All chunks of a corpus, and the whole ones, which are counted. *)
Definition corpus_chunks (chunkSize : Z) (files : Corpus) : list Chunk :=
  concat (map (FixedChunker_Split (NewFixedChunker chunkSize)) (corpus_blocks files)).

Definition full_chunks (chunkSize : Z) (files : Corpus) : list bytes :=
  filter (fun d => zlen d = chunkSize) (map c_Data (corpus_chunks chunkSize files)).

(** The hash tells the chunks of the corpus apart. *)
Definition distinct_hashes (chunkSize : Z) (files : Corpus) : Prop :=
  forall a b, a ∈ map c_Data (corpus_chunks chunkSize files) -> b ∈ map c_Data (corpus_chunks chunkSize files) ->
    xxhash_Sum64 a = xxhash_Sum64 b -> a = b.

Lemma corpus_chunks_hash cs files c : c ∈ corpus_chunks cs files -> c_Hash c = xxhash_Sum64 (c_Data c).
Proof.
  unfold corpus_chunks. intros (l & Hc & (block & -> & _)%list_elem_of_fmap)%elem_of_concat. revert Hc.
  unfold FixedChunker_Split. generalize (length block) as fuel, 0. intros fuel; induction fuel as [|fuel IH]; intros offset; cbn [fixed_loop].
  - by intros ?%elem_of_nil.
  - destruct (_ <? _); [|by intros ?%elem_of_nil]. intros [->|Hc]%elem_of_cons; [done|by apply (IH (offset + NewFixedChunker cs))].
Qed.

Lemma block_records_data cs pos blocks :
  map fst (block_records cs pos blocks) =
  filter (fun d => zlen d = cs) (map c_Data (concat (map (FixedChunker_Split (NewFixedChunker cs)) blocks))).
Proof.
  revert pos; induction blocks as [|b blocks IH]; intros pos; [done|]. cbn [block_records map concat].
  rewrite map_app, IH, map_app, filter_app. f_equal. generalize (FixedChunker_Split (NewFixedChunker cs) b) as l.
  induction l as [|c l IHl]; [done|]. cbn [map]. rewrite !filter_cons. destruct (decide _); cbn [map fst]; by rewrite IHl.
Qed.

Lemma corpus_records_data cs i files : map fst (concat (corpus_records cs i files)) = full_chunks cs files.
Proof.
  unfold full_chunks, corpus_chunks, corpus_blocks. revert i; induction files as [|f files IH]; intros i; [done|].
  cbn [corpus_records concat map]. rewrite map_app, IH, block_records_data, map_app, concat_app, map_app, filter_app. done.
Qed.

Lemma full_chunks_no_collisions cs files i :
  distinct_hashes cs files -> no_collisions (concat (corpus_records cs i files)).
Proof.
  intros Hd a b Ha Hb. assert (Hin : forall r, r ∈ concat (corpus_records cs i files) -> r.1 ∈ map c_Data (corpus_chunks cs files)).
  { intros r Hr. apply (list_elem_of_fmap_2 fst) in Hr. change (fst <$> ?l) with (map fst l) in Hr. rewrite corpus_records_data in Hr.
    by apply list_elem_of_filter in Hr as [_ Hr]. }
  apply Hd; by apply Hin.
Qed.

Lemma no_collisions_perm l l' : l ≡ₚ l' -> no_collisions l -> no_collisions l'.
Proof. intros Hp H a b. rewrite <-Hp. apply H. Qed.
End corpus.

(** ** Reading the patterns back *)

Section reading.
Context {hash64 : XXHash}.

Lemma find_in_block_fold cs st block :
  find_in_block cs st block = fold_left find_chunk (FixedChunker_Split (NewFixedChunker cs) block) st.
Proof.
  unfold find_in_block. destruct (decide (st.1 = ∅)) as [He|He]; [|by rewrite bool_decide_false].
  rewrite bool_decide_true by done. generalize (FixedChunker_Split (NewFixedChunker cs) block) as l. destruct st as [m f]. cbn in He. subst m.
  induction l as [|c l IH]; [done|]. cbn [fold_left find_chunk]. rewrite bool_decide_false by set_solver. exact IH.
Qed.

Lemma find_blocks_fold cs files st :
  fold_left (find_in_block cs) (concat (map file_blocks files)) st = fold_left find_chunk (corpus_chunks cs files) st.
Proof.
  unfold corpus_chunks, corpus_blocks. revert st; induction (concat (map file_blocks files)) as [|b l IH]; intros st; [done|].
  cbn [fold_left map concat]. rewrite fold_left_app, find_in_block_fold. apply IH.
Qed.

(** The scan finds, for every missing hash, the bytes of some chunk with that hash, if there is one. *)
Lemma find_chunks_ok chunks missing found missing' found' :
  fold_left find_chunk chunks (missing, found) = (missing', found') ->
  (forall h, h ∈ missing' <-> h ∈ missing /\ forall c, c ∈ chunks -> c_Hash c <> h) /\
  (forall h, h ∉ missing -> found' !! h = found !! h) /\
  (forall h, h ∈ missing -> h ∉ missing' -> exists c, c ∈ chunks /\ c_Hash c = h /\ found' !! h = Some (c_Data c)).
Proof.
  revert missing found; induction chunks as [|c chunks IH]; intros missing found; cbn [fold_left find_chunk].
  { intros [= <- <-]. split; [|split; [done|done]]. intros h. split; [|by intros []]. intros Hh. split; [done|]. by intros c ?%elem_of_nil. }
  destruct (decide (c_Hash c ∈ missing)) as [Hc|Hc].
  - rewrite bool_decide_true by done. intros (H1 & H2 & H3)%IH. split; [|split].
    + intros h. rewrite H1. split.
      * intros [[Hh Hn]%elem_of_difference Hall]. split; [done|]. intros c' [->|Hc']%elem_of_cons; [set_solver|by apply Hall].
      * intros [Hh Hall]. split; [|intros c' Hc'; apply Hall; by right]. apply elem_of_difference. split; [done|].
        intros E%elem_of_singleton. apply (Hall c); [left|done].
    + intros h Hh. rewrite H2 by set_solver. rewrite lookup_insert_ne; [done|]. by intros <-.
    + intros h Hh Hh'. destruct (decide (h = c_Hash c)) as [->|Hne].
      * exists c. split; [left|split; [done|]]. rewrite H2 by set_solver. by rewrite lookup_insert_eq.
      * destruct (H3 h) as (c' & Hc' & E); [set_solver|done|]. exists c'. split; [by right|done].
  - rewrite bool_decide_false by done. intros (H1 & H2 & H3)%IH. split; [|split; [done|]].
    + intros h. rewrite H1. split; intros [Hh Hall]; (split; [done|]).
      * intros c' [->|Hc']%elem_of_cons; [by intros E; subst|by apply Hall].
      * intros c' Hc'. apply Hall. by right.
    + intros h Hh Hh'. destruct (H3 h Hh Hh') as (c' & Hc' & E). exists c'. split; [by right|done].
Qed.

Lemma readPickedData_ok cs picked files :
  (forall e, e ∈ picked -> pe_Data e = None /\ exists c, c ∈ corpus_chunks cs files /\ c_Hash c = pe_Hash e) ->
  exists found, readPickedData cs picked files = Ok (map (set_data found) picked) /\
    forall e, e ∈ picked -> exists c, c ∈ corpus_chunks cs files /\ c_Hash c = pe_Hash e /\ found !! pe_Hash e = Some (c_Data c).
Proof.
  intros Hp. unfold readPickedData. rewrite find_blocks_fold. destruct (fold_left _ _ _) as [missing found] eqn:Ef.
  apply find_chunks_ok in Ef as (H1 & _ & H3).
  assert (Hin : forall e, e ∈ picked -> pe_Hash e ∈ (list_to_set (map pe_Hash (filter (fun e => pe_Data e = None) picked)) : gset Z)).
  { intros e He. apply elem_of_list_to_set, list_elem_of_fmap. exists e. split; [done|]. apply list_elem_of_filter. split; [by apply Hp|done]. }
  assert (Hempty : missing = ∅).
  { apply set_eq. intros h. split; [|set_solver]. intros [Hh Hall]%H1. exfalso.
    apply elem_of_list_to_set, list_elem_of_fmap in Hh as (e & -> & [_ He]%list_elem_of_filter).
    destruct (Hp e He) as (_ & c & Hc & E). by apply (Hall c). }
  exists found. rewrite bool_decide_true by done. split; [done|]. intros e He. apply H3; [by apply Hin|]. rewrite Hempty. set_solver.
Qed.

(** The entries of a table of positions. *)
Lemma count_patterns_entry records e :
  e ∈ map snd (map_to_list (count_patterns false records)) ->
  pe_Data e = None /\ exists r, r ∈ records /\ xxhash_Sum64 r.1 = pe_Hash e.
Proof.
  intros ([h e'] & -> & He)%list_elem_of_fmap. apply elem_of_map_to_list in He. rewrite count_patterns_lookup in He.
  destruct (same_hash h records) as [|[d p] rest] eqn:Es; [done|]. injection He as <-. split; [done|]. exists (d, p).
  assert (Hr : (d, p) ∈ same_hash h records) by (rewrite Es; left). by apply list_elem_of_filter in Hr as [? ?].
Qed.

Lemma count_patterns_keys records :
  map pe_Hash (map snd (map_to_list (count_patterns false records))) = map fst (map_to_list (count_patterns false records)).
Proof.
  rewrite map_map. apply map_ext_in. intros [h e] He%list_elem_of_In. apply elem_of_map_to_list in He. rewrite count_patterns_lookup in He.
  destruct (same_hash h records) as [|[d p] rest]; [done|]. by injection He as <-.
Qed.
End reading.

(** ** The schedule of the workers *)

Section schedule.
Context {hash64 : XXHash} {CO : CountOrder} {PO : PairOrder} {F0 : Files}.

End schedule.

(** ** Standard training *)

(** Training without a vocabulary, variants of the patterns or another brain. *)
Record standard (opts : TrainOptions) : Prop := {
  st_paths : t_InputDir opts <> [] /\ t_OutputPath opts <> [];
  st_bpe : t_UseBPE opts = false;
  st_augmentation : t_DataAugmentation opts = false;
  st_update : t_UpdatePath opts = [];
  st_base : t_BasePath opts = [];
}.

Section standard.
Context {hash64 : XXHash} {CO : CountOrder} {COL : CountOrderLaws CO} {IL : Interleave} {ILL : InterleaveLaws IL}.

Lemma corpus_chunks_bytes cs files c :
  Forall (fun f => match f with Some d => bytes_ok d | None => True end) files -> c ∈ corpus_chunks cs files -> bytes_ok (c_Data c).
Proof.
  intros Hf (l & Hc & (block & -> & (bs & Hb & (f & -> & Hin)%list_elem_of_fmap)%elem_of_concat)%list_elem_of_fmap)%elem_of_concat.
  pose proof (proj1 (Forall_forall _ _) Hf f Hin) as Hok. destruct f as [d|]; [|by apply elem_of_nil in Hb].
  pose proof (proj1 (Forall_forall _ _) (read_blocks_ok (length d) d Hok) block Hb) as [Hblock _].
  pose proof (tiles_concat block 0 _ (Z.le_refl 0) (FixedChunker_tiles cs block)) as E. rewrite zdrop_0 in E. rewrite <-E in Hblock.
  apply (proj1 (Forall_concat _ _)) in Hblock. apply (proj1 (Forall_forall _ _) Hblock). apply list_elem_of_fmap. by exists c.
Qed.

Lemma elite_ok cs maxCodewords maxPerBucket files :
  0 < maxCodewords -> distinct_hashes cs files ->
  let ft := count_patterns false (interleave (corpus_records cs 0 files)) in
  exists words, elite cs maxCodewords maxPerBucket ft files = Ok words /\ zlen words = zlen (selectPicked ft maxCodewords maxPerBucket) /\
    NoDup words /\ Forall (fun w => w ∈ full_chunks cs files) words.
Proof.
  intros Hmax Hd ft. destruct (selectPicked_ok ft maxCodewords maxPerBucket Hmax) as (rest & Hperm & _).
  set (picked := selectPicked ft maxCodewords maxPerBucket) in *.
  assert (Hentry : forall e, e ∈ picked -> pe_Data e = None /\ exists d, d ∈ full_chunks cs files /\ xxhash_Sum64 d = pe_Hash e).
  { intros e He. destruct (count_patterns_entry (interleave (corpus_records cs 0 files)) e) as (HN & r & Hr & Eh).
    { fold ft. rewrite <-Hperm. apply elem_of_app. by left. }
    split; [done|]. exists r.1. split; [|done]. rewrite <-(corpus_records_data cs 0 files). apply list_elem_of_fmap. exists r. split; [done|].
    by rewrite <-(interleave_perm _ (corpus_records cs 0 files)). }
  assert (Hfull : forall d, d ∈ full_chunks cs files -> exists c, c ∈ corpus_chunks cs files /\ d = c_Data c).
  { intros d [_ (c & -> & Hc)%list_elem_of_fmap]%list_elem_of_filter. by exists c. }
  destruct (readPickedData_ok cs picked files) as (found & Hread & Hfound).
  { intros e He. destruct (Hentry e He) as (HN & d & (c & Hc & ->)%Hfull & Eh). split; [done|]. exists c. split; [done|].
    by rewrite (corpus_chunks_hash cs files). }
  assert (Hdata : forall e, e ∈ picked -> exists d, found !! pe_Hash e = Some d /\ d ∈ full_chunks cs files /\ xxhash_Sum64 d = pe_Hash e).
  { intros e He. destruct (Hfound e He) as (c & Hc & Eh & Ef). destruct (Hentry e He) as (_ & d & Hdf & Edh). exists d.
    destruct (Hfull d Hdf) as (c' & Hc' & E'). assert (d = c_Data c) as ->; [|done].
    apply Hd; [rewrite E'; apply list_elem_of_fmap; by exists c'|apply list_elem_of_fmap; by exists c|]. rewrite Edh, <-Eh. by apply (corpus_chunks_hash cs files). }
  set (words := map (fun e => default [] (found !! pe_Hash e)) picked).
  assert (Hhash : map xxhash_Sum64 words = map pe_Hash picked).
  { unfold words. rewrite map_map. apply map_ext_in. intros e He%list_elem_of_In. by destruct (Hdata e He) as (d & -> & _ & <-). }
  exists words. split; [|split; [unfold words, zlen; by rewrite length_map|split]].
  - unfold elite. fold picked. rewrite Hread. cbn [mbind res_bind]. f_equal. rewrite map_map. apply map_ext_in. intros e He%list_elem_of_In.
    destruct (Hentry e He) as [HN _]. unfold set_data. by rewrite HN.
  - apply (NoDup_fmap_1 xxhash_Sum64). change (xxhash_Sum64 <$> words) with (map xxhash_Sum64 words). rewrite Hhash.
    assert (Hnd : NoDup (map pe_Hash (picked ++ rest))); [|rewrite map_app in Hnd; by apply NoDup_app in Hnd as [? _]].
    rewrite Hperm. unfold ft. rewrite count_patterns_keys. apply NoDup_fst_map_to_list.
  - apply Forall_forall. intros w (e & -> & He)%list_elem_of_fmap. by destruct (Hdata e He) as (d & -> & ? & _).
Qed.

Lemma selectPicked_size ft maxCodewords maxPerBucket :
  0 < maxCodewords -> 0 < zlen (map_to_list ft) ->
  0 < zlen (selectPicked ft maxCodewords maxPerBucket) <= maxCodewords /\
  (maxPerBucket <= 0 -> zlen (selectPicked ft maxCodewords maxPerBucket) = Z.min maxCodewords (zlen (map_to_list ft))).
Proof.
  intros Hmax Hft. destruct (selectPicked_ok ft maxCodewords maxPerBucket Hmax) as (rest & Hp & Hle & Hb & _ & Ho).
  set (picked := selectPicked _ _ _) in *.
  assert (Hlen : zlen picked + zlen rest = zlen (map_to_list ft)).
  { rewrite <-zlen_app. unfold zlen. by rewrite Hp, length_map. }
  pose proof (zlen_nonneg picked). destruct rest as [|e rest].
  { change (zlen (@nil PatternEntry)) with 0 in Hlen. split; [lia|]. intros _. lia. }
  rewrite zlen_cons in Hlen. pose proof (zlen_nonneg rest).
  assert (Hbucket : zlen (in_bucket (entry_bucket e) picked) <= zlen picked).
  { unfold in_bucket, zlen. pose proof (length_filter (fun x => entry_bucket x = entry_bucket e) picked). lia. }
  destruct (Ho e ltac:(left)) as [[Hf _]|[Hf _]]; [split; [lia|intros _; lia]|].
  destruct (Z.leb_spec maxPerBucket 0); [|split; [lia|intros ?; lia]]. split; [lia|intros _; lia].
Qed.

Lemma full_chunks_counted cs files :
  full_chunks cs files <> [] -> 0 < zlen (map_to_list (count_patterns false (interleave (corpus_records cs 0 files)))).
Proof.
  intros Hfull. set (records := interleave _). destruct (full_chunks cs files) as [|d l] eqn:Ef; [done|].
  assert (Hr : d ∈ map fst records).
  { unfold records. rewrite (interleave_perm _ (corpus_records cs 0 files)), corpus_records_data, Ef. left. }
  apply list_elem_of_fmap in Hr as (r & -> & Hr). pose proof (count_patterns_lookup records (xxhash_Sum64 r.1)) as E.
  destruct (map_to_list (count_patterns false records)) as [|x l'] eqn:Em; [|rewrite zlen_cons; pose proof (zlen_nonneg l'); lia].
  apply map_to_list_empty_iff in Em. rewrite Em, lookup_empty in E. unfold same_hash in E.
  destruct (filter _ _) as [|[d' p] rest] eqn:Er; [|done]. exfalso. eapply filter_nil_not_elem_of; [exact Er|done|exact Hr].
Qed.

Context {F0 : Files} {PO : PairOrder}.

Lemma Train_brain files opts :
  standard opts -> let cs := t_ChunkSize (train_defaults opts) in let maxCodewords := t_MaxCodewords (train_defaults opts) in
  Forall (fun f => match f with Some d => bytes_ok d | None => True end) files ->
  cs < 2 ^ 16 -> maxCodewords < 2 ^ 40 -> full_chunks cs files <> [] -> distinct_hashes cs files ->
  exists file res r, Train files opts = Ok (file, res) /\ OpenFromBytes file = Ok r /\ good_brain r /\ size r = cs /\
    count r = r_SelectedElite res /\ 0 < count r <= maxCodewords /\
    (AlignedMinCodewordSize <= cs -> count r = Z.min maxCodewords (r_UniquePatterns res)) /\
    (forall i, 0 <= i < count r -> exists d, Lookup r i = Ok d /\ d ∈ full_chunks cs files) /\
    (forall i j, 0 <= i < count r -> 0 <= j < count r -> Lookup r i = Lookup r j -> i = j).
Proof.
  intros [[Hin Hout] Hbpe Haug Hup Hbase] cs maxCodewords Hbytes Hcs Hmax Hfull Hd.
  assert (Hcs0 : 0 < cs) by (unfold cs; cbn; destruct (Z.leb_spec (t_ChunkSize opts) 0); unfold DefaultChunkSize; lia).
  assert (Hmax0 : 0 < maxCodewords) by (unfold maxCodewords; cbn; destruct (Z.leb_spec (t_MaxCodewords opts) 0); lia).
  set (bucket := t_MaxPerBucket (train_defaults opts)).
  set (ft := count_patterns false (interleave (corpus_records cs 0 files))).
  destruct (elite_ok cs maxCodewords bucket files Hmax0 Hd) as (words & Helite & Hlen & Hnd & Hwords). fold ft in Helite, Hlen.
  destruct (selectPicked_size ft maxCodewords bucket Hmax0) as [Hsize Hall].
  { by apply full_chunks_counted. }
  rewrite <-Hlen in Hsize, Hall.
  assert (Hok : Forall (fun w => zlen w = cs /\ bytes_ok w) words).
  { eapply Forall_impl; [exact Hwords|]. intros w [Hw (c & -> & Hc)%list_elem_of_fmap]%list_elem_of_filter. split; [done|].
    by apply (corpus_chunks_bytes cs files). }
  destruct (Open_WriteCodebook words cs) as (file & r & Hw & Ho & Hg & Hcount & Hsz & _ & Hperm & Hlook); [|done|lia|nia|].
  { intros ->. change (zlen (@nil bytes)) with 0 in Hsize. lia. }
  set (sorted := sort_stable computeLSHBucket words) in *.
  assert (Hcell : forall i, 0 <= i < count r -> exists d, sorted !! Z.to_nat i = Some d /\ Lookup r i = Ok d).
  { intros i Hi. destruct (lookup_lt_is_Some_2 sorted (Z.to_nat i)) as [d Hdi].
    { rewrite Hcount in Hi. unfold zlen in Hi. rewrite Hperm. lia. }
    exists d. split; [done|]. apply Hlook in Hdi. by rewrite Z2Nat.id in Hdi by lia. }
  do 3 eexists. split; [|split; [exact Ho|split; [exact Hg|split; [exact Hsz|]]]].
  - unfold Train. assert (Hnz : forall l : bytes, l <> [] -> (zlen l =? 0) = false).
    { intros l Hl. apply Z.eqb_neq. by intros ?%zlen_0_nil. }
    rewrite !Hnz by done. cbn [orb]. assert (Hfiles : (zlen files =? 0) = false).
    { apply Z.eqb_neq. intros ->%zlen_0_nil. by apply Hfull. }
    rewrite Hfiles. unfold choose_patterns. cbn [t_UseBPE t_DataAugmentation t_UpdatePath t_BasePath train_defaults].
    rewrite Hbpe, Haug, Hup, Hbase. change (zlen (@nil Z) =? 0) with true. cbn [negb]. fold cs maxCodewords bucket ft. cbn [mbind res_bind].
    unfold cs, maxCodewords, bucket, ft in *. cbn [train_defaults t_ChunkSize t_MaxCodewords t_MaxPerBucket] in *. rewrite Helite. cbn [mbind res_bind]. rewrite Hw. reflexivity.
  - cbn [r_SelectedElite r_UniquePatterns]. split; [done|]. split; [lia|]. split.
    + intros Hal. rewrite Hcount. apply Hall. unfold bucket. cbn [train_defaults t_MaxPerBucket]. fold cs.
      change (if t_ChunkSize opts <=? 0 then DefaultChunkSize else t_ChunkSize opts) with cs. rewrite Z.geb_leb, (proj2 (Z.leb_le _ _)) by done. lia.
    + split.
      * intros i Hi. destruct (Hcell i Hi) as (d & Hdi & E). exists d. split; [done|]. apply (proj1 (Forall_forall _ _) Hwords).
        rewrite <-Hperm. by apply list_elem_of_lookup_2 in Hdi.
      * intros i j Hi Hj. destruct (Hcell i Hi) as (d & Hdi & ->), (Hcell j Hj) as (d' & Hdj & ->). intros [= <-].
        assert (Hs : NoDup sorted) by by rewrite Hperm. apply (NoDup_lookup _ _ _ _ Hs Hdi) in Hdj. lia.
Qed.

End standard.

(** ** Selection *)

Section selection.
Context {hash64 : XXHash} {CO : CountOrder} {COL : CountOrderLaws CO}.

(** The selection is greedy and complete. Of the entries of a table, [selectPicked] takes at most
    [maxCodewords] and at most [maxPerBucket] of a bucket, each entry at most once, in the order of their
    first occurrence; and an entry is left out only when the brain is full, or its bucket is, of entries
    that occur at least as often - however the sort breaks ties. *)
Theorem selectPicked_greedy table maxCodewords maxPerBucket :
  0 < maxCodewords ->
  let limit := if maxPerBucket <=? 0 then maxCodewords else maxPerBucket in
  let picked := selectPicked table maxCodewords maxPerBucket in
  exists rest, picked ++ rest ≡ₚ map snd (map_to_list table) /\ zlen picked <= maxCodewords /\
    (forall b, zlen (in_bucket b picked) <= limit) /\ StronglySorted (fun a b => pe_First a <= pe_First b) picked /\
    (forall e, e ∈ rest -> outranked maxCodewords limit picked e).
Proof. apply selectPicked_ok. Qed.
End selection.

Lemma selectPicked_greedy_witness :
  let entry h n first bucket := {| pe_Hash := h; pe_Count := n; pe_Data := None; pe_First := first; pe_Bucket := bucket |} in
  let table : FrequencyTable := {[1 := entry 1 9 30 7; 2 := entry 2 8 20 7; 3 := entry 3 5 10 7; 4 := entry 4 4 5 8]} in
  map pe_Hash (selectPicked table 3 2) = [4; 2; 1] /\
  exists rest, selectPicked table 3 2 ++ rest ≡ₚ map snd (map_to_list table) /\
    forall e, e ∈ rest -> outranked 3 2 (selectPicked table 3 2) e.
Proof.
  intros entry table. split; [vm_compute; reflexivity|].
  destruct (selectPicked_greedy table 3 2) as (rest & H1 & _ & _ & _ & H2); [reflexivity|]. exists rest. split; [exact H1|exact H2].
Defined.

(** ** Samples *)

(** Two files of two-byte chunks; the third cannot be opened. *)
Definition sample_corpus : Corpus := [Some [7; 1; 3; 9; 7; 1; 5]; Some [7; 1; 3; 0]; None].

Definition sample_training (maxCodewords : Z) : TrainOptions :=
  {| t_InputDir := str "in"; t_OutputPath := str "out"; t_MaxCodewords := maxCodewords; t_MaxPerBucket := 64; t_ChunkSize := 2;
     t_DataAugmentation := false; t_UseBPE := false; t_UpdatePath := []; t_BasePath := [] |}.

(** The workers hand in their records last file first. *)
Definition backwards : Interleave := fun A ls => concat (rev ls).

Lemma backwards_laws : InterleaveLaws backwards.
Proof. intros A ls. unfold interleave, backwards. by rewrite <-Permutation_rev. Qed.

Definition distinct_hashes_b {hash64 : XXHash} (chunkSize : Z) (files : Corpus) : bool :=
  let l := map c_Data (corpus_chunks chunkSize files) in
  forallb (fun a => forallb (fun b => negb (xxhash_Sum64 a =? xxhash_Sum64 b) || bytes_eqb a b) l) l.

Lemma distinct_hashes_dec_ok {hash64 : XXHash} cs files : distinct_hashes_b cs files = true -> distinct_hashes cs files.
Proof.
  intros H a b Ha Hb E. apply list_elem_of_In in Ha, Hb. unfold distinct_hashes_b in H. rewrite forallb_forall in H.
  specialize (H a Ha). rewrite forallb_forall in H. specialize (H b Hb). apply Z.eqb_eq in E. rewrite E in H. by apply bytes_eqb_true in H.
Qed.


