(* ===== verification/Bpe.v ===== *)
(** [internal/trainer/bpe.go]: the vocabulary that byte-pair merging builds. Its words expand to the corpus,
    keep their length limit, and each of them has shortened the token stream. *)

From S2P Require Import Prelude Binary Sha256 Externals Crypto Chunker Codebook Entropy Search Pack Trainer.
#[local] Set Warnings "-clear-no-such-hyp".

Definition expand (vocab : gmap Z bytes) (tokens : list Z) : bytes := concat (map (word vocab) tokens).

(** How often [a] is followed by [b]. *)
Fixpoint occurrences (a b : Z) (tokens : list Z) : Z :=
  match tokens with
  | x :: ((y :: _) as rest) => (if (x =? a) && (y =? b) then 1 else 0) + occurrences a b rest
  | _ => 0
  end.

(** The identifiers are [0 .. next-1], and no word is empty or longer than a byte and [maxLen] allow. *)
Record vocabulary (maxLen next : Z) (vocab : gmap Z bytes) : Prop := {
  vo_ids id : is_Some (vocab !! id) <-> 0 <= id < next;
  vo_words id w : vocab !! id = Some w -> 0 < zlen w <= Z.max 1 maxLen;
}.

Definition tokens_ok (next : Z) (tokens : list Z) : Prop := Forall (fun t => 0 <= t < next) tokens.

(** ** Counting pairs *)

Lemma count_pairs_cons x y rest counts :
  count_pairs (x :: y :: rest) counts = count_pairs (y :: rest) (<[(x, y) := default 0 (counts !! (x, y)) + 1]> counts).
Proof. done. Qed.

Lemma occurrences_cons a b x y rest :
  occurrences a b (x :: y :: rest) = (if (x =? a) && (y =? b) then 1 else 0) + occurrences a b (y :: rest).
Proof. done. Qed.

Lemma replace_pair_cons a b next x y rest :
  replace_pair a b next (x :: y :: rest) =
  if (x =? a) && (y =? b) then next :: replace_pair a b next rest else x :: replace_pair a b next (y :: rest).
Proof. done. Qed.

(** Induction over the stream, one token and two tokens at a time. *)
Lemma pair_ind (P : list Z -> Prop) :
  P [] -> (forall x, P [x]) -> (forall x y rest, P rest -> P (y :: rest) -> P (x :: y :: rest)) -> forall l, P l.
Proof.
  intros H0 H1 H2 l. enough (P l /\ forall x, P (x :: l)) as [? _] by done. induction l as [|y l [IH1 IH2]]; [by split|]. split; [done|].
  intros x. by apply H2.
Qed.

Lemma count_pairs_lookup tokens counts a b :
  default 0 (count_pairs tokens counts !! (a, b)) = default 0 (counts !! (a, b)) + occurrences a b tokens.
Proof.
  revert counts; induction tokens as [|x [|y rest] IH]; intros counts; [cbn; lia|cbn; lia|].
  rewrite count_pairs_cons, occurrences_cons, IH. destruct (Z.eqb_spec x a) as [->|Hx]; [destruct (Z.eqb_spec y b) as [->|Hy]|]; cbn [andb].
  - rewrite lookup_insert_eq. cbn. lia.
  - rewrite lookup_insert_ne by congruence. lia.
  - rewrite lookup_insert_ne by congruence. lia.
Qed.

Lemma count_pairs_empty tokens a b c : count_pairs tokens ∅ !! (a, b) = Some c -> occurrences a b tokens = c.
Proof. intros E. pose proof (count_pairs_lookup tokens ∅ a b) as H. rewrite E, lookup_empty in H. cbn in H. lia. Qed.

Lemma occurrences_nonneg a b tokens : 0 <= occurrences a b tokens.
Proof. induction tokens as [|x [|y rest] IH]; [done|done|]. rewrite occurrences_cons. destruct (_ && _); lia. Qed.

(** ** The pair to merge *)

(** A pair that fits. *)
Definition fits (vocab : gmap Z bytes) (maxLen a b : Z) : Prop := zlen (word vocab a) + zlen (word vocab b) <= maxLen.

Lemma better_pair_fold vocab maxLen l best :
  let result := fold_left (better_pair vocab maxLen) l best in
  (result = best \/ result ∈ l /\ fits vocab maxLen result.1.1 result.1.2) /\ best.2 <= result.2 /\
  (forall p, p ∈ l -> fits vocab maxLen p.1.1 p.1.2 -> p.2 <= result.2).
Proof.
  revert best; induction l as [|p l IH]; intros best; cbn [fold_left].
  { split; [by left|]. split; [done|]. by intros p ?%elem_of_nil. }
  set (best' := better_pair vocab maxLen best p). destruct (IH best') as (H1 & H2 & H3).
  assert (Hb : (best' = best \/ best' = p /\ fits vocab maxLen p.1.1 p.1.2) /\ best.2 <= best'.2 /\ (fits vocab maxLen p.1.1 p.1.2 -> p.2 <= best'.2)).
  { unfold best', better_pair, fits. destruct (Z.gtb_spec (zlen (word vocab p.1.1) + zlen (word vocab p.1.2)) maxLen); [split; [by left|lia]|].
    destruct (Z.gtb_spec p.2 best.2); [split; [by right|lia]|split; [by left|lia]]. }
  destruct Hb as (Hb1 & Hb2 & Hb3). split; [|split; [lia|]].
  - destruct H1 as [->|[Hin Hf]]; [|right; split; [by right|done]]. destruct Hb1 as [->|[-> Hf]]; [by left|right; split; [by left|done]].
  - intros q [->|Hq]%elem_of_cons Hf; [specialize (Hb3 Hf); lia|by apply H3].
Qed.

Section pairs.
Context {PO : PairOrder} {POL : PairOrderLaws PO}.

Lemma best_pair_ok vocab maxLen tokens a b c :
  best_pair vocab maxLen (count_pairs tokens ∅) = ((a, b), c) ->
  (2 <= c -> occurrences a b tokens = c /\ fits vocab maxLen a b) /\
  (forall a' b', fits vocab maxLen a' b' -> 0 < occurrences a' b' tokens -> occurrences a' b' tokens <= c).
Proof.
  unfold best_pair. intros E. destruct (better_pair_fold vocab maxLen (pair_order (count_pairs tokens ∅)) ((0, 0), -1)) as (H1 & _ & H3).
  rewrite E in H1, H3. split.
  - intros Hc. destruct H1 as [[= -> -> ->]|[Hin Hf]]; [lia|]. split; [|done]. rewrite (pair_order_perm (count_pairs tokens ∅)) in Hin.
    apply elem_of_map_to_list in Hin. by apply count_pairs_empty in Hin.
  - intros a' b' Hf Ho. destruct (count_pairs tokens ∅ !! (a', b')) as [c'|] eqn:E'.
    + rewrite (count_pairs_empty _ _ _ _ E'). apply (H3 ((a', b'), c')); [|done]. rewrite (pair_order_perm (count_pairs tokens ∅)). by apply elem_of_map_to_list.
    + pose proof (count_pairs_lookup tokens ∅ a' b') as Hl. rewrite E', lookup_empty in Hl. cbn in Hl. lia.
Qed.

(** ** Replacing it *)

Lemma replace_pair_expand vocab a b next tokens :
  vocab !! next = None -> tokens_ok next tokens ->
  expand (<[next := word vocab a ++ word vocab b]> vocab) (replace_pair a b next tokens) = expand vocab tokens.
Proof.
  intros Hnext. induction tokens as [|x|x y rest IH1 IH2] using pair_ind; intros Hok.
  - done.
  - apply Forall_cons in Hok as [Hx _]. unfold expand, word. cbn. rewrite lookup_insert_ne by lia. done.
  - rewrite replace_pair_cons. apply Forall_cons in Hok as [Hx Hok]. destruct (Z.eqb_spec x a) as [->|Hxa]; [destruct (Z.eqb_spec y b) as [->|Hyb]|]; cbn [andb].
    + apply Forall_cons in Hok as [_ Hok]. specialize (IH1 Hok). unfold expand in *. cbn [map concat]. rewrite IH1. unfold word at 1. rewrite lookup_insert_eq.
      cbn. by rewrite <-app_assoc.
    + specialize (IH2 Hok). unfold expand in *. cbn [map concat] in *. rewrite IH2. unfold word at 1. rewrite lookup_insert_ne by lia. done.
    + specialize (IH2 Hok). unfold expand in *. cbn [map concat] in *. rewrite IH2. unfold word at 1. rewrite lookup_insert_ne by lia. done.
Qed.

Lemma replace_pair_tokens a b next tokens :
  0 <= next -> tokens_ok next tokens -> tokens_ok (next + 1) (replace_pair a b next tokens).
Proof.
  intros Hn. unfold tokens_ok. induction tokens as [|x|x y rest IH1 IH2] using pair_ind; intros Hok; [constructor|repeat constructor; inversion Hok; lia|].
  rewrite replace_pair_cons. apply Forall_cons in Hok as [Hx Hok]. destruct (_ && _); constructor; try lia; [|by apply IH2].
  apply IH1. by apply Forall_cons in Hok as [_ ?].
Qed.

Lemma replace_pair_shorter a b next tokens :
  zlen (replace_pair a b next tokens) <= zlen tokens /\
  (0 < occurrences a b tokens -> zlen (replace_pair a b next tokens) < zlen tokens).
Proof.
  induction tokens as [|x|x y rest IH1 IH2] using pair_ind; [done|cbn [occurrences replace_pair]; lia|].
  rewrite replace_pair_cons, occurrences_cons, !zlen_cons. rewrite !zlen_cons in IH2. destruct (_ && _); rewrite zlen_cons; lia.
Qed.

(** ** The loop *)

Lemma vocabulary_add maxLen next vocab a b :
  0 <= next -> vocabulary maxLen next vocab -> 0 <= a < next -> 0 <= b < next -> fits vocab maxLen a b ->
  vocabulary maxLen (next + 1) (<[next := word vocab a ++ word vocab b]> vocab).
Proof.
  intros Hn [Hids Hwords] Ha Hb Hf. constructor.
  - intros id. destruct (decide (id = next)) as [->|Hne]; [rewrite lookup_insert_eq; split; [lia|by eauto]|].
    rewrite lookup_insert_ne, Hids by done. lia.
  - intros id w. destruct (decide (id = next)) as [->|Hne]; [rewrite lookup_insert_eq; intros [= <-]|by rewrite lookup_insert_ne by done; apply Hwords].
    destruct (proj2 (Hids a) Ha) as [wa Ea]. pose proof (Hwords a wa Ea). pose proof (zlen_nonneg (word vocab b)).
    unfold fits, word in *. rewrite zlen_app. rewrite Ea in *. cbn in *. lia.
Qed.

Lemma occurrences_tokens a b next tokens : tokens_ok next tokens -> 0 < occurrences a b tokens -> 0 <= a < next /\ 0 <= b < next.
Proof.
  unfold tokens_ok. induction tokens as [|x|x y rest IH1 IH2] using pair_ind; intros Hok; [done|done|]. rewrite occurrences_cons.
  pose proof (occurrences_nonneg a b (y :: rest)). apply Forall_cons in Hok as [Hx Hok].
  destruct (Z.eqb_spec x a) as [->|]; [destruct (Z.eqb_spec y b) as [->|]|]; cbn [andb]; intros Ho; [|by apply IH2|by apply IH2].
  by apply Forall_cons in Hok as [? _].
Qed.

(** Why the loop ends, [full] by the limit. *)
Definition merged (maxLen : Z) (full : Prop) (vocab : gmap Z bytes) (tokens : list Z) : Prop :=
  full \/ forall a b, fits vocab maxLen a b -> occurrences a b tokens < 2.

Lemma bpe_loop_ok n maxLen next vocab tokens vocab' tokens' :
  0 <= next -> vocabulary maxLen next vocab -> tokens_ok next tokens -> bpe_loop n maxLen next vocab tokens = (vocab', tokens') ->
  exists next', next <= next' <= next + Z.of_nat n /\ vocabulary maxLen next' vocab' /\ tokens_ok next' tokens' /\
    expand vocab' tokens' = expand vocab tokens /\ zlen tokens' + (next' - next) <= zlen tokens /\
    merged maxLen (next' = next + Z.of_nat n) vocab' tokens'.
Proof.
  revert next vocab tokens; induction n as [|n IH]; intros next vocab tokens Hn Hv Ht; cbn [bpe_loop].
  { intros [= <- <-]. exists next. repeat (split; [done || lia|]). left. lia. }
  destruct (Z.ltb_spec (zlen tokens) 2) as [Hs|Hs].
  { intros [= <- <-]. exists next. repeat (split; [done || lia|]). right. intros a b _.
    destruct tokens as [|x [|y rest]]; [cbn; lia|cbn; lia|]. rewrite !zlen_cons in Hs. pose proof (zlen_nonneg rest). lia. }
  destruct (best_pair _ _ _) as [[a b] c] eqn:Eb. apply best_pair_ok in Eb as [Hbest Hmost]. destruct (Z.ltb_spec c 2) as [Hc|Hc].
  { intros [= <- <-]. exists next. repeat (split; [done || lia|]). right. intros a' b' Hf. specialize (Hmost a' b' Hf).
    pose proof (occurrences_nonneg a' b' tokens). lia. }
  destruct (Hbest Hc) as [Ho Hf]. destruct (occurrences_tokens a b next tokens Ht ltac:(lia)) as [Ha Hb]. intros Hloop.
  apply IH in Hloop as (next' & H1 & H2 & H3 & H4 & H5 & H6); [|lia|by apply vocabulary_add|by apply replace_pair_tokens].
  exists next'. split; [lia|]. split; [done|]. split; [done|]. split; [|split].
  - rewrite H4. apply replace_pair_expand; [|done]. apply eq_None_not_Some. rewrite (vo_ids _ _ _ Hv). lia.
  - destruct (replace_pair_shorter a b next tokens) as [_ Hlt]. specialize (Hlt ltac:(lia)). lia.
  - destruct H6 as [H6|H6]; [left; lia|by right].
Qed.

Lemma base_vocab_lookup id : base_vocab !! id = if bool_decide (0 <= id < 256) then Some [id] else None.
Proof.
  unfold base_vocab. assert (Hnd : NoDup (map (fun i => (Z.of_nat i, [Z.of_nat i])) (seq 0 256)).*1) by (by apply (bool_decide_unpack _); vm_compute).
  case_bool_decide as Hid.
  - apply (elem_of_list_to_map_1 _ _ _ Hnd), list_elem_of_fmap. exists (Z.to_nat id). rewrite Z2Nat.id by lia. split; [done|]. apply elem_of_seq. lia.
  - apply not_elem_of_list_to_map_1. intros ([i w] & -> & (j & [= -> ->] & Hj%elem_of_seq)%list_elem_of_fmap)%list_elem_of_fmap. apply Hid. cbn. lia.
Qed.

Lemma vocabulary_base maxLen : vocabulary maxLen 256 base_vocab.
Proof.
  constructor; intros id; rewrite base_vocab_lookup; case_bool_decide as Hid.
  - split; [done|by eexists].
  - split; [by intros [? ?]|done].
  - intros w [= <-]. change (zlen [id]) with 1. lia.
  - done.
Qed.

Lemma expand_base data : bytes_ok data -> expand base_vocab data = data.
Proof.
  induction 1 as [|b l Hb _ IH]; [done|]. unfold expand in *. cbn [map concat]. rewrite IH. unfold word. by rewrite base_vocab_lookup, bool_decide_true by done.
Qed.

(** [C26] Byte-pair training is lossless and goes as far as it can. From any corpus it makes a vocabulary of
    [n] words with the identifiers [0 .. n-1], the 256 bytes first, no more than [maxTokens] and none longer
    than [maxLen] (or a byte), and leaves a stream of those tokens that expands to the corpus; each word
    beyond the bytes has shortened the stream, and either there is no room for another word or no two
    tokens that fit in one follow each other twice. *)
Theorem bpe_Train_lossless maxTokens maxLen data :
  bytes_ok data -> 0 <= maxTokens < 2 ^ 32 ->
  let vocab := bpe_Train (NewBPEBuilder maxTokens maxLen) data in
  exists n tokens, 256 <= n <= Z.max 256 maxTokens /\ vocabulary maxLen n vocab /\ tokens_ok n tokens /\ expand vocab tokens = data /\
    zlen tokens + (n - 256) <= zlen data /\ merged maxLen (data = [] \/ n = Z.max 256 maxTokens) vocab tokens.
Proof.
  intros Hb Hmax vocab. unfold vocab, bpe_Train, NewBPEBuilder. cbn [bpe_vocab bpe_maxLen bpe_maxTokens]. destruct data as [|b data].
  { exists 256, []. split; [lia|]. split; [apply vocabulary_base|]. split; [constructor|]. split; [done|]. split; [done|]. left. by left. }
  rewrite u32_small by (unfold is_u32; lia). set (fuel := Z.to_nat (maxTokens - 256)).
  destruct (bpe_loop _ _ _ _ _) as [vocab' tokens'] eqn:Eloop.
  apply bpe_loop_ok in Eloop as (n & H1 & H2 & H3 & H4 & H5 & H6); [|lia|apply vocabulary_base|exact Hb].
  exists n, tokens'. cbn [fst]. split; [lia|]. split; [done|]. split; [done|]. split; [by rewrite H4, expand_base|]. split; [lia|].
  destruct H6 as [H6|H6]; [left; right; lia|by right].
Qed.
End pairs.

Lemma bpe_Train_lossless_witness :
  let data := str "abcabcabca" in
  let vocab := bpe_Train (NewBPEBuilder 300 3) data in
  vocab !! 257 = Some (str "bca") /\ exists n tokens, vocabulary 3 n vocab /\ expand vocab tokens = data /\ zlen tokens + (n - 256) <= 10.
Proof.
  intros data vocab. split; [vm_compute; reflexivity|].
  destruct (bpe_Train_lossless 300 3 data) as (n & tokens & _ & Hv & _ & He & Hl & _).
  - repeat constructor; discriminate || reflexivity.
  - split; [discriminate|reflexivity].
  - exists n, tokens. split; [exact Hv|]. split; [exact He|exact Hl].
Defined.
