(* ===== verification/Grep.v ===== *)
(** [pkg/cromlib/grep.go]: a search that looks for the text in the brain, and then for the chunks that
    refer to the codewords it found, unpacking only the blocks of the first matches. *)

From S2P Require Import Prelude Binary Sha256 Externals Crypto Format FormatIO Delta Chunker Codebook.
From S2P Require Import Fractal Entropy Search Unpack Pack ChunkCodec BlockCodec RoundTrip Archive VfsCache VfsReader VfsRead VfsMount.
From S2P Require Import Transfer SyncRun.
#[local] Set Warnings "-clear-no-such-hyp".
Import codebook Format.

(** What is printed of a match: the chunk's number, its offset, and its text for the first 20. *)
Record grep_match := {
  gm_Index : Z;
  gm_Offset : Z;
  gm_Content : option bytes;
}.

(** [bytes.ReplaceAll(chunk, "\n", " ")] *)
Definition one_line (chunk : bytes) : bytes := map (fun b => if b =? 10 then 32 else b) chunk.

Section grep.
Context {Z0 : Zstd} {C0 : Cipher} {F0 : Files} {F : Type} {R : ReaderAt F}.

(** The codewords that contain the text; one that cannot be looked up is skipped. *)
Fixpoint match_ids (n : nat) (i : Z) (cb : Reader) (target : bytes) (matchedIDs : gset Z) : res (gset Z) :=
  match n with
  | O => Ok matchedIDs
  | S n =>
      match Lookup cb i with
      | Panic p => Panic p
      | Err _ => match_ids n (i + 1) cb target matchedIDs
      | Ok pattern => match_ids n (i + 1) cb target (if contains pattern target then {[i]} ∪ matchedIDs else matchedIDs)
      end
  end.

Definition grep_table_size (header : Header) : Z :=
  let tableSize := h_ChunkCount header * GetEntrySize (h_Version header) in
  if h_TableBytes header >? 0 then h_TableBytes header else tableSize.

(** The pool of a block, kept once it is unpacked; [None] when it cannot be read. *)
Definition grep_pool (header : Header) (cb : Reader) (blockTable blockOffsets : list Z) (blockIdx : Z) (f : F) (blockCache : gmap Z bytes)
    : res (option bytes * F * gmap Z bytes) :=
  match blockCache !! blockIdx with
  | Some pool => Ok (Some pool, f, blockCache)
  | None =>
      if blockIdx <? u32 (zlen blockTable) then
        blockSize ← index blockTable blockIdx;
        fileOff ← index blockOffsets blockIdx;
        '(buf, f) ← read_buf "read block frame" f fileOff blockSize;
        match buf with
        | Panic p => Panic p
        | Err _ => Ok (None, f, blockCache)
        | Ok buf =>
            dict ← (if h_UsesBrainDict header then Dictionary cb else Ok []);
            match DecompressPoolDict buf dict with
            | Panic p => Panic p
            | Err _ => Ok (None, f, blockCache)
            | Ok pool => Ok (Some pool, f, <[blockIdx := pool]> blockCache)
            end
        end
      else Ok (None, f, blockCache)
  end.

Definition grep_chunk (cb : Reader) (entry : ChunkEntry) (residual : bytes) : res bytes :=
  if e_CodebookID entry =? LiteralCodebookID then Ok residual
  else
    match Lookup cb (clean_id (e_CodebookID entry)) with
    | Panic p => Panic p
    | Err _ => Ok []
    | Ok pattern =>
        let usable := usable_pattern pattern (e_OriginalSize entry) in
        if is_patch (e_CodebookID entry) then
          match ApplyPatch usable residual with
          | Err _ => Ok []
          | r => r
          end
        else Ok (Apply usable (trim_residual residual (e_OriginalSize entry)))
    end.

Definition grep_content (cb : Reader) (entries : list ChunkEntry) (blockStarts : list Z) (blockIdx : Z) (entry : ChunkEntry) (pool : bytes)
    : res (option bytes) :=
  start ← index blockStarts blockIdx;
  first ← index entries start;
  let localOffset := u64 (e_DeltaOffset entry - e_DeltaOffset first) in
  let endLocal := u64 (localOffset + e_DeltaSize entry) in
  if endLocal <=? zlen pool then
    residual ← slice pool localOffset endLocal;
    chunk ← grep_chunk cb entry residual;
    let chunk := trim_residual chunk (e_OriginalSize entry) in
    Ok (if zlen chunk >? 0 then Some (one_line chunk) else None)
  else Ok None.

(** The chunks from number [i] on, which start at [approxOffset] of the file. *)
Fixpoint grep_scan (header : Header) (cb : Reader) (blockTable blockOffsets : list Z) (entries : list ChunkEntry) (blockStarts : list Z)
    (matchedIDs : gset Z) (todo : list ChunkEntry) (i matchCount approxOffset : Z) (f : F) (blockCache : gmap Z bytes)
    : res (list grep_match) :=
  match todo with
  | [] => Ok []
  | entry :: todo =>
      if bool_decide (clean_id (e_CodebookID entry) ∈ matchedIDs) then
        let matchCount := matchCount + 1 in
        '(content, f, blockCache) ←
          (if matchCount <=? 20 then
             let blockIdx := u32 (SearchInts blockStarts (i + 1) - 1) in
             '(pool, f, blockCache) ← grep_pool header cb blockTable blockOffsets blockIdx f blockCache;
             match pool with
             | Some pool => content ← grep_content cb entries blockStarts blockIdx entry pool; Ok (content, f, blockCache)
             | None => Ok (None, f, blockCache)
             end
           else Ok (None, f, blockCache));
        rest ← grep_scan header cb blockTable blockOffsets entries blockStarts matchedIDs todo (i + 1) matchCount
                 (u64 (approxOffset + e_OriginalSize entry)) f blockCache;
        Ok ({| gm_Index := i; gm_Offset := approxOffset; gm_Content := content |} :: rest)
      else
        grep_scan header cb blockTable blockOffsets entries blockStarts matchedIDs todo (i + 1) matchCount
          (u64 (approxOffset + e_OriginalSize entry)) f blockCache
  end.

(** [inFile] is what the opened file delivers in sequence, [f] the same file for [ReadAt]. *)
Definition Grep (target inFile : bytes) (f : F) (codebookPath : bytes) : res (list grep_match) :=
  cb ← wrap_err "grep: falha ao abrir codebook" (Open codebookPath);
  matchedIDs ← match_ids (Z.to_nat (count cb)) 0 cb target ∅;
  '((header, blockTable, entries), _) ← ReadMetadata [] inFile;
  if h_IsPassthrough header then Err "grep" else
  let baseOffset := vfs_header_size header + zlen blockTable * 4 + grep_table_size header in
  grep_scan header cb blockTable (block_offsets baseOffset blockTable) entries (BlockStarts entries) matchedIDs entries 0 0 0 f ∅.
End grep.

(** ** What it finds *)

(** The matches of a file: the chunks whose codeword is [hit], with their place and bytes in the input. *)
Fixpoint grep_matches (hit : Z -> bool) (input : bytes) (entries : list ChunkEntry) (i n off : Z) : list grep_match :=
  match entries with
  | [] => []
  | e :: entries =>
      let next := off + e_OriginalSize e in
      if hit (clean_id (e_CodebookID e)) then
        {| gm_Index := i; gm_Offset := off; gm_Content := if n <? 20 then Some (one_line (sub off next input)) else None |}
        :: grep_matches hit input entries (i + 1) (n + 1) next
      else grep_matches hit input entries (i + 1) n next
  end.

(** A codeword of the brain that contains the text. *)
Definition word_hit (r : Reader) (target : bytes) (id : Z) : bool :=
  (0 <=? id) && (id <? count r) && contains (codeword r id) target.

Lemma match_ids_ok n i r target ids :
  wf_reader r -> 0 <= i -> i + Z.of_nat n <= count r ->
  exists ids', match_ids n i r target ids = Ok ids' /\
    forall id, id ∈ ids' <-> id ∈ ids \/ i <= id < i + Z.of_nat n /\ contains (codeword r id) target = true.
Proof.
  intros Hwf. revert i ids; induction n as [|n IH]; intros i ids Hi Hn; cbn [match_ids].
  { exists ids. split; [done|]. intros id. split; [by left|]. intros [?|[? _]]; [done|lia]. }
  rewrite Lookup_ok by (done || lia). destruct (IH (i + 1) (if contains (codeword r i) target then {[i]} ∪ ids else ids)) as (ids' & -> & H); [lia|lia|].
  exists ids'. split; [done|]. intros id. rewrite H. destruct (contains (codeword r i) target) eqn:Ec.
  - rewrite elem_of_union, elem_of_singleton. split.
    + intros [[->|?]|[? ?]]; [right; split; [lia|done]|by left|right; split; [lia|done]].
    + intros [?|[? Hc]]; [left; by right|]. destruct (decide (id = i)) as [->|]; [left; by left|right; split; [lia|done]].
  - split.
    + intros [?|[? ?]]; [by left|right; split; [lia|done]].
    + intros [?|[? Hc]]; [by left|]. destruct (decide (id = i)) as [->|]; [congruence|right; split; [lia|done]].
Qed.

(** The chunk at a position of the file, in its block. *)
Lemma concat_position {A} (ls : list (list A)) a x b :
  concat ls = a ++ x :: b -> exists p1 q1 q2 p2, ls = p1 ++ (q1 ++ x :: q2) :: p2 /\ a = concat p1 ++ q1.
Proof.
  revert a; induction ls as [|l ls IH]; intros a; cbn [concat].
  { by destruct a. }
  intros E. destruct (Z.le_gt_cases (zlen l) (zlen a)) as [Hl|Hl].
  - destruct (app_prefix l (concat ls) a (x :: b) E Hl) as (m & -> & E'). destruct (IH m E') as (p1 & q1 & q2 & p2 & -> & ->).
    exists (l :: p1), q1, q2, p2. split; [done|]. cbn [concat]. by rewrite app_assoc.
  - symmetry in E. destruct (app_prefix a (x :: b) l (concat ls) E ltac:(lia)) as (m & -> & E'). destruct m as [|y m].
    { rewrite app_nil_r in Hl. lia. }
    injection E' as <- ->. by exists [], a, m, ls.
Qed.

Section grepped.
Context {Z0 : Zstd} {C0 : Cipher} {F0 : Files} {F : Type} {R : ReaderAt F} (ok : F -> Prop).
Variables (cb : option Reader) (r : Reader) (dict : bytes) (h : Header) (input : bytes)
  (pss : list (list processedChunk)) (frames : list bytes) (metadata tail : bytes).
Hypothesis Har : archive cb dict [] h input pss frames metadata.
Hypothesis Hcb : cb = None \/ cb = Some r.
Context {RL : ReaderAtLaws R (metadata ++ concat frames ++ tail) ok}.
Variable (hd : Header).
Hypothesis Hhd : exists n, hd = set_table_bytes n (stored_header h).

Abbreviation entries := (concat (entries_of pss)).
Abbreviation key := (table_key [] h).

(** Without a passphrase nothing is encrypted. *)
Lemma no_key : key = None.
Proof. unfold table_key. destruct (h_IsEncrypted h) eqn:E; [|done]. by destruct (ar_passphrase _ _ _ _ _ _ _ _ Har E). Qed.

(** The pools kept are those of the blocks. *)
Definition pools_ok (blockCache : gmap Z bytes) : Prop :=
  forall b pool, blockCache !! b = Some pool -> exists p1 ps p2, pss = p1 ++ ps :: p2 /\ zlen p1 = b /\ pool = pool_of ps.

Lemma grep_dictionary : (if h_UsesBrainDict hd then Dictionary r else Ok []) = Ok dict.
Proof.
  destruct (opened_fields h hd Hhd (ds_version _ _ _ (ar_describes _ _ _ _ _ _ _ _ Har))) as (_ & _ & -> & _).
  pose proof (ar_brain _ _ _ _ _ _ _ _ Har) as Hb. unfold brain_for in Hb. destruct Hcb as [-> | ->]; destruct Hb as [-> Hb]; [by rewrite Hb|done].
Qed.

Lemma grep_pool_ok f blockCache p1 ps p2 :
  ok f -> pools_ok blockCache -> pss = p1 ++ ps :: p2 ->
  exists f' blockCache', grep_pool hd r (table_of frames) (block_offsets (zlen metadata) (table_of frames)) (zlen p1) f blockCache
      = Ok (Some (pool_of ps), f', blockCache') /\ ok f' /\ pools_ok blockCache'.
Proof.
  intros Hf Hc E. unfold grep_pool. destruct (blockCache !! zlen p1) as [pool|] eqn:Ec.
  { exists f, blockCache. split; [|done]. destruct (Hc _ _ Ec) as (q1 & qs & q2 & E' & Hl & ->).
    rewrite E in E'. unfold zlen in Hl. apply app_inj_1 in E' as [_ [= <- _]]; [done|lia]. }
  destruct (packed_frame cb dict [] h input pss frames metadata Har p1 ps p2 E) as (f1 & frame & f2 & Ef & L & Hframe & Hall & Hlt & Hlen).
  assert (Hi : zlen f1 = zlen p1) by (unfold zlen; lia). assert (Hn : zlen p1 < zlen frames).
  { rewrite Ef, zlen_app, zlen_cons. pose proof (zlen_nonneg f2). lia. }
  rewrite zlen_table_of, u32_small by (pose proof (zlen_nonneg frames); unfold is_u32; lia). rewrite (proj2 (Z.ltb_lt _ _)) by lia.
  destruct (frame_index (zlen metadata) frames f1 frame f2 Ef Hall) as [Hoff Hsize]. rewrite Hi in Hoff, Hsize.
  rewrite Hsize. cbn [mbind res_bind]. rewrite Hoff. cbn [mbind res_bind].
  destruct (frame_read ok cb dict [] h input pss frames metadata tail Har _ f f1 frame f2 Ef Hf eq_refl) as (f' & -> & Hf').
  cbn [mbind res_bind]. destruct Hframe as [_ Hfr]. destruct (Hfr ""%string) as (z & Hz & Hd). rewrite no_key in Hz. injection Hz as <-.
  exists f', (<[zlen p1 := pool_of ps]> blockCache).
  assert (Hins : pools_ok (<[zlen p1 := pool_of ps]> blockCache)).
  { intros b pool. destruct (decide (b = zlen p1)) as [->|Hne]; [rewrite lookup_insert_eq; intros [= <-]; by exists p1, ps, p2|].
    rewrite lookup_insert_ne by done. apply Hc. }
  rewrite grep_dictionary. cbn [mbind res_bind]. by rewrite Hd.
Qed.

Section chunk.
Variables (pre d post : bytes) (p1 : list (list processedChunk)) (q1 : list processedChunk) (p : processedChunk)
  (q2 : list processedChunk) (p2 : list (list processedChunk)) (f1 : list bytes) (frame : bytes) (f2 : list bytes).
Hypothesis Hat : located cb dict key input pss frames pre d post p1 q1 p q2 p2 f1 frame f2.
Hypothesis Hfr : e_CodebookIndex (p_entry p) <> FractalCodebookIndex.

Lemma grep_chunk_ok : grep_chunk r (p_entry p) (p_res p) = Ok d.
Proof.
  pose proof (lc_decodes Hat) as []. unfold grep_chunk. unfold rebuilds, reconstructChunk, from_codeword in dc_rebuilds. destruct Hcb as [-> | ->].
  - destruct dc_rebuilds as [-> ->]. done.
  - destruct (_ =? LiteralCodebookID); [done|]. rewrite (proj2 (Z.eqb_neq _ _) Hfr) in dc_rebuilds.
    destruct (Lookup r _) as [pat|e|x]; cbn [wrap_err mbind res_bind] in dc_rebuilds; [|done|done].
    destruct (is_patch _); [by rewrite dc_rebuilds|done].
Qed.

Lemma grep_content_ok :
  grep_content r entries (BlockStarts entries) (zlen p1) (p_entry p) (pool_of (q1 ++ p :: q2)) = Ok (Some (one_line d)).
Proof.
  destruct (chunk_small cb dict [] h input pss frames metadata Har pre d post p1 q1 p q2 p2 f1 frame f2 Hat) as (Hd & Hin & Hs).
  destruct (block_first cb dict [] h input pss frames metadata Har pre d post p1 q1 p q2 p2 f1 frame f2 Hat) as (first & E1 & E2 & E3).
  pose proof (dc_delta _ _ _ (lc_decodes Hat)) as Hdelta. unfold grep_content. rewrite E1. cbn [mbind res_bind]. rewrite E2. cbn [mbind res_bind]. rewrite E3.
  destruct (located_offset _ _ _ _ _ _ _ _ _ _ _ _ _ _ _ _ _ Hat) as [Hoff _].
  pose proof (lc_pool Hat) as Hpool. pose proof (zlen_nonneg (concat (map pool_of p1))).
  destruct (residual_bounds _ q1 p q2 Hoff Hdelta) as [Hb Hsub]; [lia|]. cbv zeta in Hb, Hsub. cbv zeta.
  rewrite Z.gtb_ltb in Hb. apply Z.ltb_ge in Hb. rewrite (proj2 (Z.leb_le _ _)) by lia. rewrite Hsub. cbn [mbind res_bind]. rewrite grep_chunk_ok. cbn [mbind res_bind].
  unfold trim_residual. rewrite Hs, u32_small by (unfold is_u32, BlockSize in *; lia). rewrite !Z.gtb_ltb, Z.ltb_irrefl.
  by rewrite (proj2 (Z.ltb_lt _ _)) by lia.
Qed.
End chunk.

Variables (ids : gset Z) (hit : Z -> bool).
Hypotheses (Hids : forall id, id ∈ ids <-> hit id = true)
  (Hfractal : Forall (fun p => hit (clean_id (e_CodebookID (p_entry p))) = true -> e_CodebookIndex (p_entry p) <> FractalCodebookIndex) (concat pss)).

Lemma grep_scan_ok a b i n f blockCache :
  concat pss = a ++ b -> zlen a = i -> ok f -> pools_ok blockCache ->
  grep_scan hd r (table_of frames) (block_offsets (zlen metadata) (table_of frames)) entries (BlockStarts entries) ids
    (map p_entry b) i n (block_bytes (map p_entry a)) f blockCache = Ok (grep_matches hit input (map p_entry b) i n (block_bytes (map p_entry a))).
Proof.
  revert a i n f blockCache; induction b as [|p b IH]; intros a i n f blockCache E Hi Hf Hc; [done|]. cbn [map grep_scan grep_matches].
  destruct (concat_position pss a p b E) as (p1 & q1 & q2 & p2 & Ep & Ea).
  destruct (located_chunk _ _ _ _ _ _ p1 q1 p q2 p2 (ar_packed _ _ _ _ _ _ _ _ Har) Ep) as (pre & d & post & f1 & frame & f2 & Hat).
  destruct (archive_blocks _ _ _ _ _ _ _ _ Har) as (_ & _ & _ & _ & _ & _ & _ & _ & Hcat). rewrite Hcat in Hat.
  destruct (chunk_small cb dict [] h input pss frames metadata Har pre d post p1 q1 p q2 p2 f1 frame f2 Hat) as (Hd & Hin & Hs).
  pose proof (chunk_input cb dict [] h input pss frames pre d post p1 q1 p q2 p2 f1 frame f2 Hat) as Hsub. rewrite <-Ea in Hsub.
  pose proof (lc_before Hat) as Hbefore. rewrite <-Ea in Hbefore. pose proof (zlen_nonneg pre).
  assert (Hnext : u64 (block_bytes (map p_entry a) + e_OriginalSize (p_entry p)) = block_bytes (map p_entry (a ++ [p]))).
  { rewrite block_bytes_map_app. change (block_bytes (map p_entry [p])) with (e_OriginalSize (p_entry p) + 0). rewrite Z.add_0_r.
    apply u64_small. pose proof (f_equal zlen (lc_input Hat)) as Hlen. rewrite !zlen_app in Hlen. pose proof (zlen_nonneg post). unfold is_u64. lia. }
  assert (Hnext' : block_bytes (map p_entry a) + e_OriginalSize (p_entry p) = block_bytes (map p_entry (a ++ [p]))).
  { rewrite block_bytes_map_app. change (block_bytes (map p_entry [p])) with (e_OriginalSize (p_entry p) + 0). lia. }
  assert (E' : concat pss = (a ++ [p]) ++ b) by (by rewrite <-app_assoc). assert (Hi' : zlen (a ++ [p]) = i + 1) by (rewrite zlen_app, Hi; done).
  assert (Hfr : hit (clean_id (e_CodebookID (p_entry p))) = true -> e_CodebookIndex (p_entry p) <> FractalCodebookIndex).
  { apply (proj1 (Forall_forall _ _) Hfractal). rewrite E. apply elem_of_app. right. left. }
  rewrite Hnext, Hnext'. destruct (hit (clean_id (e_CodebookID (p_entry p)))) eqn:Eh.
  2:{ rewrite bool_decide_false by (rewrite Hids; congruence). by apply IH. }
  rewrite bool_decide_true by by apply Hids. cbv zeta. destruct (Z.leb_spec (n + 1) 20), (Z.ltb_spec n 20); try lia; cbn [mbind res_bind].
  2:{ by rewrite (IH (a ++ [p]) (i + 1) (n + 1) f blockCache E' Hi' Hf Hc). }
  pose proof (chunk_block cb dict [] h input pss frames metadata Har pre d post p1 q1 p q2 p2 f1 frame f2 Hat) as Hblock. rewrite <-Ea, Hi in Hblock. rewrite Hblock.
  destruct (grep_pool_ok f blockCache p1 (q1 ++ p :: q2) p2 Hf Hc Ep) as (f' & blockCache' & -> & Hf' & Hc'). cbn [mbind res_bind].
  rewrite (grep_content_ok pre d post p1 q1 p q2 p2 f1 frame f2 Hat (Hfr eq_refl)). cbn [mbind res_bind].
  rewrite (IH (a ++ [p]) (i + 1) (n + 1) f' blockCache' E' Hi' Hf' Hc'). cbn [mbind res_bind]. do 5 f_equal. by rewrite Hsub, <-Hs, Hnext' at 1.
Qed.
End grepped.

(** [C20] Grep finds every chunk that refers to a codeword with the text, and shows what the file holds there.
    For an archive that was not encrypted, read from disk or over the network, with the brain it was packed
    with, the matches are exactly the chunks whose codeword contains the text, in order, each with its number and
    offset, and the first 20 with their bytes of the input - unless a polynomial chunk has the number of
    such a codeword for its seed. *)
Theorem Grep_matches {Z0 : Zstd} {C0 : Cipher} {F0 : Files} {ZL : ZstdLaws Z0} {CL : CipherLaws C0} {F} {R : ReaderAt F} (ok : F -> Prop) r input file chunks target f path :
  archived r [] input file chunks -> Open path = Ok r -> wf_reader r -> ReaderAtLaws R file ok -> ok f ->
  Forall (fun p => word_hit r target (clean_id (e_CodebookID (p_entry p))) = true -> e_CodebookIndex (p_entry p) <> FractalCodebookIndex) chunks ->
  Grep target file f path = Ok (grep_matches (word_hit r target) input (map p_entry chunks) 0 0 0).
Proof.
  intros (cb & dict & h & pss & frames & metadata & tail & -> & Har & Hcb & -> & _) Hopen Hwf RL Hf Hfr.
  unfold Grep. rewrite Hopen. cbn [wrap_err mbind res_bind].
  assert (Hcount : 0 <= count r) by apply Hwf.
  destruct (match_ids_ok (Z.to_nat (count r)) 0 r target ∅ Hwf) as (ids & -> & Hids); [lia|lia|]. cbn [mbind res_bind].
  destruct (archive_read _ _ _ _ _ _ _ _ Har) as (n & Hn & Hlen & Hmeta & _). rewrite Hmeta. cbn [mbind res_bind].
  pose proof (ar_describes _ _ _ _ _ _ _ _ Har) as Hds. set (hd := set_table_bytes n (stored_header h)).
  assert (Hpass : h_IsPassthrough hd = false).
  { destruct (opened_fields h hd ltac:(by exists n) (ds_version _ _ _ Hds)) as (_ & -> & _). apply Hds. }
  rewrite Hpass. cbv zeta.
  assert (Hbase : vfs_header_size hd + zlen (table_of frames) * 4 + grep_table_size hd = zlen metadata).
  { pose proof (vfs_header_size_ok h n (ds_wf _ _ _ Hds) (ds_version _ _ _ Hds)) as Hsize. fold hd in Hsize.
    rewrite Hsize, zlen_table_of, Hlen. unfold grep_table_size. change (h_TableBytes hd) with n. rewrite Z.gtb_ltb, (proj2 (Z.ltb_lt _ _)) by lia. lia. }
  rewrite Hbase, concat_entries_of.
  pose proof (grep_scan_ok ok cb r dict h input pss frames metadata tail Har Hcb hd ltac:(by exists n) ids (word_hit r target)) as Hscan.
  rewrite concat_entries_of in Hscan. apply (fun H => Hscan H Hfr [] (concat pss) 0 0 f ∅); try done.
  intros id. rewrite Hids. unfold word_hit. rewrite !andb_true_iff, Z.leb_le, Z.ltb_lt. rewrite Z.add_0_l, Z2Nat.id by done. set_solver.
Qed.

(** The entries of a file, to check hypotheses on its chunks. *)
Definition entries_in `{Zstd, Cipher} (passphrase file : bytes) : list ChunkEntry :=
  match ReadMetadata passphrase file with Ok ((_, _, entries), _) => entries | _ => [] end.

Lemma archived_entries {Z0 : Zstd} {C0 : Cipher} {F0 : Files} {ZL : ZstdLaws Z0} {CL : CipherLaws C0} r passphrase input file chunks :
  archived r passphrase input file chunks -> entries_in passphrase file = map p_entry chunks.
Proof.
  intros (cb & dict & h & pss & frames & metadata & tail & -> & Har & _ & -> & _). unfold entries_in.
  destruct (archive_read _ _ _ _ _ _ _ _ Har) as (n & _ & _ & -> & _). apply concat_entries_of.
Qed.

(** The codeword [5; 6; 7; 8] holds the text, and only the second chunk is made of it. *)
Lemma Grep_matches_witness :
  Grep (F0 := brain_disk) (R := os_File) [6; 7] (packed_sample sample_input) (packed_sample sample_input) (str "brain") =
  Ok [{| gm_Index := 1; gm_Offset := 4; gm_Content := Some [5; 6; 7; 8] |}].
Proof.
  destruct (packed_sample_archived sample_input [] sample_input_ok) as [chunks Ha]; [vm_compute; split; congruence|].
  pose proof (archived_entries (F0 := brain_disk) _ _ _ _ _ Ha) as He.
  assert (Hn : forallb (fun e => negb (e_CodebookIndex e =? FractalCodebookIndex)) (map p_entry chunks) = true)
    by (rewrite <-He; vm_compute; reflexivity).
  rewrite (Grep_matches (F0 := brain_disk) (fun f => f = packed_sample sample_input) sample_reader sample_input
    (packed_sample sample_input) chunks [6; 7] (packed_sample sample_input) (str "brain")).
  - rewrite <-He. vm_compute. reflexivity.
  - exact Ha.
  - vm_compute. reflexivity.
  - apply good_sample_reader.
  - apply os_File_laws.
  - reflexivity.
  - apply Forall_forall. intros p Hp _ E. rewrite forallb_forall in Hn. specialize (Hn (p_entry p) (in_map _ _ _ (proj1 (list_elem_of_In _ _) Hp))).
    apply Z.eqb_eq in E. rewrite E in Hn. discriminate Hn.
Defined.
