(* ===== verification/AutoBrain.v ===== *)
(** [internal/autobrain]: which brain a file is packed with - the kind of the file, the brains of a
    directory and the choice between them - and the test a brain from the network has to pass. *)

From S2P Require Import Prelude Binary Sha256 Externals Crypto Format Delta Chunker Codebook.
From S2P Require Import Fractal Entropy Search Pack Protocol.
Import codebook Format.

(** ** The kind of a file ([detector.go]) *)

Record DetectionResult := {
  dr_Category : bytes;
  dr_Confidence : float64;
  dr_Entropy : float64;
  dr_MagicHint : bytes;
}.

Definition detected (category : string) (confidence : Z * Z) (eScore : float64) (hint : string) : DetectionResult :=
  {| dr_Category := str category; dr_Confidence := f64_lit confidence.1 confidence.2; dr_Entropy := eScore; dr_MagicHint := str hint |}.

(** [strings.ToUpper] and [strings.ToLower] as far as a search for ASCII text can see: of the runes beyond
    ASCII only U+017F and U+0131 have an ASCII upper case, and U+0130 and U+212A an ASCII lower case. *)
Fixpoint ToUpper (s : bytes) : bytes :=
  match s with
  | 0xC5 :: ((0xBF :: rest) as _) => 83 :: ToUpper rest
  | 0xC4 :: ((0xB1 :: rest) as _) => 73 :: ToUpper rest
  | c :: rest => (if (97 <=? c) && (c <=? 122) then c - 32 else c) :: ToUpper rest
  | [] => []
  end.

Fixpoint ToLower (s : bytes) : bytes :=
  match s with
  | 0xC4 :: ((0xB0 :: rest) as _) => 105 :: ToLower rest
  | 0xE2 :: ((0x84 :: ((0xAA :: rest) as _)) as _) => 107 :: ToLower rest
  | c :: rest => (if (65 <=? c) && (c <=? 90) then c + 32 else c) :: ToLower rest
  | [] => []
  end.

Definition is_printable (b : Z) : bool := ((32 <=? b) && (b <=? 126)) || (b =? 10) || (b =? 13) || (b =? 9).

Section detect.
Context {log2 : MathLog2} {order : MapOrder}.

(** The checks of [buf] that settle the kind, in order. *)
Definition detect_magic (eScore : float64) (buf : bytes) : option DetectionResult :=
  if has_prefix buf [0x89; 0x50; 0x4E; 0x47] then Some (detected "compressed" (1, 1) eScore "png")
  else if has_prefix buf [0x50; 0x4B; 0x03; 0x04] then Some (detected "compressed" (1, 1) eScore "zip")
  else if has_prefix buf [0x1F; 0x8B] then Some (detected "compressed" (1, 1) eScore "gzip")
  else if has_prefix buf [0xFF; 0xD8; 0xFF] then Some (detected "compressed" (1, 1) eScore "jpeg")
  else if has_prefix buf (str "GIF87a") || has_prefix buf (str "GIF89a") then Some (detected "compressed" (1, 1) eScore "gif")
  else if (zlen buf >=? 12) && has_at buf 0 (str "RIFF") && has_at buf 8 (str "WEBP") then Some (detected "compressed" (1, 1) eScore "webp")
  else if has_prefix buf (str "BM") then Some (detected "raw_image" (9, 10) eScore "bmp")
  else if has_prefix buf [0x49; 0x49; 0x2A; 0x00] || has_prefix buf [0x4D; 0x4D; 0x00; 0x2A] then Some (detected "raw_image" (9, 10) eScore "tiff")
  else if has_prefix buf [0x7F; 0x45; 0x4C; 0x46] then Some (detected "binary" (9, 10) eScore "elf")
  else if has_prefix buf (str "%PDF") then Some (detected "binary" (9, 10) eScore "pdf")
  else None.

Definition contains_any (s : bytes) (words : list string) : bool := existsb (fun w => contains s (str w)) words.

Definition detect_content (eScore : float64) (buf : bytes) : DetectionResult :=
  let upperContent := ToUpper buf in
  let isSQL := contains_any upperContent ["SELECT "; "INSERT INTO "; "CREATE TABLE "]%string in
  let isCode := contains_any buf ["func "; "class "; "def "; "package "; "import "; "function "]%string in
  let isSVG := contains buf (str "<svg") || contains upperContent (str "XML") in
  if isSVG then detected "raw_image" (8, 10) eScore "svg"
  else if isSQL then detected "text_sql" (8, 10) eScore "sql"
  else if isCode then detected "text_code" (7, 10) eScore "code"
  else
    let printableChars := zlen (filter (fun b => is_printable b = true) buf) in
    let printableRatio := f64_div (f64_of_int printableChars) (f64_of_int (zlen buf)) in
    if f64_ltb (f64_lit 85 100) printableRatio then detected "text_logs" (7, 10) eScore "text"
    else if f64_ltb (f64_lit 65 10) eScore then detected "binary" (5, 10) eScore "unknown"
    else detected "binary" (3, 10) eScore "unknown".

Definition DetectFormat (file : option bytes) : res DetectionResult :=
  match file with
  | None => Err "detect format"
  | Some data =>
      let '(eScore, buf) := Analyze data 8192 in
      if zlen buf =? 0 then Ok (detected "empty" (1, 1) (f64_of_int 0) "none")
      else Ok (match detect_magic eScore buf with Some det => det | None => detect_content eScore buf end)
  end.

(** ** The brains of a directory ([router.go]) *)

(** A [map[string]string]; [None] is the nil map. *)
Abbreviation Mapping := (option (gmap bytes bytes)).

Definition mapping_get (m : Mapping) (key : bytes) : bytes := default [] (default ∅ m !! key).

Definition mapping_set (key path : bytes) (m : Mapping) : res Mapping :=
  match m with Some m => Ok (Some (<[key := path]> m)) | None => Panic NilMapWrite end.

Record BrainRouter := {
  br_brainDir : bytes;
  br_mapping : Mapping;
}.

(** [brains.json]: absent, unreadable, not JSON, or what it decodes to. *)
Inductive brains_config : Set :=
  | NoConfig
  | UnreadableConfig
  | MalformedConfig
  | Config (m : Mapping).

(** What the path of the directory leads to: its files, each with whether it is a directory. *)
Inductive brain_dir : Set :=
  | MissingDir (created : bool)
  | NotADir
  | Dir (config : brains_config) (files : option (list (bytes * bool))).

(** The category a file name stands for, if it has no brain yet. *)
Definition category_of (name : bytes) (m : Mapping) : option bytes :=
  let free cat := bytes_eqb (mapping_get m (str cat)) [] in
  if contains name (str "log") && free "text_logs" then Some (str "text_logs")
  else if contains name (str "sql") && free "text_sql" then Some (str "text_sql")
  else if contains name (str "code") && free "text_code" then Some (str "text_code")
  else if contains_any name ["img"; "image"; "bmp"; "tiff"; "svg"]%string && free "raw_image" then Some (str "raw_image")
  else if contains name (str "universal") && free "universal" then Some (str "universal")
  else None.

Fixpoint discover (dir : bytes) (files : list (bytes * bool)) (m : Mapping) : res Mapping :=
  match files with
  | [] => Ok m
  | (name, isDir) :: files =>
      if isDir || negb (HasSuffix name (str ".cromdb")) then discover dir files m
      else
        match category_of (ToLower name) m with
        | Some cat => m ← mapping_set cat (Join dir name) m; discover dir files m
        | None => discover dir files m
        end
  end.

Definition NewBrainRouter (dir : bytes) (d : brain_dir) : res BrainRouter :=
  match d with
  | MissingDir false => Err "could not create brain dir"
  | MissingDir true => Ok {| br_brainDir := dir; br_mapping := Some ∅ |}
  | NotADir => Err "not a directory"
  | Dir config files =>
      m ← match config with
          | NoConfig => Ok (Some ∅)
          | UnreadableConfig => Err "error reading brains.json"
          | MalformedConfig => Err "failed to parse brains.json"
          | Config m => Ok m
          end;
      match files with
      | None => Err "reading brain dir"
      | Some files => m ← discover dir files m; Ok {| br_brainDir := dir; br_mapping := m |}
      end
  end.

(** ** The choice *)

Definition is_text (cat : bytes) : bool :=
  bytes_eqb cat (str "text_logs") || bytes_eqb cat (str "text_sql") || bytes_eqb cat (str "text_code").
Definition is_image (cat : bytes) : bool := bytes_eqb cat (str "raw_image").

(** The entry of a category, when the file it names is there. *)
Definition brain_of (m : Mapping) (exists_ : bytes -> bool) (cat : bytes) : option bytes :=
  let path := mapping_get m cat in
  if negb (bytes_eqb path []) && exists_ path then Some path else None.

(** The last resort: any brain of another domain than the opposite one, in the order of [range]. *)
Fixpoint any_brain (category : bytes) (exists_ : bytes -> bool) (brains : list (bytes * bytes)) : option bytes :=
  match brains with
  | [] => None
  | (cat, p) :: brains =>
      if bytes_eqb p [] then any_brain category exists_ brains
      else if is_text category && is_image cat then any_brain category exists_ brains
      else if is_image category && is_text cat then any_brain category exists_ brains
      else if exists_ p then Some p else any_brain category exists_ brains
  end.

(** [range r.mapping], in some order. *)
Class BrainOrder := brain_order : gmap bytes bytes -> list (bytes * bytes).
Class BrainOrderLaws (O : BrainOrder) := brain_order_perm m : brain_order m ≡ₚ map_to_list m.
Context {BO : BrainOrder}.

Definition SelectBrain (r : BrainRouter) (exists_ : bytes -> bool) (file : option bytes) : res (bytes * DetectionResult) :=
  det ← DetectFormat file;
  let hint := dr_MagicHint det in
  match brain_of (br_mapping r) exists_ (dr_Category det) with
  | Some path => Ok (path, det)
  | None =>
      match (if negb (bytes_eqb hint (str "unknown")) && negb (bytes_eqb hint (str "none"))
             then brain_of (br_mapping r) exists_ hint else None) with
      | Some path => Ok (path, det)
      | None =>
          match brain_of (br_mapping r) exists_ (str "universal") with
          | Some path => Ok (path, det)
          | None =>
              match any_brain (dr_Category det) exists_ (brain_order (default ∅ (br_mapping r))) with
              | Some path => Ok (path, det)
              | None => Err "no valid codebooks found"
              end
          end
      end
  end.
End detect.

(** ** Brains from the network ([quarantine.go]) *)

(** The trust file holds the identifiers of peers. *)
Definition IsPeerTrusted (trusted : list bytes) (peerID : bytes) : bool := existsb (bytes_eqb peerID) trusted.

Definition sampleText : bytes :=
  str "CROM CANONICAL SAMPLE: Validating Darwinian efficiency." ++
  concat (replicate 1000 (str " Repeated sequence to test basic deduplication and codebook hit rate.")).

Definition quarantine_options : PackOptions := {|
  o_Mode := o_Mode DefaultPackOptions; o_CodebookPaths := []; o_EncryptionKey := [];
  o_UseConvergentEncryption := false; o_GlobalSecret := []; o_ChunkSize := 64; o_UseCDC := false; o_UseACAC := false;
  o_ACACDelimiter := 0; o_MultiPass := false; o_MaxCompression := false; o_EmbedBrain := false |}.

Definition quarantine_disk (tmpFile payload : bytes) : Files := fun path => if bytes_eqb path tmpFile then Some payload else None.

Section quarantine.
Context {Z0 : Zstd} {C0 : Cipher} {hash64 : XXHash} {log2 : MathLog2} {order : MapOrder}.

(** The directory of brains after the call. [tmpFile], a name made of the peer and the time, holds the payload
    while the sample is packed with it. *)
Definition ValidateAndPromoteBrain (hasSIMD : bool) (rnd : Randomness) (schedule : Z -> nat -> list nat) (trusted : list bytes)
    (tmpFile peerID payload : bytes) (brains : gmap bytes bytes) : res (gmap bytes bytes) :=
  if negb (IsPeerTrusted trusted peerID) then Err "quarantine: peer is not in the Web of Trust" else
  if zlen payload >? 32 * 1024 * 1024 then Err "quarantine: payload exceeds 32MiB safety cap" else
  packed ← wrap_err "quarantine: proof of compression failed" (Pack (F0 := quarantine_disk tmpFile payload) hasSIMD rnd schedule sampleText tmpFile quarantine_options);
  let ratio := f64_div (f64_of_int (zlen packed)) (f64_of_int (zlen sampleText)) in
  if f64_ltb (f64_lit 95 100) ratio then Err "quarantine: rejected by Proof of Compression"
  else Ok (<[str "trusted_" ++ peerID ++ str ".cromdb" := payload]> brains).

Lemma wrap_err_ok {A} msg (r : res A) a : wrap_err msg r = Ok a -> r = Ok a.
Proof. by destruct r. Qed.

Lemma Pack_opens {F0 : Files} hasSIMD rnd schedule input path opts packed :
  Pack hasSIMD rnd schedule input path opts = Ok packed -> path <> [] -> o_CodebookPaths opts = [] -> exists r, Open path = Ok r.
Proof.
  unfold Pack. intros (pl & Hpl & _)%bind_ok Hpath Hp. unfold make_plan in Hpl. destruct (Analyze _ _) as [e b].
  assert (Hz : (zlen path =? 0) = false) by (apply Z.eqb_neq; by intros ?%zlen_0_nil).
  unfold has_brain, open_brains, open_optional in Hpl. rewrite Hz, Hp in Hpl. cbn in Hpl.
  apply bind_ok in Hpl as (cbs & (cb & (r & Hr & _)%bind_ok & _)%bind_ok & _). exists r. by apply wrap_err_ok in Hr.
Qed.

(** A brain is promoted only for a trusted peer, within the size limit, and when it opens; only its own name changes. *)
Lemma ValidateAndPromoteBrain_ok hasSIMD rnd schedule trusted tmpFile peerID payload brains brains' :
  tmpFile <> [] -> ValidateAndPromoteBrain hasSIMD rnd schedule trusted tmpFile peerID payload brains = Ok brains' ->
  peerID ∈ trusted /\ zlen payload <= 32 * 1024 * 1024 /\ (exists r, Open (H := fun _ => Some payload) tmpFile = Ok r) /\
  brains' = <[str "trusted_" ++ peerID ++ str ".cromdb" := payload]> brains.
Proof.
  intros Ht. unfold ValidateAndPromoteBrain, IsPeerTrusted. generalize sampleText as sample. intros sample. destruct (existsb (bytes_eqb peerID) trusted) eqn:Etr; [|done]. cbn [negb].
  rewrite Z.gtb_ltb. destruct (Z.ltb_spec (32 * 1024 * 1024) (zlen payload)) as [|Hl]; [done|]. intros (packed & Hp & Hr)%bind_ok.
  split; [|split; [done|split]].
  - apply existsb_exists in Etr as (x & Hx & E%bytes_eqb_true). subst x. by apply list_elem_of_In.
  - apply wrap_err_ok in Hp. apply Pack_opens in Hp as [r Hr']; [|done|done]. exists r. rewrite <-Hr'. unfold Open, read_file, quarantine_disk.
    assert (bytes_eqb tmpFile tmpFile = true) as -> by by apply bytes_eqb_true. done.
  - destruct (f64_ltb _ _); [done|]. by injection Hr as <-.
Qed.
End quarantine.

(** ** Domains *)

(** Text brains are not for images, and image brains not for text. *)
Definition suits (category cat : bytes) : Prop :=
  (is_text category = true -> is_image cat = false) /\ (is_image category = true -> is_text cat = false).

Lemma text_not_image cat : is_text cat = true -> is_image cat = false.
Proof.
  unfold is_text, is_image. rewrite !orb_true_iff, !bytes_eqb_true. by intros [[-> | ->]| ->].
Qed.

Lemma suits_refl cat : suits cat cat.
Proof. split; [apply text_not_image|]. intros Hi. destruct (is_text cat) eqn:E; [|done]. apply text_not_image in E. congruence. Qed.

Lemma suits_neutral category cat : is_text cat = false -> is_image cat = false -> suits category cat.
Proof. by split. Qed.

Section choice.
Context {log2 : MathLog2} {order : MapOrder}.

Lemma detect_magic_hint eScore buf det :
  detect_magic eScore buf = Some det -> is_text (dr_MagicHint det) = false /\ is_image (dr_MagicHint det) = false.
Proof.
  unfold detect_magic. intros H. repeat match type of H with (if ?b then _ else _) = _ => destruct b; [injection H as <-; by split|] end. done.
Qed.

Lemma detect_content_hint eScore buf :
  is_text (dr_MagicHint (detect_content eScore buf)) = false /\ is_image (dr_MagicHint (detect_content eScore buf)) = false.
Proof. unfold detect_content. cbv zeta. repeat match goal with |- context [if ?b then detected _ _ _ _ else _] => destruct b; [by split|] end. by split. Qed.

Lemma DetectFormat_hint file det :
  DetectFormat file = Ok det -> is_text (dr_MagicHint det) = false /\ is_image (dr_MagicHint det) = false.
Proof.
  destruct file as [data|]; [|done]. unfold DetectFormat. destruct (Analyze data 8192) as [eScore buf].
  destruct (zlen buf =? 0); [by intros [= <-]|]. destruct (detect_magic eScore buf) as [d|] eqn:E; intros [= <-].
  - by apply (detect_magic_hint eScore buf).
  - apply detect_content_hint.
Qed.

Lemma brain_of_ok m exists_ cat path :
  brain_of m exists_ cat = Some path -> mapping_get m cat = path /\ path <> [] /\ exists_ path = true.
Proof.
  unfold brain_of. destruct (bytes_eqb (mapping_get m cat) []) eqn:E; [done|]. cbn [negb andb]. destruct (exists_ _) eqn:Ex; [|done].
  intros [= <-]. split; [done|]. split; [|done]. intros Hn. rewrite Hn in E. done.
Qed.

Lemma any_brain_spec category exists_ brains :
  match any_brain category exists_ brains with
  | Some path => path <> [] /\ exists_ path = true /\ exists cat, (cat, path) ∈ brains /\ suits category cat
  | None => forall cat path, (cat, path) ∈ brains -> suits category cat -> path <> [] -> exists_ path = false
  end.
Proof.
  induction brains as [|[cat p] brains IH]; cbn [any_brain]; [by intros cat path ?%elem_of_nil|].
  assert (Hskip : (suits category cat -> p <> [] -> exists_ p = false) -> match any_brain category exists_ brains with
    | Some path => path <> [] /\ exists_ path = true /\ exists cat', (cat', path) ∈ (cat, p) :: brains /\ suits category cat'
    | None => forall cat' path, (cat', path) ∈ (cat, p) :: brains -> suits category cat' -> path <> [] -> exists_ path = false
    end).
  { intros Hno. destruct (any_brain category exists_ brains) as [path|].
    - destruct IH as (H1 & H2 & cat' & H3 & H4). split; [done|]. split; [done|]. exists cat'. split; [by right|done].
    - intros cat' path [[= -> ->]|Hin]%elem_of_cons; [done|by apply IH]. }
  destruct (bytes_eqb p []) eqn:Ep; [apply Hskip; apply bytes_eqb_true in Ep; by intros _ ?|].
  destruct (is_text category && is_image cat) eqn:E1.
  { apply Hskip. apply andb_true_iff in E1 as [Ht Hi]. intros [Hs _]. rewrite (Hs Ht) in Hi. done. }
  destruct (is_image category && is_text cat) eqn:E2.
  { apply Hskip. apply andb_true_iff in E2 as [Hi Ht]. intros [_ Hs]. rewrite (Hs Hi) in Ht. done. }
  destruct (exists_ p) eqn:Ex; [|by apply Hskip]. split; [by intros ->|]. split; [done|]. exists cat. split; [left|].
  split; intros E; [rewrite E in E1|rewrite E in E2]; done.
Qed.

Context {BO : BrainOrder} {BOL : BrainOrderLaws BO}.

(** The choice of a brain respects the domains and does not give up early. When [SelectBrain] answers, it is
    with a file that exists and is registered under some category, never an image brain for text or a text
    brain for an image; when it refuses a file that can be read, then no brain of a suitable category exists. *)
Theorem SelectBrain_domain r exists_ file :
  match SelectBrain r exists_ file with
  | Ok (path, det) => DetectFormat file = Ok det /\ exists_ path = true /\ path <> [] /\
      exists cat, mapping_get (br_mapping r) cat = path /\ suits (dr_Category det) cat
  | Err _ => file = None \/ exists det, DetectFormat file = Ok det /\
      forall cat, suits (dr_Category det) cat -> mapping_get (br_mapping r) cat <> [] -> exists_ (mapping_get (br_mapping r) cat) = false
  | Panic _ => False
  end.
Proof.
  unfold SelectBrain. destruct (DetectFormat file) as [det|e|p] eqn:Ed; cbn [mbind res_bind].
  2:{ destruct file as [data|]; [|by left]. unfold DetectFormat in Ed. destruct (Analyze _ _). by destruct (_ =? 0). }
  2:{ destruct file as [data|]; [|done]. unfold DetectFormat in Ed. destruct (Analyze _ _). by destruct (_ =? 0). }
  destruct (DetectFormat_hint file det Ed) as [Hh1 Hh2].
  assert (Hfound : forall cat path, brain_of (br_mapping r) exists_ cat = Some path -> suits (dr_Category det) cat ->
    Ok det = Ok det /\ exists_ path = true /\ path <> [] /\ exists cat, mapping_get (br_mapping r) cat = path /\ suits (dr_Category det) cat).
  { intros cat path (H1 & H2 & H3)%brain_of_ok Hs. eauto 6. }
  destruct (brain_of (br_mapping r) exists_ (dr_Category det)) as [path|] eqn:E1; [apply (Hfound _ _ E1), suits_refl|].
  destruct (if _ && _ then brain_of (br_mapping r) exists_ (dr_MagicHint det) else None) as [path|] eqn:E2.
  { destruct (_ && _); [|done]. by apply (Hfound _ _ E2), suits_neutral. }
  destruct (brain_of (br_mapping r) exists_ (str "universal")) as [path|] eqn:E3; [by apply (Hfound _ _ E3), suits_neutral|].
  pose proof (any_brain_spec (dr_Category det) exists_ (brain_order (default ∅ (br_mapping r)))) as Hany.
  assert (Hin : forall cat path, (cat, path) ∈ brain_order (default ∅ (br_mapping r)) <-> default ∅ (br_mapping r) !! cat = Some path).
  { intros cat path. rewrite (brain_order_perm (default ∅ (br_mapping r))). apply elem_of_map_to_list. }
  destruct (any_brain _ _ _) as [path|].
  - destruct Hany as (H1 & H2 & cat & H3%Hin & H4). split; [done|]. split; [done|]. split; [done|]. exists cat. split; [|done].
    unfold mapping_get. by rewrite H3.
  - right. exists det. split; [done|]. intros cat Hs Hne. unfold mapping_get in *. destruct (default ∅ (br_mapping r) !! cat) as [path|] eqn:Em; [|done].
    apply (Hany cat path); [by apply Hin|done|done].
Qed.

(** A log that mentions XML is taken for an image. *)
Lemma DetectFormat_xml_log :
  match DetectFormat (Some (str "12:00 INFO parsed xml reply")) with Ok det => dr_Category det = str "raw_image" | _ => False end.
Proof. reflexivity. Qed.
End choice.

(** What discovery registers: configured brains stay, and what is new is a brain file of the directory. *)
Lemma category_of_free name m cat : category_of name m = Some cat -> mapping_get m cat = [].
Proof.
  unfold category_of. cbv zeta. intros H.
  repeat match type of H with (if ?b && bytes_eqb ?x [] then Some ?c else _) = _ =>
    destruct (b && bytes_eqb x []) eqn:?E; [injection H as <-; apply andb_true_iff in E as [_ E]; by apply bytes_eqb_true in E|clear E] end. done.
Qed.

Lemma discover_entries dir files m m' :
  discover dir files m = Ok m' -> forall cat,
  mapping_get m' cat = mapping_get m cat \/
  mapping_get m cat = [] /\ exists name, (name, false) ∈ files /\ HasSuffix name (str ".cromdb") = true /\ mapping_get m' cat = Join dir name.
Proof.
  revert m; induction files as [|[name isDir] files IH]; intros m; cbn [discover]; [intros [= <-]; by left|].
  assert (Hskip : discover dir files m = Ok m' -> forall cat, mapping_get m' cat = mapping_get m cat \/
    mapping_get m cat = [] /\ exists name', (name', false) ∈ (name, isDir) :: files /\ HasSuffix name' (str ".cromdb") = true /\ mapping_get m' cat = Join dir name').
  { intros H cat. destruct (IH m H cat) as [?|(? & n & ? & ? & ?)]; [by left|right]. split; [done|]. exists n. split; [by right|done]. }
  destruct isDir; [exact Hskip|]. destruct (HasSuffix name (str ".cromdb")) eqn:Es; [|exact Hskip]. cbn [orb negb].
  destruct (category_of (ToLower name) m) as [cat'|] eqn:Ec; [|exact Hskip].
  intros (m1 & Hset & H)%bind_ok cat. destruct m as [m|]; [|done]. injection Hset as <-. apply category_of_free in Ec.
  destruct (decide (cat = cat')) as [->|Hne].
  - right. split; [done|]. destruct (IH _ H cat') as [E|(_ & n & ? & ? & ?)]; [|exists n; split; [by right|done]].
    exists name. split; [left|]. split; [done|]. rewrite E. unfold mapping_get. cbn. by rewrite lookup_insert_eq.
  - assert (Em : mapping_get (Some (<[cat':=Join dir name]> m)) cat = mapping_get (Some m) cat) by (unfold mapping_get; cbn; by rewrite lookup_insert_ne).
    destruct (IH _ H cat) as [E|(E & n & ? & ? & ?)]; rewrite Em in E; [by left|right]. split; [done|]. exists n. split; [by right|done].
Qed.

(** A [brains.json] that holds [null] leaves a nil map, and the first brain found panics. *)
Lemma NewBrainRouter_null :
  NewBrainRouter (str "brains") (Dir (Config None) (Some [(str "brain_logs.cromdb", false)])) = Panic NilMapWrite.
Proof. reflexivity. Qed.

(** A text file, and a directory with an image brain and a brain for SQL. *)
Lemma SelectBrain_domain_witness :
  let brains : gmap bytes bytes := {[str "raw_image" := str "img.cromdb"; str "text_sql" := str "sql.cromdb"]} in
  let r := {| br_brainDir := str "brains"; br_mapping := Some brains |} in
  let file := Some (str "plain text") in
  let log2 : MathLog2 := fun _ => f64_of_int 0 in
  exists det, SelectBrain (log2 := log2) (order := key_order) (BO := map_to_list) r (fun _ => true) file = Ok (str "sql.cromdb", det) /\
    exists cat, mapping_get (br_mapping r) cat = str "sql.cromdb" /\ suits (dr_Category det) cat.
Proof.
  intros brains r file log2.
  pose proof (SelectBrain_domain (log2 := log2) (order := key_order) (BO := map_to_list) (BOL := fun m => Permutation_refl _) r (fun _ => true) file) as H.
  assert (E : match SelectBrain (log2 := log2) (order := key_order) (BO := map_to_list) r (fun _ => true) file with Ok (p, _) => bytes_eqb p (str "sql.cromdb") | _ => false end = true)
    by (vm_compute; reflexivity).
  destruct (SelectBrain r (fun _ => true) file) as [[p det]|e|x]; [|discriminate E|discriminate E].
  apply bytes_eqb_true in E. subst p. exists det. split; [reflexivity|]. apply H.
Defined.
