(* ===== verification/CromFS.v ===== *)
(** [internal/cromfs]: a write-only file system that packs what is written to its files. Every open file
    feeds a pipe, and a packer at the other end turns it into an archive of the output directory. *)

From S2P Require Import Prelude Binary Sha256 Externals Crypto Format Delta Chunker Codebook.
From S2P Require Import Fractal Entropy Search Unpack Pack ChunkCodec BlockCodec RoundTrip Protocol.
Import codebook Format.

Record CromFS := {
  fs_OutputPool : bytes;
  fs_CodebookPath : bytes;
}.

(** ** The directory *)

(** The nodes of the mount: the root, and a file for every name that is looked up. *)
Inductive node := Dir (path : bytes) | File (name : bytes).

Record Attr := { at_Inode : Z; at_dir : bool; at_Mode : Z; at_Size : Z }.

Definition Root (fs : CromFS) : node := Dir (fs_OutputPool fs).

(** The attributes that the code leaves alone are zero: the inode of a file and its size. *)
Definition node_Attr (n : node) : Attr :=
  match n with
  | Dir _ => {| at_Inode := 1; at_dir := true; at_Mode := 493; at_Size := 0 |}
  | File _ => {| at_Inode := 0; at_dir := false; at_Mode := 420; at_Size := 0 |}
  end.

Definition Dir_Lookup (name : bytes) : option node := Some (File name).

Definition ReadDirAll : list (bytes * node) := [].

(** ** Mounting *)

(** [mounts] and [serves] are what the FUSE library answers. *)
Definition Mount (mounts serves : res unit) (outputPool codebookPath : bytes) : res CromFS :=
  _ ← mounts; _ ← serves; Ok {| fs_OutputPool := outputPool; fs_CodebookPath := codebookPath |}.

(** The command [cromfs]; what [os.MkdirAll] answers for the output directory is not looked at. *)
Definition cromfs_RunE (mounts serves : res unit) (mountPoint outPool codebookPath : bytes) : res CromFS :=
  if (zlen mountPoint =? 0) || (zlen outPool =? 0) || (zlen codebookPath =? 0)
  then Err "flags --mountpoint, --out-pool e --codebook obrigatórias"
  else Mount mounts serves outPool codebookPath.

(** ** Files *)

(** A file and the output directory. [fi_pw] is what went through the pipe, while there is one. *)
Record fs_state := {
  fi_pw : option bytes;
  fs_pool : gmap bytes bytes;
}.

Inductive fs_op : Set :=
  | OpWrite (offset : Z) (data : bytes)
  | OpFlush.

Definition cromfs_options : PackOptions := {|
  o_Mode := ""; o_CodebookPaths := []; o_EncryptionKey := []; o_UseConvergentEncryption := false; o_GlobalSecret := [];
  o_ChunkSize := 128; o_UseCDC := false; o_UseACAC := true; o_ACACDelimiter := 10; o_MultiPass := false;
  o_MaxCompression := false; o_EmbedBrain := false |}.

Section fs.
Context {Z0 : Zstd} {C0 : Cipher} {F0 : Files} {hash64 : XXHash} {log2 : MathLog2} {order : MapOrder}.
Variables (hasSIMD : bool) (schedule : Z -> nat -> list nat) (fs : CromFS) (name : bytes).

Definition out_path : bytes := Join (fs_OutputPool fs) (name ++ str ".crom").

(** The packer opens the brain before it reads from the pipe. *)
Definition packer_reads : bool :=
  match open_optional "stream: open codebook" (fs_CodebookPath fs) with Ok _ => true | _ => false end.

(** [Dir.Create] starts a packer. *)
Definition Create (pool : gmap bytes bytes) : fs_state := {| fi_pw := Some []; fs_pool := pool |}.

(** A file that was looked up has no packer until it is written to. *)
Definition looked_up (pool : gmap bytes bytes) : fs_state := {| fi_pw := None; fs_pool := pool |}.

(** A write to the pipe; the offset is ignored. [None] when it never returns: the packer stopped without
    reading, and nothing closes its end. The archive a packer is still writing is left out of the state. *)
Definition fs_Write (data : bytes) (st : fs_state) : option fs_state :=
  if packer_reads then Some {| fi_pw := Some (default [] (fi_pw st) ++ data); fs_pool := fs_pool st |} else None.

(** The end of the pipe: the packer finishes, and its error is dropped. *)
Definition fs_Flush (st : fs_state) : res fs_state :=
  match fi_pw st with
  | None => Ok st
  | Some data =>
      match PackStream hasSIMD schedule data (fs_CodebookPath fs) cromfs_options with
      | Panic p => Panic p
      | Ok file => Ok {| fi_pw := None; fs_pool := <[out_path := file]> (fs_pool st) |}
      | Err _ => Ok {| fi_pw := None; fs_pool := if packer_reads then delete out_path (fs_pool st) else fs_pool st |}
      end
  end.

(** A sequence of calls on one file; [Ok None] when one of them never returns. *)
Fixpoint fs_run (ops : list fs_op) (st : fs_state) : res (option fs_state) :=
  match ops with
  | [] => Ok (Some st)
  | OpWrite _ data :: ops => match fs_Write data st with Some st => fs_run ops st | None => Ok None end
  | OpFlush :: ops => st ← fs_Flush st; fs_run ops st
  end.

(** ** Sessions *)

(** Writes at any offsets, and the flush that ends them. *)
Definition session (writes : list (Z * bytes)) : list fs_op := map (fun w => OpWrite w.1 w.2) writes ++ [OpFlush].
Definition session_data (writes : list (Z * bytes)) : bytes := concat (map snd writes).

Lemma fs_run_app ops1 ops2 st st1 : fs_run ops1 st = Ok (Some st1) -> fs_run (ops1 ++ ops2) st = fs_run ops2 st1.
Proof.
  revert st; induction ops1 as [|[off data|] ops1 IH]; intros st; cbn [app fs_run]; [by intros [= ->]| |].
  - destruct (fs_Write data st); [apply IH|done].
  - destruct (fs_Flush st) as [st'|e|p]; cbn [mbind res_bind]; [apply IH|done|done].
Qed.

Lemma fs_run_writes writes st :
  packer_reads = true -> writes <> [] ->
  fs_run (map (fun w => OpWrite w.1 w.2) writes) st = Ok (Some {| fi_pw := Some (default [] (fi_pw st) ++ session_data writes); fs_pool := fs_pool st |}).
Proof.
  intros Hr. revert st; induction writes as [|[off data] writes IH]; intros st; [done|]. intros _. cbn [map fs_run fst snd]. unfold fs_Write. rewrite Hr.
  destruct writes as [|w writes].
  - cbn. unfold session_data. cbn. by rewrite app_nil_r.
  - rewrite IH by done. unfold session_data. cbn. by rewrite <-app_assoc.
Qed.

Lemma fs_run_session writes file pw pool :
  packer_reads = true -> writes <> [] -> PackStream hasSIMD schedule (default [] pw ++ session_data writes) (fs_CodebookPath fs) cromfs_options = Ok file ->
  fs_run (session writes) {| fi_pw := pw; fs_pool := pool |} = Ok (Some {| fi_pw := None; fs_pool := <[out_path := file]> pool |}).
Proof.
  intros Hr Hw Hp. unfold session. rewrite (fs_run_app _ _ _ _ (fs_run_writes writes _ Hr Hw)). cbn [fi_pw fs_pool fs_run]. unfold fs_Flush. cbn [fi_pw]. by rewrite Hp.
Qed.

Context {ZL : ZstdLaws Z0} {CL : CipherLaws C0}.

Lemma cromfs_packs input cb intn :
  brain_at (fs_CodebookPath fs) cb -> (forall i n, schedule i n ≡ₚ seq 0 n) -> bytes_ok input -> 0 < zlen input <= 2 ^ 27 ->
  packer_reads = true /\ exists file, PackStream hasSIMD schedule input (fs_CodebookPath fs) cromfs_options = Ok file /\
    Unpack intn file (fs_CodebookPath fs) DefaultUnpackOptions = Ok input.
Proof.
  intros Hat Hsched Hok Hl. split; [unfold packer_reads; by rewrite (open_optional_ok _ _ cb Hat)|].
  assert (Hll : lossless cromfs_options) by done. pose proof Hat as [Hfit _].
  destruct (stream_chunker_ok cromfs_options cb (stream_chunkSize cromfs_options cb) Hfit) as (split & Es & Ht).
  destruct (PackStream_file hasSIMD schedule input (fs_CodebookPath fs) cb cromfs_options Hat Hll Hsched Hok ltac:(lia)) as (dict & h & pss & frames & metadata & -> & Har & _ & _ & Hopen).
  { intros split' E. rewrite Es in E. injection E as <-. pose proof (total_chunks_bound split input Ht). lia. }
  eexists. split; [done|]. by apply (Unpack_packed cb dict [] h input pss frames).
Qed.

(** [C27] A file holds its last session, and nothing else. With a usable brain every call returns, and after
    the writes of two sessions, each closed by a flush, the output directory has one archive under the name of the
    file, which unpacks to the bytes of the second session in the order they were written, whatever
    offsets the writes named: what the first session wrote is gone. *)
Theorem CromFS_last_session first second cb intn pool :
  brain_at (fs_CodebookPath fs) cb -> (forall i n, schedule i n ≡ₚ seq 0 n) ->
  bytes_ok (session_data first) -> 0 < zlen (session_data first) <= 2 ^ 27 ->
  bytes_ok (session_data second) -> 0 < zlen (session_data second) <= 2 ^ 27 ->
  exists old file, fs_run (session first) (Create pool) = Ok (Some {| fi_pw := None; fs_pool := <[out_path := old]> pool |}) /\
    Unpack intn old (fs_CodebookPath fs) DefaultUnpackOptions = Ok (session_data first) /\
    fs_run (session first ++ session second) (Create pool) = Ok (Some {| fi_pw := None; fs_pool := <[out_path := file]> pool |}) /\
    Unpack intn file (fs_CodebookPath fs) DefaultUnpackOptions = Ok (session_data second).
Proof.
  intros Hat Hsched Hok1 Hl1 Hok2 Hl2.
  destruct (cromfs_packs (session_data first) cb intn Hat Hsched Hok1 Hl1) as (Hr & old & Hp1 & Hu1).
  destruct (cromfs_packs (session_data second) cb intn Hat Hsched Hok2 Hl2) as (_ & file & Hp2 & Hu2).
  assert (Hne : forall ws, 0 < zlen (session_data ws) -> ws <> []) by (by intros ws H ->).
  assert (Hfirst : fs_run (session first) (Create pool) = Ok (Some {| fi_pw := None; fs_pool := <[out_path := old]> pool |}))
    by (apply fs_run_session; [done|apply Hne; lia|done]).
  exists old, file. split; [done|]. split; [done|]. split; [|done]. rewrite (fs_run_app _ _ _ _ Hfirst).
  rewrite (fs_run_session second file) by (done || (apply Hne; lia)). by rewrite insert_insert_eq.
Qed.

(** Writing over a file that is there is writing it anew: a session on the node of a lookup leaves what a
    session on a new file leaves. Without a write it leaves everything as it was. *)
Lemma CromFS_overwrite writes pool :
  (writes <> [] -> fs_run (session writes) (looked_up pool) = fs_run (session writes) (Create pool)) /\
  fs_run (session []) (looked_up pool) = Ok (Some (looked_up pool)).
Proof.
  split; [|done]. intros Hw. destruct writes as [|[off data] writes]; [done|]. unfold session. cbn [map app fs_run fst snd]. done.
Qed.

(** The mount shows nothing of what it holds: every name is a file, of size 0 and without an inode of its own,
    and the directory lists none of them. *)
Lemma CromFS_shows_nothing fs' name' :
  ReadDirAll = [] /\ exists n, Dir_Lookup name' = Some n /\ n <> Root fs' /\ at_Size (node_Attr n) = 0 /\ at_Inode (node_Attr n) = 0.
Proof. split; [done|]. by exists (File name'). Qed.

(** Without a usable brain the first write never returns, and a flush alone reports success. *)
Lemma CromFS_no_brain pool off data e :
  Open (fs_CodebookPath fs) = Err e -> fs_CodebookPath fs <> [] ->
  fs_run [OpWrite off data] (Create pool) = Ok None /\ fs_run [OpFlush] (Create pool) = Ok (Some {| fi_pw := None; fs_pool := pool |}).
Proof.
  intros He Hp. assert (Ho : open_optional "stream: open codebook" (fs_CodebookPath fs) = Err "stream: open codebook").
  { unfold open_optional. assert ((zlen (fs_CodebookPath fs) =? 0) = false) as -> by (apply Z.eqb_neq; by intros ?%zlen_0_nil). by rewrite He. }
  cbn. unfold fs_Write, fs_Flush, packer_reads. cbn [fi_pw Create]. unfold PackStream, stream_pool. rewrite Ho. done.
Qed.
End fs.

Lemma CromFS_last_session_witness :
  let fs := {| fs_OutputPool := str "pool"; fs_CodebookPath := str "brain" |} in
  let first := [(0, [1; 2; 3; 4]); (4, [9; 9])] in
  let second := [(6, [5; 6]); (0, [7; 8])] in
  exists file, fs_run (F0 := brain_disk) (log2 := log2_minus8) (order := key_order) true (fun _ n => seq 0 n) fs (str "log") (session first ++ session second) (Create ∅)
      = Ok (Some {| fi_pw := None; fs_pool := {[str "pool/log.crom" := file]} |}) /\
    Unpack (F0 := brain_disk) (fun _ => 0) file (str "brain") DefaultUnpackOptions = Ok [5; 6; 7; 8].
Proof.
  intros fs first second.
  destruct (CromFS_last_session (F0 := brain_disk) (log2 := log2_minus8) (order := key_order) true (fun _ n => seq 0 n) fs (str "log") first second
    (Some sample_reader) (fun _ => 0) ∅) as (old & file & _ & _ & Hrun & Hun).
  - apply sample_brain_at.
  - intros i n. reflexivity.
  - apply bytes_ok_dec. reflexivity.
  - split; [reflexivity|discriminate].
  - apply bytes_ok_dec. reflexivity.
  - split; [reflexivity|discriminate].
  - exists file. split; [exact Hrun|exact Hun].
Defined.
