(* ===== verification/TreeFS.v ===== *)
(** The directory tree of a mounted archive ([pkg/cromdb]), seen from its users: what an index of inodes
    promises (the class [TreeIndex] and its laws), the walk that ingests a path, and the refinement of
    a map from paths to nodes. [CromDb] and [WasmDb] are the two indexes. *)

From S2P Require Import Prelude Binary Sha256 Externals Crypto Format FormatIO Delta Chunker Codebook.
From S2P Require Import Fractal Entropy Search Unpack Pack ChunkCodec BlockCodec RoundTrip Archive Sync Bitswap Transfer Protocol.

(** ** Inodes *)

Record Inode := {
  i_ID : Z;
  i_ParentID : Z;
  i_Name : bytes;
  i_IsDir : bool;
  i_Size : Z;
  i_DataHash : bytes;
  i_Mode : Z;
  i_ModTime : Z;
}.

(** 16877 is [S_IFDIR | 0755]. *)
Definition dir_mode : Z := 16877.

(** What a user of the tree sees at a name. *)
Inductive Node :=
  | Dir
  | File (size : Z) (hash : bytes) (mode : Z).

#[export] Instance Node_eq_dec : EqDecision Node.
Proof. solve_decision. Defined.

Definition node_of (i : Inode) : Node := if i_IsDir i then Dir else File (i_Size i) (i_DataHash i) (i_Mode i).
Definition entry_of (i : Inode) : Z * Node := (i_ID i, node_of i).

(** The children by parent and name, with their ids. *)
Abbreviation view := (gmap (Z * bytes) (Z * Node)).

(** An id that no entry has, nor the root. *)
Definition fresh (k : Z) (v : view) : Prop := 1 < k /\ forall x e, v !! x = Some e -> e.1 <> k.

(** ** The interface

    The operations of [TreeFS] that the mount uses. An operation that changes the tree gives the state it
    leaves, also when it fails; the last integer is what the clock says. *)
Class TreeIndex (T : Type) := {
  getOrCreateDir : Z -> bytes -> Z -> T -> T * res Z;
  putFile : Z -> bytes -> Z -> bytes -> Z -> Z -> T -> T * res unit;
  GetChildren : Z -> T -> res (list Inode);
  LookupNode : Z -> bytes -> T -> res (option Inode);
}.

(** What the implementations have in common. They differ on a name that is a file where a directory is
    asked for, or a directory where a file is put: of these nothing is said here. *)
Class TreeIndexLaws (T : Type) {TI : TreeIndex T} := {
  ti_inv : T -> Prop;
  ti_view : T -> view;
  LookupNode_view t p n : ti_inv t -> 1 <= p ->
    exists r, LookupNode p n t = Ok r /\ entry_of <$> r = ti_view t !! (p, n) /\
      forall i, r = Some i -> i_ParentID i = p /\ i_Name i = n;
  GetChildren_view t p : ti_inv t -> 1 <= p ->
    exists l, GetChildren p t = Ok l /\ NoDup (map i_Name l) /\
      forall n e, ti_view t !! (p, n) = Some e <-> exists i, i ∈ l /\ i_Name i = n /\ entry_of i = e;
  getOrCreateDir_old t p n k now : ti_inv t -> 1 <= p ->
    ti_view t !! (p, n) = Some (k, Dir) -> getOrCreateDir p n now t = (t, Ok k);
  getOrCreateDir_new t p n now : ti_inv t -> 1 <= p -> ti_view t !! (p, n) = None ->
    exists k t', getOrCreateDir p n now t = (t', Ok k) /\ fresh k (ti_view t) /\ ti_inv t' /\
      ti_view t' = <[(p, n) := (k, Dir)]> (ti_view t);
  putFile_view t p n size hash mode now : ti_inv t -> 1 <= p ->
    (forall k, ti_view t !! (p, n) <> Some (k, Dir)) ->
    exists k t', putFile p n size hash mode now t = (t', Ok tt) /\ ti_inv t' /\
      match ti_view t !! (p, n) with Some e => e.1 = k | None => fresh k (ti_view t) end /\
      ti_view t' = <[(p, n) := (k, File size hash mode)]> (ti_view t);
}.

(** ** [IngestFileHash]

    The elements of a cleaned path, without the empty one in front of a leading slash. *)
Definition path_parts (fullPath : bytes) : list bytes :=
  match split_path (Clean fullPath) [] with
  | [] :: parts => parts
  | parts => parts
  end.

Section ingest.
Context {T : Type} {TI : TreeIndex T}.

(** The loop over the directories, then the file; [clock i] is the time at the [i]th element. *)
Fixpoint ingest_parts (parentID : Z) (parts : list bytes) (size : Z) (fileHash : bytes) (mode : Z)
  (clock : Z -> Z) (i : Z) (t : T) : T * res unit :=
  match parts with
  | [] => (t, Panic IndexOutOfRange)
  | [fileName] => putFile parentID fileName size fileHash mode (clock i) t
  | dirName :: rest =>
      let '(t, newParent) := getOrCreateDir parentID dirName (clock i) t in
      match newParent with
      | Ok parentID => ingest_parts parentID rest size fileHash mode clock (i + 1) t
      | Err _ => (t, Err "failed to sync tree")
      | Panic p => (t, Panic p)
      end
  end.

Definition IngestFileHash (fullPath : bytes) (size : Z) (fileHash : bytes) (mode : Z) (clock : Z -> Z) (t : T) : T * res unit :=
  ingest_parts 1 (path_parts fullPath) size fileHash mode clock 0 t.
End ingest.

(** ** The specification: a map from paths to nodes *)

Abbreviation tree := (gmap (list bytes) Node).

Definition tree_mkdir (q : list bytes) (t : tree) : option tree :=
  match t !! q with
  | None => Some (<[q := Dir]> t)
  | Some Dir => Some t
  | Some (File _ _ _) => None
  end.

Definition tree_put (q : list bytes) (f : Node) (t : tree) : option tree :=
  match t !! q with
  | Some Dir => None
  | _ => Some (<[q := f]> t)
  end.

(** [mkdir -p] of the directories, then the file; [None] where a name is taken by the other kind. *)
Fixpoint tree_ingest (q parts : list bytes) (f : Node) (t : tree) : option tree :=
  match parts with
  | [] => None
  | [n] => tree_put (q ++ [n]) f t
  | n :: rest => t ← tree_mkdir (q ++ [n]) t; tree_ingest (q ++ [n]) rest f t
  end.

(** Every node is in a directory, and what is put is a file. *)
Definition tree_ok (t : tree) : Prop :=
  t !! [] = None /\ forall q n, is_Some (t !! (q ++ [n])) -> q = [] \/ t !! q = Some Dir.

(** [v] is the tree [t], the directories being at the paths [loc]. *)
Record repr (loc : gmap Z (list bytes)) (v : view) (t : tree) : Prop := {
  r_root : loc !! 1 = Some [];
  r_pos p q : loc !! p = Some q -> 1 <= p;
  r_inj p p' q : loc !! p = Some q -> loc !! p' = Some q -> p = p';
  r_loc p q : loc !! p = Some q ->
    p = 1 /\ q = [] \/ exists p0 q0 n, loc !! p0 = Some q0 /\ v !! (p0, n) = Some (p, Dir) /\ q = q0 ++ [n];
  r_parent p n e : v !! (p, n) = Some e -> is_Some (loc !! p);
  r_dir p q n k : loc !! p = Some q -> v !! (p, n) = Some (k, Dir) -> loc !! k = Some (q ++ [n]);
  r_tree p q n : loc !! p = Some q -> t !! (q ++ [n]) = snd <$> v !! (p, n);
  r_only q nd : t !! q = Some nd -> exists p q0 n, q = q0 ++ [n] /\ loc !! p = Some q0;
}.

Definition represents (v : view) (t : tree) : Prop := exists loc, repr loc v t.

(** ** The refinement, by operation *)

Lemma repr_empty : repr {[1 := []]} ∅ ∅.
Proof.
  split.
  - by rewrite lookup_singleton_eq.
  - intros p q [<- _]%lookup_singleton_Some. lia.
  - intros p p' q [<- _]%lookup_singleton_Some [<- _]%lookup_singleton_Some. done.
  - intros p q [<- <-]%lookup_singleton_Some. by left.
  - intros p n e. by rewrite lookup_empty.
  - intros p q n k _. by rewrite lookup_empty.
  - intros p q n _. by rewrite !lookup_empty.
  - intros q nd. by rewrite lookup_empty.
Qed.

Lemma repr_fresh loc v t k : repr loc v t -> fresh k v -> loc !! k = None.
Proof.
  intros R [Hk Hf]. destruct (loc !! k) as [q|] eqn:E; [|done].
  destruct (r_loc _ _ _ R k q E) as [[-> _]|(p0 & q0 & n & _ & Hv & _)]; [lia|]. by destruct (Hf _ _ Hv).
Qed.

Lemma repr_path_new loc v t p q n p' : repr loc v t -> loc !! p = Some q -> v !! (p, n) = None -> loc !! p' <> Some (q ++ [n]).
Proof.
  intros R Hp Hv Hp'. destruct (r_loc _ _ _ R _ _ Hp') as [[_ E]|(p0 & q0 & n0 & Hp0 & Hv0 & E)]; [by destruct q|].
  apply app_inj_tail in E as [<- <-]. rewrite (r_inj _ _ _ R _ _ _ Hp0 Hp) in Hv0. congruence.
Qed.

(** Putting a file under a known directory. *)
Lemma repr_put loc v t p q n k f :
  repr loc v t -> loc !! p = Some q -> (forall k, v !! (p, n) <> Some (k, Dir)) -> f <> Dir ->
  repr loc (<[(p, n) := (k, f)]> v) (<[q ++ [n] := f]> t).
Proof.
  intros R Hp Hv Hf. split.
  - exact (r_root _ _ _ R).
  - exact (r_pos _ _ _ R).
  - exact (r_inj _ _ _ R).
  - intros p' q' Hp'. destruct (r_loc _ _ _ R p' q' Hp') as [?|(p0 & q0 & n0 & Hp0 & Hv0 & ->)]; [by left|].
    right. exists p0, q0, n0. split; [done|]. split; [|done]. rewrite lookup_insert_ne; [done|].
    intros [= <- <-]. by apply (Hv p').
  - intros p' n' e. destruct (decide ((p, n) = (p', n'))) as [[= <- <-]|Hne]; [by exists q|].
    rewrite lookup_insert_ne by done. apply (r_parent _ _ _ R).
  - intros p' q' n' k' Hp'. destruct (decide ((p, n) = (p', n'))) as [[= <- <-]|Hne].
    + rewrite lookup_insert_eq. by intros [= _ ->].
    + rewrite lookup_insert_ne by done. by apply (r_dir _ _ _ R).
  - intros p' q' n' Hp'. destruct (decide ((p, n) = (p', n'))) as [[= <- <-]|Hne].
    + rewrite Hp in Hp'. simplify_eq. by rewrite !lookup_insert_eq.
    + rewrite !lookup_insert_ne; [by apply (r_tree _ _ _ R)|done|].
      intros [<- <-]%app_inj_tail. destruct Hne. f_equal. by apply (r_inj _ _ _ R _ _ q).
  - intros q' nd. destruct (decide (q ++ [n] = q')) as [<-|Hne]; [by exists p, q, n|].
    rewrite lookup_insert_ne by done. apply (r_only _ _ _ R).
Qed.

(** Making a directory with a fresh id: it has no children, and its path is new. *)
Lemma repr_mkdir loc v t p q n k :
  repr loc v t -> loc !! p = Some q -> v !! (p, n) = None -> fresh k v ->
  repr (<[k := q ++ [n]]> loc) (<[(p, n) := (k, Dir)]> v) (<[q ++ [n] := Dir]> t).
Proof.
  intros R Hp Hv Hk. pose proof (repr_fresh _ _ _ _ R Hk) as Hloc.
  pose proof (fun p' => repr_path_new _ _ _ _ _ _ p' R Hp Hv) as Hnew.
  assert (Hkeep : forall p' q', loc !! p' = Some q' -> <[k := q ++ [n]]> loc !! p' = Some q').
  { intros p' q' Hp'. rewrite lookup_insert_ne; [done|]. congruence. }
  assert (Hchild : forall n', v !! (k, n') = None).
  { intros n'. destruct (v !! (k, n')) eqn:E; [|done]. apply (r_parent _ _ _ R) in E as [? E]. congruence. }
  split.
  - apply Hkeep, (r_root _ _ _ R).
  - intros p' q' [[<- _]|[_ Hp']]%lookup_insert_Some; [destruct Hk; lia|]. by apply (r_pos _ _ _ R p' q').
  - intros p1 p2 q' [[<- <-]|[_ H1]]%lookup_insert_Some [[<- E]|[_ H2]]%lookup_insert_Some; [done|by destruct (Hnew p2)| |].
    + subst. by destruct (Hnew p1).
    + by apply (r_inj _ _ _ R _ _ q').
  - intros p' q' [[<- <-]|[_ Hp']]%lookup_insert_Some.
    + right. exists p, q, n. rewrite lookup_insert_eq. by auto.
    + destruct (r_loc _ _ _ R p' q' Hp') as [?|(p0 & q0 & n0 & Hp0 & Hv0 & ->)]; [by left|].
      right. exists p0, q0, n0. split; [by apply Hkeep|]. split; [|done]. rewrite lookup_insert_ne; [done|]. congruence.
  - intros p' n' e. destruct (decide ((p, n) = (p', n'))) as [[= <- <-]|Hne]; [intros _; exists q; by apply Hkeep|].
    rewrite lookup_insert_ne by done. intros [q' Hq']%(r_parent _ _ _ R). exists q'. by apply Hkeep.
  - intros p' q' n' k' [[<- <-]|[Hne Hp']]%lookup_insert_Some Hv'.
    + rewrite lookup_insert_ne in Hv' by (intros [= -> ->]; congruence). by rewrite Hchild in Hv'.
    + apply lookup_insert_Some in Hv' as [[[= <- <-] [= <-]]|[_ Hv']].
      * rewrite lookup_insert_eq. congruence.
      * by apply Hkeep, (r_dir _ _ _ R p' q' n' k').
  - intros p' q' n' [[<- <-]|[Hne Hp']]%lookup_insert_Some.
    + rewrite (lookup_insert_ne v) by (intros [= -> ->]; congruence). rewrite Hchild, lookup_insert_ne.
      * destruct (t !! _) as [nd|] eqn:E; [|done]. apply (r_only _ _ _ R) in E as (p1 & q1 & n1 & E & Hp1).
        apply app_inj_tail in E as [<- _]. by destruct (Hnew p1).
      * intros E. by apply (f_equal length) in E; rewrite !length_app in E; simpl in E; lia.
    + destruct (decide ((p, n) = (p', n'))) as [[= <- <-]|Hne'].
      * rewrite Hp in Hp'. simplify_eq. by rewrite !lookup_insert_eq.
      * rewrite !lookup_insert_ne; [by apply (r_tree _ _ _ R)|done|].
        intros [<- <-]%app_inj_tail. destruct Hne'. f_equal. by apply (r_inj _ _ _ R _ _ q).
  - intros q' nd. destruct (decide (q ++ [n] = q')) as [<-|Hne]; [intros _; exists p, q, n; auto|].
    rewrite lookup_insert_ne by done. intros (p1 & q1 & n1 & -> & Hp1)%(r_only _ _ _ R). exists p1, q1, n1. auto.
Qed.

(** ** The refinement of [IngestFileHash] *)

Section refine.
Context {T : Type} {TI : TreeIndex T} {TL : TreeIndexLaws T}.

Lemma ingest_parts_refines parts loc t q p size hash mode clock i (fs : T) t' :
  ti_inv fs -> repr loc (ti_view fs) t -> loc !! p = Some q ->
  tree_ingest q parts (File size hash mode) t = Some t' ->
  exists fs', ingest_parts p parts size hash mode clock i fs = (fs', Ok tt) /\ ti_inv fs' /\ represents (ti_view fs') t'.
Proof.
  revert loc t q p i fs; induction parts as [|n parts IH]; intros loc t q p i fs Hinv R Hp E; [done|].
  pose proof (r_pos _ _ _ R p q Hp) as Hpos. pose proof (r_tree _ _ _ R p q n Hp) as Ht. destruct parts as [|n' parts].
  - cbn [tree_ingest ingest_parts] in *. unfold tree_put in E.
    assert (Hnd : forall k, ti_view fs !! (p, n) <> Some (k, Dir)).
    { intros k Hk. rewrite Hk in Ht. cbn in Ht. by rewrite Ht in E. }
    destruct (putFile_view fs p n size hash mode (clock i) Hinv Hpos Hnd) as (k & fs' & Eput & Hinv' & _ & Hview).
    exists fs'. split; [done|]. split; [done|]. exists loc. rewrite Hview.
    assert (t' = <[q ++ [n] := File size hash mode]> t) as -> by (destruct (t !! (q ++ [n])) as [[]|]; by simplify_eq).
    by apply repr_put.
  - cbn [tree_ingest ingest_parts] in *. unfold tree_mkdir in E.
    destruct (ti_view fs !! (p, n)) as [[k nd]|] eqn:Hv; rewrite Ht in E; cbn in E.
    + destruct nd; [|done]. rewrite (getOrCreateDir_old fs p n k) by done.
      apply (IH loc t (q ++ [n]) k); [done|done|by apply (r_dir _ _ _ R p q n k)|done].
    + destruct (getOrCreateDir_new fs p n (clock i) Hinv Hpos Hv) as (k & fs' & -> & Hf & Hinv' & Hview).
      apply (IH (<[k := q ++ [n]]> loc) (<[q ++ [n] := Dir]> t) (q ++ [n]) k); [done| |by apply lookup_insert_eq|done].
      rewrite Hview. by apply repr_mkdir.
Qed.

Lemma IngestFileHash_refines fullPath size hash mode clock (fs : T) t t' :
  ti_inv fs -> represents (ti_view fs) t -> tree_ingest [] (path_parts fullPath) (File size hash mode) t = Some t' ->
  exists fs', IngestFileHash fullPath size hash mode clock fs = (fs', Ok tt) /\ ti_inv fs' /\ represents (ti_view fs') t'.
Proof. intros Hinv [loc R]. apply (ingest_parts_refines _ loc); [done|done|apply R]. Qed.

(** A name with a file where a directory is asked for: all that [getOrCreateDir] has to promise is that it
    fails. The directories before it exist, so the tree is as it was. *)
Lemma ingest_parts_error parts loc t q p size hash mode clock i (fs : T) :
  (forall p n now f, 1 <= p -> snd <$> ti_view fs !! (p, n) = Some f -> f <> Dir ->
     exists e, getOrCreateDir p n now fs = (fs, Err e)) ->
  ti_inv fs -> repr loc (ti_view fs) t -> loc !! p = Some q ->
  (exists a n b f, parts = a ++ n :: b /\ b <> [] /\ t !! (q ++ a ++ [n]) = Some f /\ f <> Dir /\
     forall a1 a2, a = a1 ++ a2 -> a1 <> [] -> t !! (q ++ a1) = Some Dir) ->
  ingest_parts p parts size hash mode clock i fs = (fs, Err "failed to sync tree").
Proof.
  intros Hfail Hinv R. revert q p i; induction parts as [|m parts IH]; intros q p i Hp (a & n & b & f & E & Hb & Hf & Hnd & Ha);
    [by destruct a|].
  pose proof (r_pos _ _ _ R p q Hp) as Hpos. pose proof (r_tree _ _ _ R p q m Hp) as Ht.
  destruct parts as [|m' parts]; [by destruct a as [|? [|]], b|]. cbn [ingest_parts]. destruct a as [|m0 a]; injection E as <- E.
  - cbn [app] in Hf. rewrite Hf in Ht. destruct (Hfail p m (clock i) f Hpos (eq_sym Ht) Hnd) as [e ->]. done.
  - pose proof (Ha [m] a eq_refl ltac:(done)) as Hd. rewrite Hd in Ht.
    destruct (ti_view fs !! (p, m)) as [[k nd]|] eqn:Hv; [|done]. injection Ht as <-.
    rewrite (getOrCreateDir_old fs p m k) by done.
    apply (IH (q ++ [m])); [by apply (r_dir _ _ _ R p q m k)|]. exists a, n, b, f.
    rewrite <-!app_assoc. split; [done|]. split; [done|]. split; [done|]. split; [done|]. intros a1 a2 -> H1.
    rewrite <-app_assoc. by apply (Ha (m :: a1) a2).
Qed.
End refine.

(** ** What the specification says *)

Lemma tree_put_lookup q f t t' q' :
  tree_put q f t = Some t' -> t' !! q' = if decide (q' = q) then Some f else t !! q'.
Proof.
  unfold tree_put. intros E. assert (t' = <[q := f]> t) as -> by (destruct (t !! q) as [[]|]; by simplify_eq).
  destruct (decide (q' = q)) as [->|]; [apply lookup_insert_eq|by apply lookup_insert_ne].
Qed.

Lemma tree_mkdir_lookup q t t' q' :
  tree_mkdir q t = Some t' -> t' !! q' = if decide (q' = q) then Some Dir else t !! q'.
Proof.
  unfold tree_mkdir. intros E. destruct (t !! q) as [[]|] eqn:Hq; simplify_eq.
  - by destruct (decide (q' = q)) as [->|].
  - destruct (decide (q' = q)) as [->|]; [apply lookup_insert_eq|by apply lookup_insert_ne].
Qed.

(** After ingesting, the file is there, the directories above it are there, and nothing else changed. *)
Lemma tree_ingest_lookup parts q f t t' :
  tree_ingest q parts f t = Some t' -> parts <> [] /\ (t !! (q ++ parts) <> Some Dir /\ t' !! (q ++ parts) = Some f) /\
  (forall a b, parts = a ++ b -> a <> [] -> b <> [] -> t' !! (q ++ a) = Some Dir) /\
  (forall q', (forall a b, parts = a ++ b -> a <> [] -> q' <> q ++ a) -> t' !! q' = t !! q').
Proof.
  revert q t; induction parts as [|n parts IH]; intros q t E; [done|]. split; [done|]. destruct parts as [|m parts].
  - cbn [tree_ingest] in E. split; [split; [|by rewrite (tree_put_lookup _ _ _ _ _ E), decide_True]|].
    { intros Hd. unfold tree_put in E. by rewrite Hd in E. }
    split.
    + intros [|? [|]] [|]; done.
    + intros q' Hq'. rewrite (tree_put_lookup _ _ _ _ _ E), decide_False; [done|]. by apply (Hq' [n] []).
  - cbn [tree_ingest] in E. destruct (tree_mkdir (q ++ [n]) t) as [t1|] eqn:E1; [|done]. cbn [mbind option_bind] in E.
    change (tree_ingest (q ++ [n]) (m :: parts) f t1 = Some t') in E.
    destruct (IH _ _ E) as (_ & [Hnd Hf] & Hd & Ho). rewrite <-app_assoc in Hnd, Hf. split; [split; [|done]|split].
    { rewrite (tree_mkdir_lookup _ _ _ _ E1), decide_False in Hnd; [done|]. intros E'%app_inv_head. done. }
    + intros [|n0 a] b Hab Ha Hb; [done|]. injection Hab as <- Hab. destruct a as [|m0 a].
      * rewrite (Ho (q ++ [n])); [by rewrite (tree_mkdir_lookup _ _ _ _ E1), decide_True|].
        intros a b' _ Ha' E'. apply (f_equal length) in E'. rewrite !length_app in E'. destruct a; simpl in E'; [done|lia].
      * specialize (Hd (m0 :: a) b Hab ltac:(done) Hb). by rewrite <-app_assoc in Hd.
    + intros q' Hq'. rewrite (Ho q'); [|intros a b Hab Ha E'; apply (Hq' (n :: a) b); [by rewrite Hab|done|by rewrite E', <-app_assoc]].
      rewrite (tree_mkdir_lookup _ _ _ _ E1), decide_False; [done|]. by apply (Hq' [n] (m :: parts)).
Qed.

(** The tree stays a tree. *)
Lemma tree_ingest_ok parts f t t' : f <> Dir -> tree_ingest [] parts f t = Some t' -> tree_ok t -> tree_ok t'.
Proof.
  intros Hf E [H0 Hok]. destruct (tree_ingest_lookup _ _ _ _ _ E) as (_ & [Hnd Hfile] & Hd & Ho). cbn [app] in *. split.
  - rewrite Ho; [done|]. by intros a b _ Ha <-.
  - intros q n [nd Hn]. destruct (decide (q = [])) as [->|Hq]; [by left|]. right.
    destruct (decide (q `prefix_of` parts)) as [[[|x b] Hb]|Hnp]; [|by apply (Hd q (x :: b))|].
    all: assert (t !! q = Some Dir) as Hq' by
      (rewrite Ho in Hn; [by destruct (Hok q n) as [|]; [exists nd|..]|intros a b' Hab Ha <-;
       first [apply Hnp; exists (n :: b'); by rewrite Hab, <-app_assoc|apply (f_equal length) in Hab; rewrite Hb, !length_app in Hab; simpl in Hab; lia]]).
    + rewrite app_nil_r in Hb. congruence.
    + rewrite Ho; [done|]. intros a b Hab Ha <-. apply Hnp. by exists b.
Qed.

(** ** The elements of a path *)

(** A name that [Clean] keeps. *)
Definition plain_name (n : bytes) : Prop := n <> [] /\ n <> str "." /\ n <> str ".." /\ slash ∉ n.

Lemma split_path_name n cur rest : slash ∉ n -> split_path (n ++ slash :: rest) cur = (rev cur ++ n) :: split_path rest [].
Proof.
  revert cur; induction n as [|c n IH]; intros cur Hn; cbn [app split_path].
  - rewrite Z.eqb_refl. by rewrite app_nil_r.
  - apply not_elem_of_cons in Hn as [Hc Hn]. rewrite (proj2 (Z.eqb_neq _ _)) by done. rewrite IH by done.
    cbn [rev]. by rewrite <-app_assoc.
Qed.

Lemma split_path_last n cur : slash ∉ n -> split_path n cur = [rev cur ++ n].
Proof.
  revert cur; induction n as [|c n IH]; intros cur Hn; cbn [split_path]; [by rewrite app_nil_r|].
  apply not_elem_of_cons in Hn as [Hc Hn]. rewrite (proj2 (Z.eqb_neq _ _)) by done. rewrite IH by done.
  cbn [rev]. by rewrite <-app_assoc.
Qed.

Lemma split_path_join names : names <> [] -> Forall plain_name names -> split_path (join_slash names) [] = names.
Proof.
  intros Hne Hn. induction Hn as [|n names (_ & _ & _ & Hs) Hn IH]; [done|]. destruct names as [|m names].
  - by apply split_path_last.
  - cbn [join_slash]. rewrite split_path_name by done. f_equal. by apply IH.
Qed.

Lemma clean_plain rooted names stack :
  Forall plain_name names -> fold_left (clean_element rooted) names stack = rev names ++ stack.
Proof.
  intros Hn. revert stack; induction Hn as [|n names (Hn0 & Hn1 & Hn2 & _) _ IH]; intros stack; [done|].
  cbn [fold_left rev]. rewrite <-app_assoc, <-IH. f_equal. unfold clean_element.
  destruct (bytes_eqb n []) eqn:E0; [by apply bytes_eqb_true in E0|].
  destruct (bytes_eqb n (str ".")) eqn:E1; [by apply bytes_eqb_true in E1|].
  destruct (bytes_eqb n (str "..")) eqn:E2; [by apply bytes_eqb_true in E2|]. done.
Qed.

Lemma Clean_plain names : names <> [] -> Forall plain_name names -> Clean (join_slash names) = join_slash names.
Proof.
  intros Hne Hn. pose proof (split_path_join names Hne Hn) as Hs.
  assert (exists c rest, join_slash names = c :: rest /\ c <> slash) as (c & rest & Hc & Hcs).
  { destruct Hn as [|[|c n] names (H0 & _ & _ & Hsl) _]; [done|done|]. apply not_elem_of_cons in Hsl as [Hsl _].
    destruct names; [by exists c, n|]. eexists c, _. cbn [join_slash app]. split; [done|congruence]. }
  unfold Clean. rewrite Hc in *. rewrite Hs, clean_plain, app_nil_r, rev_involutive by done.
  rewrite (proj2 (Z.eqb_neq _ _)) by done. rewrite Hc. rewrite (proj2 (Z.eqb_neq _ _)); [done|].
  rewrite zlen_cons. pose proof (zlen_nonneg rest). lia.
Qed.

Lemma path_parts_plain names : names <> [] -> Forall plain_name names -> path_parts (join_slash names) = names.
Proof.
  intros Hne Hn. unfold path_parts. rewrite Clean_plain, split_path_join by done.
  destruct Hn as [|[|c n] names (H0 & _) _]; done.
Qed.

(** The same names below the root. *)
Lemma path_parts_rooted names :
  names <> [] -> Forall plain_name names -> path_parts (slash :: join_slash names) = names.
Proof.
  intros Hne Hn. unfold path_parts, Clean. rewrite Z.eqb_refl. cbn [split_path]. rewrite Z.eqb_refl. cbn [rev].
  rewrite (split_path_join names) by done. cbn [fold_left]. change (clean_element true [] []) with (@nil bytes).
  rewrite clean_plain, app_nil_r, rev_involutive by done. by rewrite split_path_join.
Qed.

(** ** Tables of nodes by id

    Both implementations keep their nodes by id; this is the view of such a table, the root apart. *)

Section table.
Context {A : Type} (key : A -> Z * bytes) (nd : A -> Node).

Definition keys_unique (m : gmap Z A) : Prop :=
  forall k k' a a', m !! k = Some a -> m !! k' = Some a' -> key a = key a' -> k = k'.

Definition index_of (m : gmap Z A) : view :=
  list_to_map (map (fun '(k, a) => (key a, (k, nd a))) (filter (fun e => e.1 <> 1) (map_to_list m))).

Lemma index_of_lookup m x k d :
  keys_unique m -> index_of m !! x = Some (k, d) <-> exists a, m !! k = Some a /\ k <> 1 /\ key a = x /\ nd a = d.
Proof.
  intros Hu. unfold index_of. set (l := map _ _). assert (Hl : forall y k' d', (y, (k', d')) ∈ l <-> exists a, m !! k' = Some a /\ k' <> 1 /\ key a = y /\ nd a = d').
  { intros y k' d'. unfold l. rewrite list_elem_of_In, in_map_iff. split.
    - intros ((k0 & a) & [= <- <- <-] & [H1 H2]%list_elem_of_In%list_elem_of_filter).
      apply elem_of_map_to_list in H2. by exists a.
    - intros (a & Ha & Hk & <- & <-). exists (k', a). split; [done|].
      apply list_elem_of_In, list_elem_of_filter. split; [done|]. by apply elem_of_map_to_list. }
  rewrite <-Hl. symmetry. apply elem_of_list_to_map. unfold l.
  change (NoDup ((map (fun '(k, a) => (key a, (k, nd a))) (filter (fun e => e.1 <> 1) (map_to_list m))).*1)).
  rewrite <-list_fmap_compose. apply NoDup_fmap_2_strong; [|apply NoDup_filter, NoDup_map_to_list].
  intros [k1 a1] [k2 a2] [_ H1]%list_elem_of_filter [_ H2]%list_elem_of_filter E.
  apply elem_of_map_to_list in H1, H2. cbn in E. pose proof (Hu k1 k2 a1 a2 H1 H2 E) as ->. congruence.
Qed.

Lemma index_of_none m x : keys_unique m -> index_of m !! x = None <-> forall k a, m !! k = Some a -> k <> 1 -> key a <> x.
Proof.
  intros Hu. split.
  - intros E k a Hk H1 Hx. enough (index_of m !! x = Some (k, nd a)) by congruence. apply index_of_lookup; [done|]. by exists a.
  - intros H. destruct (index_of m !! x) as [[k d]|] eqn:E; [|done]. apply index_of_lookup in E as (a & Hk & H1 & Hx & _); [|done].
    by destruct (H k a).
Qed.

(** A new row, or a row that takes the place of one with the same key. *)
Lemma index_of_insert m k a :
  keys_unique (<[k := a]> m) -> keys_unique m -> k <> 1 -> (forall b, m !! k = Some b -> key b = key a) ->
  index_of (<[k := a]> m) = <[key a := (k, nd a)]> (index_of m).
Proof.
  intros Hu Hu' Hk Hm. apply map_eq. intros x. apply option_eq. intros [k' d]. rewrite index_of_lookup by done.
  rewrite lookup_insert_Some. split.
  - intros (b & [[<- <-]|[Hne Hb]]%lookup_insert_Some & H1 & <- & <-); [by left|].
    right. split; [|apply index_of_lookup; [done|]; by exists b].
    intros E. apply Hne. apply (Hu k k' a b); [apply lookup_insert_eq|by rewrite lookup_insert_ne|done].
  - intros [[<- [= <- <-]]|[Hne (b & Hb & H1 & <- & <-)%index_of_lookup]]; [|  |done].
    + exists a. by rewrite lookup_insert_eq.
    + exists b. rewrite lookup_insert_ne; [done|]. intros <-. by apply Hne, eq_sym, Hm.
Qed.

Lemma keys_unique_insert m k a :
  keys_unique m -> (forall k' b, m !! k' = Some b -> key b = key a -> k' = k) -> keys_unique (<[k := a]> m).
Proof.
  intros Hu Hk k1 k2 a1 a2 [[<- <-]|[_ H1]]%lookup_insert_Some [[<- <-]|[_ H2]]%lookup_insert_Some E; [done| | |].
  - symmetry. by apply (Hk k2 a2).
  - by apply (Hk k1 a1).
  - by apply (Hu k1 k2 a1 a2).
Qed.
End table.
