(* ===== verification/CromDb.v ===== *)
(** [pkg/cromdb/inode.go] and [db.go]: the index of inodes in an SQLite table. The engine is the class
    [SQLite], with an operation for each statement of the source; the schema and the statements give its laws. *)

From S2P Require Import Prelude Binary Sha256 Externals Crypto Format FormatIO Delta Chunker Codebook.
From S2P Require Import Fractal Entropy Search Unpack Pack ChunkCodec BlockCodec RoundTrip Archive Sync Bitswap Transfer Protocol TreeFS.

(** ** The table

    A row of [inodes]; [size] and [data_hash] are NULL in directories. *)
Record Row := {
  r_id : Z;
  r_parent_id : Z;
  r_name : bytes;
  r_is_dir : bool;
  r_size : option Z;
  r_data_hash : option bytes;
  r_mode : Z;
  r_mod_time : Z;
}.

Definition row_key (r : Row) : Z * bytes := (r_parent_id r, r_name r).

(** The statements of the source, on a database [D]:
    - [sql_create]: [CREATE TABLE IF NOT EXISTS inodes (...)], [CREATE INDEX IF NOT EXISTS ...];
    - [sql_count]: [SELECT COUNT ( * ) FROM inodes WHERE id = ?];
    - [sql_insert_root]: [INSERT INTO inodes (id, ...) VALUES (1, 0, '', 1, 16877, CURRENT_TIMESTAMP)];
    - [sql_select_dir]: [SELECT id FROM inodes WHERE parent_id = ? AND name = ? AND is_dir = 1];
    - [sql_insert_dir]: [INSERT INTO inodes (parent_id, name, is_dir, mode, mod_time) VALUES (?, ?, 1, ?, ?)]
      with its [LastInsertId];
    - [sql_upsert_file]: [INSERT INTO inodes (parent_id, name, is_dir, size, data_hash, mode, mod_time)
      VALUES (?, ?, 0, ?, ?, ?, ?) ON CONFLICT(parent_id, name) DO UPDATE SET size, data_hash, mode];
    - [sql_select_children]: [SELECT ... FROM inodes WHERE parent_id = ?];
    - [sql_select_node]: [SELECT ... FROM inodes WHERE parent_id = ? AND name = ?].

    [sql_open] gives the database a data source names, with what is in it. *)
Class SQLite (D : Type) := {
  sql_open : bytes -> res D;
  sql_create : D -> D * res unit;
  sql_count : Z -> D -> res Z;
  sql_insert_root : Z -> D -> D * res unit;
  sql_select_dir : Z -> bytes -> D -> res (list Z);
  sql_insert_dir : Z -> bytes -> Z -> Z -> D -> D * res Z;
  sql_upsert_file : Z -> bytes -> Z -> bytes -> Z -> Z -> D -> D * res unit;
  sql_select_children : Z -> D -> res (list Row);
  sql_select_node : Z -> bytes -> D -> res (list Row);
}.

Definition root_row (now : Z) : Row :=
  {| r_id := 1; r_parent_id := 0; r_name := []; r_is_dir := true; r_size := None; r_data_hash := None;
     r_mode := dir_mode; r_mod_time := now |}.

Definition dir_row (k p : Z) (n : bytes) (mode now : Z) : Row :=
  {| r_id := k; r_parent_id := p; r_name := n; r_is_dir := true; r_size := None; r_data_hash := None;
     r_mode := mode; r_mod_time := now |}.

Definition file_row (k p : Z) (n : bytes) (size : Z) (hash : bytes) (mode now : Z) : Row :=
  {| r_id := k; r_parent_id := p; r_name := n; r_is_dir := false; r_size := Some size; r_data_hash := Some hash;
     r_mode := mode; r_mod_time := now |}.

(** [DO UPDATE SET size=excluded.size, data_hash=excluded.data_hash, mode=excluded.mode]: what the row says
    of [is_dir] stays. *)
Definition updated_row (r : Row) (size : Z) (hash : bytes) (mode : Z) : Row :=
  {| r_id := r_id r; r_parent_id := r_parent_id r; r_name := r_name r; r_is_dir := r_is_dir r;
     r_size := Some size; r_data_hash := Some hash; r_mode := mode; r_mod_time := r_mod_time r |}.

(** What SQLite documents of these statements, on a database that answers: [PRIMARY KEY], [UNIQUE(parent_id,
    name)], [AUTOINCREMENT] (an id above every id in the table) and [ON CONFLICT]. *)
Class SQLiteLaws (D : Type) {Q : SQLite D} := {
  sql_rows : D -> option (gmap Z Row);
  sql_rows_id d m k r : sql_rows d = Some m -> m !! k = Some r -> r_id r = k;
  sql_rows_unique d m : sql_rows d = Some m -> keys_unique row_key m;
  sql_create_ok d : exists d', sql_create d = (d', Ok tt) /\ sql_rows d' = Some (default ∅ (sql_rows d)) /\
    (is_Some (sql_rows d) -> d' = d);
  sql_count_ok d m k : sql_rows d = Some m -> sql_count k d = Ok (if m !! k is Some _ then 1 else 0);
  sql_insert_root_ok d m now : sql_rows d = Some m -> m !! 1 = None -> (forall k r, m !! k = Some r -> row_key r <> (0, [])) ->
    exists d', sql_insert_root now d = (d', Ok tt) /\ sql_rows d' = Some (<[1 := root_row now]> m);
  sql_select_dir_ok d m p n : sql_rows d = Some m ->
    exists l, sql_select_dir p n d = Ok l /\
      forall k, k ∈ l <-> exists r, m !! k = Some r /\ row_key r = (p, n) /\ r_is_dir r = true;
  sql_insert_dir_new d m p n mode now : sql_rows d = Some m -> (forall k r, m !! k = Some r -> row_key r <> (p, n)) ->
    exists k d', sql_insert_dir p n mode now d = (d', Ok k) /\ (forall k' r, m !! k' = Some r -> k' < k) /\
      sql_rows d' = Some (<[k := dir_row k p n mode now]> m);
  sql_insert_dir_dup d m p n mode now k r : sql_rows d = Some m -> m !! k = Some r -> row_key r = (p, n) ->
    exists e, sql_insert_dir p n mode now d = (d, Err e);
  sql_upsert_new d m p n size hash mode now :
    sql_rows d = Some m -> (forall k r, m !! k = Some r -> row_key r <> (p, n)) ->
    exists k d', sql_upsert_file p n size hash mode now d = (d', Ok tt) /\ (forall k' r, m !! k' = Some r -> k' < k) /\
      sql_rows d' = Some (<[k := file_row k p n size hash mode now]> m);
  sql_upsert_dup d m p n size hash mode now k r : sql_rows d = Some m -> m !! k = Some r -> row_key r = (p, n) ->
    exists d', sql_upsert_file p n size hash mode now d = (d', Ok tt) /\
      sql_rows d' = Some (<[k := updated_row r size hash mode]> m);
  sql_select_children_ok d m p : sql_rows d = Some m ->
    exists l, sql_select_children p d = Ok l /\ NoDup l /\
      forall r, r ∈ l <-> m !! r_id r = Some r /\ r_parent_id r = p;
  sql_select_node_ok d m p n : sql_rows d = Some m ->
    exists l, sql_select_node p n d = Ok l /\ forall r, r ∈ l <-> m !! r_id r = Some r /\ row_key r = (p, n);
}.

(** ** [TreeFS] *)

Section treefs.
Context {D : Type} {Q : SQLite D}.

(** [inode.go]: the error of the insertion of the root is dropped, and so is that of the count. *)
Definition initSchema (now : Z) (d : D) : D * res unit :=
  let '(d, r) := sql_create d in
  match r with
  | Ok _ =>
      match sql_count 1 d with
      | Ok count => if count =? 0 then ((sql_insert_root now d).1, Ok tt) else (d, Ok tt)
      | _ => (d, Ok tt)
      end
  | Err e => (d, Err e)
  | Panic p => (d, Panic p)
  end.

(** The pragmas and the limits of the pool have no effect on the rows. *)
Definition NewTreeFS (dsn : bytes) (now : Z) : res D :=
  d ← sql_open (if bytes_eqb dsn [] || bytes_eqb dsn (str ":memory:") then str "file::memory:?cache=shared" else dsn);
  match initSchema now d with
  | (d, Ok _) => Ok d
  | (_, Err e) => Err e
  | (_, Panic p) => Panic p
  end.

Definition sql_getOrCreateDir (parentID : Z) (name : bytes) (now : Z) (d : D) : D * res Z :=
  match sql_select_dir parentID name d with
  | Ok [] => sql_insert_dir parentID name dir_mode now d
  | Ok (id :: _) => (d, Ok id)
  | Err e => (d, Err e)
  | Panic p => (d, Panic p)
  end.

(** [Scan] into the fields: a NULL leaves the zero value, and [mod_time] is not selected. *)
Definition scan_row (parentID : Z) (r : Row) : Inode :=
  {| i_ID := r_id r; i_ParentID := parentID; i_Name := r_name r; i_IsDir := r_is_dir r;
     i_Size := default 0 (r_size r); i_DataHash := default [] (r_data_hash r); i_Mode := r_mode r; i_ModTime := 0 |}.

Definition sql_GetChildren (parentID : Z) (d : D) : res (list Inode) :=
  rows ← sql_select_children parentID d;
  Ok (map (scan_row parentID) rows).

Definition sql_LookupNode (parentID : Z) (name : bytes) (d : D) : res (option Inode) :=
  rows ← sql_select_node parentID name d;
  match rows with
  | [] => Ok None
  | r :: _ =>
      Ok (Some {| i_ID := r_id r; i_ParentID := parentID; i_Name := name; i_IsDir := r_is_dir r;
                  i_Size := default 0 (r_size r); i_DataHash := default [] (r_data_hash r);
                  i_Mode := r_mode r; i_ModTime := 0 |})
  end.

#[export] Instance sql_index : TreeIndex D := {|
  getOrCreateDir := sql_getOrCreateDir;
  putFile := sql_upsert_file;
  GetChildren := sql_GetChildren;
  LookupNode := sql_LookupNode |}.

(** ** The laws of the interface *)

Context {QL : SQLiteLaws D}.

Definition row_node (r : Row) : Node := if r_is_dir r then Dir else File (default 0 (r_size r)) (default [] (r_data_hash r)) (r_mode r).

(** The table exists and has the root. *)
Definition sql_inv (d : D) : Prop := exists m now, sql_rows d = Some m /\ m !! 1 = Some (root_row now).
Definition sql_view (d : D) : view := index_of row_key row_node (default ∅ (sql_rows d)).

Lemma node_of_scan p r : node_of (scan_row p r) = row_node r.
Proof. done. Qed.

(** The rows at a name under a node, which is not the root's own name. *)
Lemma sql_view_lookup d m p n k nd :
  sql_rows d = Some m -> (exists now, m !! 1 = Some (root_row now)) -> 1 <= p ->
  sql_view d !! (p, n) = Some (k, nd) <-> exists r, m !! k = Some r /\ row_key r = (p, n) /\ row_node r = nd.
Proof.
  intros Hm [now H1] Hp. unfold sql_view. rewrite Hm. cbn. rewrite index_of_lookup by (by apply (sql_rows_unique d)).
  split; [intros (r & ? & _ & ?); by exists r|]. intros (r & Hr & Hk & Hn). exists r. split; [done|]. split; [|done].
  intros ->. rewrite H1 in Hr. injection Hr as <-. injection Hk as E _. lia.
Qed.

Lemma sql_view_none d m p n :
  sql_rows d = Some m -> (exists now, m !! 1 = Some (root_row now)) -> 1 <= p ->
  sql_view d !! (p, n) = None -> forall k r, m !! k = Some r -> row_key r <> (p, n).
Proof.
  intros Hm H1 Hp E k r Hr Hk. enough (sql_view d !! (p, n) = Some (k, row_node r)) by congruence.
  apply (sql_view_lookup d m); [done..|]. by exists r.
Qed.

(** A row inserted by the engine is a new entry of the view. *)
Lemma sql_view_insert d d' m k r now :
  sql_rows d = Some m -> m !! 1 = Some (root_row now) -> (forall k' r, m !! k' = Some r -> k' < k) ->
  sql_rows d' = Some (<[k := r]> m) -> (forall k' r', m !! k' = Some r' -> row_key r' <> row_key r) ->
  fresh k (sql_view d) /\ sql_inv d' /\ sql_view d' = <[row_key r := (k, row_node r)]> (sql_view d).
Proof.
  intros Hm H1 Hk Hm' Hkey. assert (1 < k) as Hk1 by (by apply (Hk _ _ H1)). unfold sql_view. rewrite Hm, Hm'. cbn. split.
  - split; [done|]. intros x [k' nd] Hx. apply index_of_lookup in Hx as (r' & Hr' & _); [|by apply (sql_rows_unique d)].
    cbn. pose proof (Hk _ _ Hr'). lia.
  - split; [exists (<[k := r]> m), now; split; [done|]; rewrite lookup_insert_ne; [done|lia]|].
    apply index_of_insert; [by apply (sql_rows_unique d')|by apply (sql_rows_unique d)|lia|].
    intros b Hb. by destruct (Hkey _ _ Hb); pose proof (Hk _ _ Hb); lia.
Qed.

#[export] Program Instance sql_index_laws : TreeIndexLaws D := {| ti_inv := sql_inv; ti_view := sql_view |}.
Next Obligation.
  intros d p n (m & now & Hm & H1) Hp. destruct (sql_select_node_ok d m p n Hm) as (l & E & Hl). cbn.
  unfold sql_LookupNode. rewrite E. cbn. destruct l as [|r l].
  - exists None. split; [done|]. split; [|done]. symmetry. destruct (sql_view d !! (p, n)) as [[k nd]|] eqn:Ev; [|done].
    apply (sql_view_lookup d m) in Ev as (r & Hr & Hk & _); [|done|by exists now|done]. pose proof (sql_rows_id d m k r Hm Hr) as <-.
    by pose proof (proj2 (Hl r) (conj Hr Hk)) as []%not_elem_of_nil.
  - destruct (proj1 (Hl r)) as [Hr Hk]; [by left|]. eexists. split; [done|]. split; [|by intros i [= <-]].
    symmetry. apply (sql_view_lookup d m); [done|by exists now|done|]. by exists r.
Qed.
Next Obligation.
  intros d p (m & now & Hm & H1) Hp. destruct (sql_select_children_ok d m p Hm) as (l & E & Hnd & Hl). cbn.
  unfold sql_GetChildren. rewrite E. cbn. exists (map (scan_row p) l). split; [done|]. split.
  - rewrite map_map. cbn. change (NoDup (r_name <$> l)). apply NoDup_fmap_2_strong; [|done].
    intros r1 r2 [H1' E1]%Hl [H2' E2]%Hl En. enough (r_id r1 = r_id r2) by congruence.
    apply (sql_rows_unique d m Hm _ _ r1 r2); [done|done|]. unfold row_key. congruence.
  - intros n [k nd]. rewrite (sql_view_lookup d m) by (done || by exists now). split.
    + intros (r & Hr & [= Hrp Hrn] & <-). pose proof (sql_rows_id d m k r Hm Hr) as Hid. exists (scan_row p r). split; [|split; [done|]].
      * apply list_elem_of_In, in_map, list_elem_of_In, Hl. by rewrite Hid.
      * unfold entry_of. rewrite node_of_scan. cbn. congruence.
    + intros (i & (r & <- & [Hr Hrp]%list_elem_of_In%Hl)%list_elem_of_In%in_map_iff & <- & [= <- <-]). exists r.
      split; [done|]. split; [|done]. unfold row_key. cbn. congruence.
Qed.
Next Obligation.
  intros d p n k now (m & now0 & Hm & H1) Hp Hv. destruct (sql_select_dir_ok d m p n Hm) as (l & E & Hl). cbn.
  unfold sql_getOrCreateDir. rewrite E. apply (sql_view_lookup d m) in Hv as (r & Hr & Hk & Hnd); [|done|by exists now0|done].
  assert (k ∈ l) as Hkl. { apply Hl. exists r. unfold row_node in Hnd. by destruct (r_is_dir r). }
  destruct l as [|k' l]; [by apply not_elem_of_nil in Hkl|].
  destruct (proj1 (Hl k')) as (r' & Hr' & Hk' & _); [by left|]. rewrite (sql_rows_unique d m Hm k k' r r'); congruence.
Qed.
Next Obligation.
  intros d p n now (m & now0 & Hm & H1) Hp Hv. pose proof (sql_view_none d m p n Hm (ex_intro _ now0 H1) Hp Hv) as Hno.
  destruct (sql_select_dir_ok d m p n Hm) as (l & E & Hl). cbn. unfold sql_getOrCreateDir. rewrite E.
  destruct l as [|k' l]; [|by destruct (proj1 (Hl k')) as (r & Hr & Hk & _); [left|destruct (Hno _ _ Hr)]].
  destruct (sql_insert_dir_new d m p n dir_mode now Hm Hno) as (k & d' & Ei & Hk & Hm'). exists k, d'. split; [done|].
  by apply (sql_view_insert d d' m k (dir_row k p n dir_mode now) now0).
Qed.
Next Obligation.
  intros d p n size hash mode now (m & now0 & Hm & H1) Hp Hv. cbn. destruct (sql_view d !! (p, n)) as [[k nd]|] eqn:Ev.
  - apply (sql_view_lookup d m) in Ev as (r & Hr & Hk & Hnd); [|done|by exists now0|done].
    destruct (sql_upsert_dup d m p n size hash mode now k r Hm Hr Hk) as (d' & Eu & Hm').
    assert (k <> 1) as Hk1. { intros ->. rewrite H1 in Hr. injection Hr as <-. injection Hk as E _. lia. }
    assert (r_is_dir r = false) as Hd. { unfold row_node in Hnd. destruct (r_is_dir r); [|done]. subst. by destruct (Hv k). }
    exists k, d'. split; [done|]. split; [exists (<[k := updated_row r size hash mode]> m), now0; by rewrite lookup_insert_ne|].
    split; [done|]. unfold sql_view. rewrite Hm', Hm. cbn.
    rewrite index_of_insert; [|by apply (sql_rows_unique d')|by apply (sql_rows_unique d)|done|].
    + unfold row_node at 1. cbn. rewrite Hd. change (row_key (updated_row r size hash mode)) with (row_key r). by rewrite Hk.
    + intros b Hb. by assert (b = r) as -> by congruence.
  - pose proof (sql_view_none d m p n Hm (ex_intro _ now0 H1) Hp Ev) as Hno.
    destruct (sql_upsert_new d m p n size hash mode now Hm Hno) as (k & d' & Eu & Hk & Hm'). exists k, d'. split; [done|].
    destruct (sql_view_insert d d' m k (file_row k p n size hash mode now) now0) as (Hf & Hi & Ev'); done.
Qed.
End treefs.

(** ** Opening, and names that are taken *)

Section effects.
Context {D : Type} {Q : SQLite D} {QL : SQLiteLaws D}.

Lemma initSchema_fresh (d : D) now :
  sql_rows d = None -> exists d', initSchema now d = (d', Ok tt) /\ sql_inv d' /\ represents (sql_view d') ∅.
Proof.
  intros Hd. destruct (sql_create_ok d) as (d1 & E1 & Hm & _). rewrite Hd in Hm. cbn in Hm.
  destruct (sql_insert_root_ok d1 ∅ now Hm) as (d2 & E2 & Hm2); [done|intros k r; by rewrite lookup_empty|].
  unfold initSchema. rewrite E1, (sql_count_ok d1 ∅ 1 Hm). cbn [lookup]. rewrite lookup_empty. cbn [Z.eqb]. rewrite E2.
  exists d2. split; [done|]. split; [exists (<[1 := root_row now]> ∅), now; split; [done|apply lookup_insert_eq]|].
  exists {[1 := []]}. enough (sql_view d2 = ∅) as -> by apply repr_empty. unfold sql_view. rewrite Hm2. cbn. apply map_eq. intros x.
  rewrite lookup_empty. apply index_of_none; [by apply (sql_rows_unique d2)|].
  by intros k a [[<- <-]|[_ Hk]]%lookup_insert_Some Hk1; [|rewrite lookup_empty in Hk].
Qed.

(** A database that has the schema and its root is left alone. *)
Lemma initSchema_again (d : D) now : sql_inv d -> initSchema now d = (d, Ok tt).
Proof.
  intros (m & now0 & Hm & H1). destruct (sql_create_ok d) as (d1 & E1 & _ & Hsame).
  rewrite (Hsame ltac:(by exists m)) in E1. unfold initSchema. rewrite E1, (sql_count_ok d m 1 Hm), H1. done.
Qed.

Lemma sql_getOrCreateDir_file (d : D) p n now k f :
  sql_inv d -> 1 <= p -> sql_view d !! (p, n) = Some (k, f) -> f <> Dir ->
  exists e, sql_getOrCreateDir p n now d = (d, Err e).
Proof.
  intros (m & now0 & Hm & H1) Hp Hv Hf. apply (sql_view_lookup d m) in Hv as (r & Hr & Hk & Hnd); [|done|by exists now0|done].
  destruct (sql_select_dir_ok d m p n Hm) as (l & E & Hl). unfold sql_getOrCreateDir. rewrite E. destruct l as [|k' l].
  - by apply (sql_insert_dir_dup d m p n dir_mode now k r).
  - destruct (proj1 (Hl k')) as (r' & Hr' & Hk' & Hd); [by left|].
    assert (k' = k) as -> by (by apply (sql_rows_unique d m Hm k' k r' r); [..|congruence]).
    assert (r' = r) as -> by congruence. unfold row_node in Hnd. rewrite Hd in Hnd. congruence.
Qed.

(** A path through a file. Where an element of the path that is not the last is a file, and those before
    it are directories, the unique index of the table refuses the directory: [IngestFileHash] fails with its
    error, and the database is as it was. *)
Theorem IngestFileHash_through_file (d : D) t fullPath size hash mode clock a n b f :
  sql_inv d -> represents (sql_view d) t -> path_parts fullPath = a ++ n :: b -> b <> [] ->
  t !! (a ++ [n]) = Some f -> f <> Dir -> (forall a1 a2, a = a1 ++ a2 -> a1 <> [] -> t !! a1 = Some Dir) ->
  IngestFileHash fullPath size hash mode clock d = (d, Err "failed to sync tree").
Proof.
  intros Hinv [loc R] E Hb Hf Hnd Ha. unfold IngestFileHash.
  apply (ingest_parts_error (TL := sql_index_laws) _ loc t []); [|done|done|apply R|by exists a, n, b, f].
  intros p m now f' Hp Hv Hf'. destruct (ti_view d !! (p, m)) as [[k nd]|] eqn:Ev; [|done]. injection Hv as <-.
  by apply (sql_getOrCreateDir_file d p m now k nd).
Qed.

(** A file put where a directory is updates the directory's row: the call succeeds, and the directory stays. *)
Lemma IngestFileHash_over_dir (d : D) loc t n size hash mode clock k fullPath :
  sql_inv d -> repr loc (sql_view d) t -> path_parts fullPath = [n] -> sql_view d !! (1, n) = Some (k, Dir) ->
  exists d', IngestFileHash fullPath size hash mode clock d = (d', Ok tt) /\ sql_view d' = sql_view d.
Proof.
  intros (m & now & Hm & H1) R E Hv. unfold IngestFileHash. rewrite E. cbn [ingest_parts].
  pose proof Hv as Hrow. apply (sql_view_lookup d m) in Hrow as (r & Hr & Hk & Hnd); [|done|by exists now|done].
  destruct (sql_upsert_dup d m 1 n size hash mode (clock 0) k r Hm Hr Hk) as (d' & Eu & Hm'). exists d'. split; [done|].
  assert (r_is_dir r = true) as Hd by (unfold row_node in Hnd; by destruct (r_is_dir r)).
  assert (k <> 1) as Hk1. { intros ->. rewrite H1 in Hr. injection Hr as <-. by injection Hk. }
  unfold sql_view in *. rewrite Hm'. rewrite Hm in *. cbn in *.
  rewrite index_of_insert; [|by apply (sql_rows_unique d')|by apply (sql_rows_unique d)|done|intros b Hb; by assert (b = r) as -> by congruence].
  unfold row_node at 1. cbn. rewrite Hd. change (row_key (updated_row r size hash mode)) with (row_key r). rewrite Hk.
  by apply insert_id.
Qed.
End effects.

(** ** A database in memory *)

Definition table_ok (m : gmap Z Row) : Prop :=
  map_Forall (fun k r => r_id r = k /\ map_Forall (fun k' r' => row_key r = row_key r' -> k = k') m) m.

#[export] Instance table_ok_dec m : Decision (table_ok m).
Proof. unfold table_ok. apply _. Defined.

(** [None] before [CREATE TABLE]. *)
Definition Table : Type := option (gmap Z Row).

Definition table_rows (d : Table) : option (gmap Z Row) :=
  m ← d; if decide (table_ok m) then Some m else None.

Definition rows_where (P : Row -> bool) (d : Table) : list Row :=
  filter (fun r => P r = true) (map snd (map_to_list (default ∅ (table_rows d)))).

Definition at_name (p : Z) (n : bytes) (r : Row) : bool := (r_parent_id r =? p) && bytes_eqb (r_name r) n.

Definition next_id (d : Table) : Z := 1 + foldr Z.max 0 (map fst (map_to_list (default ∅ (table_rows d)))).

Definition table_insert (r : Row) (d : Table) : Table := <[r_id r := r]> <$> d.

#[export] Instance table_sqlite : SQLite Table := {|
  sql_open := fun _ => Ok None;
  sql_create := fun d => (Some (default ∅ (table_rows d)), Ok tt);
  sql_count := fun k d => Ok (zlen (rows_where (fun r => r_id r =? k) d));
  sql_insert_root := fun now d => (table_insert (root_row now) d, Ok tt);
  sql_select_dir := fun p n d => Ok (map r_id (rows_where (fun r => at_name p n r && r_is_dir r) d));
  sql_insert_dir := fun p n mode now d =>
    match rows_where (at_name p n) d with
    | [] => (table_insert (dir_row (next_id d) p n mode now) d, Ok (next_id d))
    | _ => (d, Err "UNIQUE constraint failed")
    end;
  sql_upsert_file := fun p n size hash mode now d =>
    match rows_where (at_name p n) d with
    | [] => (table_insert (file_row (next_id d) p n size hash mode now) d, Ok tt)
    | r :: _ => (table_insert (updated_row r size hash mode) d, Ok tt)
    end;
  sql_select_children := fun p d => Ok (rows_where (fun r => r_parent_id r =? p) d);
  sql_select_node := fun p n d => Ok (rows_where (at_name p n) d);
|}.

Lemma table_rows_ok d m : table_rows d = Some m <-> d = Some m /\ table_ok m.
Proof.
  unfold table_rows. destruct d as [m'|]; cbn; [|split; [done|by intros []]]. case_decide; split; try done; [by intros [= ->]|by intros [[= ->] _]|by intros [[= ->] ?]].
Qed.

Lemma rows_where_elem d m P r : table_rows d = Some m -> r ∈ rows_where P d <-> m !! r_id r = Some r /\ P r = true.
Proof.
  intros Hm. unfold rows_where. rewrite Hm. cbn. rewrite list_elem_of_filter, list_elem_of_In, in_map_iff.
  apply table_rows_ok in Hm as [_ Hok]. split.
  - intros (HP & (k & r') & <- & Hin%list_elem_of_In%elem_of_map_to_list). cbn in *. by rewrite (proj1 (Hok k r' Hin)).
  - intros [Hr HP]. split; [done|]. exists (r_id r, r). split; [done|]. by apply list_elem_of_In, elem_of_map_to_list.
Qed.

Lemma NoDup_rows_where d P : NoDup (rows_where P d).
Proof.
  unfold rows_where. destruct (table_rows d) as [m|] eqn:Hm; [|constructor].
  apply NoDup_filter. cbn. apply table_rows_ok in Hm as [_ Hok]. change (NoDup (snd <$> map_to_list m)).
  apply NoDup_fmap_2_strong; [|apply NoDup_map_to_list]. intros [k1 r1] [k2 r2] H1%elem_of_map_to_list H2%elem_of_map_to_list E.
  cbn in E. subst. f_equal. by rewrite <-(proj1 (Hok k1 r2 H1)), <-(proj1 (Hok k2 r2 H2)).
Qed.

Lemma at_name_key p n r : at_name p n r = true <-> row_key r = (p, n).
Proof.
  unfold at_name, row_key. rewrite andb_true_iff, Z.eqb_eq, bytes_eqb_true. split; [by intros [-> ->]|by intros [= -> ->]].
Qed.

Lemma foldr_max_ge (k : Z) l : k ∈ l -> k <= foldr Z.max 0 l.
Proof. induction 1; cbn; lia. Qed.

Lemma next_id_above d m k r : table_rows d = Some m -> m !! k = Some r -> k < next_id d.
Proof.
  intros Hm Hk. unfold next_id. rewrite Hm. cbn. enough (k <= foldr Z.max 0 (map fst (map_to_list m))) by lia.
  apply foldr_max_ge, list_elem_of_In, in_map_iff. exists (k, r). split; [done|]. by apply list_elem_of_In, elem_of_map_to_list.
Qed.

Lemma table_insert_ok d m r :
  table_rows d = Some m -> (forall k b, m !! k = Some b -> row_key b = row_key r -> k = r_id r) ->
  table_rows (table_insert r d) = Some (<[r_id r := r]> m).
Proof.
  intros [-> Hok]%table_rows_ok Hk. apply table_rows_ok. split; [done|].
  assert (keys_unique row_key (<[r_id r := r]> m)) as Hu.
  { apply keys_unique_insert; [|done]. intros k k' a a' H1 H2. exact (proj2 (Hok k a H1) k' a' H2). }
  intros k a Ha. split; [|intros k' a' Ha'; by apply (Hu k k' a a')].
  apply lookup_insert_Some in Ha as [[<- <-]|[_ Ha]]; [done|]. apply (Hok k a Ha).
Qed.

Lemma rows_where_new d m p n : table_rows d = Some m -> (forall k r, m !! k = Some r -> row_key r <> (p, n)) -> rows_where (at_name p n) d = [].
Proof.
  intros Hm Hno. destruct (rows_where _ d) as [|r l] eqn:E; [done|].
  assert (r ∈ rows_where (at_name p n) d) as Hin by (rewrite E; by left).
  apply (rows_where_elem d m) in Hin as [Hr Hk%at_name_key]; [|done]. by destruct (Hno _ _ Hr).
Qed.

Lemma rows_where_dup d m p n k r :
  table_rows d = Some m -> m !! k = Some r -> row_key r = (p, n) -> r_id r = k /\ exists l, rows_where (at_name p n) d = r :: l.
Proof.
  intros Hm Hr Hk. pose proof Hm as [_ Hok]%table_rows_ok. pose proof (proj1 (Hok k r Hr)) as Hid. split; [done|].
  assert (r ∈ rows_where (at_name p n) d) as Hin by (apply (rows_where_elem d m); [done|]; rewrite Hid, at_name_key; done).
  destruct (rows_where _ d) as [|r' l] eqn:E; [by apply not_elem_of_nil in Hin|].
  assert (r' ∈ rows_where (at_name p n) d) as Hin' by (rewrite E; by left).
  apply (rows_where_elem d m) in Hin' as [Hr' Hk'%at_name_key]; [|done].
  exists l. f_equal. pose proof (proj2 (Hok k r Hr) _ r' Hr' ltac:(congruence)) as E'. rewrite <-E' in Hr'. congruence.
Qed.

#[export] Program Instance table_sqlite_laws : SQLiteLaws Table := {| sql_rows := table_rows |}.
Next Obligation. intros d m k r [_ Hok]%table_rows_ok Hk. apply (Hok k r Hk). Qed.
Next Obligation. intros d m [_ Hok]%table_rows_ok k k' a a' H1 H2. exact (proj2 (Hok k a H1) k' a' H2). Qed.
Next Obligation.
  intros d. eexists. split; [done|]. split.
  - destruct (table_rows d) as [m|] eqn:E; [|done]. apply table_rows_ok in E as [_ Hok]. by apply table_rows_ok.
  - intros [m E]. rewrite E. cbn. by apply table_rows_ok in E as [-> _].
Qed.
Next Obligation.
  intros d m k Hm. cbn. f_equal. pose proof (fun P => rows_where_elem d m P) as Hel. pose proof (NoDup_rows_where d (fun r => r_id r =? k)) as Hnd.
  set (l := rows_where _ d) in *. assert (Hl : forall r, r ∈ l <-> m !! k = Some r).
  { intros r. unfold l. rewrite Hel, Z.eqb_eq by done. split; [by intros [? <-]|]. intros Hr.
    apply table_rows_ok in Hm as [_ Hok]. pose proof (proj1 (Hok k r Hr)) as <-. done. }
  destruct (m !! k) as [r|].
  - destruct l as [|r1 l]; [by pose proof (proj2 (Hl r) eq_refl) as []%not_elem_of_nil|].
    destruct l as [|r2 l]; [done|]. apply NoDup_cons in Hnd as [Hne _]. exfalso. apply Hne.
    pose proof (proj1 (Hl r1) ltac:(by left)) as [= <-]. pose proof (proj1 (Hl r2) ltac:(by right; left)) as [= <-]. by left.
  - destruct l as [|r1 l]; [done|]. by pose proof (proj1 (Hl r1) ltac:(by left)).
Qed.
Next Obligation.
  intros d m now Hm H1 Hno. eexists. split; [done|]. apply (table_insert_ok d m (root_row now) Hm).
  intros k b Hb E. by destruct (Hno k b Hb).
Qed.
Next Obligation.
  intros d m p n Hm. eexists. split; [done|]. intros k. rewrite list_elem_of_In, in_map_iff. split.
  - intros (r & <- & [Hr [Hk%at_name_key Hd]%andb_true_iff]%list_elem_of_In%(rows_where_elem d m)); [by exists r|done].
  - intros (r & Hr & Hk & Hd). pose proof (rows_where_dup d m p n k r Hm Hr Hk) as [<- _]. exists r. split; [done|].
    apply list_elem_of_In, (rows_where_elem d m); [done|]. by rewrite andb_true_iff, at_name_key.
Qed.
Next Obligation.
  intros d m p n mode now Hm Hno. cbn. rewrite (rows_where_new d m) by done. eexists _, _. split; [done|]. split.
  - intros k r. by apply next_id_above.
  - apply (table_insert_ok d m (dir_row _ p n mode now) Hm). intros k b Hb E. by destruct (Hno k b Hb).
Qed.
Next Obligation.
  intros d m p n mode now k r Hm Hr Hk. cbn. destruct (rows_where_dup d m p n k r Hm Hr Hk) as (_ & l & ->). by eexists.
Qed.
Next Obligation.
  intros d m p n size hash mode now Hm Hno. cbn. rewrite (rows_where_new d m) by done. eexists _, _. split; [done|]. split.
  - intros k r. by apply next_id_above.
  - apply (table_insert_ok d m (file_row _ p n size hash mode now) Hm). intros k b Hb E. by destruct (Hno k b Hb).
Qed.
Next Obligation.
  intros d m p n size hash mode now k r Hm Hr Hk. cbn. destruct (rows_where_dup d m p n k r Hm Hr Hk) as (<- & l & ->).
  eexists. split; [done|]. apply (table_insert_ok d m (updated_row r size hash mode) Hm). intros k b Hb E.
  apply table_rows_ok in Hm as [_ Hok]. exact (proj2 (Hok k b Hb) _ r Hr E).
Qed.
Next Obligation.
  intros d m p Hm. eexists. split; [done|]. split; [apply NoDup_rows_where|]. intros r. by rewrite (rows_where_elem d m), Z.eqb_eq.
Qed.
Next Obligation.
  intros d m p n Hm. eexists. split; [done|]. intros r. by rewrite (rows_where_elem d m), at_name_key.
Qed.

Definition file_tree : tree := {[ [str "a"] := File 3 (str "h") 420 ]}.

(** The file [a], then the path [a/b]. *)
Lemma IngestFileHash_through_file_witness :
  exists d : Table, IngestFileHash (str "a") 3 (str "h") 420 (fun i => i) (initSchema (D := Table) 0 None).1 = (d, Ok tt) /\
    IngestFileHash (str "a/b") 5 (str "g") 420 (fun i => i) d = (d, Err "failed to sync tree").
Proof.
  destruct (initSchema_fresh (QL := table_sqlite_laws) None 0 eq_refl) as (d0 & E0 & Hinv & Hrep).
  rewrite E0. cbn [fst].
  destruct (IngestFileHash_refines (TL := sql_index_laws) (str "a") 3 (str "h") 420 (fun i => i) d0 ∅ file_tree Hinv Hrep
    ltac:(vm_compute; reflexivity)) as (d & E & Hinv' & Hrep').
  exists d. split; [exact E|].
  apply (IngestFileHash_through_file d file_tree (str "a/b") 5 (str "g") 420 (fun i => i) [] (str "a") [str "b"] (File 3 (str "h") 420)).
  - exact Hinv'.
  - exact Hrep'.
  - vm_compute. reflexivity.
  - discriminate.
  - vm_compute. reflexivity.
  - discriminate.
  - intros [|? ?] ? E' Hne; [by destruct Hne|discriminate E'].
Defined.
