(* ===== verification/WasmDb.v ===== *)
(** [pkg/cromdb/wasm.go]: the same tree for the browser, in a map of inodes. It discharges the laws of
    [TreeFS.TreeIndex], and unlike [CromDb] it lets a file and a directory take the same name. *)

From S2P Require Import Prelude Binary Sha256 Externals Crypto Format FormatIO Delta Chunker Codebook.
From S2P Require Import Fractal Entropy Search Unpack Pack ChunkCodec BlockCodec RoundTrip Archive Sync Bitswap Transfer Protocol TreeFS.

(** The order in which Go ranges over the map. *)
Class InodeOrder := inode_order : gmap Z Inode -> list (Z * Inode).
Class InodeOrderLaws (O : InodeOrder) := inode_order_perm m : inode_order m ≡ₚ map_to_list m.

Record WasmFS := { w_inodes : gmap Z Inode; w_nextID : Z }.

Definition wasm_root (now : Z) : Inode :=
  {| i_ID := 1; i_ParentID := 0; i_Name := []; i_IsDir := true; i_Size := 0; i_DataHash := [];
     i_Mode := dir_mode; i_ModTime := now |}.

Definition wasm_NewTreeFS (dsn : bytes) (now : Z) : res WasmFS :=
  Ok {| w_inodes := {[1 := wasm_root now]}; w_nextID := 2 |}.

Definition inode_key (i : Inode) : Z * bytes := (i_ParentID i, i_Name i).

(** [n.ParentID == parentID && n.Name == name] *)
Definition inode_at (p : Z) (n : bytes) (i : Inode) : bool := (i_ParentID i =? p) && bytes_eqb (i_Name i) n.

(** The zero value, which reading an absent key gives. *)
Definition zero_inode : Inode :=
  {| i_ID := 0; i_ParentID := 0; i_Name := []; i_IsDir := false; i_Size := 0; i_DataHash := []; i_Mode := 0; i_ModTime := 0 |}.

Section wasm.
Context {IO : InodeOrder}.

Definition wasm_getOrCreateDir (parentID : Z) (name : bytes) (now : Z) (fs : WasmFS) : WasmFS * res Z :=
  match List.find (fun '(_, n) => inode_at parentID name n && i_IsDir n) (inode_order (w_inodes fs)) with
  | Some (id, _) => (fs, Ok id)
  | None =>
      let id := w_nextID fs in
      ({| w_inodes := <[id := {| i_ID := id; i_ParentID := parentID; i_Name := name; i_IsDir := true; i_Size := 0;
                                 i_DataHash := []; i_Mode := dir_mode; i_ModTime := now |}]> (w_inodes fs);
          w_nextID := id + 1 |}, Ok id)
  end.

(** The end of [IngestFileHash]: replace the file if there is one, else add it. *)
Definition wasm_putFile (parentID : Z) (fileName : bytes) (size : Z) (fileHash : bytes) (mode now : Z) (fs : WasmFS) : WasmFS * res unit :=
  let existingID :=
    match List.find (fun '(_, n) => inode_at parentID fileName n && negb (i_IsDir n)) (inode_order (w_inodes fs)) with
    | Some (id, _) => id
    | None => 0
    end in
  if existingID >? 0 then
    let n := default zero_inode (w_inodes fs !! existingID) in
    ({| w_inodes := <[existingID := {| i_ID := i_ID n; i_ParentID := i_ParentID n; i_Name := i_Name n; i_IsDir := i_IsDir n;
                                       i_Size := size; i_DataHash := fileHash; i_Mode := mode; i_ModTime := i_ModTime n |}]> (w_inodes fs);
        w_nextID := w_nextID fs |}, Ok tt)
  else
    let id := w_nextID fs in
    ({| w_inodes := <[id := {| i_ID := id; i_ParentID := parentID; i_Name := fileName; i_IsDir := false; i_Size := size;
                               i_DataHash := fileHash; i_Mode := mode; i_ModTime := now |}]> (w_inodes fs);
        w_nextID := id + 1 |}, Ok tt).

Definition wasm_GetChildren (parentID : Z) (fs : WasmFS) : res (list Inode) :=
  Ok (filter (fun n => (i_ParentID n =? parentID) = true) (map snd (inode_order (w_inodes fs)))).

Definition wasm_LookupNode (parentID : Z) (name : bytes) (fs : WasmFS) : res (option Inode) :=
  Ok (snd <$> List.find (fun '(_, n) => inode_at parentID name n) (inode_order (w_inodes fs))).

#[export] Instance wasm_index : TreeIndex WasmFS := {|
  getOrCreateDir := wasm_getOrCreateDir;
  putFile := wasm_putFile;
  GetChildren := wasm_GetChildren;
  LookupNode := wasm_LookupNode |}.

(** The loop over the directories is that of the other index. *)
Definition wasm_IngestFileHash (fullPath : bytes) (size : Z) (fileHash : bytes) (mode : Z) (clock : Z -> Z) (fs : WasmFS) : WasmFS * res unit :=
  IngestFileHash fullPath size fileHash mode clock fs.

(** ** The laws of the interface *)

Context {IL : InodeOrderLaws IO}.

Record wasm_inv (fs : WasmFS) : Prop := {
  wi_root : exists now, w_inodes fs !! 1 = Some (wasm_root now);
  wi_id k i : w_inodes fs !! k = Some i -> i_ID i = k;
  wi_next k i : w_inodes fs !! k = Some i -> 1 <= k < w_nextID fs;
  wi_unique : keys_unique inode_key (w_inodes fs);
}.

Definition wasm_view (fs : WasmFS) : view := index_of inode_key node_of (w_inodes fs).

Lemma inode_at_key p n i : inode_at p n i = true <-> inode_key i = (p, n).
Proof.
  unfold inode_at, inode_key. rewrite andb_true_iff, Z.eqb_eq, bytes_eqb_true. split; [by intros [-> ->]|by intros [= -> ->]].
Qed.

Lemma find_order (P : Inode -> bool) m :
  match List.find (fun '(_, n) => P n) (inode_order m) with
  | Some (k, i) => m !! k = Some i /\ P i = true
  | None => forall k i, m !! k = Some i -> P i = false
  end.
Proof.
  destruct (List.find _ _) as [[k i]|] eqn:E.
  - apply find_some in E as [Hin HP]. split; [|done]. rewrite <-elem_of_map_to_list, <-inode_order_perm. by apply list_elem_of_In.
  - intros k i Hk. apply (find_none _ _ E (k, i)). apply list_elem_of_In. by rewrite inode_order_perm, elem_of_map_to_list.
Qed.

Lemma wasm_view_lookup fs p n k nd :
  wasm_inv fs -> 1 <= p ->
  wasm_view fs !! (p, n) = Some (k, nd) <-> exists i, w_inodes fs !! k = Some i /\ inode_key i = (p, n) /\ node_of i = nd.
Proof.
  intros I Hp. unfold wasm_view. rewrite index_of_lookup by apply I. split; [intros (i & ? & _ & ?); by exists i|].
  intros (i & Hi & Hk & Hn). exists i. split; [done|]. split; [|done]. intros ->. destruct (wi_root _ I) as [now H1].
  rewrite H1 in Hi. injection Hi as <-. injection Hk as E _. lia.
Qed.

Lemma wasm_view_none fs p n k i : wasm_inv fs -> 1 <= p -> wasm_view fs !! (p, n) = None -> w_inodes fs !! k = Some i -> inode_key i <> (p, n).
Proof.
  intros I Hp E Hi Hk. enough (wasm_view fs !! (p, n) = Some (k, node_of i)) by congruence.
  apply wasm_view_lookup; [done..|]. by exists i.
Qed.

(** A new inode under the next id. *)
Lemma wasm_add fs i p n :
  wasm_inv fs -> 1 <= p -> wasm_view fs !! (p, n) = None -> i_ID i = w_nextID fs -> inode_key i = (p, n) ->
  let fs' := {| w_inodes := <[w_nextID fs := i]> (w_inodes fs); w_nextID := w_nextID fs + 1 |} in
  fresh (w_nextID fs) (wasm_view fs) /\ wasm_inv fs' /\ wasm_view fs' = <[(p, n) := (w_nextID fs, node_of i)]> (wasm_view fs).
Proof.
  intros I Hp Hno Hid Hk fs'. destruct (wi_root _ I) as [now H1]. pose proof (wi_next _ I _ _ H1) as Hn1.
  assert (Hkey : forall k b, w_inodes fs !! k = Some b -> inode_key b <> inode_key i) by (rewrite Hk; intros k b; by apply wasm_view_none).
  assert (Hu : keys_unique inode_key (w_inodes fs')).
  { apply keys_unique_insert; [apply I|]. intros k b Hb E. by destruct (Hkey k b). }
  split; [split; [lia|]|split; [split|]].
  - intros x [k nd] Hx. apply index_of_lookup in Hx as (b & Hb & _); [|apply I]. cbn. pose proof (wi_next _ I _ _ Hb). lia.
  - exists now. cbn. rewrite lookup_insert_ne; [done|lia].
  - cbn. intros k b [[<- <-]|[_ Hb]]%lookup_insert_Some; [done|]. by apply (wi_id _ I).
  - cbn. intros k b [[<- <-]|[_ Hb]]%lookup_insert_Some; [lia|]. pose proof (wi_next _ I _ _ Hb). lia.
  - done.
  - rewrite <-Hk. apply index_of_insert; [done|apply I|lia|]. intros b Hb. pose proof (wi_next _ I _ _ Hb). lia.
Qed.

#[export] Program Instance wasm_index_laws : TreeIndexLaws WasmFS := {| ti_inv := wasm_inv; ti_view := wasm_view |}.
Next Obligation.
  intros fs p n I Hp. cbn. eexists. split; [done|]. pose proof (find_order (inode_at p n) (w_inodes fs)) as Hf.
  destruct (List.find _ _) as [[k i]|]; cbn.
  - destruct Hf as [Hi Hk%inode_at_key]. split; [|intros ? [= <-]; by injection Hk]. symmetry. apply wasm_view_lookup; [done..|].
    exists i. rewrite (wi_id _ I k i Hi). done.
  - split; [|done]. symmetry. destruct (wasm_view fs !! (p, n)) as [[k nd]|] eqn:E; [|done].
    apply wasm_view_lookup in E as (i & Hi & Hk%inode_at_key & _); [|done..]. rewrite (Hf k i Hi) in Hk. done.
Qed.
Next Obligation.
  intros fs p I Hp. cbn. eexists. split; [done|]. set (l := filter _ _).
  assert (Hl : forall i, i ∈ l <-> w_inodes fs !! i_ID i = Some i /\ i_ParentID i = p).
  { intros i. unfold l. rewrite list_elem_of_filter, Z.eqb_eq, list_elem_of_In, in_map_iff. split.
    - intros (Hp' & (k & i') & <- & Hin%list_elem_of_In). rewrite inode_order_perm, elem_of_map_to_list in Hin. cbn in *.
      by rewrite (wi_id _ I k i' Hin).
    - intros [Hi Hp']. split; [done|]. exists (i_ID i, i). split; [done|]. apply list_elem_of_In.
      by rewrite inode_order_perm, elem_of_map_to_list. }
  split.
  - change (NoDup (i_Name <$> l)). apply NoDup_fmap_2_strong.
    + intros i1 i2 [H1 E1]%Hl [H2 E2]%Hl En. enough (i_ID i1 = i_ID i2) by congruence.
      apply (wi_unique _ I _ _ i1 i2 H1 H2). unfold inode_key. congruence.
    + apply NoDup_filter. rewrite (Permutation_map snd (inode_order_perm _)). change (NoDup (snd <$> map_to_list (w_inodes fs))).
      apply NoDup_fmap_2_strong; [|apply NoDup_map_to_list]. intros [k1 i1] [k2 i2] H1%elem_of_map_to_list H2%elem_of_map_to_list E.
      cbn in E. subst. by rewrite <-(wi_id _ I k1 i2 H1), <-(wi_id _ I k2 i2 H2).
  - intros n [k nd]. rewrite wasm_view_lookup by done. split.
    + intros (i & Hi & [= Hip Hin] & <-). pose proof (wi_id _ I k i Hi) as Hid. exists i. split; [apply Hl; by rewrite Hid|].
      unfold entry_of. by rewrite Hid.
    + intros (i & [Hi Hip]%Hl & <- & [= <- <-]). exists i. split; [done|]. split; [|done]. unfold inode_key. congruence.
Qed.
Next Obligation.
  intros fs p n k now I Hp Hv. cbn. unfold wasm_getOrCreateDir.
  pose proof (find_order (fun i => inode_at p n i && i_IsDir i) (w_inodes fs)) as Hf.
  apply wasm_view_lookup in Hv as (i & Hi & Hk & Hn); [|done..]. destruct (List.find _ _) as [[k' i']|].
  - destruct Hf as [Hi' [Hk'%inode_at_key _]%andb_true_iff]. by rewrite (wi_unique _ I k k' i i' Hi Hi') by congruence.
  - pose proof (Hf k i Hi) as E. apply inode_at_key in Hk. rewrite Hk in E. cbn in E. unfold node_of in Hn. by rewrite E in Hn.
Qed.
Next Obligation.
  intros fs p n now I Hp Hv. cbn. unfold wasm_getOrCreateDir.
  pose proof (find_order (fun i => inode_at p n i && i_IsDir i) (w_inodes fs)) as Hf. destruct (List.find _ _) as [[k' i']|].
  - destruct Hf as [Hi' [Hk'%inode_at_key _]%andb_true_iff]. by destruct (wasm_view_none fs p n k' i' I Hp Hv Hi').
  - eexists _, _. split; [done|]. destruct (wasm_add fs {| i_ID := w_nextID fs; i_ParentID := p; i_Name := n; i_IsDir := true;
      i_Size := 0; i_DataHash := []; i_Mode := dir_mode; i_ModTime := now |} p n I Hp Hv eq_refl eq_refl) as (? & ? & ?). done.
Qed.
Next Obligation.
  intros fs p n size hash mode now I Hp Hv. cbn. unfold wasm_putFile.
  pose proof (find_order (fun i => inode_at p n i && negb (i_IsDir i)) (w_inodes fs)) as Hf. destruct (List.find _ _) as [[k i]|].
  - destruct Hf as [Hi [Hk%inode_at_key Hd%negb_true_iff]%andb_true_iff]. pose proof (wi_next _ I k i Hi) as Hkn.
    assert (Ev : wasm_view fs !! (p, n) = Some (k, node_of i)) by (apply wasm_view_lookup; [done..|]; by exists i).
    rewrite Z.gtb_ltb, (proj2 (Z.ltb_lt _ _)) by lia. rewrite Hi. cbn [default from_option id]. eexists k, _. split; [done|].
    set (i' := {| i_ID := _ |}). assert (Hk1 : k <> 1).
    { intros ->. destruct (wi_root _ I) as [now1 H1]. rewrite H1 in Hi. injection Hi as <-. injection Hk as E _. lia. }
    assert (Hu : keys_unique inode_key (<[k := i']> (w_inodes fs))).
    { apply keys_unique_insert; [apply I|]. intros k' b Hb E. apply (wi_unique _ I k' k b i Hb Hi). exact E. }
    split; [split|split].
    + destruct (wi_root _ I) as [now1 H1]. exists now1. cbn. by rewrite lookup_insert_ne.
    + cbn. intros k' b [[<- <-]|[_ Hb]]%lookup_insert_Some; [by apply (wi_id _ I k i)|by apply (wi_id _ I)].
    + cbn. intros k' b [[<- <-]|[_ Hb]]%lookup_insert_Some; [done|by apply (wi_next _ I k' b)].
    + done.
    + by rewrite Ev.
    + rewrite <-Hk. unfold wasm_view. cbn. rewrite (index_of_insert _ _ _ _ i'); [|done|apply I|done|intros b Hb; by assert (b = i) as -> by congruence].
      unfold node_of at 1. cbn. by rewrite Hd.
  - change (0 >? 0) with false. cbn. destruct (wasm_view fs !! (p, n)) as [[k nd]|] eqn:Ev.
    + apply wasm_view_lookup in Ev as (i & Hi & Hk & Hn); [|done..]. pose proof (Hf k i Hi) as E. apply inode_at_key in Hk.
      rewrite Hk in E. cbn in E. unfold node_of in Hn. apply negb_false_iff in E. rewrite E in Hn. subst. by destruct (Hv k).
    + eexists _, _. split; [done|]. destruct (wasm_add fs {| i_ID := w_nextID fs; i_ParentID := p; i_Name := n; i_IsDir := false;
        i_Size := size; i_DataHash := hash; i_Mode := mode; i_ModTime := now |} p n I Hp Ev eq_refl eq_refl) as (? & ? & ?). done.
Qed.

Lemma wasm_NewTreeFS_ok dsn now : exists fs, wasm_NewTreeFS dsn now = Ok fs /\ wasm_inv fs /\ represents (wasm_view fs) ∅.
Proof.
  eexists. split; [done|]. assert (Hu : keys_unique inode_key {[1 := wasm_root now]}).
  { by intros k k' a a' [<- _]%lookup_singleton_Some [<- _]%lookup_singleton_Some _. }
  split; [split|].
  - exists now. apply lookup_singleton_eq.
  - cbn. by intros k i [<- <-]%lookup_singleton_Some.
  - cbn. intros k i [<- <-]%lookup_singleton_Some. lia.
  - done.
  - exists {[1 := []]}. enough (wasm_view {| w_inodes := {[1 := wasm_root now]}; w_nextID := 2 |} = ∅) as -> by apply repr_empty.
    apply map_eq. intros x. rewrite lookup_empty. apply index_of_none; [done|]. cbn. by intros k a [<- _]%lookup_singleton_Some.
Qed.
End wasm.

(** ** Where the two implementations part

    A file, then a file in a directory of the same name: [CromDb] refuses the second
    ([CromDb.IngestFileHash_through_file]); here the map then has two inodes at one name, and which of
    them a lookup gives is up to Go's order. *)

Definition rev_order : InodeOrder := fun m => rev (map_to_list m).
Definition key_inodes : InodeOrder := map_to_list.

#[export] Instance key_inodes_laws : InodeOrderLaws key_inodes.
Proof. intros m. done. Qed.

#[export] Instance rev_order_laws : InodeOrderLaws rev_order.
Proof. intros m. symmetry. apply Permutation_rev. Qed.

Definition shadowed (IO : InodeOrder) : WasmFS :=
  let fs := {| w_inodes := {[1 := wasm_root 0]}; w_nextID := 2 |} in
  let '(fs, _) := wasm_IngestFileHash (str "a") 5 (str "x") 420 (fun _ => 0) fs in
  (wasm_IngestFileHash (str "a/b") 7 (str "y") 420 (fun _ => 0) fs).1.

(** What a lookup of the root's child [n] shows. *)
Definition looked_up (IO : InodeOrder) (n : bytes) (fs : WasmFS) : res (option Node) :=
  wasm_LookupNode (IO := IO) 1 n fs ≫= fun i : option Inode => Ok (option_map node_of i).

Lemma wasm_shadow_order :
  shadowed key_inodes = shadowed rev_order /\
  looked_up key_inodes (str "a") (shadowed key_inodes) <> looked_up rev_order (str "a") (shadowed key_inodes).
Proof. split; [vm_compute; reflexivity|]. intros E. vm_compute in E. discriminate. Qed.
