(* ===== verification/VfsTree.v ===== *)
(** [internal/vfs/tree.go] and [Mount] of [fuse.go]: the nodes the kernel walks, over any index of inodes,
    and the tree of a mounted archive. *)

From S2P Require Import Prelude Binary Sha256 Externals Crypto Format FormatIO Delta Chunker Codebook.
From S2P Require Import Fractal Entropy Search Unpack Pack ChunkCodec BlockCodec RoundTrip PackFile Archive.
From S2P Require Import VfsCache VfsReader VfsRead VfsMount Mutation Sync Bitswap Transfer Protocol TreeFS CromDb WasmDb.
Import codebook Format.

(** ** Nodes *)

Inductive Errno := ENOENT | ENOTDIR | EISDIR | EIO.

(** A [TreeInode]. Its index, reader and log are pointers that every node of the mount shares, so they are
    arguments of the operations. *)
Record TreeInode := { tn_inodeID : Z; tn_size : Z; tn_isDir : bool }.

(** The attributes the kernel is given, and an entry of a directory. *)
Record Attr := { at_Mode : Z; at_Size : Z }.
Record DirEntry := { de_Mode : Z; de_Name : bytes; de_Ino : Z }.

Definition S_IFDIR : Z := 0x4000.
Definition S_IFREG : Z := 0x8000.

Definition Getattr (n : TreeInode) : Attr :=
  if tn_isDir n then {| at_Mode := Z.lor S_IFDIR 493; at_Size := 0 |}
  else {| at_Mode := Z.lor S_IFREG 420; at_Size := u64 (tn_size n) |}.

Section nodes.
Context {T : Type} {TI : TreeIndex T}.

(** [Lookup]: an error of the index is a missing name. *)
Definition TreeInode_Lookup (name : bytes) (n : TreeInode) (fsIndex : T) : res (Errno + TreeInode * Attr) :=
  if negb (tn_isDir n) then Ok (inl ENOTDIR) else
  match LookupNode (tn_inodeID n) name fsIndex with
  | Ok (Some child) =>
      let childType := {| tn_inodeID := i_ID child; tn_size := i_Size child; tn_isDir := i_IsDir child |} in
      let mode := if i_IsDir child then Z.lor S_IFDIR 493 else Z.lor S_IFREG 420 in
      let size := if i_IsDir child then 0 else u64 (i_Size child) in
      Ok (inr (childType, {| at_Mode := mode; at_Size := size |}))
  | Ok None | Err _ => Ok (inl ENOENT)
  | Panic p => Panic p
  end.

(** [Readdir]: an error of the index is an empty directory. *)
Definition Readdir (n : TreeInode) (fsIndex : T) : res (Errno + list DirEntry) :=
  if negb (tn_isDir n) then Ok (inl ENOTDIR) else
  match GetChildren (tn_inodeID n) fsIndex with
  | Ok children =>
      Ok (inr (map (fun c => {| de_Mode := if i_IsDir c then S_IFDIR else S_IFREG; de_Name := i_Name c; de_Ino := u64 (i_ID c) |}) children))
  | Err _ => Ok (inr [])
  | Panic p => Panic p
  end.

(** The kernel's walk down a path. *)
Fixpoint walk (q : list bytes) (n : TreeInode) (fsIndex : T) : res (Errno + TreeInode) :=
  match q with
  | [] => Ok (inr n)
  | name :: q =>
      r ← TreeInode_Lookup name n fsIndex;
      match r with
      | inr (child, _) => walk q child fsIndex
      | inl e => Ok (inl e)
      end
  end.
End nodes.

(** [Read] and [Write] of a node, whichever file it is: the reader and the log are the archive's. *)
Section data.
Context {Z0 : Zstd} {C0 : Cipher} {F0 : Files} {F : Type} {R : ReaderAt F}.

Definition TreeInode_Read (dest off : Z) (n : TreeInode) (reader : option (RandomReader (F := F))) :
    res ((Errno + bytes) * option RandomReader) :=
  if tn_isDir n then Ok (inl EISDIR, reader) else
  match reader with
  | None => Ok (inl EIO, reader)
  | Some rr =>
      '((data, err), rr) ← ReadAt dest off rr;
      match err with
      | Some e => if String.eqb e "EOF" then Ok (inr data, Some rr) else Ok (inl EIO, Some rr)
      | None => Ok (inr data, Some rr)
      end
  end.

Definition TreeInode_Write (now : Z) (data : bytes) (off : Z) (n : TreeInode) (wal : option WriteAheadLog) :
    (Errno + Z) * option WriteAheadLog :=
  if tn_isDir n then (inl EISDIR, wal) else (inr (u32 (zlen data)), wal_Append now data off <$> wal).
End data.

(** ** The walk *)

(** What the specification says of a walk from the node [nd] at the path [pre]. *)
Fixpoint tree_walk (t : tree) (pre : list bytes) (nd : Node) (q : list bytes) : Errno + Node :=
  match q with
  | [] => inr nd
  | name :: q =>
      match nd with
      | File _ _ _ => inl ENOTDIR
      | Dir =>
          match t !! (pre ++ [name]) with
          | None => inl ENOENT
          | Some nd => tree_walk t (pre ++ [name]) nd q
          end
      end
  end.

(** A [TreeInode] that stands for a node. *)
Definition stands_for (n : TreeInode) (nd : Node) : Prop :=
  match nd with
  | Dir => tn_isDir n = true
  | File size _ _ => tn_isDir n = false /\ tn_size n = size
  end.

Definition root_inode : TreeInode := {| tn_inodeID := 1; tn_size := 0; tn_isDir := true |}.

Lemma tree_walk_found t pre q nd : tree_ok t -> t !! (pre ++ q) = Some nd -> (pre = [] \/ t !! pre = Some Dir) ->
  tree_walk t pre Dir q = inr (if decide (q = []) then Dir else nd).
Proof.
  intros [_ Hok]. revert pre; induction q as [|n q IH]; intros pre Hq Hpre; [done|]. cbn [tree_walk].
  destruct q as [|m q]; [by rewrite Hq|].
  assert (t !! (pre ++ [n]) = Some Dir) as Hd.
  { clear IH. revert nd Hq. induction q as [|x q IH] using rev_ind; intros nd Hq.
    - destruct (Hok (pre ++ [n]) m) as [E|E]; [by rewrite <-app_assoc; exists nd|by destruct pre|done].
    - destruct (Hok (pre ++ n :: m :: q) x) as [E|E]; [rewrite <-app_assoc; by exists nd|by destruct pre|].
      by apply (IH Dir). }
  rewrite Hd. rewrite IH; [done|by rewrite <-app_assoc|by right].
Qed.

Section walk_laws.
Context {T : Type} {TI : TreeIndex T} {TL : TreeIndexLaws T}.

Lemma walk_refines (fs : T) loc t q pre n :
  ti_inv fs -> repr loc (ti_view fs) t -> loc !! tn_inodeID n = Some pre -> tn_isDir n = true ->
  exists r, walk q n fs = Ok r /\
    match r, tree_walk t pre Dir q with
    | inl e, inl e' => e = e'
    | inr c, inr nd => stands_for c nd
    | _, _ => False
    end.
Proof.
  intros Hinv R. revert pre n; induction q as [|name q IH]; intros pre n Hloc Hd; [by exists (inr n)|].
  cbn [walk tree_walk]. unfold TreeInode_Lookup. rewrite Hd. cbn [negb].
  destruct (LookupNode_view fs (tn_inodeID n) name Hinv (r_pos _ _ _ R _ _ Hloc)) as (r & -> & Hv & _).
  rewrite (r_tree _ _ _ R _ _ name Hloc), <-Hv. destruct r as [c|]; cbn; [|by exists (inl ENOENT)].
  cbn in Hv. unfold entry_of, node_of in *. destruct (i_IsDir c) eqn:Hc.
  - apply IH; [|done]. cbn. by apply (r_dir _ _ _ R (tn_inodeID n)).
  - destruct q as [|m q]; [eexists; split; [done|]; by split|]. cbn [walk tree_walk]. unfold TreeInode_Lookup. cbn [tn_isDir negb].
    by exists (inl ENOTDIR).
Qed.

(** The names of a directory are the children of its path. *)
Lemma Readdir_refines (fs : T) loc t pre n :
  ti_inv fs -> repr loc (ti_view fs) t -> loc !! tn_inodeID n = Some pre -> tn_isDir n = true ->
  exists l, Readdir n fs = Ok (inr l) /\ NoDup (map de_Name l) /\
    forall name, is_Some (t !! (pre ++ [name])) <-> name ∈ map de_Name l.
Proof.
  intros Hinv R Hloc Hd. unfold Readdir. rewrite Hd. cbn [negb].
  destruct (GetChildren_view fs (tn_inodeID n) Hinv (r_pos _ _ _ R _ _ Hloc)) as (l & -> & Hnd & Hl).
  eexists. split; [done|]. rewrite map_map. cbn. split; [done|]. intros name.
  rewrite (r_tree _ _ _ R _ _ name Hloc), list_elem_of_In, in_map_iff. split.
  - intros [nd E]. destruct (ti_view fs !! _) as [e|] eqn:Ev; [|done].
    apply Hl in Ev as (i & Hi & <- & _). exists i. split; [done|]. by apply list_elem_of_In.
  - intros (i & <- & Hi%list_elem_of_In). exists (node_of i).
    rewrite (proj2 (Hl (i_Name i) (entry_of i))); [done|]. by exists i.
Qed.
End walk_laws.

(** [C13] Ingesting a path, in either index of inodes. Where the specification allows it - no directory of
    the path is a file, and its last element is not a directory - [IngestFileHash] succeeds, the index is again
    the tree of the specification, walking the path from the root ends at a regular file of the given
    size, and what is not on the path is as before. *)
Theorem IngestFileHash_tree {T : Type} {TI : TreeIndex T} {TL : TreeIndexLaws T} fullPath size hash mode clock (fs : T) t t' :
  ti_inv fs -> represents (ti_view fs) t -> tree_ok t ->
  tree_ingest [] (path_parts fullPath) (File size hash mode) t = Some t' ->
  exists fs' child, IngestFileHash fullPath size hash mode clock fs = (fs', Ok tt) /\
    ti_inv fs' /\ represents (ti_view fs') t' /\ tree_ok t' /\
    walk (path_parts fullPath) root_inode fs' = Ok (inr child) /\
    Getattr child = {| at_Mode := Z.lor S_IFREG 420; at_Size := u64 size |} /\
    forall q, (forall a b, path_parts fullPath = a ++ b -> a <> [] -> q <> a) -> t' !! q = t !! q.
Proof.
  intros Hinv Hrep Hok E. destruct (IngestFileHash_refines fullPath size hash mode clock fs t t' Hinv Hrep E) as (fs' & Ei & Hinv' & loc & R).
  assert (tree_ok t') as Hok' by (by apply (tree_ingest_ok (path_parts fullPath) (File size hash mode) t)). destruct (tree_ingest_lookup _ _ _ _ _ E) as (Hne & [_ Hf] & _ & Ho). cbn [app] in *.
  destruct (walk_refines fs' loc t' (path_parts fullPath) [] root_inode Hinv' R (r_root _ _ _ R) eq_refl) as (r & Ew & Hr).
  rewrite (tree_walk_found t' [] _ _ Hok' Hf), decide_False in Hr by (done || by left). destruct r as [|child]; [done|]. destruct Hr as [Hd Hs].
  exists fs', child. split; [done|]. split; [done|]. split; [by exists loc|]. split; [done|]. split; [done|]. split; [|done].
  unfold Getattr. by rewrite Hd, Hs.
Qed.

Definition sample_clock : Z -> Z := fun i => 1700000000 + i.

Definition sample_tree : tree :=
  <[[str "d"; str "a"; str "b"] := File 5 (str "h") 420]> (<[[str "d"; str "a"] := Dir]> {[ [str "d"] := Dir ]}).
Definition sample_tree' : tree := <[[str "d"; str "b"] := File 9 (str "h") 420]> {[ [str "d"] := Dir ]}.

#[local] Existing Instance key_inodes.

(** Both indexes, each from its own empty tree. *)
Lemma IngestFileHash_tree_witness :
  (exists fs child, IngestFileHash (str "/d//a/./b") 5 (str "h") 420 sample_clock (Some {[1 := root_row 0]}) = (fs, Ok tt) /\
     walk [str "d"; str "a"; str "b"] root_inode fs = Ok (inr child) /\ at_Size (Getattr child) = 5) /\
  (exists fs child, IngestFileHash (str "d/b") 9 (str "h") 420 sample_clock {| w_inodes := {[1 := wasm_root 0]}; w_nextID := 2 |} = (fs, Ok tt) /\
     walk [str "d"; str "b"] root_inode fs = Ok (inr child) /\ at_Size (Getattr child) = 9).
Proof.
  assert (tree_ok ∅) as Hok by (split; [done|]; intros q n [? H]; by rewrite lookup_empty in H). split.
  - destruct (initSchema_fresh (QL := table_sqlite_laws) None 0 eq_refl) as (d & E & Hinv & Hrep).
    assert (d = Some {[1 := root_row 0]}) as -> by (vm_compute in E; vm_compute; congruence).
    destruct (IngestFileHash_tree (TL := sql_index_laws) (str "/d//a/./b") 5 (str "h") 420 sample_clock _ ∅
      sample_tree
      Hinv Hrep Hok ltac:(vm_compute; reflexivity)) as (fs & child & Ei & _ & _ & _ & Ew & Ea & _).
    assert (path_parts (str "/d//a/./b") = [str "d"; str "a"; str "b"]) as Ep by (vm_compute; reflexivity).
    rewrite Ep in Ew. exists fs, child. split; [exact Ei|]. split; [exact Ew|]. by rewrite Ea.
  - destruct (wasm_NewTreeFS_ok [] 0) as (d & E & Hinv & Hrep). injection E as <-.
    destruct (IngestFileHash_tree (TL := wasm_index_laws) (str "d/b") 9 (str "h") 420 sample_clock _ ∅
      sample_tree'
      Hinv Hrep Hok ltac:(vm_compute; reflexivity)) as (fs & child & Ei & _ & _ & _ & Ew & Ea & _).
    assert (path_parts (str "d/b") = [str "d"; str "b"]) as Ep by (vm_compute; reflexivity).
    rewrite Ep in Ew. exists fs, child. split; [exact Ei|]. split; [exact Ew|]. by rewrite Ea.
Defined.

(** ** [Mount]

    The name of the file in the mounted directory. *)
Definition mount_name (cromFile : bytes) : bytes :=
  let baseName := Base cromFile in
  if HasSuffix baseName (str ".crom") then ztake (zlen baseName - 5) baseName else baseName ++ str ".restored.raw".

Section mount.
Context {Z0 : Zstd} {C0 : Cipher} {F0 : Files} {F : Type} {R : ReaderAt F} {D : Type} {Q : SQLite D}.

(** [Mount] up to the FUSE server: the reader of the archive and the index of its one file. *)
Definition Mount (stream : bytes) (f : F) (cromFile codebookFile encryptionKey : bytes) (maxMB : Z) (clock : Z -> Z) :
    res (D * RandomReader (F := F)) :=
  randomReader ← open_mount stream f codebookFile encryptionKey maxMB;
  fsIndex ← wrap_err "mount: failed to init TreeFS mapping" (NewTreeFS (str ":memory:") (clock 0));
  match IngestFileHash (mount_name cromFile) (i64 (h_OriginalSize (rr_header randomReader))) [] 420 clock fsIndex with
  | (fsIndex, Ok _) => Ok (fsIndex, randomReader)
  | (_, Err _) => Err "mount: failed to index file hash"
  | (_, Panic p) => Panic p
  end.

(** A sequence of reads of one node. *)
Fixpoint run_node_reads (reads : list (Z * Z)) (n : TreeInode) (reader : option (RandomReader (F := F))) : res (list (Errno + bytes)) :=
  match reads with
  | [] => Ok []
  | (k, off) :: reads =>
      '(data, reader) ← TreeInode_Read k off n reader;
      rest ← run_node_reads reads n reader;
      Ok (data :: rest)
  end.

(** Reading a file of the tree is reading the archive. *)
Lemma TreeInode_Read_file k off n rr :
  tn_isDir n = false ->
  TreeInode_Read k off n (Some rr) =
    '(r, rr) ← CromFile_Read k off rr;
    Ok (match r with Ok data => inr data | _ => inl EIO end, Some rr).
Proof.
  intros Hn. unfold TreeInode_Read, CromFile_Read. rewrite Hn. destruct (ReadAt k off rr) as [[[data err] rr']|e|p]; [|done..].
  cbn. destruct err as [e|]; [|done]. by destruct (String.eqb e "EOF").
Qed.

Lemma run_node_reads_ok input I reads n rr :
  tn_isDir n = false -> serves input I -> I rr -> in_file reads ->
  run_node_reads reads n (Some rr) = Ok (map (fun '(k, off) => inr (sub off (off + k) input)) reads).
Proof.
  intros Hn Hs Hr Hreads. revert rr Hr; induction Hreads as [|[k off] reads [Hk Ho] _ IH]; intros rr Hr; [done|].
  cbn [run_node_reads]. rewrite TreeInode_Read_file by done. destruct (Hs rr k off Hr Hk Ho) as (rr' & -> & Hr').
  cbn [mbind res_bind]. by rewrite IH.
Qed.

Context {QL : SQLiteLaws D}.

(** The tree of a mount: one file, of the size of the input. *)
Lemma Mount_index stream f cromFile codebookFile key maxMB clock (input : bytes) (rr : RandomReader (F := F)) (d : D) :
  sql_open (str "file::memory:?cache=shared") = Ok d -> sql_rows d = None -> plain_name (mount_name cromFile) ->
  open_mount stream f codebookFile key maxMB = Ok rr -> i64 (h_OriginalSize (rr_header rr)) = zlen input ->
  exists fs, Mount stream f cromFile codebookFile key maxMB clock = Ok (fs, rr) /\ sql_inv fs /\
    represents (sql_view fs) {[[mount_name cromFile] := File (zlen input) [] 420]}.
Proof.
  intros Hopen Hd Hname Em Hsize. unfold Mount. rewrite Em. cbn [mbind res_bind].
  assert (NewTreeFS (str ":memory:") (clock 0) = match initSchema (clock 0) d with (d, Ok _) => Ok d | (_, Err e) => Err e | (_, Panic p) => Panic p end) as ->.
  { unfold NewTreeFS. change (bytes_eqb (str ":memory:") [] || bytes_eqb (str ":memory:") (str ":memory:")) with true. cbv iota. by rewrite Hopen. }
  destruct (initSchema_fresh d (clock 0) Hd) as (d1 & -> & Hinv & Hrep). cbn [wrap_err mbind res_bind]. rewrite Hsize.
  assert (path_parts (mount_name cromFile) = [mount_name cromFile]) as Hparts.
  { apply (path_parts_plain [mount_name cromFile]); [done|]. by constructor. }
  destruct (IngestFileHash_refines (TL := sql_index_laws) (mount_name cromFile) (zlen input) [] 420 clock d1 ∅
    {[[mount_name cromFile] := File (zlen input) [] 420]} Hinv Hrep) as (fs & -> & Hinv' & Hrep'); [by rewrite Hparts|].
  by exists fs.
Qed.
End mount.

Lemma NoDup_only {A} (x : A) l : NoDup l -> (forall y, y ∈ l <-> y = x) -> l = [x].
Proof.
  intros Hnd Hl. destruct l as [|y l]; [by pose proof (proj2 (Hl x) eq_refl) as []%not_elem_of_nil|].
  pose proof (proj1 (Hl y) ltac:(by left)) as ->. f_equal. destruct l as [|z l]; [done|].
  pose proof (proj1 (Hl z) ltac:(by right; left)) as ->. apply NoDup_cons in Hnd as [Hne _]. destruct Hne. by left.
Qed.

(** ** Whatever was packed *)

Section tree.
Context {Z0 : Zstd} {C0 : Cipher} {F0 : Files} {hash64 : XXHash} {log2 : MathLog2} {order : MapOrder}
  {ZL : ZstdLaws Z0} {CL : CipherLaws C0} {OL : MapOrderLaws order} {D : Type} {Q : SQLite D} {QL : SQLiteLaws D}.
Variable hasSIMD : bool.

(** [C3] The mounted directory. Mounting what [Pack] made of an input gives a tree that the kernel finds one
    name in, that of the archive without [.crom]: a regular file of the size of the input, whose reads, in any
    order, are the ranges of the input. Every other path is [ENOENT], or [ENOTDIR] below the file. *)
Theorem Mount_tree rnd schedule input path cb opts file {F} {R : ReaderAt F} (ok : F -> Prop) f maxMB cromFile clock (d : D) :
  rnd_ok rnd -> (forall i n, schedule i n ≡ₚ seq 0 n) ->
  brain_at path cb -> o_CodebookPaths opts = [] -> (cb = None -> o_EmbedBrain opts = false) ->
  lossless opts -> bytes_ok input -> zlen input < 2 ^ 48 ->
  (forall pl split, make_plan rnd input path opts = Ok pl -> pick_chunker opts pl = Ok split ->
     total_chunks split input <= 2 ^ 27) ->
  Pack hasSIMD rnd schedule input path opts = Ok file ->
  ReaderAtLaws R file ok -> ok f -> maxMB < 2 ^ 42 ->
  sql_open (str "file::memory:?cache=shared") = Ok d -> sql_rows d = None -> plain_name (mount_name cromFile) ->
  exists fs rr child, Mount file f cromFile path (o_EncryptionKey opts) maxMB clock = Ok (fs, rr) /\
    walk [mount_name cromFile] root_inode fs = Ok (inr child) /\
    Getattr child = {| at_Mode := Z.lor S_IFREG 420; at_Size := zlen input |} /\
    (forall reads, in_file reads ->
       run_node_reads reads child (Some rr) = Ok (map (fun '(k, off) => inr (sub off (off + k) input)) reads)) /\
    (exists l, Readdir root_inode fs = Ok (inr l) /\ map de_Name l = [mount_name cromFile]) /\
    forall n q, n :: q <> [mount_name cromFile] ->
      walk (n :: q) root_inode fs = Ok (inl (if decide (n = mount_name cromFile) then ENOTDIR else ENOENT)).
Proof.
  intros Hrnd Hsched Hat Hp Hembed Hll Hok Hlen Htot Epack RL Hf Hmax Hopen Hd Hname.
  destruct (Pack_mounted hasSIMD rnd schedule input path cb opts file ok f maxMB Hrnd Hsched Hat Hp Hembed Hll Hok Hlen Htot Epack RL Hf Hmax)
    as (rr & Em & Hsize & I & HI & Hs).
  destruct (Mount_index file f cromFile path (o_EncryptionKey opts) maxMB clock input rr d Hopen Hd Hname Em Hsize) as (fs & Emount & Hinv & loc & Rep).
  set (name := mount_name cromFile) in *. exists fs, rr. pose proof (r_root _ _ _ Rep) as Hroot.
  assert (Hwalk : forall q, exists r, walk q root_inode fs = Ok r /\
    match r, tree_walk {[[name] := File (zlen input) [] 420]} [] Dir q with
    | inl e, inl e' => e = e' | inr c, inr nd => stands_for c nd | _, _ => False end).
  { intros q. by apply (walk_refines (TL := sql_index_laws) fs loc). }
  destruct (Hwalk [name]) as (r & Ew & Hr). cbn [tree_walk app] in Hr. rewrite lookup_singleton_eq in Hr.
  destruct r as [|child]; [done|]. destruct Hr as [Hdir Hsz]. exists child. split; [done|]. split; [done|]. split; [|split; [|split]].
  - unfold Getattr. rewrite Hdir, Hsz, u64_small; [done|]. pose proof (zlen_nonneg input). unfold is_u64. lia.
  - intros reads Hreads. by apply (run_node_reads_ok input I).
  - destruct (Readdir_refines (TL := sql_index_laws) fs loc _ [] root_inode Hinv Rep Hroot eq_refl) as (l & El & Hnd & Hl).
    exists l. split; [done|]. apply NoDup_only; [done|]. intros m. rewrite <-Hl. cbn [app]. rewrite lookup_singleton_is_Some.
    split; [by intros [= ->]|by intros ->].
  - intros n q Hne. destruct (Hwalk (n :: q)) as (r' & Ew' & Hr'). rewrite Ew'. cbn [tree_walk app] in Hr'.
    destruct (decide (n = name)) as [->|Hnn].
    + rewrite lookup_singleton_eq in Hr'. destruct q as [|m q]; [done|]. cbn [tree_walk] in Hr'. by destruct r' as [e|]; [rewrite Hr'|].
    + rewrite lookup_singleton_ne in Hr' by congruence. by destruct r' as [e|]; [rewrite Hr'|].
Qed.
End tree.

(** The archive of [VfsMount.Mount_Pack_witness], mounted from [/srv/photo.crom]. *)
Lemma Mount_tree_witness :
  exists file fs rr child, sample_pack = Ok file /\
    Mount (F0 := brain_disk) (D := Table) file file (str "/srv/photo.crom") (str "brain") (str "key") 1 sample_clock = Ok (fs, rr) /\
    walk [str "photo"] root_inode fs = Ok (inr child) /\ at_Size (Getattr child) = zlen long_input /\
    run_node_reads [(3, 1299); (2, 0)] child (Some rr) = Ok [inr (sub 1299 1302 long_input); inr [7; 7]].
Proof.
  assert (Hok : bytes_ok long_input) by (apply bytes_ok_dec; vm_compute; reflexivity).
  pose proof (fun file => Mount_tree (F0 := brain_disk) (log2 := log2_zero) (order := key_order) (QL := table_sqlite_laws) true sample_rnd
    (fun _ n => reverse (seq 0 n)) long_input (str "brain") (Some sample_reader) sample_pack_options file
    (fun f => f = file) file 1 (str "/srv/photo.crom") sample_clock None) as H.
  pose proof sample_pack_smaller as Hs. fold sample_pack in H.
  destruct sample_pack as [file|e|p]; [|discriminate Hs|discriminate Hs]. exists file.
  destruct (H file) as (fs & rr & child & E & Ew & Ea & Hrun & _).
  - constructor; reflexivity.
  - intros _ n. apply reverse_Permutation.
  - apply sample_brain_at.
  - reflexivity.
  - discriminate.
  - split; reflexivity.
  - exact Hok.
  - vm_compute. reflexivity.
  - apply (few_chunks (F0 := brain_disk) (log2 := log2_zero) (order := key_order) _ _ _ _ (Some sample_reader)).
    + apply sample_brain_at.
    + reflexivity.
    + vm_compute. congruence.
  - reflexivity.
  - apply os_File_laws.
  - reflexivity.
  - reflexivity.
  - reflexivity.
  - reflexivity.
  - vm_compute. repeat split; try discriminate. by intros [?|[?|[?|[?|[?|[]]]]]]%list_elem_of_In.
  - assert (mount_name (str "/srv/photo.crom") = str "photo") as En by (vm_compute; reflexivity). rewrite En in Ew.
    exists fs, rr, child. split; [reflexivity|]. split; [exact E|]. split; [exact Ew|]. split; [by rewrite Ea|].
    rewrite Hrun; [vm_compute; reflexivity|]. repeat constructor; discriminate.
Defined.
