(* ===== verification/Cli.v ===== *)
(** [cmd/crompressor]: the commands over a disk. How flags become options, which brain a run takes, where the
    results go, and what a user who packs, unpacks and verifies gets. *)

From S2P Require Import Prelude Binary Sha256 Externals Crypto Format FormatIO Delta Chunker Codebook.
From S2P Require Import Fractal Merkle Entropy Search Unpack Pack ChunkCodec BlockCodec RoundTrip PackFile Trainer AutoBrain.
Import codebook Format.

(** ** The disk *)

Abbreviation disk := (gmap bytes bytes).

(** What [codebook.Open] reads. *)
Definition on_disk (d : disk) : Files := fun path => d !! path.

Definition tmp_of (path : bytes) : bytes := path ++ str ".tmp".

(** The file under its final name, the temporary one renamed. *)
Definition publish (path file : bytes) (d : disk) : disk := <[path := file]> (delete (tmp_of path) d).

(** ** Flags *)

Record pack_flags := {
  pf_input : bytes;
  pf_output : bytes;
  pf_codebookPath : bytes;
  pf_chunkSize : Z;
  pf_useCDC : bool;
  pf_encryptionKey : bytes;
  pf_autoBrain : bool;
  pf_multiPass : bool;
  pf_streamMode : bool;
  pf_brainDir : bytes;
  pf_packMode : string;
  pf_embedBrain : bool;
  pf_maxCompression : bool;
}.

(** The options [RunE] assembles; the number of workers is the schedule's business. *)
Definition pack_options (fl : pack_flags) : PackOptions := {|
  o_Mode := pf_packMode fl;
  o_CodebookPaths := [];
  o_EncryptionKey := if zlen (pf_encryptionKey fl) =? 0 then o_EncryptionKey DefaultPackOptions else pf_encryptionKey fl;
  o_UseConvergentEncryption := o_UseConvergentEncryption DefaultPackOptions;
  o_GlobalSecret := o_GlobalSecret DefaultPackOptions;
  o_ChunkSize := if pf_chunkSize fl >? 0 then pf_chunkSize fl else o_ChunkSize DefaultPackOptions;
  o_UseCDC := pf_useCDC fl;
  o_UseACAC := o_UseACAC DefaultPackOptions;
  o_ACACDelimiter := o_ACACDelimiter DefaultPackOptions;
  o_MultiPass := pf_multiPass fl;
  o_MaxCompression := pf_maxCompression fl;
  o_EmbedBrain := pf_embedBrain fl |}.

(** [autotrain.go]: one file on its own. *)
Definition auto_options (opts : PackOptions) : PackOptions := {|
  o_Mode := o_Mode opts; o_CodebookPaths := o_CodebookPaths opts; o_EncryptionKey := o_EncryptionKey opts;
  o_UseConvergentEncryption := o_UseConvergentEncryption opts; o_GlobalSecret := o_GlobalSecret opts;
  o_ChunkSize := noBrainChunkSize; o_UseCDC := o_UseCDC opts; o_UseACAC := o_UseACAC opts;
  o_ACACDelimiter := o_ACACDelimiter opts; o_MultiPass := o_MultiPass opts; o_MaxCompression := o_MaxCompression opts;
  o_EmbedBrain := false |}.

Record unpack_flags := {
  uf_input : bytes;
  uf_output : bytes;
  uf_codebookPath : bytes;
  uf_fuzziness : float64;
  uf_encryptionKey : bytes;
  uf_strict : bool;
}.

Definition unpack_options (fl : unpack_flags) : UnpackOptions := {|
  u_Fuzziness := uf_fuzziness fl;
  u_EncryptionKey := if zlen (uf_encryptionKey fl) =? 0 then u_EncryptionKey DefaultUnpackOptions else uf_encryptionKey fl;
  u_Strict := uf_strict fl |}.

(** The flags of a run that only names its files. *)
Definition default_flags (input output codebookPath : bytes) : pack_flags := {|
  pf_input := input; pf_output := output; pf_codebookPath := codebookPath; pf_chunkSize := 0; pf_useCDC := false;
  pf_encryptionKey := []; pf_autoBrain := false; pf_multiPass := false; pf_streamMode := false; pf_brainDir := [];
  pf_packMode := "archive"; pf_embedBrain := false; pf_maxCompression := false |}.

(** ** [pack] *)

Section commands.
Context {Z0 : Zstd} {C0 : Cipher} {hash64 : XXHash} {log2 : MathLog2} {order : MapOrder} {BO : BrainOrder}.
Variable hasSIMD : bool.

(** The packers on files: a run that fails leaves nothing under the name of the output. *)
Definition Pack_to (rnd : Randomness) (schedule : Z -> nat -> list nat) (inputPath outputPath codebookPath : bytes)
    (opts : PackOptions) (d : disk) : res disk :=
  match d !! inputPath with
  | None => Err "pack: open input file"
  | Some input =>
      file ← Pack (F0 := on_disk d) hasSIMD rnd schedule input codebookPath opts;
      Ok (publish outputPath file d)
  end.

Definition AutoPack (rnd : Randomness) (schedule : Z -> nat -> list nat) (inputPath outputPath : bytes)
    (opts : PackOptions) (d : disk) : res disk :=
  Pack_to rnd schedule inputPath outputPath [] (auto_options opts) d.

(** [PackStream] writes under the final name from the start. *)
Definition PackStream_to (schedule : Z -> nat -> list nat) (input outPath codebookPath : bytes) (opts : PackOptions)
    (d : disk) : res disk :=
  file ← PackStream (F0 := on_disk d) hasSIMD schedule input codebookPath opts;
  Ok (<[outPath := file]> d).

(** Which brain to use, and whether to do without. A failed selection prints the category of a result
    that is nil when the input could not be read. *)
Definition choose_brain (fl : pack_flags) (dir : brain_dir) (d : disk) : res (bytes * bool) :=
  if pf_autoBrain fl then
    if negb (zlen (pf_codebookPath fl) =? 0) then Err "--auto-brain and --codebook cannot be used together" else
    router ← wrap_err "failed to initialize auto-brain" (NewBrainRouter (pf_brainDir fl) dir);
    match SelectBrain router (fun path => bool_decide (is_Some (d !! path))) (d !! pf_input fl) with
    | Ok (cb, _) => Ok (cb, false)
    | Err _ => if d !! pf_input fl is Some _ then Ok (pf_codebookPath fl, true) else Panic NilDereference
    | Panic p => Panic p
    end
  else Ok (pf_codebookPath fl, zlen (pf_codebookPath fl) =? 0).

(** [RunE]: the disk afterwards, and the brain that was used. [stdin] is read under the name [-], which
    has to exist all the same. *)
Definition pack_RunE (rnd : Randomness) (schedule : Z -> nat -> list nat) (stdin : bytes) (dir : brain_dir)
    (fl : pack_flags) (d : disk) : res (disk * bytes) :=
  if (zlen (pf_input fl) =? 0) || (zlen (pf_output fl) =? 0) then Err "flags --input and --output are required" else
  '(codebookPath, useAutoTrain) ← choose_brain fl dir d;
  match d !! pf_input fl with
  | None => Err "stat"
  | Some file =>
      let opts := pack_options fl in
      if pf_streamMode fl then
        let input := if bytes_eqb (pf_input fl) (str "-") then stdin else file in
        let codebookPath := if useAutoTrain : bool then [] else codebookPath in
        d ← wrap_err "stream pack error" (PackStream_to schedule input (pf_output fl) codebookPath opts d);
        Ok (d, codebookPath)
      else
        d ← wrap_err "pack error" (if useAutoTrain : bool then AutoPack rnd schedule (pf_input fl) (pf_output fl) opts d
                                   else Pack_to rnd schedule (pf_input fl) (pf_output fl) codebookPath opts d);
        Ok (d, codebookPath)
  end.

(** ** [unpack] *)

(** [Unpack] creates its temporary file once the metadata is read and the brain is open. *)
Definition unpack_starts (inFile codebookPath : bytes) (opts : UnpackOptions) (d : disk) : bool :=
  match ReadMetadata (u_EncryptionKey opts) inFile with
  | Ok ((header, _, entries), _) =>
      negb (needs_brain entries) || is_ok (open_brain (F0 := on_disk d) header codebookPath (u_EncryptionKey opts))
  | _ => false
  end.

(** The deferred function removes the temporary file of a run that returned an error. A panic also runs it,
    with the error still nil: then it gives the final name to what was written so far, [partial]. *)
Definition Unpack_to (intn : Z -> Z) (partial : bytes) (inputPath outputPath codebookPath : bytes) (opts : UnpackOptions)
    (d : disk) : disk * res unit :=
  match d !! inputPath with
  | None => (d, Err "unpack: open .crom file")
  | Some inFile =>
      let r := Unpack (F0 := on_disk d) intn inFile codebookPath opts in
      if unpack_starts inFile codebookPath opts d then
        match r with
        | Ok data => (publish outputPath data d, Ok tt)
        | Err e => (delete (tmp_of outputPath) d, Err e)
        | Panic p => (publish outputPath partial d, Panic p)
        end
      else (d, r ≫= fun _ => Ok tt)
  end.

Definition unpack_RunE (intn : Z -> Z) (partial : bytes) (fl : unpack_flags) (d : disk) : disk * res unit :=
  if (zlen (uf_input fl) =? 0) || (zlen (uf_output fl) =? 0) then (d, Err "flags --input and --output are required") else
  let '(d, r) := Unpack_to intn partial (uf_input fl) (uf_output fl) (uf_codebookPath fl) (unpack_options fl) d in
  (d, wrap_err "unpack error" r).

(** ** [verify] *)

Definition verify_RunE (original restored : bytes) (d : disk) : res unit :=
  if (zlen original =? 0) || (zlen restored =? 0) then Err "flags --original and --restored are required" else
  match d !! original, d !! restored with
  | None, _ => Err "error reading original"
  | _, None => Err "error reading restored"
  | Some origBytes, Some restBytes =>
      if bytes_eqb (Sum256 origBytes) (Sum256 restBytes) then Ok tt else Err "FAIL: SHA-256 mismatch!"
  end.

(** ** [train] *)

Record train_flags := {
  tf_inputDir : bytes;
  tf_outputPath : bytes;
  tf_updatePath : bytes;
  tf_basePath : bytes;
  tf_maxCodewords : Z;
  tf_chunkSize : Z;
  tf_augmentTrain : bool;
  tf_useBPE : bool;
}.

(** [trainer.DefaultTrainOptions] under the flags. *)
Definition train_options (fl : train_flags) : TrainOptions := {|
  t_InputDir := tf_inputDir fl;
  t_OutputPath := tf_outputPath fl;
  t_MaxCodewords := if tf_maxCodewords fl >? 0 then tf_maxCodewords fl else 8192;
  t_MaxPerBucket := 64;
  t_ChunkSize := if tf_chunkSize fl >? 0 then tf_chunkSize fl else DefaultChunkSize;
  t_DataAugmentation := tf_augmentTrain fl;
  t_UseBPE := tf_useBPE fl;
  t_UpdatePath := tf_updatePath fl;
  t_BasePath := tf_basePath fl |}.

(** [corpus] is what the walk over the directory finds. *)
Definition train_RunE {CO : CountOrder} {IL : Interleave} {PO : PairOrder} (corpus : Corpus) (fl : train_flags) (d : disk) :
    res (disk * TrainResult) :=
  if (zlen (tf_inputDir fl) =? 0) || (zlen (tf_outputPath fl) =? 0) then Err "flags --input and --output are required" else
  '(file, result) ← wrap_err "training error" (Train (F0 := on_disk d) corpus (train_options fl));
  Ok (<[tf_outputPath fl := file]> d, result).

(** ** [benchmark]

    One cycle on two temporary files: the size packed, and whether the input came back. *)
Definition bench_cycle (rnd : Randomness) (schedule : Z -> nat -> list nat) (intn : Z -> Z)
    (input cromPath restoredPath codebookPath : bytes) (d : disk) : res (Z * bool) :=
  d ← wrap_err "pack failed" (Pack_to rnd schedule input cromPath codebookPath DefaultPackOptions d);
  match Unpack_to intn [] cromPath restoredPath codebookPath DefaultUnpackOptions d with
  | (d', Ok _) =>
      Ok (zlen (default [] (d !! cromPath)), bytes_eqb (default [] (d !! input)) (default [] (d' !! restoredPath)))
  | (_, Err _) => Err "unpack failed"
  | (_, Panic p) => Panic p
  end.

(** The cycles; the last one counts. The temporary files of a cycle are gone before the next. *)
Fixpoint bench_cycles (runs : nat) (rnd : nat -> Randomness) (schedule : Z -> nat -> list nat) (intn : Z -> Z)
    (input cromPath restoredPath codebookPath : bytes) (last : option (Z * bool)) (d : disk) : res (option (Z * bool)) :=
  match runs with
  | O => Ok last
  | S runs =>
      cycle ← bench_cycle (rnd runs) schedule intn input cromPath restoredPath codebookPath d;
      bench_cycles runs rnd schedule intn input cromPath restoredPath codebookPath (Some cycle) d
  end.

(** The report, or its error: the times are divided by the number of runs, and the JSON encoder refuses the
    infinite ratio of an empty input. *)
Definition benchmark_RunE (rnd : nat -> Randomness) (schedule : Z -> nat -> list nat) (intn : Z -> Z)
    (input cromPath restoredPath codebookPath : bytes) (runs : Z) (d : disk) : res Z :=
  if (zlen input =? 0) || (zlen codebookPath =? 0) then Err "flags --input and --codebook are required" else
  match d !! input with
  | None => Err "read input"
  | Some inputBytes =>
      last ← bench_cycles (Z.to_nat runs) rnd schedule intn input cromPath restoredPath codebookPath None d;
      if runs =? 0 then Panic DivideByZero else
      match last with
      | Some (packedSize, true) => if zlen inputBytes =? 0 then Err "json: unsupported value: +Inf" else Ok packedSize
      | _ => Err "integrity verification failed"
      end
  end.
End commands.

(** ** [mount] and [grep]

    [len(input) > 7 && (input[:7] == "http://" || input[:8] == "https://")] *)
Definition is_cloud (input : bytes) : res bool :=
  if zlen input >? 7 then
    http ← slice input 0 7;
    if bytes_eqb http (str "http://") then Ok true
    else https ← slice input 0 8; Ok (bytes_eqb https (str "https://"))
  else Ok false.

(** What [os.Stat] says of the mount point. *)
Inductive stat_result := NotExist | StatError | NotDirectory | Directory.

(** [mount] before it mounts: only the absence of the directory is checked, so that any other error leaves a
    nil [FileInfo] to be asked. *)
Definition mount_checks (input mountPoint : bytes) (info : stat_result) : res bool :=
  if (zlen input =? 0) || (zlen mountPoint =? 0) then Err "flags --input e --mountpoint são obrigatórias" else
  cloud ← is_cloud input;
  match info with
  | NotExist => Err "mountpoint doesn't exist"
  | StatError => Panic NilDereference
  | NotDirectory => Err "mountpoint is not a directory"
  | Directory => Ok cloud
  end.

(** ** [pull]

    [authenticate]: up to three handshakes, [auth i] being what the [i]th gives. *)
Fixpoint authenticate_loop (attempts : nat) (auth : nat -> res unit) (i : nat) (err : res unit) : res unit :=
  match attempts with
  | O => err
  | S attempts =>
      match auth i with
      | Ok _ => Ok tt
      | Err e => authenticate_loop attempts auth (S i) (Err e)
      | Panic p => Panic p
      end
  end.

Definition authenticate (auth : nat -> res unit) : res unit := authenticate_loop 3 auth 0 (Ok tt).

(** A connected peer as the loop sees it: whether it speaks the protocol, what authenticating it gives, and
    what the request does to the data directory. *)
Record pull_peer := {
  pp_supports : bool;
  pp_authenticate : res unit;
  pp_sync : disk -> disk * res unit;
}.

(** One pass over the connected peers: [true] once one of them delivered. The last error is only printed. *)
Fixpoint pull_round (peers : list pull_peer) (d : disk) : disk * res bool :=
  match peers with
  | [] => (d, Ok false)
  | p :: peers =>
      if negb (pp_supports p) then pull_round peers d else
      match pp_authenticate p with
      | Ok _ =>
          match pp_sync p d with
          | (d, Ok _) => (d, Ok true)
          | (d, Err _) => pull_round peers d
          | (d, Panic p) => (d, Panic p)
          end
      | Err _ => pull_round peers d
      | Panic p => (d, Panic p)
      end
  end.

(** [pullFromAnyPeer]: the peers connected in each round, until the context ends. *)
Fixpoint pullFromAnyPeer (rounds : list (list pull_peer)) (d : disk) : disk * res unit :=
  match rounds with
  | [] => (d, Err "nenhum peer entregou a tempo")
  | peers :: rounds =>
      match pull_round peers d with
      | (d, Ok true) => (d, Ok tt)
      | (d, Ok false) => pullFromAnyPeer rounds d
      | (d, Err e) => (d, Err e)
      | (d, Panic p) => (d, Panic p)
      end
  end.
