(* ===== verification/CliRun.v ===== *)
(** The commands of [Cli] together: a file packed, unpacked and verified, with any brain and with one that was
    just trained. *)

From S2P Require Import Prelude Binary Sha256 Externals Crypto Format FormatIO Delta Chunker Codebook.
From S2P Require Import Fractal Merkle Entropy Search Unpack Pack ChunkCodec BlockCodec RoundTrip PackFile.
From S2P Require Import Integrity Trainer Training TrainRun AutoBrain Cli.
Import codebook Format.

(** ** What a command reads of the disk *)

Lemma Open_file `{Files} path file r : read_file path = Some file -> OpenFromBytes file = Ok r -> Open path = Ok r.
Proof.
  unfold Open, OpenFromBytes. intros ->. destruct (_ <? _); [done|]. destruct (codebook.ParseHeader file); cbn; [|done..]. by destruct (_ <? _).
Qed.

Lemma Open_files (F0 F1 : Files) path : read_file (Files := F0) path = read_file (Files := F1) path -> Open (H := F0) path = Open (H := F1) path.
Proof. intros E. unfold Open. by rewrite E. Qed.

Section local.
Context {Z0 : Zstd} {C0 : Cipher}.

Lemma open_brain_files (F0 F1 : Files) h path key :
  read_file (Files := F0) path = read_file (Files := F1) path ->
  open_brain (F0 := F0) h path key = open_brain (F0 := F1) h path key.
Proof. intros E. unfold open_brain, OpenForFile. by rewrite (Open_files F0 F1) by done. Qed.

(** Unpacking reads one file of the disk besides the archive. *)
Lemma Unpack_files (F0 F1 : Files) intn inFile path opts :
  read_file (Files := F0) path = read_file (Files := F1) path ->
  Unpack (F0 := F0) intn inFile path opts = Unpack (F0 := F1) intn inFile path opts.
Proof.
  intros E. unfold Unpack. destruct (wrap_err _ _) as [[[[h bt] es] rs]|e|p]; [|done..]. cbn [mbind res_bind].
  by rewrite !(open_brain_files F0 F1 h path) by done.
Qed.
End local.

Lemma publish_lookup path file d : publish path file d !! path = Some file.
Proof. apply lookup_insert_eq. Qed.

Lemma publish_other path file d q : q <> path -> q <> tmp_of path -> publish path file d !! q = d !! q.
Proof. intros. unfold publish. by rewrite lookup_insert_ne, lookup_delete_ne. Qed.

(** ** Pack, unpack, verify *)

(** The files of a session: the input is not overwritten, and the brain is there for the unpacking. *)
Record session_paths (input output restored brain : bytes) : Prop := {
  sp_input : input <> [];
  sp_output : output <> [];
  sp_restored : restored <> [];
  sp_in_out : input <> output /\ input <> tmp_of output;
  sp_in_rest : input <> restored /\ input <> tmp_of restored;
  sp_brain : brain <> output /\ brain <> tmp_of output;
}.

Definition used_options (fl : pack_flags) (auto : bool) : PackOptions :=
  if auto then auto_options (pack_options fl) else pack_options fl.

(** The unpacking of what a pack command wrote. *)
Definition unpack_after (fl : pack_flags) (restored brain : bytes) (strict : bool) : unpack_flags := {|
  uf_input := pf_output fl; uf_output := restored; uf_codebookPath := brain; uf_fuzziness := f64_of_int 0;
  uf_encryptionKey := pf_encryptionKey fl; uf_strict := strict |}.

Lemma not_empty (path : bytes) : path <> [] -> (zlen path =? 0) = false.
Proof. intros H. apply Z.eqb_neq. by intros ?%zlen_0_nil. Qed.

Section cli.
Context {Z0 : Zstd} {C0 : Cipher} {hash64 : XXHash} {log2 : MathLog2} {order : MapOrder} {BO : BrainOrder}
  {ZL : ZstdLaws Z0} {CL : CipherLaws C0} {OL : MapOrderLaws order}.
Variable hasSIMD : bool.

Lemma choose_brain_auto fl dir d path : choose_brain fl dir d = Ok (path, true) -> path = [].
Proof.
  unfold choose_brain. destruct (pf_autoBrain fl).
  - destruct (negb (zlen (pf_codebookPath fl) =? 0)) eqn:E; [done|]. apply negb_false_iff, Z.eqb_eq, zlen_0_nil in E.
    destruct (wrap_err _ _) as [r|e|p]; cbn [mbind res_bind]; [|done..]. destruct (SelectBrain _ _ _) as [[cb det]|e|p]; [done| |done].
    rewrite E. destruct (d !! pf_input fl); [by intros [= <-]|done].
  - intros [= <- E]. by apply zlen_0_nil, Z.eqb_eq.
Qed.

Lemma Unpack_starts intn inFile path opts d data :
  Unpack (F0 := on_disk d) intn inFile path opts = Ok data -> unpack_starts inFile path opts d = true.
Proof.
  unfold Unpack, unpack_starts. destruct (ReadMetadata _ _) as [[[[h bt] es] rs]|e|p]; [|done..]. cbn [wrap_err mbind res_bind].
  destruct (needs_brain es); [|done]. destruct (open_brain h path (u_EncryptionKey opts)); cbn; [done|discriminate..].
Qed.

Lemma unpack_RunE_ok intn partial fl d data inFile :
  uf_input fl <> [] -> uf_output fl <> [] -> d !! uf_input fl = Some inFile ->
  Unpack (F0 := on_disk d) intn inFile (uf_codebookPath fl) (unpack_options fl) = Ok data ->
  unpack_RunE intn partial fl d = (publish (uf_output fl) data d, Ok tt).
Proof.
  intros Hi Ho Hin Hu. unfold unpack_RunE, Unpack_to. rewrite !not_empty, Hin by done. cbn [orb].
  by rewrite (Unpack_starts _ _ _ _ _ _ Hu), Hu.
Qed.

Lemma verify_RunE_same original restored d file :
  original <> [] -> restored <> [] -> d !! original = Some file -> d !! restored = Some file -> verify_RunE original restored d = Ok tt.
Proof. intros Ho Hr E1 E2. unfold verify_RunE. rewrite !not_empty, E1, E2 by done. cbn [orb]. by rewrite bytes_eqb_refl. Qed.

(** What [Pack] makes on one disk unpacks on the next. *)
Lemma Pack_to_round_trip rnd schedule fl input path (auto : bool) d :
  rnd_ok rnd -> (forall i n, schedule i n ≡ₚ seq 0 n) ->
  d !! pf_input fl = Some input -> bytes_ok input -> zlen input < 2 ^ 48 -> pf_packMode fl <> "edge"%string ->
  (if auto then path = [] else exists r, fit_brain (Some r) /\ path <> [] /\ Open (H := on_disk d) path = Ok r) ->
  (forall pl split, make_plan (F0 := on_disk d) rnd input path (used_options fl auto) = Ok pl ->
     pick_chunker (used_options fl auto) pl = Ok split -> total_chunks split input <= 2 ^ 27) ->
  match Pack_to hasSIMD rnd schedule (pf_input fl) (pf_output fl) path (used_options fl auto) d with
  | Ok d1 => exists file, d1 = publish (pf_output fl) file d /\
      forall F1 intn uopts, read_file (Files := F1) path = d !! path -> u_EncryptionKey uopts = pf_encryptionKey fl ->
        u_Fuzziness uopts = f64_of_int 0 -> Unpack (F0 := F1) intn file path uopts = Ok input
  | Err e => pf_embedBrain fl = true /\ e = "pack: embedded brain exceeds the format limit"%string
  | Panic _ => False
  end.
Proof.
  intros Hrnd Hsched Hin Hok Hlen Hmode Hbrain Htot. unfold Pack_to. rewrite Hin.
  set (cb := if auto then None else match Open (H := on_disk d) path with Ok r => Some r | _ => None end).
  assert (Hat : brain_at (F0 := on_disk d) path cb).
  { unfold cb. destruct auto; [by split|]. destruct Hbrain as (r & Hfit & Hne & Ho). rewrite Ho. by split. }
  assert (Hembed : cb = None -> o_EmbedBrain (used_options fl auto) = false).
  { unfold cb. destruct auto; [done|]. destruct Hbrain as (r & _ & _ & ->). done. }
  assert (Hll : lossless (used_options fl auto)).
  { split; [|by destruct auto]. unfold is_edge. apply String.eqb_neq. by destruct auto. }
  pose proof (Pack_file (F0 := on_disk d) hasSIMD rnd schedule input path path cb (used_options fl auto)
    Hrnd Hsched Hat ltac:(by destruct auto) Hembed ltac:(done) Hll Hok Hlen Htot) as H.
  destruct (Pack _ _ _ _ _ _) as [file|e|p]; cbn [mbind res_bind].
  - exists file. split; [done|]. intros F1 intn uopts HF Hkey Hf. rewrite (Unpack_files F1 (on_disk d)) by exact HF.
    apply (Unpack_packed_file (F0 := on_disk d) input path path cb (used_options fl auto)); [|done|exact H].
    rewrite Hkey. destruct auto; cbn; destruct (Z.eqb_spec (zlen (pf_encryptionKey fl)) 0) as [E%zlen_0_nil|]; done.
  - destruct H as [He ->]. split; [|done]. by destruct auto.
  - done.
Qed.

Lemma pack_unpack_verify rnd schedule stdin dir fl input path (auto : bool) restored d :
  rnd_ok rnd -> (forall i n, schedule i n ≡ₚ seq 0 n) ->
  session_paths (pf_input fl) (pf_output fl) restored path ->
  d !! pf_input fl = Some input -> bytes_ok input -> zlen input < 2 ^ 48 ->
  pf_packMode fl <> "edge"%string -> pf_streamMode fl = false ->
  choose_brain fl dir d = Ok (path, auto) ->
  (auto = false -> exists r, fit_brain (Some r) /\ path <> [] /\ Open (H := on_disk d) path = Ok r) ->
  (forall pl split, make_plan (F0 := on_disk d) rnd input path (used_options fl auto) = Ok pl ->
     pick_chunker (used_options fl auto) pl = Ok split -> total_chunks split input <= 2 ^ 27) ->
  match pack_RunE hasSIMD rnd schedule stdin dir fl d with
  | Ok (d1, brain) => brain = path /\ forall intn partial strict, exists d2,
      unpack_RunE intn partial (unpack_after fl restored brain strict) d1 = (d2, Ok tt) /\
      d2 !! restored = Some input /\ verify_RunE (pf_input fl) restored d2 = Ok tt
  | Err e => pf_embedBrain fl = true /\ e = "pack error"%string
  | Panic _ => False
  end.
Proof.
  intros Hrnd Hsched [Hi Ho Hr [Hio Hit] [Hir Hirt] [Hbo Hbt]] Hin Hok Hlen Hmode Hstream Hchoose Hbrain Htot.
  assert (Hb : if auto then path = [] else exists r, fit_brain (Some r) /\ path <> [] /\ Open (H := on_disk d) path = Ok r).
  { destruct auto; [by apply (choose_brain_auto fl dir d)|by apply Hbrain]. }
  pose proof (Pack_to_round_trip rnd schedule fl input path auto d Hrnd Hsched Hin Hok Hlen Hmode Hb Htot) as H.
  unfold pack_RunE. rewrite !not_empty, Hchoose by done. cbn [orb mbind res_bind]. rewrite Hin, Hstream.
  assert (Hrun : (if auto then AutoPack hasSIMD rnd schedule (pf_input fl) (pf_output fl) (pack_options fl) d
    else Pack_to hasSIMD rnd schedule (pf_input fl) (pf_output fl) path (pack_options fl) d) =
    Pack_to hasSIMD rnd schedule (pf_input fl) (pf_output fl) path (used_options fl auto) d).
  { destruct auto; [|done]. by rewrite Hb. }
  rewrite Hrun. destruct (Pack_to _ _ _ _ _ _ _ _) as [d1|e|p]; cbn [wrap_err mbind res_bind]; [|by destruct H|done].
  split; [done|]. intros intn partial strict. destruct H as (file & -> & Hun).
  exists (publish restored input (publish (pf_output fl) file d)). split; [|split; [apply publish_lookup|]].
  - apply (unpack_RunE_ok intn partial (unpack_after fl restored path strict) _ input file); [done|done|apply publish_lookup|].
    apply Hun; [by apply publish_other| |done]. cbn. by destruct (Z.eqb_spec (zlen (pf_encryptionKey fl)) 0) as [->%zlen_0_nil|].
  - apply (verify_RunE_same _ _ _ input); [done|done| |apply publish_lookup]. by rewrite !publish_other.
Qed.


(** ** Streams *)

Definition stream_input (fl : pack_flags) (stdin file : bytes) : bytes := if bytes_eqb (pf_input fl) (str "-") then stdin else file.

(** The unpacking of an archive that needs no passphrase. *)
Definition unpack_plain (input output brain : bytes) : unpack_flags := {|
  uf_input := input; uf_output := output; uf_codebookPath := brain; uf_fuzziness := f64_of_int 0; uf_encryptionKey := []; uf_strict := true |}.

(** [--stream] drops [--encrypt]. Whatever passphrase the flags hold, what a streaming [pack] writes is
    unpacked without one: [pack] announces encryption, and the archive is in the clear. (Otherwise the stream
    round trip holds: the pipe, or the file, comes back. A pipe is read only if a file named [-] exists.) *)
Theorem pack_stream_in_the_clear rnd schedule stdin dir fl file path (auto : bool) restored d :
  (forall i n, schedule i n ≡ₚ seq 0 n) ->
  pf_input fl <> [] -> pf_output fl <> [] -> restored <> [] -> path <> pf_output fl ->
  d !! pf_input fl = Some file -> let input := stream_input fl stdin file in
  bytes_ok input -> 0 < zlen input <= 2 ^ 27 ->
  pf_packMode fl <> "edge"%string -> pf_streamMode fl = true ->
  choose_brain fl dir d = Ok (path, auto) ->
  (auto = false -> exists r, fit_brain (Some r) /\ path <> [] /\ Open (H := on_disk d) path = Ok r) ->
  exists d1, pack_RunE hasSIMD rnd schedule stdin dir fl d = Ok (d1, path) /\
    forall intn partial, exists d2,
      unpack_RunE intn partial (unpack_plain (pf_output fl) restored path) d1 = (d2, Ok tt) /\ d2 !! restored = Some input.
Proof.
  intros Hsched Hi Ho Hr Hpo Hin input Hok Hlen Hmode Hstream Hchoose Hbrain.
  set (cb := if auto then None else match Open (H := on_disk d) path with Ok r => Some r | _ => None end).
  assert (Hat : brain_at (F0 := on_disk d) path cb).
  { unfold cb. destruct auto; [split; [done|by apply (choose_brain_auto fl dir d)]|].
    destruct (Hbrain eq_refl) as (r & Hfit & Hne & Hopen). rewrite Hopen. by split. }
  assert (Hpath : (if auto then [] else path) = path) by (destruct auto; [by rewrite (choose_brain_auto fl dir d path)|done]).
  assert (Hll : lossless (pack_options fl)) by (split; [by apply String.eqb_neq|done]).
  destruct (PackStream_file (F0 := on_disk d) hasSIMD schedule input path cb (pack_options fl) Hat Hll Hsched Hok ltac:(lia))
    as (dict & h & pss & frames & metadata & Epack & Har & _ & _ & Hopen).
  { intros split Es. destruct Hat as [Hfit _]. destruct (stream_chunker_ok (pack_options fl) cb (stream_chunkSize (pack_options fl) cb) Hfit) as (split' & Es' & Ht).
    rewrite Es in Es'. injection Es' as <-. pose proof (total_chunks_bound split input Ht). lia. }
  set (archive := metadata ++ concat frames) in *. exists (<[pf_output fl := archive]> d). split.
  - unfold pack_RunE. rewrite !not_empty, Hchoose by done. cbn [orb mbind res_bind]. rewrite Hin, Hstream, Hpath.
    fold (stream_input fl stdin file). fold input. unfold PackStream_to. by rewrite Epack.
  - intros intn partial. eexists. split; [|apply publish_lookup].
    apply (unpack_RunE_ok intn partial (unpack_plain (pf_output fl) restored path) _ input archive); [done|done|apply lookup_insert_eq|].
    rewrite (Unpack_files (on_disk _) (on_disk d)) by (by apply lookup_insert_ne).
    by apply (Unpack_packed (F0 := on_disk d) cb dict [] h input pss frames).
Qed.

(** ** Benchmarks *)

Lemma Unpack_to_ok intn partial inp out path opts d inFile data :
  d !! inp = Some inFile -> Unpack (F0 := on_disk d) intn inFile path opts = Ok data ->
  Unpack_to intn partial inp out path opts d = (publish out data d, Ok tt).
Proof. intros Hin Hu. unfold Unpack_to. by rewrite Hin, (Unpack_starts _ _ _ _ _ _ Hu), Hu. Qed.

Section bench.
Variables (rnd : nat -> Randomness) (schedule : Z -> nat -> list nat) (intn : Z -> Z)
  (inp cromPath restoredPath path input : bytes) (r : Reader) (d : disk).
Hypotheses (Hrnd : forall i, rnd_ok (rnd i)) (Hsched : forall i n, schedule i n ≡ₚ seq 0 n)
  (Hin : d !! inp = Some input) (Hok : bytes_ok input) (Hlen : zlen input <= 2 ^ 27)
  (Hfit : fit_brain (Some r)) (Hpath : path <> []) (Hopen : Open (H := on_disk d) path = Ok r)
  (Hcrom : inp <> cromPath /\ inp <> tmp_of cromPath /\ path <> cromPath /\ path <> tmp_of cromPath).

Lemma bench_cycle_ok i : exists n, bench_cycle hasSIMD (rnd i) schedule intn inp cromPath restoredPath path d = Ok (n, true).
Proof.
  destruct Hcrom as (H1 & H2 & H3 & H4).
  pose proof (Pack_to_round_trip (rnd i) schedule (default_flags inp cromPath path) input path false d (Hrnd i) Hsched Hin Hok
    ltac:(lia) ltac:(done) ltac:(by exists r)) as H.
  specialize (H (few_chunks (F0 := on_disk _) (rnd i) input path (used_options (default_flags inp cromPath path) false) (Some r)
    ltac:(by split) eq_refl Hlen)).
  change (used_options (default_flags inp cromPath path) false) with DefaultPackOptions in H. cbn [pf_input pf_output default_flags] in H.
  unfold bench_cycle. destruct (Pack_to _ _ _ _ _ _ _ _) as [d1|e|p]; cbn [wrap_err mbind res_bind]; [|by destruct H|done].
  destruct H as (file & -> & Hun). rewrite (Unpack_to_ok _ _ _ _ _ _ _ file input).
  - rewrite !publish_lookup, publish_other, Hin by done. cbn [default from_option id]. rewrite bytes_eqb_refl. by exists (zlen file).
  - apply publish_lookup.
  - apply Hun; [by apply publish_other|done|done].
Qed.

Lemma bench_cycles_ok runs last :
  exists o, bench_cycles hasSIMD runs rnd schedule intn inp cromPath restoredPath path last d = Ok o /\
    (runs <> O -> exists n, o = Some (n, true)) /\ (runs = O -> o = last).
Proof.
  revert last; induction runs as [|runs IH]; intros last; [by exists last|]. cbn [bench_cycles].
  destruct (bench_cycle_ok runs) as [n ->]. cbn [mbind res_bind]. destruct (IH (Some (n, true))) as (o & -> & H & H0).
  exists o. split; [done|]. split; [|done]. intros _. destruct runs; [exists n; by apply H0|by apply H].
Qed.

(** Benchmarks pass. With a usable brain, every cycle of every number of runs restores the input, so that a
    positive number of runs reports a size; zero runs divide by zero, and the report of an empty file, whose
    ratio is infinite, is not JSON. *)
Theorem benchmark_RunE_ok runs :
  inp <> [] ->
  match benchmark_RunE hasSIMD rnd schedule intn inp cromPath restoredPath path runs d with
  | Ok _ => 0 < runs /\ input <> []
  | Panic p => p = DivideByZero /\ runs = 0
  | Err _ => runs < 0 \/ input = []
  end.
Proof.
  intros Hi. unfold benchmark_RunE. rewrite !not_empty, Hin by done. cbn [orb].
  destruct (bench_cycles_ok (Z.to_nat runs) None) as (o & -> & Hs & H0). cbn [mbind res_bind].
  destruct (Z.eqb_spec runs 0) as [|Hz]; [done|]. destruct (Z.lt_ge_cases runs 0); [rewrite H0 by lia; by left|].
  destruct Hs as [n ->]; [lia|]. destruct (Z.eqb_spec (zlen input) 0) as [E%zlen_0_nil|E]; [by right|]. split; [lia|]. by intros ->.
Qed.
End bench.

(** ** Panics *)

(** [C39] A crash publishes what it wrote. There is an archive whose unpacking panics after the temporary file
    is created; the deferred function then runs with a nil error and gives the output its final name,
    although nothing was checked, against the promise that the output only appears once it has passed. *)
Theorem Unpack_panic_publishes intn partial inputPath outputPath path opts d :
  path <> inputPath ->
  exists file, Unpack_to intn partial inputPath outputPath path opts (<[inputPath := file]> d) =
    (publish outputPath partial (<[inputPath := file]> d), Panic SliceBounds).
Proof.
  intros Hne. destruct (wrapping_file (F0 := on_disk d) intn path opts) as (file & h & bt & es & rs & Em & Hn & Eu).
  exists file. unfold Unpack_to. rewrite lookup_insert_eq. unfold unpack_starts. rewrite Em, Hn. cbn [negb orb].
  by rewrite (Unpack_files (on_disk _) (on_disk d)), Eu by (by apply lookup_insert_ne).
Qed.

(** ** From the corpus to the restored file *)

Section trained.
Context {CO : CountOrder} {COL : CountOrderLaws CO} {IL : Interleave} {ILL : InterleaveLaws IL} {PO : PairOrder}.

(** [train] writes a brain that [pack] can use. *)
Lemma train_RunE_brain corpus tfl d :
  standard (train_options tfl) -> let opts := train_defaults (train_options tfl) in
  Forall (fun f => match f with Some d => bytes_ok d | None => True end) corpus ->
  t_ChunkSize opts < 2 ^ 16 -> t_MaxCodewords opts < 2 ^ 40 -> full_chunks (t_ChunkSize opts) corpus <> [] ->
  distinct_hashes (t_ChunkSize opts) corpus ->
  exists file res r, train_RunE corpus tfl d = Ok (<[tf_outputPath tfl := file]> d, res) /\
    OpenFromBytes file = Ok r /\ fit_brain (Some r) /\ count r = r_SelectedElite res.
Proof.
  intros Hstd opts Hbytes Hcs Hmax Hfull Hdist.
  destruct (Train_brain (F0 := on_disk d) corpus (train_options tfl) Hstd Hbytes Hcs Hmax Hfull Hdist)
    as (file & res & r & E & Ho & Hg & _ & Hc & [Hpos _] & _).
  exists file, res, r. split; [|by split]. destruct Hstd as [[Hin Hout] _ _ _ _]. cbn in Hin, Hout.
  unfold train_RunE. by rewrite !not_empty, E.
Qed.

End trained.
End cli.

(** ** The other commands *)

(** [--auto-brain] on a file that cannot be read dereferences the result it did not get. *)
Lemma choose_brain_unreadable {log2 : MathLog2} {order : MapOrder} {BO : BrainOrder} fl dir d r :
  pf_autoBrain fl = true -> pf_codebookPath fl = [] -> NewBrainRouter (pf_brainDir fl) dir = Ok r -> d !! pf_input fl = None ->
  choose_brain fl dir d = Panic NilDereference.
Proof. intros Ha Hc Hr Hin. unfold choose_brain. rewrite Ha, Hc, Hr, Hin. done. Qed.

Lemma is_cloud_total input : exists b, is_cloud input = Ok b.
Proof.
  unfold is_cloud. rewrite Z.gtb_ltb. destruct (Z.ltb_spec 7 (zlen input)); [|by exists false].
  rewrite !slice_ok by lia. cbn [mbind res_bind]. destruct (bytes_eqb _ _); by eexists.
Qed.

(** A mount point whose [Stat] fails otherwise than by absence crashes the command; nothing else does. *)
Lemma mount_checks_panic input mountPoint info :
  no_panic (mount_checks input mountPoint info) <-> info <> StatError \/ input = [] \/ mountPoint = [].
Proof.
  unfold mount_checks. destruct (Z.eqb_spec (zlen input) 0) as [->%zlen_0_nil|Hi]; [cbn; by split; [auto|]|].
  destruct (Z.eqb_spec (zlen mountPoint) 0) as [->%zlen_0_nil|Hm]; [cbn; by split; [auto|]|]. cbn [orb].
  destruct (is_cloud_total input) as [b ->]. cbn [mbind res_bind]. destruct info; cbn; split; try done; try (by left).
  by intros [?|[-> | ->]].
Qed.

Lemma authenticate_loop_spec n auth i err :
  (forall j, no_panic (auth j)) ->
  authenticate_loop n auth i err = Ok tt <-> (exists j, (i <= j < i + n)%nat /\ auth j = Ok tt) \/ (n = O /\ err = Ok tt).
Proof.
  intros Hp. revert i err; induction n as [|n IH]; intros i err; cbn [authenticate_loop].
  { split; [by right|]. intros [(j & Hj & _)|[_ ->]]; [lia|done]. }
  pose proof (Hp i) as Hi. destruct (auth i) as [[]|e|p] eqn:E; [|rewrite IH|done].
  - split; [|done]. intros _. left. exists i. split; [lia|done].
  - split.
    + intros [(j & Hj & Ej)|[-> Hd]]; [|done]. left. exists j. split; [lia|done].
    + intros [(j & Hj & Ej)|[? _]]; [|done]. left. exists j. split; [|done]. destruct (decide (j = i)); [congruence|lia].
Qed.

(** One of three handshakes has to succeed. *)
Lemma authenticate_spec auth : (forall j, no_panic (auth j)) ->
  authenticate auth = Ok tt <-> exists j, (j < 3)%nat /\ auth j = Ok tt.
Proof.
  intros Hp. unfold authenticate. rewrite authenticate_loop_spec by done. split.
  - intros [(j & Hj & E)|[? _]]; [|done]. exists j. split; [lia|done].
  - intros (j & Hj & E). left. exists j. split; [lia|done].
Qed.

(** A peer that keeps the process alive, and one that has the file. *)
Definition behaves (p : pull_peer) : Prop := no_panic (pp_authenticate p) /\ forall d, no_panic (pp_sync p d).2.
Definition delivers (p : pull_peer) : Prop :=
  pp_supports p = true /\ pp_authenticate p = Ok tt /\ forall d, exists d', pp_sync p d = (d', Ok tt).

Lemma pull_round_ok peers d :
  Forall behaves peers -> exists d' b, pull_round peers d = (d', Ok b) /\ (Exists delivers peers -> b = true).
Proof.
  intros H. revert d; induction H as [|p peers [Ha Hs] _ IH]; intros d; [exists d, false; split; [done|]; by intros ?%Exists_nil|].
  cbn [pull_round]. destruct (pp_supports p) eqn:Esup; cbn [negb].
  2:{ destruct (IH d) as (d' & b & -> & Hb). exists d', b. split; [done|]. intros [[? _]|?]%Exists_cons; [congruence|by apply Hb]. }
  destruct (pp_authenticate p) as [[]|e|q] eqn:Eauth; [| |done].
  2:{ destruct (IH d) as (d' & b & -> & Hb). exists d', b. split; [done|]. intros [(_ & ? & _)|?]%Exists_cons; [congruence|by apply Hb]. }
  specialize (Hs d). destruct (pp_sync p d) as [d1 [[]|e|q]] eqn:Esync; [by exists d1, true| |done].
  destruct (IH d1) as (d' & b & -> & Hb). exists d', b. split; [done|].
  intros [(_ & _ & Hd)|?]%Exists_cons; [|by apply Hb]. destruct (Hd d) as [? ?]. congruence.
Qed.

(** A file that some peer has is pulled, however many peers fail before it and whatever they leave on the disk. *)
Lemma pullFromAnyPeer_ok rounds d :
  Forall (Forall behaves) rounds -> Exists (Exists delivers) rounds -> exists d', pullFromAnyPeer rounds d = (d', Ok tt).
Proof.
  intros H. revert d; induction H as [|peers rounds Hp _ IH]; intros d; [by intros ?%Exists_nil|]. intros Hex. cbn [pullFromAnyPeer].
  destruct (pull_round_ok peers d Hp) as (d1 & b & -> & Hb). destruct b; [by exists d1|].
  apply Exists_cons in Hex as [Hex|Hex]; [by specialize (Hb Hex)|by apply IH].
Qed.

(** ** Witnesses *)

Definition sample_disk : disk := <[str "in" := long_input]> {[str "brain" := sample_brain]}.

(** Encrypted, in two passes, with the brain the router finds. *)
Definition sample_flags : pack_flags := {|
  pf_input := str "in"; pf_output := str "out"; pf_codebookPath := []; pf_chunkSize := 256; pf_useCDC := true;
  pf_encryptionKey := str "key"; pf_autoBrain := true; pf_multiPass := true; pf_streamMode := false;
  pf_brainDir := str "brains"; pf_packMode := "archive"; pf_embedBrain := false; pf_maxCompression := true |}.

Definition sample_brains : brain_dir := AutoBrain.Dir (Config (Some {[str "universal" := str "brain"]})) (Some []).

#[local] Instance any_brain_order : BrainOrder := map_to_list.

Lemma sample_open : Open (H := on_disk sample_disk) (str "brain") = Ok sample_reader.
Proof. vm_compute. reflexivity. Qed.


(** The corpus of [TrainRun.Train_standard_witness] on a disk, and a file that has nothing to do with it. *)
Definition sample_train_flags : train_flags := {|
  tf_inputDir := str "corpus"; tf_outputPath := str "brain"; tf_updatePath := []; tf_basePath := []; tf_maxCodewords := 2;
  tf_chunkSize := 2; tf_augmentTrain := false; tf_useBPE := false |}.


Definition sample_stream_flags : pack_flags := {|
  pf_input := str "in"; pf_output := str "out"; pf_codebookPath := str "brain"; pf_chunkSize := 0; pf_useCDC := false;
  pf_encryptionKey := str "key"; pf_autoBrain := false; pf_multiPass := false; pf_streamMode := true;
  pf_brainDir := []; pf_packMode := "archive"; pf_embedBrain := false; pf_maxCompression := false |}.

Lemma pack_stream_in_the_clear_witness :
  exists d1 d2, pack_RunE (log2 := log2_zero) (order := key_order) true sample_rnd (fun _ n => seq 0 n) [] (MissingDir false) sample_stream_flags sample_disk = Ok (d1, str "brain") /\
    unpack_RunE (fun _ => 0) [] (unpack_plain (str "out") (str "back") (str "brain")) d1 = (d2, Ok tt) /\ d2 !! str "back" = Some long_input.
Proof.
  destruct (pack_stream_in_the_clear (log2 := log2_zero) (order := key_order) true sample_rnd (fun _ n => seq 0 n) [] (MissingDir false)
    sample_stream_flags long_input (str "brain") false (str "back") sample_disk) as (d1 & H1 & H2).
  - intros i n. reflexivity.
  - discriminate.
  - discriminate.
  - discriminate.
  - discriminate.
  - vm_compute. reflexivity.
  - apply bytes_ok_dec. vm_compute. reflexivity.
  - split; [reflexivity|vm_compute; congruence].
  - discriminate.
  - reflexivity.
  - reflexivity.
  - intros _. exists sample_reader. destruct sample_brain_at as [Hfit _]. split; [exact Hfit|]. split; [discriminate|apply sample_open].
  - destruct (H2 (fun _ => 0) []) as (d2 & Hu & Hd). exists d1, d2. split; [exact H1|]. split; [exact Hu|exact Hd].
Defined.

Lemma Unpack_panic_publishes_witness :
  exists file, (Unpack_to (fun _ => 0) [1; 2] (str "in") (str "out") [] DefaultUnpackOptions (<[str "in" := file]> ∅)).1 !! str "out" = Some [1; 2].
Proof.
  destruct (Unpack_panic_publishes (fun _ => 0) [1; 2] (str "in") (str "out") [] DefaultUnpackOptions ∅) as [file E]; [discriminate|].
  exists file. rewrite E. apply lookup_insert_eq.
Defined.

Lemma benchmark_RunE_ok_witness :
  exists n, benchmark_RunE (log2 := log2_zero) (order := key_order) true (fun _ => sample_rnd) (fun _ n => seq 0 n) (fun _ => 0)
    (str "in") (str "crom") (str "back") (str "brain") 2 sample_disk = Ok n.
Proof.
  unshelve epose proof (benchmark_RunE_ok (log2 := log2_zero) (order := key_order) true (fun _ => sample_rnd) (fun _ n => seq 0 n) (fun _ => 0)
    (str "in") (str "crom") (str "back") (str "brain") long_input sample_reader sample_disk _ _ _ _ _ _ _ _ _ 2 _) as H.
  - intros i. constructor; reflexivity.
  - intros i n. reflexivity.
  - vm_compute. reflexivity.
  - apply bytes_ok_dec. vm_compute. reflexivity.
  - vm_compute. congruence.
  - apply sample_brain_at.
  - discriminate.
  - apply sample_open.
  - repeat split; discriminate.
  - discriminate.
  - destruct (benchmark_RunE _ _ _ _ _ _ _ _ _ _) as [n|e|p]; [by exists n| |].
    + destruct H as [H|H]; [lia|]. vm_compute in H. discriminate H.
    + destruct H as [_ H]. lia.
Defined.
