(* ===== verification/Gossip.v ===== *)
(** [internal/network/gossip.go] and [fec.go]: what a node announces and what it believes. Publish/subscribe and
    JSON are parameters. *)

From S2P Require Import Prelude Binary Sha256 Externals Crypto.

(** ** Messages *)

Record ProposeChunkMsg := {
  pm_Type : bytes;
  pm_Hash : bytes;
  pm_Payload : bytes;
  pm_Weight : Z;
  pm_Signature : bytes;
  pm_Sender : bytes;
}.

Record AnnounceMsg := {
  am_Type : bytes;
  am_Filename : bytes;
  am_OriginalSize : Z;
  am_ChunkCount : Z;
  am_Sender : bytes;
}.

(** [encoding/json] on the two structures; [None] is an error. *)
Class GossipJSON := {
  marshal_propose : ProposeChunkMsg -> option bytes;
  marshal_announce : AnnounceMsg -> option bytes;
  unmarshal_propose : bytes -> option ProposeChunkMsg;
  unmarshal_announce : bytes -> option AnnounceMsg;
}.

(** The publish/subscribe service: a topic is joined once, and published to. *)
Class PubSub (P : Type) := {
  ps_Join : bytes -> P -> P * res unit;
  ps_Subscribe : bytes -> P -> P * res unit;
  ps_Publish : bytes -> bytes -> P -> P * res unit;
}.

(** The documentation of [PubSub.Join]: only one handle should exist per topic, and [Join] will error if the
    handle already exists. *)
Class PubSubLaws (P : Type) {PS : PubSub P} := {
  ps_joined : P -> bytes -> Prop;
  ps_Join_ok topic p p' : ps_Join topic p = (p', Ok tt) -> ps_joined p' topic;
  ps_Join_again topic p : ps_joined p topic -> exists e, ps_Join topic p = (p, Err e);
  ps_Subscribe_joined topic t p : ps_joined p t -> ps_joined (ps_Subscribe topic p).1 t;
  ps_Publish_joined topic data t p : ps_joined p t -> ps_joined (ps_Publish topic data p).1 t;
}.

(** [%x] *)
Definition hex_digit (d : Z) : Z := if d <? 10 then 48 + d else 87 + d.
Definition hex (b : bytes) : bytes := concat (map (fun c => [hex_digit (c / 16); hex_digit (c mod 16)]) b).

(** ** The node *)

Section gossip.
Context {P : Type} {PS : PubSub P} {J : GossipJSON}.
Variable ed25519_Verify : bytes -> bytes -> bytes -> bool.

(** The fields of [CromNode] that gossip uses; [None] before the service is up. *)
Record GossipNode := { gn_ID : bytes; gn_CodebookHash : bytes; gn_PubSub : option P }.

Definition set_pubsub (p : P) (n : GossipNode) : GossipNode :=
  {| gn_ID := gn_ID n; gn_CodebookHash := gn_CodebookHash n; gn_PubSub := Some p |}.

Definition topicName (n : GossipNode) : bytes := str "crom/announce/" ++ hex (ztake 16 (gn_CodebookHash n)).

(** [setupGossipSub]; [router] is what [NewGossipSub] gives. The topic's handle is kept in the manager that
    reads, and nowhere else. *)
Definition setupGossipSub (router : res P) (n : GossipNode) : GossipNode * res unit :=
  match router with
  | Err _ => (n, Err "gossip: new gossipsub")
  | Panic p => (n, Panic p)
  | Ok ps =>
      match ps_Join (topicName n) ps with
      | (ps, Err _) => (set_pubsub ps n, Err "gossip: join topic")
      | (ps, Panic p) => (set_pubsub ps n, Panic p)
      | (ps, Ok _) =>
          match ps_Subscribe (topicName n) ps with
          | (ps, Err _) => (set_pubsub ps n, Err "gossip: subscribe topic")
          | (ps, Panic p) => (set_pubsub ps n, Panic p)
          | (ps, Ok _) => (set_pubsub ps n, Ok tt)
          end
      end
  end.

(** Joining, encoding and publishing, as [AnnounceFile] and [ProposeUniversalPattern] both do. *)
Definition join_publish (msg : option bytes) (missing failed : string) (n : GossipNode) : GossipNode * res unit :=
  match gn_PubSub n with
  | None => (n, Err missing)
  | Some ps =>
      match ps_Join (topicName n) ps with
      | (ps, Ok _) =>
          match msg with
          | None => (set_pubsub ps n, Err "json")
          | Some data =>
              match ps_Publish (topicName n) data ps with
              | (ps, Err _) => (set_pubsub ps n, Err failed)
              | (ps, r) => (set_pubsub ps n, r)
              end
          end
      | (ps, r) => (set_pubsub ps n, r)
      end
  end.

Definition AnnounceFile (filename : bytes) (originalSize chunkCount : Z) (n : GossipNode) : GossipNode * res unit :=
  join_publish (marshal_announce {| am_Type := str "NEW_FILE"; am_Filename := filename; am_OriginalSize := originalSize;
                                    am_ChunkCount := chunkCount; am_Sender := gn_ID n |}) "gossip: pubsub not initialized" "gossip: publish failed" n.

Definition ProposeUniversalPattern (hash payload : bytes) (weight : Z) (signature : bytes) (n : GossipNode) : GossipNode * res unit :=
  join_publish (marshal_propose {| pm_Type := str "PROPOSE_CHUNK"; pm_Hash := hash; pm_Payload := payload; pm_Weight := weight;
                                   pm_Signature := signature; pm_Sender := gn_ID n |}) "swarm: pubsub not initialized for federated learning"
    "swarm: publish proposed chunk failed" n.

(** What [readLoop] makes of a message. *)
Inductive gossip_event :=
  | Own
  | Blocked (sender : bytes)
  | Verified (sender hash : bytes) (weight : Z)
  | Weightless
  | Invalid
  | Announced (sender filename : bytes) (chunks : Z).

Definition read_message (n : GossipNode) (from data : bytes) : gossip_event :=
  if bytes_eqb from (gn_ID n) then Own else
  let announce :=
    match unmarshal_announce data with
    | None => Invalid
    | Some a => Announced (am_Sender a) (am_Filename a) (am_ChunkCount a)
    end in
  match unmarshal_propose data with
  | Some m =>
      if bytes_eqb (pm_Type m) (str "PROPOSE_CHUNK") then
        if pm_Weight m >? 0 then
          if VerifyDilithium ed25519_Verify (pm_Sender m) (pm_Signature m) (pm_Hash m)
          then Verified (pm_Sender m) (pm_Hash m) (pm_Weight m) else Blocked (pm_Sender m)
        else Weightless
      else announce
  | None => announce
  end.

(** ** What comes of it *)

Lemma setupGossipSub_joined {PL : PubSubLaws P} router n n' :
  setupGossipSub router n = (n', Ok tt) -> exists ps, gn_PubSub n' = Some ps /\ ps_joined ps (topicName n').
Proof.
  unfold setupGossipSub. destruct router as [ps| |]; [|done..]. destruct (ps_Join (topicName n) ps) as [ps1 [[]| |]] eqn:Ej; [|done..].
  apply ps_Join_ok in Ej. pose proof (ps_Subscribe_joined (topicName n) (topicName n) ps1 Ej) as Hs.
  destruct (ps_Subscribe (topicName n) ps1) as [ps2 [[]| |]]; [|done..]. intros [= <-]. by exists ps2.
Qed.

Lemma join_publish_joined {PL : PubSubLaws P} msg missing failed n ps :
  gn_PubSub n = Some ps -> ps_joined ps (topicName n) -> exists e, join_publish msg missing failed n = (n, Err e).
Proof.
  intros Hps Hj. unfold join_publish. rewrite Hps. destruct (ps_Join_again _ _ Hj) as [e ->]. exists e. destruct n. cbn in *. by subst.
Qed.

(** Nothing is ever announced. A node joins its topic when it starts; announcing a file and proposing a
    pattern join it again, which the service refuses: once [setupGossipSub] has succeeded, both always fail,
    and leave the node as it was, however often they are called. *)
Theorem gossip_never_published {PL : PubSubLaws P} router n n' filename size chunks hash payload weight signature :
  setupGossipSub router n = (n', Ok tt) ->
  (exists e, AnnounceFile filename size chunks n' = (n', Err e)) /\
  (exists e, ProposeUniversalPattern hash payload weight signature n' = (n', Err e)).
Proof.
  intros Hs. destruct (setupGossipSub_joined router n n' Hs) as (ps & Hps & Hj). split; by apply (join_publish_joined _ _ _ _ ps).
Qed.

(** What signs a proposal. A proposal counts as verified exactly if its signature is the fixed mock string,
    which anyone can send, or the sender's name has the 32 bytes of a key and verifies the hash. The name
    is the text of a peer identifier, which is longer: then only the mock signature is accepted. The payload is
    not signed. *)
Theorem read_message_verified n from data m :
  from <> gn_ID n -> unmarshal_propose data = Some m -> pm_Type m = str "PROPOSE_CHUNK" -> 0 < pm_Weight m ->
  (read_message n from data = Verified (pm_Sender m) (pm_Hash m) (pm_Weight m) <->
     pm_Signature m = mock_signature \/
     zlen (pm_Sender m) = ed25519_PublicKeySize /\ ed25519_Verify (pm_Sender m) (pm_Hash m) (pm_Signature m) = true) /\
  (zlen (pm_Sender m) <> ed25519_PublicKeySize -> pm_Signature m <> mock_signature -> read_message n from data = Blocked (pm_Sender m)).
Proof.
  intros Hf Hm Ht Hw. unfold read_message. assert (bytes_eqb from (gn_ID n) = false) as -> by (by apply bool_decide_eq_false).
  rewrite Hm, Ht, bytes_eqb_refl, Z.gtb_ltb, (proj2 (Z.ltb_lt _ _)) by done. unfold VerifyDilithium.
  destruct (bytes_eqb (pm_Signature m) mock_signature) eqn:Es.
  - apply bytes_eqb_true in Es. split; [split; auto|]. intros _ Hne. by destruct Hne.
  - assert (pm_Signature m <> mock_signature) as Hs by (intros E; by rewrite E, bytes_eqb_refl in Es).
    destruct (Z.eqb_spec (zlen (pm_Sender m)) ed25519_PublicKeySize) as [E|E]; cbn [negb].
    + split; [|done]. destruct (ed25519_Verify _ _ _); split; auto; [done|]. by intros [?|[_ ?]].
    + split; [|done]. split; [done|]. by intros [?|[? _]].
Qed.
End gossip.

Arguments GossipNode P : clear implicits.

(** ** Erasure coding ([fec.go]) *)

Record CromFECEngine := { fec_DataShards : Z; fec_ParityShards : Z }.

Definition fec_Encode (fec : CromFECEngine) (chunk : bytes) : res (list bytes * list bytes) :=
  if zlen chunk =? 0 then Err "FEC" else
  if (fec_DataShards fec <? 0) || (fec_ParityShards fec <? 0) then Panic SliceBounds
  else Ok (replicate (Z.to_nat (fec_DataShards fec)) (str "MOCK_SHARD"), replicate (Z.to_nat (fec_ParityShards fec)) (str "MOCK_PARITY")).

Definition fec_Reconstruct (fec : CromFECEngine) (shards : list bytes) : res bytes :=
  if zlen (filter (fun s => s <> []) shards) <? fec_DataShards fec then Err "FEC V21"
  else Ok (str "RECOVERED_MOCK_CHUNK").

(** Whatever survives, what is reconstructed is a constant: two chunks cannot both come back. *)
Lemma fec_not_reconstructed fec chunk1 chunk2 shards1 shards2 :
  chunk1 <> chunk2 -> ~ (fec_Reconstruct fec shards1 = Ok chunk1 /\ fec_Reconstruct fec shards2 = Ok chunk2).
Proof.
  intros Hne [E1 E2]. unfold fec_Reconstruct in *. destruct (_ <? _) in E1; [done|]. destruct (_ <? _) in E2; [done|]. congruence.
Qed.

(** ** Witnesses *)

(** A service that remembers its topics and what was published. *)
Record Topics := { tp_joined : list bytes; tp_published : list (bytes * bytes) }.

#[export] Instance topics_pubsub : PubSub Topics := {|
  ps_Join := fun topic p =>
    if existsb (bytes_eqb topic) (tp_joined p) then (p, Err "topic already exists")
    else ({| tp_joined := topic :: tp_joined p; tp_published := tp_published p |}, Ok tt);
  ps_Subscribe := fun topic p => (p, Ok tt);
  ps_Publish := fun topic data p => ({| tp_joined := tp_joined p; tp_published := (topic, data) :: tp_published p |}, Ok tt) |}.

#[export] Program Instance topics_laws : PubSubLaws Topics := {| ps_joined := fun p topic => existsb (bytes_eqb topic) (tp_joined p) = true |}.
Next Obligation.
  intros topic p p'. cbn. destruct (existsb _ _) eqn:E; [done|]. intros [= <-]. cbn. by rewrite bytes_eqb_refl.
Qed.
Next Obligation. intros topic p E. cbn. rewrite E. by eexists. Qed.
Next Obligation. done. Qed.
Next Obligation. done. Qed.

(** A JSON in which every message is the same proposal, signed with the mock string. *)
Definition mock_proposal : ProposeChunkMsg := {|
  pm_Type := str "PROPOSE_CHUNK"; pm_Hash := str "h"; pm_Payload := [1]; pm_Weight := 7; pm_Signature := mock_signature;
  pm_Sender := str "12D3KooWmallory" |}.

#[export] Instance constant_json : GossipJSON := {|
  marshal_propose := fun _ => Some []; marshal_announce := fun _ => Some [];
  unmarshal_propose := fun _ => Some mock_proposal; unmarshal_announce := fun _ => None |}.

Definition sample_node : GossipNode Topics := {| gn_ID := str "alice"; gn_CodebookHash := replicate 32 171; gn_PubSub := None |}.

Definition no_topics : Topics := {| tp_joined := []; tp_published := [] |}.

Lemma gossip_never_published_witness :
  exists n, setupGossipSub (Ok no_topics) sample_node = (n, Ok tt) /\ exists e, AnnounceFile (str "a.crom") 0 3 n = (n, Err e).
Proof.
  destruct (setupGossipSub (Ok no_topics) sample_node) as [n r] eqn:E.
  assert (r = Ok tt) as -> by (vm_compute in E; injection E as _ <-; reflexivity). exists n. split; [reflexivity|].
  exact (proj1 (gossip_never_published (Ok no_topics) sample_node n (str "a.crom") 0 3 [] [] 0 [] E)).
Defined.

(** Mallory's proposal is verified although no key ever signs anything. *)
Lemma read_message_verified_witness :
  read_message (fun _ _ _ => false) sample_node (str "mallory") [] = Verified (str "12D3KooWmallory") (str "h") 7.
Proof.
  apply (read_message_verified (fun _ _ _ => false) sample_node (str "mallory") [] mock_proposal).
  - discriminate.
  - reflexivity.
  - reflexivity.
  - reflexivity.
  - left. reflexivity.
Defined.
