(* ===== verification/Identity.v ===== *)
(** [internal/network/identity.go], [host.go] and the choice of peers in [discovery.go]: the key of a node, the peers
    its user trusts, and whom it dials. Keys, peer identifiers and JSON are parameters. *)

From S2P Require Import Prelude Binary Sha256 Externals Crypto Format FormatIO Delta Chunker Codebook.
From S2P Require Import Fractal Entropy Search Unpack Pack ChunkCodec BlockCodec RoundTrip Archive Sync Bitswap Transfer Protocol AutoBrain.
Import codebook Format.

Section keys.
(** Private keys of libp2p: their encoding, and the identifier of the public half. *)
Context {K : Type}.
Variables (MarshalPrivateKey : K -> res bytes) (UnmarshalPrivateKey : bytes -> res K) (peer_ID : K -> bytes).

(** [fresh] is what the generator gives. *)
Definition loadOrGenerateKey (fresh : res K) (path : bytes) (d : gmap bytes bytes) : gmap bytes bytes * res K :=
  match d !! path with
  | Some data => (d, wrap_err "unmarshal key" (UnmarshalPrivateKey data))
  | None =>
      match fresh with
      | Ok priv =>
          match MarshalPrivateKey priv with
          | Ok raw => (<[path := raw]> d, Ok priv)
          | Err _ => (d, Err "marshal key")
          | Panic p => (d, Panic p)
          end
      | Err _ => (d, Err "generate key")
      | Panic p => (d, Panic p)
      end
  end.

(** [NewCromNode] as far as it is the node's own: the brain, the key, the directory. [host] tells whether libp2p,
    discovery and gossip came up. *)
Definition NewCromNode (fresh : res K) (host : bool) (codebookPath dataDir encKey : bytes) (d : gmap bytes bytes) :
    gmap bytes bytes * res CromNode :=
  match Open (H := fun path => d !! path) codebookPath with
  | Ok cb =>
      match loadOrGenerateKey fresh (Join dataDir (str "peer.key")) d with
      | (d, Ok priv) =>
          if host then
            (d, Ok {| n_ID := peer_ID priv; n_CodebookHash := BuildHash (header cb); n_DataDir := dataDir; n_EncKey := encKey;
                      n_CodebookPath := codebookPath; n_authenticated := ∅; n_disk := d |})
          else (d, Err "network: create host")
      | (d, Err _) => (d, Err "network: identity")
      | (d, Panic p) => (d, Panic p)
      end
  | Err _ => (d, Err "network: open codebook")
  | Panic p => (d, Panic p)
  end.

Hypothesis Unmarshal_Marshal : forall k raw, MarshalPrivateKey k = Ok raw -> UnmarshalPrivateKey raw = Ok k.

Lemma loadOrGenerateKey_again fresh fresh' path d d' k :
  loadOrGenerateKey fresh path d = (d', Ok k) -> loadOrGenerateKey fresh' path d' = (d', Ok k).
Proof.
  unfold loadOrGenerateKey. destruct (d !! path) as [data|] eqn:E.
  - intros [= <- H]. by rewrite E, H.
  - destruct fresh as [priv| |]; [|done..]. destruct (MarshalPrivateKey priv) as [raw| |] eqn:Em; [|done..].
    intros [= <- <-]. by rewrite lookup_insert_eq, (Unmarshal_Marshal _ _ Em).
Qed.

(** A node that came up: what it is made of, and the brain still on its disk. *)
Lemma NewCromNode_ok fresh codebookPath dataDir encKey d d' n cb :
  codebookPath <> Join dataDir (str "peer.key") -> Open (H := fun path => d !! path) codebookPath = Ok cb ->
  NewCromNode fresh true codebookPath dataDir encKey d = (d', Ok n) ->
  d' !! codebookPath = d !! codebookPath /\ Open (H := fun path => d' !! path) codebookPath = Ok cb /\
  exists priv, loadOrGenerateKey fresh (Join dataDir (str "peer.key")) d = (d', Ok priv) /\
    n = {| n_ID := peer_ID priv; n_CodebookHash := BuildHash (header cb); n_DataDir := dataDir; n_EncKey := encKey;
           n_CodebookPath := codebookPath; n_authenticated := ∅; n_disk := d' |}.
Proof.
  intros Hne Ho. unfold NewCromNode. rewrite Ho. destruct (loadOrGenerateKey fresh _ d) as [d1 [priv| |]] eqn:Ek; [|done..].
  intros [= <- <-]. assert (d1 !! codebookPath = d !! codebookPath) as Hcb.
  2: { split; [done|]. split; [rewrite <-Ho; unfold Open, read_file; by rewrite Hcb|by exists priv]. }
  revert Ek. unfold loadOrGenerateKey. destruct (d !! Join dataDir (str "peer.key")); [by intros [= <- _]|].
  destruct fresh as [k| |]; [|done..]. destruct (MarshalPrivateKey k); [|done..]. intros [= <- _]. by apply lookup_insert_ne.
Qed.

(** A node keeps its identity. Started again on the disk it left, with the brain as it was, a node has the same
    peer identifier and is in the same partition of the network, whatever the generator gives; and it
    has to authenticate its peers anew. *)
Theorem NewCromNode_restart fresh fresh' codebookPath dataDir encKey d d' n :
  codebookPath <> Join dataDir (str "peer.key") ->
  NewCromNode fresh true codebookPath dataDir encKey d = (d', Ok n) ->
  exists n', NewCromNode fresh' true codebookPath dataDir encKey d' = (d', Ok n') /\
    n_ID n' = n_ID n /\ n_CodebookHash n' = n_CodebookHash n /\ n_authenticated n' = ∅.
Proof.
  intros Hne Hn. destruct (Open (H := fun path => d !! path) codebookPath) as [cb| |] eqn:Eo;
    [|unfold NewCromNode in Hn; by rewrite Eo in Hn..].
  destruct (NewCromNode_ok _ _ _ _ _ _ _ cb Hne Eo Hn) as (_ & Ho & priv & Ek & ->).
  unfold NewCromNode. rewrite Ho, (loadOrGenerateKey_again fresh fresh' _ _ _ _ Ek). eexists. by split.
Qed.
End keys.

(** ** The web of trust *)

(** The list in [trust.json]; [decode] gives what decoding leaves in the slice, also when it fails. *)
Class TrustJSON := { encode_strings : list bytes -> bytes; decode_strings : bytes -> list bytes }.

(** Text survives the encoding, and decoding gives text. *)
Class TrustJSONLaws {J : TrustJSON} := {
  is_text_string : bytes -> Prop;
  decode_text data : Forall is_text_string (decode_strings data);
  decode_encode l : Forall is_text_string l -> decode_strings (encode_strings l) = l;
}.

Section trust.
Context {J : TrustJSON}.
Variable peer_Decode : bytes -> bool.

Definition trusted_list (file : option bytes) : list bytes := match file with Some data => decode_strings data | None => [] end.

(** The trust file afterwards. *)
Definition TrustPeer (peerID : bytes) (file : option bytes) : option bytes * res unit :=
  if negb (peer_Decode peerID) then (file, Err "peer ID invalido") else
  let trusted := trusted_list file in
  if existsb (bytes_eqb peerID) trusted then (file, Ok tt)
  else (Some (encode_strings (trusted ++ [peerID])), Ok tt).

Lemma IsPeerTrusted_elem trusted p : IsPeerTrusted trusted p = true <-> p ∈ trusted.
Proof.
  unfold IsPeerTrusted. rewrite existsb_exists, list_elem_of_In. split; [by intros (x & Hx & ->%bytes_eqb_true)|].
  intros H. exists p. by rewrite bytes_eqb_refl.
Qed.

(** Trust grows by exactly the peer that was named. After [TrustPeer] succeeds the peer is trusted, everyone
    else is trusted as before, and doing it again changes nothing; a string that is no peer identifier
    changes nothing. *)
Theorem TrustPeer_adds {JL : TrustJSONLaws} peerID file :
  (peer_Decode peerID = true -> is_text_string peerID) ->
  let '(file', r) := TrustPeer peerID file in
  match r with
  | Ok _ => (forall p, IsPeerTrusted (trusted_list file') p = true <-> p = peerID \/ IsPeerTrusted (trusted_list file) p = true) /\
            TrustPeer peerID file' = (file', Ok tt)
  | Err _ => peer_Decode peerID = false /\ file' = file
  | Panic _ => False
  end.
Proof.
  intros Htext. unfold TrustPeer. destruct (peer_Decode peerID) eqn:Ed; [|done]. cbn [negb]. specialize (Htext eq_refl).
  fold (IsPeerTrusted (trusted_list file) peerID). destruct (IsPeerTrusted (trusted_list file) peerID) eqn:Et.
  - split; [|by fold (IsPeerTrusted (trusted_list file) peerID); rewrite Et]. intros p. split; [by right|]. by intros [-> |].
  - assert (Hl : trusted_list (Some (encode_strings (trusted_list file ++ [peerID]))) = trusted_list file ++ [peerID]).
    { apply decode_encode. apply Forall_app. split; [|by constructor]. destruct file; [apply decode_text|constructor]. }
    rewrite Hl. split.
    + intros p. rewrite !IsPeerTrusted_elem, elem_of_app, list_elem_of_singleton. tauto.
    + assert (existsb (bytes_eqb peerID) (trusted_list file ++ [peerID]) = true) as ->; [|done].
      apply (IsPeerTrusted_elem _ peerID). apply elem_of_app. right. by apply list_elem_of_singleton.
Qed.
End trust.

(** ** Whom a node dials ([SetupDHT]) *)

Definition DefaultBootstrapPeers : list bytes := map str [
  "/dnsaddr/bootstrap.libp2p.io/p2p/QmNnooDu7bfjPFoTZYxMNLWUQJyrVwtbZg5gBMjTezGAJN";
  "/dnsaddr/bootstrap.libp2p.io/p2p/QmQCU2EcMqAqQPR2i9bChDtGNJchTbq5TbXJJ16u19uLTa";
  "/dnsaddr/bootstrap.libp2p.io/p2p/QmbLHAnMoJPWSCR5Zhtx6BHJX9KiKNN6tpvbUcqanj75Nb";
  "/dnsaddr/bootstrap.libp2p.io/p2p/QmcZf59bWwK5XFi76CZX8cbJ4BhTzzA3gU1ZjYZcYW3dwt"]%string.

(** The peers the bootstrap connects to; [addr_info] parses an address. *)
Definition bootstrap_peers {A} (addr_info : bytes -> option A) (bootstrapAddrs : list bytes) (private : bool) : list A :=
  let bootstrapAddrs := if (zlen bootstrapAddrs =? 0) && negb private then DefaultBootstrapPeers else bootstrapAddrs in
  omap addr_info bootstrapAddrs.

(** A peer the rendezvous found: its identifier, whether it has addresses and is connected already. *)
Record found_peer := { fp_ID : bytes; fp_addrs : bool; fp_connected : bool }.

Definition to_connect (self : bytes) (p : found_peer) : bool :=
  negb (bytes_eqb (fp_ID p) self) && fp_addrs p && negb (fp_connected p).

(** A private node without addresses dials nobody. *)
Lemma bootstrap_private {A} (addr_info : bytes -> option A) : bootstrap_peers addr_info [] true = [].
Proof. done. Qed.

(** ** Witnesses *)

(** Peer identifiers are text without line ends, and the file is one per line. *)
Definition line_end : Z := 10.

Fixpoint lines (data cur : bytes) : list bytes :=
  match data with
  | [] => []
  | c :: data => if c =? line_end then rev cur :: lines data [] else lines data (c :: cur)
  end.

#[export] Instance lines_json : TrustJSON := {|
  encode_strings := fun l => concat (map (fun s => s ++ [line_end]) l);
  decode_strings := fun data => lines data [] |}.

Lemma lines_text data cur : Forall (fun c => c <> line_end) cur -> Forall (Forall (fun c => c <> line_end)) (lines data cur).
Proof.
  revert cur; induction data as [|c data IH]; intros cur Hc; [constructor|]. cbn [lines].
  destruct (Z.eqb_spec c line_end); [|by apply IH; constructor]. constructor; [|by apply IH]. by apply Forall_rev.
Qed.

Lemma lines_line s cur rest : Forall (fun c => c <> line_end) s -> lines (s ++ line_end :: rest) cur = (rev cur ++ s) :: lines rest [].
Proof.
  intros Hs. revert cur; induction Hs as [|c s Hc _ IH]; intros cur; cbn [app lines]; [by rewrite Z.eqb_refl, app_nil_r|].
  rewrite (proj2 (Z.eqb_neq _ _)) by done. rewrite IH. cbn [rev]. by rewrite <-app_assoc.
Qed.

#[export] Program Instance lines_laws : TrustJSONLaws := {| is_text_string := Forall (fun c => c <> line_end) |}.
Next Obligation. intros data. by apply lines_text. Qed.
Next Obligation.
  intros l Hl. cbn. induction Hl as [|s l Hs _ IH]; [done|]. cbn [map concat]. rewrite <-app_assoc. cbn [app].
  rewrite lines_line by done. cbn [rev app]. by rewrite IH.
Qed.

Lemma TrustPeer_adds_witness :
  exists file', TrustPeer (fun _ => true) (str "bob") (Some (str "alice" ++ [10])) = (file', Ok tt) /\
    IsPeerTrusted (trusted_list file') (str "bob") = true /\ IsPeerTrusted (trusted_list file') (str "alice") = true.
Proof.
  pose proof (TrustPeer_adds (fun _ => true) (str "bob") (Some (str "alice" ++ [10]))) as H.
  destruct (TrustPeer (fun _ => true) (str "bob") (Some (str "alice" ++ [10]))) as [file' r] eqn:E.
  assert (r = Ok tt) as -> by (vm_compute in E; injection E as _ <-; reflexivity). exists file'. split; [reflexivity|].
  destruct H as [H _]; [intros _; repeat constructor; discriminate|].
  split; apply H; [left; reflexivity|right; vm_compute; reflexivity].
Defined.

(** Keys that are their own encoding. *)
Definition first_start : gmap bytes bytes * res CromNode :=
  NewCromNode Ok Ok id (Ok [1; 2]) true (str "brain") (str "data") [] {[str "brain" := sample_brain]}.

Lemma first_start_ID : match first_start.2 with Ok n => n_ID n | _ => [] end = [1; 2].
Proof. vm_compute. reflexivity. Qed.

Lemma NewCromNode_restart_witness :
  exists d n n', first_start = (d, Ok n) /\
    NewCromNode Ok Ok id (Ok [9; 9]) true (str "brain") (str "data") [] d = (d, Ok n') /\ n_ID n' = [1; 2].
Proof.
  pose proof first_start_ID as Hn. destruct first_start as [d [n|e|p]] eqn:E; [|discriminate Hn..]. cbn [snd] in Hn.
  destruct (NewCromNode_restart Ok Ok id) with (fresh := @Ok bytes [1; 2]) (fresh' := @Ok bytes [9; 9]) (codebookPath := str "brain")
    (dataDir := str "data") (encKey := @nil Z) (d := {[str "brain" := sample_brain]} : gmap bytes bytes) (d' := d) (n := n) as (n' & E' & Hid & _).
  - intros k raw [= ->]. reflexivity.
  - vm_compute. discriminate.
  - exact E.
  - exists d, n, n'. split; [reflexivity|]. split; [exact E'|]. by rewrite Hid.
Defined.
