(* ===== verification/Metrics.v ===== *)
(** What the packers report: counts of hits and literals, similarity, the most repeated literal, sizes. The reports
    are computed from the blocks the packers of [Pack] write. *)

From S2P Require Import Prelude Binary Sha256 Externals Crypto Format FormatIO Delta Chunker Codebook.
From S2P Require Import Fractal Merkle Entropy Search Unpack Pack ChunkCodec BlockCodec RoundTrip PackFile.
Import codebook Format.

(** ** Counting *)

(** FNV-1a, 64 bits ([hash/fnv]). *)
Definition fnv64a (data : bytes) : Z := foldl (fun h b => u64 (Z.lxor h b * 1099511628211)) 14695981039346656037 data.

(** The duration of a run is left out. *)
Record Metrics := {
  mt_OriginalSize : Z;
  mt_PackedSize : Z;
  mt_HitRate : float64;
  mt_LiteralChunks : Z;
  mt_MostFrequentLiteral : Z;
  mt_LiteralRepetitions : Z;
  mt_SuggestedMicroBrain : bool;
  mt_TotalChunks : Z;
  mt_AvgSimilarity : float64;
  mt_Entropy : float64;
}.

(** The counters of a run. *)
Record tally := {
  ta_hits : Z;
  ta_literals : Z;
  ta_total : Z;
  ta_similarity : float64;
}.

Definition no_tally : tally := {| ta_hits := 0; ta_literals := 0; ta_total := 0; ta_similarity := f64_of_int 0 |}.

Definition count_chunk (literal hit : processedChunk -> bool) (t : tally) (p : processedChunk) : tally := {|
  ta_hits := if hit p then ta_hits t + 1 else ta_hits t;
  ta_literals := if literal p then ta_literals t + 1 else ta_literals t;
  ta_total := ta_total t + 1;
  ta_similarity := f64_add (ta_similarity t) (p_sim p) |}.

Definition tally_chunks (literal hit : processedChunk -> bool) (ps : list processedChunk) : tally :=
  foldl (count_chunk literal hit) no_tally ps.

Definition is_literal (p : processedChunk) : bool := e_CodebookID (p_entry p) =? LiteralCodebookID.

(** [Pack]: a chunk without a residual is a hit, and so is one whose residual is nearly all zeros. *)
Definition pack_hit (p : processedChunk) : bool :=
  if is_literal p then false
  else if e_DeltaSize (p_entry p) =? 0 then true
  else zlen (filter (fun b => b = 0) (p_res p)) >? e_DeltaSize (p_entry p) * 95 / 100.

(** [PackStream]: by similarity, and whatever is no hit is a literal. *)
Definition stream_hit (p : processedChunk) : bool := f64_leb (f64_lit 5 10) (p_sim p).

(** [PackBytes] *)
Definition bytes_hit (p : processedChunk) : bool := f64_leb (f64_lit 95 100) (p_sim p).

(** How often each literal occurs, by its hash. *)
Definition literal_freq (ps : list processedChunk) : gmap Z Z := count_by (fun p => fnv64a (p_res p)) (filter (fun p => is_literal p = true) ps).

Definition percent (n total : Z) : float64 := f64_mul (f64_div (f64_of_int n) (f64_of_int total)) (f64_of_int 100).

Definition average (similarity : float64) (total : Z) : float64 :=
  if total >? 0 then f64_div similarity (f64_of_int total) else f64_of_int 0.

Section metrics.
Context {Z0 : Zstd} {C0 : Cipher} {F0 : Files} {hash64 : XXHash} {log2 : MathLog2} {order : MapOrder}.
Variable hasSIMD : bool.

(** The most repeated literal, and how often it occurs; among equals the first one visited. *)
Definition most_frequent (freq : gmap Z Z) : Z * Z :=
  foldl (fun '(mostFreqHash, maxReps) '(h, c) => if c >? maxReps then (h, c) else (mostFreqHash, maxReps)) (0, 0) (map_order freq).

(** ** [Pack] *)

Definition passthrough_metrics (input file : bytes) (eScore : float64) : Metrics := {|
  mt_OriginalSize := zlen input; mt_PackedSize := zlen file; mt_HitRate := f64_of_int 100; mt_LiteralChunks := 0;
  mt_MostFrequentLiteral := 0; mt_LiteralRepetitions := 0; mt_SuggestedMicroBrain := false; mt_TotalChunks := 0;
  mt_AvgSimilarity := f64_of_int 0; mt_Entropy := eScore |}.

Definition file_metrics (input file : bytes) (eScore : float64) (ps : list processedChunk) : Metrics :=
  let t := tally_chunks is_literal pack_hit ps in
  let '(mostFreqHash, maxReps) := most_frequent (literal_freq ps) in {|
  mt_OriginalSize := zlen input; mt_PackedSize := zlen file; mt_HitRate := percent (ta_hits t) (u32 (zlen ps));
  mt_LiteralChunks := ta_literals t; mt_MostFrequentLiteral := mostFreqHash; mt_LiteralRepetitions := maxReps;
  mt_SuggestedMicroBrain := maxReps >? 1000; mt_TotalChunks := ta_total t;
  mt_AvgSimilarity := average (ta_similarity t) (ta_total t); mt_Entropy := eScore |}.

(** The file together with the report; a file written again uncompressed is reported as a passthrough. *)
Definition Pack_metrics (rnd : Randomness) (schedule : Z -> nat -> list nat) (input codebookPath : bytes)
    (opts : PackOptions) : res (bytes * Metrics) :=
  let eScore := (Analyze input 65536).1 in
  pl ← make_plan rnd input codebookPath opts;
  if pl_passthrough pl then
    file ← pack_passthrough rnd input codebookPath opts pl;
    Ok (file, passthrough_metrics input file eScore)
  else
    pb ← pack_pool hasSIMD rnd schedule input opts pl;
    '(file, rewritten) ← finish_file rnd input codebookPath opts pl pb;
    Ok (file, if rewritten : bool then passthrough_metrics input file eScore
              else file_metrics input file eScore (concat (pb_chunks pb))).

(** ** [PackStream] and [PackBytes] *)

Definition PackStream_metrics (schedule : Z -> nat -> list nat) (input codebookPath : bytes) (opts : PackOptions) :
    res (bytes * Metrics) :=
  '(cb, pb) ← stream_pool hasSIMD schedule input codebookPath opts;
  file ← stream_file input opts cb pb;
  let t := tally_chunks (fun p => negb (stream_hit p)) stream_hit (concat (pb_chunks pb)) in
  Ok (file, {| mt_OriginalSize := zlen input; mt_PackedSize := zlen file;
               mt_HitRate := if ta_total t >? 0 then percent (ta_hits t) (ta_total t) else f64_of_int 0;
               mt_LiteralChunks := ta_literals t; mt_MostFrequentLiteral := 0; mt_LiteralRepetitions := 0;
               mt_SuggestedMicroBrain := false; mt_TotalChunks := ta_total t;
               mt_AvgSimilarity := average (ta_similarity t) (ta_total t); mt_Entropy := f64_of_int 0 |}).

Definition PackBytes_metrics (input codebookData : bytes) (opts : PackOptions) : res (bytes * Metrics) :=
  if zlen input =? 0 then Err "packbytes: empty input" else
  '(cb, pb) ← bytes_pool hasSIMD input codebookData opts;
  file ← bytes_file input opts cb pb;
  let t := tally_chunks is_literal bytes_hit (concat (pb_chunks pb)) in
  Ok (file, {| mt_OriginalSize := zlen input; mt_PackedSize := zlen file;
               mt_HitRate := percent (ta_hits t) (ta_total t); mt_LiteralChunks := ta_literals t;
               mt_MostFrequentLiteral := 0; mt_LiteralRepetitions := 0; mt_SuggestedMicroBrain := false;
               mt_TotalChunks := ta_total t; mt_AvgSimilarity := average (ta_similarity t) (ta_total t);
               mt_Entropy := Shannon (ztake 65536 input) |}).

(** The reports are about the files that the packers write. *)
Lemma Pack_metrics_file rnd schedule input path opts :
  (r ← Pack_metrics rnd schedule input path opts; Ok r.1) = Pack hasSIMD rnd schedule input path opts.
Proof.
  unfold Pack_metrics, Pack, pack_file. destruct (make_plan _ _ _ _) as [pl| |]; [|done..]. cbn [mbind res_bind].
  destruct (pl_passthrough pl); [by destruct (pack_passthrough _ _ _ _ _)|].
  destruct (pack_pool _ _ _ _ _ _); [|done..]. cbn [mbind res_bind]. by destruct (finish_file _ _ _ _ _ _) as [[]| |].
Qed.

Lemma PackStream_metrics_file schedule input path opts :
  (r ← PackStream_metrics schedule input path opts; Ok r.1) = PackStream hasSIMD schedule input path opts.
Proof.
  unfold PackStream_metrics, PackStream. destruct (stream_pool _ _ _ _ _) as [[cb pb]| |]; [|done..]. cbn [mbind res_bind].
  by destruct (stream_file _ _ _ _).
Qed.

Lemma PackBytes_metrics_file input data opts :
  (r ← PackBytes_metrics input data opts; Ok r.1) = PackBytes hasSIMD input data opts.
Proof.
  unfold PackBytes_metrics, PackBytes. destruct (zlen input =? 0); [done|].
  destruct (bytes_pool _ _ _ _) as [[cb pb]| |]; [|done..]. cbn [mbind res_bind]. by destruct (bytes_file _ _ _ _).
Qed.

(** ** The counters *)

Lemma foldl_count literal hit ps t :
  let t' := foldl (count_chunk literal hit) t ps in
  ta_total t' = ta_total t + zlen ps /\
  ta_literals t' = ta_literals t + zlen (filter (fun p => literal p = true) ps) /\
  ta_hits t' = ta_hits t + zlen (filter (fun p => hit p = true) ps).
Proof.
  revert t; induction ps as [|p ps IH]; intros t; cbn [foldl]; [change (zlen (@nil processedChunk)) with 0; rewrite !filter_nil; change (zlen (@nil processedChunk)) with 0; lia|].
  destruct (IH (count_chunk literal hit t p)) as (-> & -> & ->). cbn [count_chunk ta_total ta_literals ta_hits].
  rewrite !filter_cons, zlen_cons. destruct (literal p), (hit p); repeat case_decide; try done; rewrite ?zlen_cons; lia.
Qed.

Lemma tally_counts literal hit ps :
  let t := tally_chunks literal hit ps in
  ta_total t = zlen ps /\ ta_literals t = zlen (filter (fun p => literal p = true) ps) /\
  ta_hits t = zlen (filter (fun p => hit p = true) ps).
Proof. destruct (foldl_count literal hit ps no_tally) as (H1 & H2 & H3). cbv zeta. unfold tally_chunks. by rewrite H1, H2, H3. Qed.

(** A chunk is counted once, as a hit, as a literal or as neither. *)
Lemma tally_disjoint literal hit ps :
  (forall p, literal p = true -> hit p = false) ->
  let t := tally_chunks literal hit ps in 0 <= ta_hits t /\ 0 <= ta_literals t /\ ta_hits t + ta_literals t <= ta_total t.
Proof.
  intros Hd. cbv zeta. destruct (tally_counts literal hit ps) as (-> & -> & ->). do 2 (split; [apply zlen_nonneg|]).
  induction ps as [|p ps IH]; [done|]. rewrite !filter_cons, zlen_cons.
  specialize (Hd p). repeat case_decide; rewrite ?zlen_cons; try lia. exfalso. rewrite Hd in *; done.
Qed.

(** ** The most repeated literal *)

Lemma most_frequent_max {OL : MapOrderLaws order} freq h c :
  most_frequent freq = (h, c) -> 0 <= c /\ map_Forall (fun _ c' => c' <= c) freq /\ (0 < c -> freq !! h = Some c).
Proof.
  unfold most_frequent. intros E.
  enough (forall l h0 c0, foldl (fun '(mostFreqHash, maxReps) '(h, c) => if c >? maxReps then (h, c) else (mostFreqHash, maxReps)) (h0, c0) l = (h, c) ->
    c0 <= c /\ Forall (fun x => x.2 <= c) l /\ ((h, c) = (h0, c0) \/ (h, c) ∈ l)) as Hl.
  { destruct (Hl _ 0 0 E) as (Hc & Hall & Hin). split; [done|]. rewrite map_order_perm in Hall, Hin. split.
    - intros k v Hk%elem_of_map_to_list. rewrite Forall_forall in Hall. by apply (Hall (k, v)).
    - intros H. destruct Hin as [[= _ ->]|Hin]; [lia|]. by apply elem_of_map_to_list. }
  clear E. induction l as [|[h1 c1] l IH]; intros h0 c0; cbn [foldl]; [by intros [= <- <-]; split; [lia|]; split; [constructor|left]|].
  rewrite Z.gtb_ltb. destruct (Z.ltb_spec c0 c1) as [Hlt|Hge]; intros E; destruct (IH _ _ E) as (H1 & H2 & H3); (split; [lia|]).
  - split; [by constructor|]. right. destruct H3 as [->|H3]; [by apply list_elem_of_here|by apply list_elem_of_further].
  - split; [constructor; [cbn; lia|done]|]. destruct H3 as [->|H3]; [by left|by right; apply list_elem_of_further].
Qed.

(** ** Reports and files *)

Abbreviation literals es := (zlen (filter (fun e => e_CodebookID e = LiteralCodebookID) es)).

(** What a report says of a file with these entries: its counts are theirs, a chunk that is only an identifier is a
    hit and a literal is none, and the suggestion is about literals that repeat. *)
Record honest (input file : bytes) (es : list ChunkEntry) (m : Metrics) : Prop := {
  hm_original : mt_OriginalSize m = zlen input;
  hm_packed : mt_PackedSize m = zlen file;
  hm_total : mt_TotalChunks m = zlen es;
  hm_literals : mt_LiteralChunks m = literals es;
  hm_hits : exists hits, mt_HitRate m = (if zlen es =? 0 then f64_of_int 100 else percent hits (zlen es)) /\
    zlen (filter (fun e => e_CodebookID e <> LiteralCodebookID /\ e_DeltaSize e = 0) es) <= hits <= zlen es - literals es;
  hm_repetitions : 0 <= mt_LiteralRepetitions m <= literals es /\ (0 < literals es -> 0 < mt_LiteralRepetitions m);
  hm_suggested : mt_SuggestedMicroBrain m = true <-> 1000 < mt_LiteralRepetitions m;
}.

Lemma passthrough_honest input file eScore : honest input file [] (passthrough_metrics input file eScore).
Proof. constructor; try done. exists 0. by split. Qed.

Lemma file_honest {OL : MapOrderLaws order} input file eScore ps :
  0 < zlen ps < 2 ^ 32 -> honest input file (map p_entry ps) (file_metrics input file eScore ps).
Proof.
  intros Hn. unfold file_metrics. destruct (most_frequent (literal_freq ps)) as [h c] eqn:Em.
  destruct (tally_counts is_literal pack_hit ps) as (Ht & Hl & Hh).
  pose proof (tally_disjoint is_literal pack_hit ps ltac:(unfold pack_hit; by intros p ->)) as Hd. cbv zeta in Hd.
  destruct (most_frequent_max _ _ _ Em) as (Hc & Hmax & Hat). rewrite Ht, Hl in Hd.
  assert (Hzl : zlen (map p_entry ps) = zlen ps) by (unfold zlen; by rewrite length_map).
  assert (Hlit : literals (map p_entry ps) = zlen (filter (fun p => is_literal p = true) ps))
    by (apply filter_map_count; intros p; apply iff_sym, Z.eqb_eq).
  constructor; cbn [mt_OriginalSize mt_PackedSize mt_HitRate mt_LiteralChunks mt_LiteralRepetitions mt_SuggestedMicroBrain mt_TotalChunks];
    rewrite ?Hzl, ?Hlit; try done.
  - exists (ta_hits (tally_chunks is_literal pack_hit ps)). rewrite (proj2 (Z.eqb_neq _ _)), u32_small by (unfold is_u32; lia).
    split; [done|]. split; [|lia]. rewrite Hh.
    rewrite (filter_map_count p_entry _ (fun p => is_literal p = false /\ e_DeltaSize (p_entry p) = 0)).
    + apply filter_le. intros p [E1 E2]. unfold pack_hit. by rewrite E1, E2.
    + intros p. unfold is_literal. by rewrite Z.eqb_neq.
  - split.
    + split; [done|]. destruct (Z.le_gt_cases c 0) as [|Hpos]; [pose proof (zlen_nonneg (filter (fun p => is_literal p = true) ps)); lia|].
      destruct (count_by_some _ _ _ _ (Hat Hpos)) as [-> _]. apply zlen_filter_le.
    + intros Hpos. destruct (filter (fun p => is_literal p = true) ps) as [|p l] eqn:Ef; [by change (zlen (@nil processedChunk)) with 0 in Hpos|].
      unfold literal_freq in Hmax. rewrite Ef in Hmax.
      pose proof (Hmax _ _ (count_by_elem (fun p => fnv64a (p_res p)) (p :: l) p ltac:(apply list_elem_of_here))) as Hm. cbn beta in Hm.
      enough (0 < zlen (filter (fun q => fnv64a (p_res q) = fnv64a (p_res p)) (p :: l))) by lia.
      by apply (elem_of_zlen p), list_elem_of_filter; split; [|apply list_elem_of_here].
  - by rewrite Z.gtb_ltb, Z.ltb_lt.
Qed.

Section packs.
Context {ZL : ZstdLaws Z0} {CL : CipherLaws C0} {OL : MapOrderLaws order}.
Variables (rnd : Randomness) (schedule : Z -> nat -> list nat) (input path : bytes) (cb : option Reader) (opts : PackOptions).
Hypotheses (Hrnd : rnd_ok rnd) (Hat : brain_at path cb) (Hpaths : o_CodebookPaths opts = []).

Lemma honest_reading file m :
  stored_file input path opts file /\ honest input file [] m \/
  (exists pss, chunked_file input path cb opts pss file /\ honest input file (map p_entry (concat pss)) m) ->
  exists h table es pool, ReadMetadata (o_EncryptionKey opts) file = Ok (h, table, es, pool) /\ honest input file es m.
Proof.
  intros [[(h & payload & -> & [] & _) Hm]|(pss & (dict & h & frames & metadata & -> & Har & _) & Hm)].
  - do 4 eexists. split; [by apply ReadMetadata_payload|done].
  - destruct (archive_read cb dict _ h input pss frames metadata Har) as (n & _ & _ & Hr & _).
    do 4 eexists. split; [apply Hr|]. by rewrite concat_entries_of.
Qed.


(** ** How much a file can grow *)

Lemma zlen_seal_payload payload :
  seal_block "crypto: encrypt" (key_of rnd opts) (r_full rnd) input = Ok payload ->
  zlen payload = zlen input + (if zlen (o_EncryptionKey opts) =? 0 then 0 else 28).
Proof.
  pose proof (zlen_key_of rnd opts) as Hk. unfold seal_block, key_of in *. destruct (_ =? 0); [by intros [= <-]; rewrite Z.add_0_r|].
  rewrite Encrypt_ok by by apply Hk. intros [= <-]. rewrite zlen_app, gcm_seal_len, (ro_full rnd Hrnd). unfold gcmNonceSize. lia.
Qed.

(** A header without a brain, behind which the input was written. *)
Lemma zlen_stored (h h0 : Header) payload :
  wf_header h -> wf_header h0 -> h_Version h = h_Version h0 -> 3 <= h_Version h <= 8 -> h_MicroDictSize h = 0 -> h_MicroDictSize h0 = 0 ->
  zlen (file_write 0 (Serialize h).2 ((Serialize h0).2 ++ payload)) <= HeaderSizeV8 + zlen payload.
Proof.
  intros Hwf Hwf0 Hv Hr Hm Hm0. assert (Hs : zlen (Serialize h).2 = header_min_size (h_Version h)).
  { rewrite zlen_Serialize, Hm by (done || lia). by destruct (_ >=? _); lia. }
  assert (Hs0 : zlen (Serialize h0).2 = header_min_size (h_Version h)).
  { rewrite zlen_Serialize, Hm0, <-Hv by (rewrite <-?Hv; done || lia). by destruct (_ >=? _); lia. }
  rewrite file_write_over by by rewrite Hs, Hs0. rewrite zlen_app, Hs.
  enough (header_min_size (h_Version h) <= HeaderSizeV8) by lia. unfold header_min_size. by repeat case_match.
Qed.

Lemma embed_brain_version key version micro : embed_brain rnd path opts key = Ok (version, micro) -> 3 <= version <= 8.
Proof.
  unfold embed_brain. destruct (o_EmbedBrain opts); [|by intros [= <- _]]. destruct (read_file path); [|done].
  intros (m & _ & Hm)%bind_ok. revert Hm. destruct (zlen m >? MaxMicroDictSize); [done|]. by intros [= <- _].
Qed.

(** [C11] Files do not grow by more than a header. Except in edge mode, what [Pack] writes is no longer than the input and a
    header of 141 bytes, and the 28 bytes of a nonce and a tag with a passphrase - however badly the brain, the chunker
    and the embedded brain fit: a file that has grown is written again uncompressed. *)
Theorem Pack_expansion file :
  is_edge opts = false -> zlen input < 2 ^ 48 -> Pack hasSIMD rnd schedule input path opts = Ok file ->
  zlen file <= zlen input + HeaderSizeV8 + (if zlen (o_EncryptionKey opts) =? 0 then 0 else 28).
Proof.
  intros He Hlen. pose proof (zlen_nonneg input). destruct (make_plan_ok rnd input path opts cb Hat Hpaths) as (pl & Epl & Hcbs & _ & Hplkey & _).
  assert (Hwf : forall version convergent brainDict msg root, zlen root = 32 ->
    wf_header (file_header rnd input path opts pl version convergent false brainDict (Sum256 msg) 0 root [])).
  { intros. apply (wf_file_header rnd input path opts pl cb); try done. unfold is_u64. lia. }
  unfold Pack. rewrite Epl. cbn [mbind res_bind]. destruct (pl_passthrough pl) eqn:Ept.
  - unfold pack_passthrough. rewrite Hplkey. intros (payload & Hseal & [= <-])%bind_ok. rewrite Z.add_comm, Z.add_assoc.
    pose proof (zlen_seal_payload payload Hseal) as Hp.
    assert (Hwf' : forall msg, wf_header (set_passthrough (file_header rnd input path opts pl Version5 false false (uses_brain pl) (Sum256 msg) 0 (make_bytes 32) [])))
      by (intros msg; destruct (Hwf Version5 false (uses_brain pl) msg (make_bytes 32) ltac:(by apply zlen_make)); by constructor).
    pose proof (zlen_stored _ _ payload (Hwf' input) (Hwf' (pl_startBytes pl))) as Hz. etrans; [by apply Hz|]. lia.
  - pose proof (chunked_input rnd input path opts pl Epl Ept) as Hpos. unfold pack_file. intros (pb & _ & Hf)%bind_ok.
    apply bind_ok in Hf as ([file' rewritten] & Hf & [= ->]). unfold finish_file in Hf. cbv zeta in Hf.
    apply bind_ok in Hf as ([version micro] & Hemb & Hf). apply bind_ok in Hf as (table & _ & Hf).
    pose proof (embed_brain_version _ _ _ Hemb) as Hv.
    match type of Hf with context [file_header _ _ _ _ _ _ _ false false _ 0 ?r _] => assert (Hroot : zlen r = 32)
      by (destruct (pb_frames pb); [by apply zlen_make|apply zlen_Root]); set (root := r) in * end. clearbody root.
    match type of Hf with context [write_metadata ?r ?m ?p] => set (f := write_metadata r m p) in * end. clearbody f.
    rewrite He, !Z.gtb_ltb in Hf. unfold HeaderSizeV8 in *. destruct (Z.ltb_spec (zlen input) (zlen f)).
    + rewrite (proj2 (Z.ltb_lt _ _)) in Hf by lia. cbn [negb andb] in Hf. rewrite Hplkey in Hf.
      apply bind_ok in Hf as (payload & Hseal & [= <- _]). pose proof (zlen_seal_payload payload Hseal).
      pose proof (Hwf version (o_UseConvergentEncryption opts) false input root Hroot) as Hw.
      pose proof (zlen_stored _ _ payload Hw Hw) as Hz. etrans; [by apply Hz|]. unfold HeaderSizeV8. lia.
    + cbn [negb andb] in Hf. injection Hf as <- _. destruct (_ =? 0); lia.
Qed.
End packs.
End metrics.

(** ** Witnesses: the sample of [PackFile], and an input that a pack only makes longer *)

Definition sample_metrics : res (bytes * Metrics) :=
  Pack_metrics (F0 := brain_disk) (log2 := log2_zero) (order := key_order) true sample_rnd
    (fun _ n => reverse (seq 0 n)) long_input (str "brain") sample_pack_options.

Lemma sample_metrics_counts :
  match sample_metrics with Ok (_, m) => (mt_TotalChunks m, mt_LiteralChunks m, mt_LiteralRepetitions m) | _ => (0, 0, 0) end = (2, 1, 1).
Proof. vm_compute. reflexivity. Qed.

(** Bytes that no chunk resembles. *)
Definition noise : bytes := map (fun i => (Z.of_nat i * 167 + Z.of_nat i * Z.of_nat i * 13) mod 256) (seq 0 300).

Definition noise_pack : res bytes :=
  Pack (F0 := brain_disk) (log2 := log2_zero) (order := key_order) true sample_rnd (fun _ n => seq 0 n) noise (str "brain") sample_pack_options.

(** It grows by a header, a nonce and a tag: the bound is attained. *)
Lemma noise_grows : match noise_pack with Ok file => zlen file =? zlen noise + HeaderSizeV8 + 28 | _ => false end = true.
Proof. vm_compute. reflexivity. Qed.


Lemma Pack_expansion_witness :
  exists file, noise_pack = Ok file /\ zlen file = zlen noise + HeaderSizeV8 + 28 /\ zlen file <= zlen noise + HeaderSizeV8 + 28.
Proof.
  pose proof noise_grows as Hg. destruct noise_pack as [file|e|p] eqn:E; [|discriminate Hg..].
  exists file. split; [reflexivity|]. split; [apply Z.eqb_eq, Hg|].
  apply (Pack_expansion (F0 := brain_disk) (log2 := log2_zero) (order := key_order) true sample_rnd
    (fun _ n => seq 0 n) noise (str "brain") (Some sample_reader) sample_pack_options).
  - constructor; reflexivity.
  - apply sample_brain_at.
  - reflexivity.
  - reflexivity.
  - vm_compute. reflexivity.
  - exact E.
Defined.
