(* ===== verification/Info.v ===== *)
(** [cmd/crompressor/info.go]: what [info] finds in a file. *)

From S2P Require Import Prelude Binary Sha256 Externals Crypto Format FormatIO Delta Chunker Codebook.
From S2P Require Import Fractal Merkle Entropy Search Unpack Pack ChunkCodec BlockCodec RoundTrip PackFile Metrics.
From stdpp Require Import sorting.
#[local] Open Scope Z_scope.
Import codebook Format.

(** The block table of version 2: total, average, smallest and largest, in the widths of the code. *)
Definition block_stats (blockTable : list Z) : Z * Z * Z * Z :=
  let '(total, minBlock, maxBlock) :=
    foldl (fun '(total, mn, mx) size =>
      (u64 (total + size), if size <? mn then size else mn, if size >? mx then size else mx)) (0, 2 ^ 32 - 1, 0) blockTable in
  (total, total / zlen blockTable, minBlock, maxBlock).

(** The identifiers of the chunk table without their patch flag, and how often each occurs. *)
Definition shown_id (e : ChunkEntry) : Z :=
  if e_CodebookID e =? LiteralCodebookID then LiteralCodebookID else Z.ldiff (e_CodebookID e) FlagIsPatch.

Definition id_freq (entries : list ChunkEntry) : gmap Z Z := count_by shown_id entries.

#[local] Instance more_frequent_decision a b : Decision (more_frequent a b).
Proof. unfold more_frequent. apply _. Defined.

Section info.
Context {Z0 : Zstd} {C0 : Cipher} {log2 : MathLog2} {order : MapOrder}.

(** Shannon entropy over an array of counters, in the order of the bytes. *)
Definition shannonEntropy (data : bytes) : float64 :=
  if zlen data =? 0 then f64_of_int 0 else
  let freq := count_by id data in
  let total := f64_of_int (zlen data) in
  foldl (fun entropy b =>
    let f := default 0 (freq !! Z.of_nat b) in
    if f >? 0 then let p := f64_div (f64_of_int f) total in f64_sub entropy (f64_mul p (math_Log2 p)) else entropy)
    (f64_of_int 0) (seq 0 256).

(** The ten most frequent identifiers with their counts; [sort.Slice] leaves equals in any order, here in that of the map. *)
Definition top_counts (freq : gmap Z Z) : list (Z * Z) := take 10 (merge_sort more_frequent (map_order freq)).

(** What is printed. *)
Record info_report := {
  ir_Version : Z;
  ir_Encrypted : bool;
  ir_OriginalSize : Z;
  ir_Hash : bytes;
  ir_ChunkCount : Z;
  ir_FileSize : Z;
  ir_blocks : option (Z * Z * Z * Z);
  ir_Fragmentation : option float64;
  ir_entropy : option float64;
  ir_ids : option (list (Z * Z) * Z);
}.

Definition info_RunE (encryptionKey file : bytes) : res info_report :=
  '((header, blockTable, entries), compDeltaPool) ← wrap_err "format parse error" (ReadMetadata encryptionKey file);
  let show_blocks := (h_Version header =? Version2) && (zlen blockTable >? 0) in
  Ok {| ir_Version := h_Version header; ir_Encrypted := h_IsEncrypted header; ir_OriginalSize := h_OriginalSize header;
        ir_Hash := ztake 16 (h_OriginalHash header); ir_ChunkCount := h_ChunkCount header; ir_FileSize := zlen file;
        ir_blocks := if show_blocks then Some (block_stats blockTable) else None;
        ir_Fragmentation := if show_blocks then Some (f64_div (f64_of_int (zlen file)) (f64_of_int (h_OriginalSize header))) else None;
        ir_entropy := if zlen compDeltaPool >? 0 then Some (shannonEntropy compDeltaPool) else None;
        ir_ids := if zlen entries >? 0 then Some (top_counts (id_freq entries), Z.of_nat (base.size (id_freq entries))) else None |}.

(** ** What the list of identifiers shows *)

#[local] Instance more_frequent_total : Total more_frequent.
Proof. intros [] []. unfold more_frequent. cbn. lia. Qed.

#[local] Instance more_frequent_trans : Transitive more_frequent.
Proof. intros [] [] []. unfold more_frequent. cbn. lia. Qed.

(** Every line of the list is right, and no identifier left out is more frequent than one shown. *)
Definition top_of (es : list ChunkEntry) (top : list (Z * Z)) : Prop :=
  NoDup top.*1 /\ (forall id c, (id, c) ∈ top -> c = zlen (filter (fun e => shown_id e = id) es)) /\
  (forall e c, e ∈ es -> shown_id e ∉ top.*1 -> c ∈ top.*2 -> zlen (filter (fun e' => shown_id e' = shown_id e) es) <= c).

Lemma top_counts_of {OL : MapOrderLaws order} es :
  top_of es (top_counts (id_freq es)) /\ length (top_counts (id_freq es)) = Nat.min 10 (base.size (id_freq es)).
Proof.
  unfold top_counts. set (l := merge_sort more_frequent (map_order (id_freq es))).
  assert (Hp : l ≡ₚ map_to_list (id_freq es)) by (unfold l; by rewrite merge_sort_Permutation, map_order_perm).
  assert (Hs : StronglySorted more_frequent l) by (apply StronglySorted_merge_sort; apply _).
  assert (Hsub : forall x, x ∈ take 10 l -> x ∈ map_to_list (id_freq es)) by (intros x Hx; rewrite <-Hp; by apply (subseteq_take 10)).
  split; [split; [|split]|].
  - rewrite fmap_take. eapply sublist_NoDup; [|apply sublist_take]. rewrite Hp. apply NoDup_fst_map_to_list.
  - intros id c Hc%Hsub%elem_of_map_to_list. by apply (count_by_some shown_id es id c) in Hc as [-> _].
  - intros e c He Hnot Hc. apply list_elem_of_fmap in Hc as ([k c'] & -> & Hc). cbn.
    assert (Hk : (shown_id e, zlen (filter (fun e' => shown_id e' = shown_id e) es)) ∈ l).
    { rewrite Hp. by apply elem_of_map_to_list, count_by_elem. }
    rewrite <-(take_drop 10 l) in Hk, Hs. apply elem_of_app in Hk as [Hk|Hk].
    + destruct Hnot. apply list_elem_of_fmap. eexists. split; [|exact Hk]. done.
    + apply StronglySorted_app in Hs as (Hs & _). exact (Hs _ _ Hc Hk).
  - rewrite length_take. f_equal. rewrite <-length_map_to_list. by apply Permutation_length.
Qed.

(** ** Reports on packed files *)

Context {F0 : Files} {hash64 : XXHash}.

(** A file's header as it is shown, and its table. *)
Record informs (input passphrase file : bytes) (es : list ChunkEntry) (r : info_report) : Prop := {
  in_size : ir_OriginalSize r = zlen input;
  in_file : ir_FileSize r = zlen file;
  in_hash : ir_Hash r = ztake 16 (Sum256 input);
  in_count : ir_ChunkCount r = zlen es;
  in_encrypted : ir_Encrypted r = true -> passphrase <> [];
  in_blocks : ir_blocks r = None;
  in_ids : match ir_ids r with
           | Some (top, unique) => top_of es top /\ zlen top = Z.min 10 unique
           | None => es = []
           end;
}.

Lemma info_of passphrase file h n table es pool input {OL : MapOrderLaws order} :
  ReadMetadata passphrase file = Ok (set_table_bytes n (stored_header h), table, es, pool) ->
  3 <= h_Version h <= 8 -> h_OriginalSize h = zlen input -> h_OriginalHash h = Sum256 input -> h_ChunkCount h = zlen es ->
  (h_IsEncrypted h = true -> passphrase <> []) ->
  exists r, info_RunE passphrase file = Ok r /\ informs input passphrase file es r.
Proof.
  intros Hr Hv Hsize Hhash Hcount Henc. unfold info_RunE. rewrite Hr. cbn [wrap_err mbind res_bind]. eexists. split; [done|].
  destruct (stored_fields h n Hv) as (E1 & E2 & _ & _ & _ & _ & E3 & E4 & _). cbv zeta in *.
  assert (E5 : h_OriginalSize (set_table_bytes n (stored_header h)) = h_OriginalSize h)
    by (unfold stored_header; by destruct (h_CodebookHashes h) as [[? ?] ?]).
  constructor; cbn [ir_OriginalSize ir_FileSize ir_Hash ir_ChunkCount ir_Encrypted ir_blocks ir_ids]; try done.
  - by rewrite E5.
  - by rewrite E3, Hhash.
  - by rewrite E4.
  - by rewrite E2.
  - rewrite E1. unfold Version2. by rewrite (proj2 (Z.eqb_neq _ _)) by lia.
  - destruct (Z.gtb_spec (zlen es) 0).
    + destruct (top_counts_of es) as [Ht Hl]. split; [done|]. unfold zlen. lia.
    + apply zlen_0_nil. pose proof (zlen_nonneg es). lia.
Qed.

(** [C21] What [info] shows of a packed file. It reads every file that [Pack] makes, and shows the size and the hash of the
    input, the length of the file, and the number of chunks in its table; the list of identifiers has the
    ten most frequent ones, or all if there are fewer, each with its count. The statistics of the block
    table are never shown: they are for files of version 2, which nothing writes any more. *)
Theorem info_Pack {ZL : ZstdLaws Z0} {CL : CipherLaws C0} {OL : MapOrderLaws order} hasSIMD rnd schedule input path cb opts file :
  rnd_ok rnd -> (forall i n, schedule i n ≡ₚ seq 0 n) -> brain_at path cb -> o_CodebookPaths opts = [] ->
  (cb = None -> o_EmbedBrain opts = false) -> is_edge opts = false -> o_UseConvergentEncryption opts = false ->
  bytes_ok input -> zlen input < 2 ^ 48 ->
  (forall pl split, make_plan rnd input path opts = Ok pl -> pick_chunker opts pl = Ok split ->
     total_chunks split input <= 2 ^ 27) ->
  Pack hasSIMD rnd schedule input path opts = Ok file ->
  exists h table es pool r, ReadMetadata (o_EncryptionKey opts) file = Ok (h, table, es, pool) /\
    info_RunE (o_EncryptionKey opts) file = Ok r /\ informs input (o_EncryptionKey opts) file es r.
Proof.
  intros Hrnd Hsched Hat Hp Hembed He Hu Hok Hlen Htot Epack. assert (Hll : lossless opts) by (split; [done|by rewrite Hu]).
  pose proof (Pack_file hasSIMD rnd schedule input path path cb opts Hrnd Hsched Hat Hp Hembed ltac:(done) Hll Hok Hlen Htot) as H.
  rewrite Epack in H. destruct H as [(pss & dict & h & frames & metadata & -> & Har & Hlossy & _)|(h & payload & -> & [] & _)].
  - destruct (archive_read cb dict _ h input pss frames metadata Har) as (n & _ & _ & Hr & _). destruct Har as [_ [] Hpass _ _].
    assert (h_OriginalHash h = Sum256 input) by (apply ds_hash; rewrite Hlossy, He; by destruct cb).
    do 4 eexists. destruct (info_of _ _ h n (table_of frames) _ (concat frames) input (Hr (concat frames))) as (r & ? & ?);
      [by rewrite ?zlen_entries..|]. by exists r.
  - pose proof (ReadMetadata_payload _ h payload pf_wf pf_version pf_passphrase pf_chunks) as Hr. rewrite <-set_table_bytes_0 in Hr.
    destruct (info_of _ _ h 0 [] [] payload input Hr) as (r & ? & ?); [done..|]. by do 4 eexists; exists r.
Qed.
End info.

(** ** Witness *)

(** The file of [Metrics]: one chunk is the polynomial of seed 7, the other a literal. *)
Definition sample_info : res info_report :=
  file ← sample_pack;
  info_RunE (log2 := log2_zero) (order := key_order) (str "key") file.

Lemma sample_info_counts :
  match sample_info with Ok r => (ir_OriginalSize r, ir_ChunkCount r, ir_Version r, default ([], 0) (ir_ids r)) | _ => (0, 0, 0, ([], 0)) end =
  (1314, 2, 8, ([(LiteralCodebookID, 1); (65536 * 7, 1)], 2)).
Proof. vm_compute. reflexivity. Qed.

Lemma info_Pack_witness :
  exists file, sample_pack = Ok file /\
    exists h table es pool r, ReadMetadata (str "key") file = Ok (h, table, es, pool) /\
      info_RunE (log2 := log2_zero) (order := key_order) (str "key") file = Ok r /\ informs long_input (str "key") file es r.
Proof.
  pose proof (info_Pack (F0 := brain_disk) (log2 := log2_zero) (order := key_order) true sample_rnd
    (fun _ n => reverse (seq 0 n)) long_input (str "brain") (Some sample_reader) sample_pack_options) as H. fold sample_pack in H.
  pose proof sample_pack_smaller as Hs. destruct sample_pack as [file|e|p] eqn:E; [|discriminate Hs|discriminate Hs].
  exists file. split; [reflexivity|]. apply H; sample_pack_side.
Defined.
