(* ===== verification/Discovery.v ===== *)
(** What the ends of a handshake do with its result ([internal/network/auth.go]), and the peers that are found and dialled
    ([auth.go], [discovery.go]). *)

From stdpp Require Import relations.
From S2P Require Import Prelude Sha256 Externals Crypto Format Codebook Bitswap Protocol Handshake Gossip Identity.

(** ** After the handshake *)

(** Both [AuthenticatePeer] and [authHandler] close the connection, and not just the stream, if the brains differ. *)
Definition closes_connection (pc : hs_pc) : bool :=
  match pc with Done (Some e) => bool_decide (e = errBrainMismatch) | _ => false end.

(** What the initiator's handshake gives when it has returned. *)
Definition hs_result (pc : hs_pc) : res unit :=
  match pc with Done None => Ok tt | Done (Some e) => Err ("auth: " ++ e)%string | _ => Err "auth" end.

(** [AuthenticatePeer]: what it returns, and whether it closes the connection. [stream] is what opening the stream gives, and
    [pc] where the handshake ended. *)
Definition AuthenticatePeer (stream : res unit) (pc : hs_pc) : res unit * bool :=
  match stream with
  | Ok _ => (hs_result pc, closes_connection pc)
  | Err _ => (Err "auth: failed to open stream", false)
  | Panic p => (Panic p, false)
  end.

(** ** Found peers

    Where a node looks for others: the tag of mDNS, and the string of the DHT. *)
Definition serviceTag (n : CromNode) : bytes := str "_crom_" ++ hex (ztake 8 (n_CodebookHash n)) ++ str "._tcp".
Definition rendezvousStr (n : CromNode) : bytes := str "crom-network-" ++ hex (ztake 16 (n_CodebookHash n)).

Lemma hex_digit_inj a b : 0 <= a < 16 -> 0 <= b < 16 -> hex_digit a = hex_digit b -> a = b.
Proof. unfold hex_digit. destruct (Z.ltb_spec a 10), (Z.ltb_spec b 10); lia. Qed.

Lemma hex_inj a b : bytes_ok a -> bytes_ok b -> hex a = hex b -> a = b.
Proof.
  intros Ha. revert b; induction Ha as [|x a Hx Ha IH]; intros b Hb; destruct Hb as [|y b Hy Hb]; [done..|].
  unfold hex. cbn [map concat app]. intros [= H1 H2 H3]. unfold is_byte, is_u8 in *.
  apply hex_digit_inj in H1; [|by split; [apply Z.div_pos|apply Z.div_lt_upper_bound]; lia..].
  apply hex_digit_inj in H2; [|by apply Z.mod_pos_bound..]. f_equal; [|by apply IH].
  rewrite (Z.div_mod x 16), (Z.div_mod y 16) by done. lia.
Qed.

(** Nodes meet at the same string exactly if the first sixteen bytes of their brains' hashes agree; then they meet in the
    local network and in the topic of announcements as well. Whether the brains agree is left to the handshake. *)
Lemma rendezvous_same A B :
  bytes_ok (n_CodebookHash A) -> bytes_ok (n_CodebookHash B) ->
  (rendezvousStr A = rendezvousStr B <-> ztake 16 (n_CodebookHash A) = ztake 16 (n_CodebookHash B)) /\
  (rendezvousStr A = rendezvousStr B -> serviceTag A = serviceTag B).
Proof.
  intros HA HB. unfold rendezvousStr, serviceTag.
  assert (H : str "crom-network-" ++ hex (ztake 16 (n_CodebookHash A)) = str "crom-network-" ++ hex (ztake 16 (n_CodebookHash B)) ->
    ztake 16 (n_CodebookHash A) = ztake 16 (n_CodebookHash B)).
  { intros E%app_inv_head. apply hex_inj in E; [done|rewrite ztake_take; by apply Forall_take..]. }
  split; [split; [exact H|by intros ->]|]. intros E%H. do 2 f_equal. f_equal.
  assert (Ht : forall l : bytes, ztake 8 l = ztake 8 (ztake 16 l)) by (intros l; rewrite !ztake_take, take_take; reflexivity).
  by rewrite Ht, E, <-Ht.
Qed.


(** The goroutine for a found peer, of mDNS and of the DHT alike: whether a sovereign connection is there in the end. *)
Definition connect_peer (connect : res unit) (auth : res unit) : bool :=
  match connect with Ok _ => is_ok auth | _ => false end.

(** [HandlePeerFound]; [None] when it ignores itself. *)
Definition HandlePeerFound (self pi : bytes) (connect auth : bytes -> res unit) : option bool :=
  if bytes_eqb pi self then None else Some (connect_peer (connect pi) (auth pi)).

(** A round of [FindPeers]: the peers connected by it. An error of the search gives no peers. *)
Definition find_peers (self : bytes) (found : res (list found_peer)) (connect auth : bytes -> res unit) : list bytes :=
  match found with
  | Ok peers => map fp_ID (filter (fun p => to_connect self p && connect_peer (connect (fp_ID p)) (auth (fp_ID p)) = true) peers)
  | _ => []
  end.

(** Only peers that completed the handshake are connected by it, and never the node itself. *)
Lemma find_peers_elem self peers connect auth pid :
  pid ∈ find_peers self (Ok peers) connect auth <->
  exists p, p ∈ peers /\ fp_ID p = pid /\ pid <> self /\ fp_addrs p = true /\ fp_connected p = false /\
    is_ok (connect pid) = true /\ is_ok (auth pid) = true.
Proof.
  unfold find_peers, to_connect, connect_peer. rewrite list_elem_of_fmap. split.
  - intros (p & -> & [Hp Hin]%list_elem_of_filter). exists p. apply andb_true_iff in Hp as [Ht Hc].
    apply andb_true_iff in Ht as [[Hs%negb_true_iff Ha]%andb_true_iff Hf%negb_true_iff]. destruct (connect (fp_ID p)); [|done..].
    split_and!; try done. intros E. by rewrite E, bytes_eqb_refl in Hs.
  - intros (p & Hin & <- & Hne & Ha & Hf & Hc & Hau). exists p. split; [done|]. apply list_elem_of_filter. split; [|done].
    rewrite Ha, Hf, andb_true_r. destruct (bytes_eqb (fp_ID p) self) eqn:E; [by apply bytes_eqb_true in E|].
    by destruct (connect (fp_ID p)).
Qed.

(** ** A refusal *)

Section refusal.
Variables (A B : CromNode) (nonceA nonceB : bytes).
Hypotheses (HnA : zlen nonceA = authNonceSize) (HnB : zlen nonceB = authNonceSize).

Abbreviation proofA := (Handshake.proofA A nonceB).
Abbreviation proofB := (Handshake.proofB B nonceA).

Hypotheses (HrA : authProof A (n_ID B) nonceA <> proofB) (HrB : authProof B (n_ID A) nonceB <> proofA).

(** Messages written and read by an end that does not accept. *)
Definition refuser_sent (pc : hs_pc) : nat := match pc with SendNonce => 0 | ReadNonce | SendProof _ => 1 | _ => 2 end.
Definition refuser_received (pc : hs_pc) : nat := match pc with SendNonce | ReadNonce => 0 | SendProof _ | ReadProof => 1 | _ => 2 end.
Definition refuser_rank (pc : hs_pc) : nat := match pc with SendNonce => 0 | ReadNonce => 1 | SendProof _ => 2 | ReadProof => 3 | _ => 4 end.

Definition refusing (nonce : bytes) (pc : hs_pc) : Prop :=
  match pc with SendProof r => r = nonce | Ack => False | Done e => e = Some errBrainMismatch | _ => True end.

Record declined (st : hs_state) : Prop := {
  de_A : refusing nonceB (hs_A st);
  de_B : refusing nonceA (hs_B st);
  de_rA : (refuser_received (hs_A st) <= refuser_sent (hs_B st))%nat;
  de_rB : (refuser_received (hs_B st) <= refuser_sent (hs_A st))%nat;
  de_AB : is_done (hs_B st) = false -> hs_AB st = in_flight [nonceA; proofA] (refuser_sent (hs_A st)) (refuser_received (hs_B st));
  de_BA : is_done (hs_A st) = false -> hs_BA st = in_flight [nonceB; proofB] (refuser_sent (hs_B st)) (refuser_received (hs_A st));
}.

Lemma rejected (p q : bytes) : p <> q -> bytes_eqb q p = false.
Proof. intros H. apply bool_decide_eq_false. congruence. Qed.

Ltac refusal_eval :=
  repeat match goal with
  | |- context [read_arrived _ (?m ++ ?r) _] =>
      rewrite (read_first _ m r) by (done || apply (zlen_proofs A B nonceA nonceB) || apply HnA || apply HnB)
  | |- context [read_arrived _ [] false] => rewrite read_nothing by done
  end; rewrite ?(rejected _ _ HrA), ?(rejected _ _ HrB).

(** A step of an end goes one further; an end that cannot move has refused, or has read all that was written. *)
Lemma declined_initiator st :
  declined st ->
  match handshake A true (n_ID B) nonceA (hs_A st) (hs_BA st) (is_done (hs_B st)) with
  | Some (pc, inbox, out, store) =>
      refuser_rank pc = S (refuser_rank (hs_A st)) /\
      declined {| hs_A := pc; hs_B := hs_B st; hs_AB := hs_AB st ++ out; hs_BA := inbox;
        hs_authA := record_peer store (n_ID B) (hs_authA st); hs_authB := hs_authB st |}
  | None => (refuser_received (hs_A st) = refuser_sent (hs_B st) /\ hs_A st <> SendNonce)%nat \/ hs_A st = Done (Some errBrainMismatch)
  end.
Proof.
  destruct st as [pcA pcB AB BA authA authB]. intros [LA LB RA RB EAB EBA]. cbn [hs_A hs_B hs_AB hs_BA hs_authA hs_authB] in *.
  destruct pcA as [| |r| | |e]; cbn [is_done] in EBA; try specialize (EBA eq_refl); try done; [..|right; by cbn in LA; subst]; subst BA.
  all: destruct pcB as [| |r'| | |e']; cbn [refuser_received refuser_sent refusing refuser_rank] in *; try lia; try done; subst;
    unfold in_flight; cbn [take drop concat app handshake is_done]; refusal_eval; cbn [refuser_rank record_peer];
    try (left; split; [done|discriminate]).
  all: split; [done|]; constructor; cbn [hs_A hs_B hs_AB hs_BA refuser_received refuser_sent refusing is_done] in *; try done; try lia;
    intros Hd; try rewrite (EAB Hd); unfold in_flight; cbn [take drop concat app]; by rewrite ?app_nil_r.
Qed.

Lemma declined_responder st :
  declined st ->
  match handshake B false (n_ID A) nonceB (hs_B st) (hs_AB st) (is_done (hs_A st)) with
  | Some (pc, inbox, out, store) =>
      refuser_rank pc = S (refuser_rank (hs_B st)) /\
      declined {| hs_A := hs_A st; hs_B := pc; hs_AB := inbox; hs_BA := hs_BA st ++ out;
        hs_authA := hs_authA st; hs_authB := record_peer store (n_ID A) (hs_authB st) |}
  | None => (refuser_received (hs_B st) = refuser_sent (hs_A st) /\ hs_B st <> SendNonce)%nat \/ hs_B st = Done (Some errBrainMismatch)
  end.
Proof.
  destruct st as [pcA pcB AB BA authA authB]. intros [LA LB RA RB EAB EBA]. cbn [hs_A hs_B hs_AB hs_BA hs_authA hs_authB] in *.
  destruct pcB as [| |r| | |e]; cbn [is_done] in EAB; try specialize (EAB eq_refl); try done; [..|right; by cbn in LB; subst]; subst AB.
  all: destruct pcA as [| |r'| | |e']; cbn [refuser_received refuser_sent refusing refuser_rank] in *; try lia; try done; subst;
    unfold in_flight; cbn [take drop concat app handshake is_done]; refusal_eval; cbn [refuser_rank record_peer];
    try (left; split; [done|discriminate]).
  all: split; [done|]; constructor; cbn [hs_A hs_B hs_AB hs_BA refuser_received refuser_sent refusing is_done] in *; try done; try lia;
    intros Hd; try rewrite (EBA Hd); unfold in_flight; cbn [take drop concat app]; by rewrite ?app_nil_r.
Qed.

Definition refusal_progress (st : hs_state) : nat := (refuser_rank (hs_A st) + refuser_rank (hs_B st))%nat.

Lemma declined_step st st' :
  declined st -> hs_step A B nonceA nonceB st st' -> declined st' /\ refusal_progress st' = S (refusal_progress st).
Proof.
  intros Hd [pc inbox out store E|pc inbox out store E]; unfold refusal_progress.
  - pose proof (declined_initiator st Hd) as H. rewrite E in H. destruct H as [Hr H]. split; [done|]. cbn [hs_A hs_B]. lia.
  - pose proof (declined_responder st Hd) as H. rewrite E in H. destruct H as [Hr H]. split; [done|]. cbn [hs_A hs_B]. lia.
Qed.

Lemma declined_run n st st' :
  nsteps (hs_step A B nonceA nonceB) n st st' -> declined st -> declined st' /\ refusal_progress st' = (n + refusal_progress st)%nat.
Proof.
  induction 1 as [st|n st st1 st2 Hs _ IH]; intros Hd; [done|]. destruct (declined_step _ _ Hd Hs) as [Hd' Hp].
  destruct (IH Hd') as [? ->]. split; [done|lia].
Qed.

End refusal.

(** ** Witness *)

