(* ===== verification/Pull.v ===== *)
(** [cmd/crompressor/pull.go]: a whole [pull] - a node started on a disk, its handshake with the peer that was named,
    and the synchronisation. *)

From stdpp Require Import relations.
From S2P Require Import Prelude Binary Sha256 Externals Crypto Format FormatIO Delta Chunker Codebook.
From S2P Require Import Fractal Merkle Entropy Search Unpack Pack ChunkCodec BlockCodec RoundTrip PackFile Archive.
From S2P Require Import Sync Bitswap Transfer Protocol SyncRun Handshake AutoBrain Cli CliRun Identity Discovery.
#[local] Open Scope Z_scope.
Import codebook Format.

Record pull_flags := {
  pl_peerAddr : bytes;
  pl_bootstrapAddrs : list bytes;
  pl_file : bytes;
  pl_codebookPath : bytes;
  pl_dataDir : bytes;
  pl_encKey : bytes;
}.

(** The peer behind an address: what parsing it and connecting to it give, the result of the [i]th handshake, and what it
    answers to the bytes sent to it. *)
Record pull_target := {
  pt_info : res bytes;
  pt_connect : res unit;
  pt_auth : nat -> res unit;
  pt_answers : bytes -> bytes;
}.

Section pull.
Context {K : Type} {Z0 : Zstd} {W0 : ZstdWire} {C0 : Cipher} {hash64 : XXHash}.
Variables (MarshalPrivateKey : K -> res bytes) (UnmarshalPrivateKey : bytes -> res K) (peer_ID : K -> bytes).

(** [RunE]; [dht] is what starting the DHT gives, and [rounds] the peers it connects. *)
Definition pull_RunE (fresh : res K) (host : bool) (target : pull_target) (dht : res unit) (rounds : CromNode -> list (list pull_peer))
    (salt : bytes) (nonce : Z -> bytes) (fl : pull_flags) (d : disk) : disk * res unit :=
  if (zlen (pl_file fl) =? 0) || (zlen (pl_codebookPath fl) =? 0) then (d, Err "flags --file e --codebook são obrigatórias") else
  if (zlen (pl_peerAddr fl) =? 0) && (zlen (pl_bootstrapAddrs fl) =? 0) then (d, Err "informe --peer ou --bootstrap") else
  match NewCromNode MarshalPrivateKey UnmarshalPrivateKey peer_ID fresh host (pl_codebookPath fl) (pl_dataDir fl) (pl_encKey fl) d with
  | (d, Ok node) =>
      if negb (zlen (pl_peerAddr fl) =? 0) then
        match (_ ← wrap_err "endereço do peer inválido" (pt_info target);
               _ ← wrap_err "falha ao conectar" (pt_connect target);
               wrap_err "falha na autenticação" (authenticate (pt_auth target))) with
        | Ok _ => RequestSync (F0 := on_disk d) node (pt_answers target) (pl_file fl) salt nonce
        | Err e => (d, Err e)
        | Panic p => (d, Panic p)
        end
      else
        match dht with
        | Ok _ => pullFromAnyPeer (rounds node) d
        | Err e => (d, Err e)
        | Panic p => (d, Panic p)
        end
  | (d, Err e) => (d, Err e)
  | (d, Panic p) => (d, Panic p)
  end.

(** ** The client reads one brain of its disk *)

Lemma GenerateManifest_files (F1 F2 : Files) file path key :
  Open (H := F1) path = Open (H := F2) path -> GenerateManifest (F0 := F1) file path key = GenerateManifest (F0 := F2) file path key.
Proof. intros E. unfold GenerateManifest. by rewrite E. Qed.

Lemma RequestSync_files (F1 F2 : Files) n answers answers' filename salt nonce :
  Open (H := F1) (n_CodebookPath n) = Open (H := F2) (n_CodebookPath n) -> (forall sent, answers sent = answers' sent) ->
  RequestSync (F0 := F1) n answers filename salt nonce = RequestSync (F0 := F2) n answers' filename salt nonce.
Proof.
  intros E Hq. assert (Hm : forall dest m, missingIndices (F0 := F1) n dest m = missingIndices (F0 := F2) n dest m).
  { intros dest m. unfold missingIndices. destruct (n_disk n !! dest); [|done]. by rewrite (GenerateManifest_files F1 F2). }
  assert (Hr : forall old m indices stream key, ReceiveChunks (F0 := F1) old m indices stream (n_CodebookPath n) key salt nonce =
    ReceiveChunks (F0 := F2) old m indices stream (n_CodebookPath n) key salt nonce) by (intros; unfold ReceiveChunks; by rewrite E).
  enough (request (F0 := F1) n answers filename salt nonce = request (F0 := F2) n answers' filename salt nonce) as Heq
    by (unfold RequestSync; by rewrite Heq).
  unfold request. rewrite Hq. destruct (wrap_err "sync: read response" _) as [[[msgType payload] r]| |]; [|done..]. cbn [mbind res_bind].
  destruct (msgType =? MsgError); [done|]. destruct (negb _); [done|]. destruct (wrap_err "sync: decompress remote manifest" _) as [bin| |]; [|done..].
  cbn [mbind res_bind]. destruct (wrap_err "sync: parse remote manifest" _) as [m| |]; [|done..]. cbn [mbind res_bind].
  destruct (_ && _); [done|]. rewrite Hm. destruct (missingIndices _ _ _) as [[[|i l]|]| |]; [done| |done..]. cbn [mbind res_bind]. by rewrite Hr, !Hq.
Qed.

(** So does the server. *)
Lemma handleStream_files (F1 F2 : Files) n remote sent :
  Open (H := F1) (n_CodebookPath n) = Open (H := F2) (n_CodebookPath n) ->
  handleStream (F0 := F1) n remote sent = handleStream (F0 := F2) n remote sent.
Proof.
  intros E. assert (Hs : forall payload, handleSyncReq (F0 := F1) n payload = handleSyncReq (F0 := F2) n payload).
  { intros payload. unfold handleSyncReq. destruct (n_disk n !! _); [|done]. by rewrite (GenerateManifest_files F1 F2). }
  assert (Hc : forall file indices, StreamChunks (F0 := F1) file (n_CodebookPath n) (n_EncKey n) indices =
    StreamChunks (F0 := F2) file (n_CodebookPath n) (n_EncKey n) indices) by (intros; unfold StreamChunks; by rewrite E).
  assert (Hd : forall payload, handleDiffReq (F0 := F1) n payload = handleDiffReq (F0 := F2) n payload).
  { intros payload. unfold handleDiffReq. destruct (_ <? 6); [done|]. destruct (get_le 2 payload 0) as [nameLen| |]; [|done..].
    cbn [mbind res_bind]. destruct (_ <? _); [done|]. destruct (slice _ _ _) as [filename| |]; [|done..]. cbn [mbind res_bind].
    destruct (slice _ _ _) as [cell| |]; [|done..]. cbn [mbind res_bind]. destruct (_ <? _); [done|].
    destruct (read_indices _ _ _ _) as [indices| |]; [|done..]. cbn [mbind res_bind]. by destruct (n_disk n !! _). }
  unfold handleStream. destruct (IsAuthenticated n remote); [|done]. generalize (length sent). intros fuel. revert sent.
  induction fuel as [|fuel IH]; intros [|msgType r]; [done..|]. cbn [serve]. destruct (ReadFull "" 4 r) as [[lenBuf r']| |]; [|done..].
  destruct (_ >? _); [done|]. destruct (ReadFull "" _ r') as [[payload r'']| |]; [|done..]. by rewrite Hs, Hd, IH.
Qed.

Context {F0 : Files} {ZL : ZstdLaws Z0} {WL : ZstdWireLaws W0} {CL : CipherLaws C0} {HW : XXHashWidth hash64}.

(** [C7] A pull brings the file. A node is started on a disk that has the brain; the peer named by the address holds the same
    brain and, under the requested name, an archive of [input]. Then, whatever the interleaving of the
    handshake in which the initiator returns, [pull --peer] succeeds: afterwards the data directory has, under the
    client's passphrase, an archive that unpacks to [input], and of the other files only the
    node's key and the temporary one may differ - provided that some chunk is not there yet, that residuals do
    not collide under xxhash, and that the request fits the limits on messages. *)
Theorem pull_fetches A r input file chunks lchunks fresh target dht rounds salt nonce fl nonceA nonceB n st d d0 node :
  let dest := dest_path node (Base (pl_file fl)) in
  fit_brain (Some r) -> pl_peerAddr fl <> [] -> pl_file fl <> [] -> pl_codebookPath fl <> [] ->
  (* the two nodes *)
  Open (H := on_disk d) (pl_codebookPath fl) = Ok r ->
  NewCromNode MarshalPrivateKey UnmarshalPrivateKey peer_ID fresh true (pl_codebookPath fl) (pl_dataDir fl) (pl_encKey fl) d = (d0, Ok node) ->
  pl_codebookPath fl <> Join (pl_dataDir fl) (str "peer.key") ->
  brain_at (n_CodebookPath A) (Some r) -> n_CodebookHash A = BuildHash (header r) ->
  (* the handshake *)
  zlen nonceA = authNonceSize -> zlen nonceB = authNonceSize ->
  nsteps (hs_step node A nonceA nonceB) n (hs_init node A) st -> is_done (hs_A st) = true ->
  pt_info target = Ok (n_ID A) -> pt_connect target = Ok tt -> pt_auth target 0%nat = (AuthenticatePeer (Ok tt) (hs_A st)).1 ->
  (forall sent, pt_answers target sent = answers_of (with_peers A (hs_authB st)) (n_ID node) sent) ->
  (* the files *)
  n_disk A !! served_path A (Base (pl_file fl)) = Some file -> archived r (n_EncKey A) input file chunks ->
  local_version r (pl_encKey fl) (d0 !! dest) lchunks ->
  (exists p, p ∈ chunks /\ forall q, q ∈ lchunks -> key_of_chunk q <> key_of_chunk p) ->
  hash_distinguishes chunks lchunks ->
  zlen (Base (pl_file fl)) + 6 < 2 ^ 16 -> zlen chunks <= 2 ^ 22 -> zlen salt = 16 -> (forall i, zlen (nonce i) = gcmNonceSize) ->
  exists file',
    pull_RunE fresh true target dht rounds salt nonce fl d = (<[dest := file']> (delete (dest ++ str ".tmp") d0), Ok tt) /\
    forall intn uopts, u_EncryptionKey uopts = pl_encKey fl -> u_Fuzziness uopts = f64_of_int 0 ->
      Unpack (F0 := on_disk d) intn file' (pl_codebookPath fl) uopts = Ok input.
Proof.
  intros dest Hfit Hp Hf Hc Ho Hnode Hkey [_ [HA HoA]] HhA HnA HnB Hrun Hdone Einfo Econn Eauth Eans Hfile Ha Hlocal Hnew Hdist Hname Hn Hsalt Hnonce.
  destruct (NewCromNode_ok _ _ _ _ _ _ _ _ _ _ r Hkey Ho Hnode) as (Ed0 & Ho0 & priv & _ & Enode).
  destruct (initiator_accepted node A nonceA nonceB n st HnA HnB ltac:(by rewrite Enode, HhA) Hrun Hdone) as [Ead Hin].
  set (path := pl_codebookPath fl) in *. 
  assert (Epath : n_CodebookPath node = path) by by rewrite Enode. assert (Ekey : n_EncKey node = pl_encKey fl) by by rewrite Enode.
  assert (Ed : n_disk node = d0) by by rewrite Enode.
  (* both ends on one disk that shows each its own brain *)
  set (F' := (fun p => if decide (p = path) then d0 !! p else read_file p) : Files).
  assert (HB' : Open (H := F') path = Ok r) by (rewrite <-Ho0; apply Open_files; unfold read_file, F'; by rewrite decide_True).
  assert (HA' : Open (H := F') (n_CodebookPath A) = Ok r).
  { destruct (decide (n_CodebookPath A = path)) as [->|Hne]; [done|]. rewrite <-HoA. apply Open_files. unfold read_file at 1, F'. by rewrite decide_False. }
  destruct (RequestSync_archive (F0 := F') (hash64 := hash64) (with_peers A (hs_authB st)) node r input file chunks lchunks (pl_file fl) salt nonce)
    as (file' & Hsync & Hsynced); try done.
  - rewrite Epath. by split.
  - by apply bool_decide_eq_true_2.
  - rewrite Ekey, Ed. exact Hlocal.
  - exists file'. split.
    + unfold pull_RunE. fold path. rewrite !(not_empty _ Hf), (not_empty _ Hc), (not_empty _ Hp). cbn [orb andb negb].
      rewrite Hnode, Einfo, Econn. unfold authenticate, authenticate_loop. rewrite Eauth, Ead. cbn [hs_result wrap_err mbind res_bind].
      rewrite Ed in Hsync. fold dest in Hsync. rewrite <-Hsync. apply RequestSync_files; [by rewrite Epath, HB'|].
      intros sent. rewrite Eans. unfold answers_of. rewrite (handleStream_files F' F0); [done|]. cbn [with_peers n_CodebookPath]. by rewrite HA'.
    + intros intn uopts Hk Hz. rewrite <-(synced_Unpack (F0 := F') _ _ _ _ _ path intn uopts Hsynced HB' Hc); [|by rewrite Ekey|done]. apply Unpack_files.
      unfold read_file, on_disk, F'. by rewrite decide_True.
Qed.
End pull.

(** ** Witness: the client has an old version under its own passphrase *)

Definition sample_pull : pull_flags := {|
  pl_peerAddr := str "a"; pl_bootstrapAddrs := []; pl_file := str "dir/x"; pl_codebookPath := str "brain"; pl_dataDir := str "/b"; pl_encKey := str "key" |}.

Definition client_disk : disk := <[str "/b/x.crom" := packed_sample sample_input]> {[str "brain" := sample_brain]}.

Definition started_disk : disk := <[str "/b/peer.key" := str "B"]> client_disk.

Definition started_client : CromNode := {|
  n_ID := str "B"; n_CodebookHash := BuildHash (header sample_reader); n_DataDir := str "/b"; n_EncKey := str "key";
  n_CodebookPath := str "brain"; n_authenticated := ∅; n_disk := started_disk |}.

Definition started_server : CromNode := {|
  n_ID := str "A"; n_CodebookHash := BuildHash (header sample_reader); n_DataDir := str "/a"; n_EncKey := [];
  n_CodebookPath := str "brain"; n_authenticated := ∅; n_disk := {[str "/a/x.crom" := packed_sample new_input]} |}.

Definition sample_handshake : option hs_state :=
  run_schedule started_client started_server (make_bytes 32) (replicate 32 7)
    [false; true; true; true; false; false; false; true; false; true] (hs_init started_client started_server).

Lemma sample_handshake_done : match sample_handshake with Some st => is_none (hs_A st) | None => false end = true.
Proof. vm_compute. reflexivity. Qed.

Lemma client_starts :
  NewCromNode (K := bytes) Ok Ok id (Ok (str "B")) true (str "brain") (str "/b") (str "key") client_disk = (started_disk, Ok started_client).
Proof.
  unfold NewCromNode, loadOrGenerateKey.
  assert (Open (H := fun path => client_disk !! path) (str "brain") = Ok sample_reader) as -> by (vm_compute; reflexivity).
  assert (client_disk !! Join (str "/b") (str "peer.key") = None) as -> by (vm_compute; reflexivity).
  reflexivity.
Qed.

Definition sample_target (st : hs_state) : pull_target := {|
  pt_info := Ok (str "A"); pt_connect := Ok tt; pt_auth := fun _ => (AuthenticatePeer (Ok tt) (hs_A st)).1;
  pt_answers := answers_of (F0 := brain_disk) (with_peers started_server (hs_authB st)) (str "B") |}.

Lemma pull_fetches_witness :
  exists st d' file', sample_handshake = Some st /\
    pull_RunE (K := bytes) Ok Ok id (Ok (str "B")) true (sample_target st) (Err "") (fun _ => []) (make_bytes 16) (fun _ => make_bytes 12)
      sample_pull client_disk = (d', Ok tt) /\ d' !! str "/b/x.crom" = Some file' /\
    Unpack (F0 := on_disk client_disk) (fun _ => 0) file' (str "brain") sample_unpack_options = Ok new_input.
Proof.
  assert (Hok : bytes_ok new_input) by by apply bytes_ok_dec.
  destruct (packed_sample_archived new_input [] Hok) as [chunks Ha]; [vm_compute; split; congruence|].
  destruct (packed_sample_archived sample_input (str "key") sample_input_ok) as [lchunks Hl]; [vm_compute; split; congruence|].
  pose proof (chunk_residuals_ok (F0 := brain_disk) _ _ _ _ _ (str "brain") Ha ltac:(vm_compute; reflexivity)) as Ec.
  pose proof (chunk_residuals_ok (F0 := brain_disk) _ _ _ _ _ (str "brain") Hl ltac:(vm_compute; reflexivity)) as El.
  eval_lhs Ec. eval_lhs El. injection Ec as Ec. injection El as El.
  pose proof sample_handshake_done as Hd. destruct sample_handshake as [st|] eqn:Est; [|discriminate Hd].
  apply is_none_ok in Hd. exists st.
  destruct (pull_fetches (F0 := brain_disk) Ok Ok id started_server sample_reader new_input (packed_sample new_input) chunks lchunks
    (Ok (str "B")) (sample_target st) (Err "") (fun _ => []) (make_bytes 16) (fun _ => make_bytes 12) sample_pull
    (make_bytes 32) (replicate 32 7) 10 st client_disk started_disk started_client) as (file' & Hrun & Hun).
  - exact (conj good_sample_reader eq_refl).
  - discriminate.
  - discriminate.
  - discriminate.
  - vm_compute. reflexivity.
  - exact client_starts.
  - discriminate.
  - apply sample_brain_at.
  - reflexivity.
  - reflexivity.
  - reflexivity.
  - exact (run_schedule_steps _ _ _ _ _ _ _ Est).
  - rewrite Hd. reflexivity.
  - reflexivity.
  - reflexivity.
  - reflexivity.
  - reflexivity.
  - vm_compute. reflexivity.
  - exact Ha.
  - assert (Hx : started_disk !! dest_path started_client (Base (pl_file sample_pull)) = Some (packed_sample sample_input)) by (vm_compute; reflexivity).
    rewrite Hx. exists sample_input. exact Hl.
  - apply new_dec_ok. rewrite <-Ec, <-El. vm_compute. reflexivity.
  - apply distinguishes_dec_ok. rewrite <-Ec, <-El. vm_compute. reflexivity.
  - vm_compute. reflexivity.
  - assert (Hn : zlen (map id_residual chunks) <= 2 ^ 22) by (rewrite <-Ec; vm_compute; congruence).
    unfold zlen in *. by rewrite length_map in Hn.
  - reflexivity.
  - reflexivity.
  - eexists. exists file'. split; [reflexivity|]. split; [exact Hrun|]. split; [vm_compute; reflexivity|]. apply Hun; reflexivity.
Defined.
