(* ===== verification/Watcher.v ===== *)
(** [internal/vfs/watcher.go]: the goroutine that takes a mount down when a signal arrives, when it is told to stop, or when
    the file of the brain is gone. A step relation, in the form of a function from events to states: what the world does, and
    what the watcher does, in any order. *)

From S2P Require Import Prelude.

(** What [os.Stat] says of the brain's file; only absence matters. *)
Inductive brain_file := Present | Inaccessible | Absent.

Inductive cause := BySignal | BrainRemoved | ByStop.

(** Where the goroutine is: before [select], waiting in it, before [os.Stat], before [Unmount], after the loop. *)
Inductive watcher_pc := Selecting | Parked | Checking | Unmounting (why : cause) | Returned (why : cause).

#[export] Instance brain_file_eq_dec : EqDecision brain_file. Proof. solve_decision. Defined.
#[export] Instance cause_eq_dec : EqDecision cause. Proof. solve_decision. Defined.
#[export] Instance watcher_pc_eq_dec : EqDecision watcher_pc. Proof. solve_decision. Defined.

(** [w_signal] and [w_tick]: whether the channel of signals and that of the ticker, of one place each, hold something. *)
Record SovereigntyWatcher := {
  w_pc : watcher_pc;
  w_signal : bool;
  w_tick : bool;
  w_brain : brain_file;
  w_mounted : bool;
}.

(** What happens around the watcher, then what it does itself. *)
Inductive event :=
  | Signal
  | Tick
  | StopCalled
  | BrainBecomes (f : brain_file)
  | SelectSignal
  | SelectTick
  | Park
  | StatBrain
  | Unmount (ok : bool).

#[export] Instance event_eq_dec : EqDecision event. Proof. solve_decision. Defined.

Definition goes (w : SovereigntyWatcher) (pc : watcher_pc) : SovereigntyWatcher :=
  {| w_pc := pc; w_signal := w_signal w; w_tick := w_tick w; w_brain := w_brain w; w_mounted := w_mounted w |}.
Definition hold_signal (w : SovereigntyWatcher) (held : bool) : SovereigntyWatcher :=
  {| w_pc := w_pc w; w_signal := held; w_tick := w_tick w; w_brain := w_brain w; w_mounted := w_mounted w |}.
Definition hold_tick (w : SovereigntyWatcher) (held : bool) : SovereigntyWatcher :=
  {| w_pc := w_pc w; w_signal := w_signal w; w_tick := held; w_brain := w_brain w; w_mounted := w_mounted w |}.

Section watcher.
Variable codebookPath : bytes.

(** [NewSovereigntyWatcher] and [Start], on a mount that is up. *)
Definition Start (brain : brain_file) : SovereigntyWatcher :=
  {| w_pc := Selecting; w_signal := false; w_tick := false; w_brain := brain; w_mounted := true |}.

(** The case of the ticker: without a path there is nothing to look at. *)
Definition tick_case : watcher_pc := if zlen codebookPath =? 0 then Selecting else Checking.

(** A send that finds the watcher waiting wakes it; otherwise it goes to the channel's one place, if there is one. [Stop]'s
    channel has none, and its send gives up. After the loop nobody listens. *)
Definition from_outside (e : event) (w : SovereigntyWatcher) : option SovereigntyWatcher :=
  match e, w_pc w with
  | BrainBecomes f, pc =>
      Some {| w_pc := pc; w_signal := w_signal w; w_tick := w_tick w; w_brain := f; w_mounted := w_mounted w |}
  | (Signal | Tick | StopCalled), Returned _ => Some w
  | Signal, Parked => Some (goes w (Unmounting BySignal))
  | Tick, Parked => Some (goes w tick_case)
  | StopCalled, Parked => Some (goes w (Unmounting ByStop))
  | Signal, _ => Some (hold_signal w true)
  | Tick, _ => Some (hold_tick w true)
  | StopCalled, _ => Some w
  | _, _ => None
  end.

(** A step of the goroutine; among cases of [select] that are ready any is taken. *)
Definition of_watcher (e : event) (w : SovereigntyWatcher) : option SovereigntyWatcher :=
  match e, w_pc w with
  | SelectSignal, Selecting => if w_signal w then Some (goes (hold_signal w false) (Unmounting BySignal)) else None
  | SelectTick, Selecting => if w_tick w then Some (goes (hold_tick w false) tick_case) else None
  | Park, Selecting => if w_signal w || w_tick w then None else Some (goes w Parked)
  | StatBrain, Checking => Some (goes w (if decide (w_brain w = Absent) then Unmounting BrainRemoved else Selecting))
  | Unmount ok, Unmounting why =>
      Some {| w_pc := Returned why; w_signal := w_signal w; w_tick := w_tick w; w_brain := w_brain w; w_mounted := w_mounted w && negb ok |}
  | _, _ => None
  end.

Definition is_own (e : event) : bool :=
  match e with SelectSignal | SelectTick | Park | StatBrain | Unmount _ => true | _ => false end.

(** [None] when the event cannot happen in this state. *)
Definition watch (e : event) (w : SovereigntyWatcher) : option SovereigntyWatcher :=
  if is_own e then of_watcher e w else from_outside e w.

Fixpoint watch_run (es : list event) (w : SovereigntyWatcher) : option SovereigntyWatcher :=
  match es with
  | [] => Some w
  | e :: es => w ← watch e w; watch_run es w
  end.

(** The watcher has nothing to do. *)
Definition quiescent (w : SovereigntyWatcher) : Prop := forall e, is_own e = true -> watch e w = None.

(** Nothing happens to the file of the brain. *)
Definition brain_stays (es : list event) : Prop := forall f, BrainBecomes f ∉ es.

Definition own_steps (es : list event) : nat := length (filter (fun e => is_own e = true) es).

(** ** What keeps it going *)

Lemma watch_run_app es1 es2 w : watch_run (es1 ++ es2) w = (watch_run es1 w ≫= watch_run es2).
Proof. revert w; induction es1 as [|e es1 IH]; intros w; cbn; [done|]. by destruct (watch e w); cbn. Qed.

Lemma quiescent_pc w : quiescent w -> w_pc w = Parked \/ exists why, w_pc w = Returned why.
Proof.
  intros Hq. destruct (w_pc w) eqn:Epc; [|by left|..].
  - pose proof (Hq SelectSignal eq_refl) as H1. pose proof (Hq SelectTick eq_refl) as H2. pose proof (Hq Park eq_refl) as H3.
    unfold watch, of_watcher in *. cbn in *. rewrite Epc in *. by destruct (w_signal w), (w_tick w).
  - pose proof (Hq StatBrain eq_refl) as H. unfold watch, of_watcher in H. cbn in H. by rewrite Epc in H.
  - pose proof (Hq (Unmount true) eq_refl) as H. unfold watch, of_watcher in H. cbn in H. by rewrite Epc in H.
  - right. by eexists.
Qed.

(** The watcher's own steps before it returns, if the brain is gone. *)
Definition steps_left (pc : watcher_pc) : nat :=
  match pc with Selecting => 3 | Parked | Checking => 2 | Unmounting _ => 1 | Returned _ => 0 end.

(** Something is under way that ends the loop, if the brain is gone. *)
Definition under_way (w : SovereigntyWatcher) : Prop :=
  match w_pc w with Selecting => w_signal w || w_tick w = true | Parked => False | _ => True end.

(** Case analysis over every event and place. *)
Ltac watch_cases e w :=
  destruct w as [pc [] [] ? ?]; destruct e, pc; unfold watch, from_outside, of_watcher, goes, hold_signal, hold_tick, under_way in *;
  cbn in *; simplify_eq; cbn in *; simplify_eq.

Lemma watch_gone e w w' :
  codebookPath <> [] -> w_brain w = Absent -> (forall f, e <> BrainBecomes f) -> watch e w = Some w' ->
  w_brain w' = Absent /\ (steps_left (w_pc w') + (if is_own e then 1 else 0) <= steps_left (w_pc w))%nat /\
  (under_way w \/ e = Tick -> under_way w').
Proof.
  intros Hp Hb He Hw. assert (Ht : tick_case = Checking) by (unfold tick_case; by destruct codebookPath).
  watch_cases e w; rewrite ?Ht in *; cbn; try (by destruct (He f)); try destruct (decide _); simplify_eq; cbn;
    split_and!; try done; try lia; try (by intros [|]).
Qed.

Lemma watch_run_gone es w w' :
  codebookPath <> [] -> w_brain w = Absent -> brain_stays es -> watch_run es w = Some w' ->
  (steps_left (w_pc w') + own_steps es <= steps_left (w_pc w))%nat /\ (under_way w -> under_way w').
Proof.
  intros Hp. revert w; induction es as [|e es IH]; intros w Hb Hs; cbn [watch_run].
  - intros [= <-]. split; [unfold own_steps; cbn; lia|done].
  - destruct (watch e w) as [w1|] eqn:Ew; [|done]. cbn [mbind option_bind]. intros Hr.
    destruct (watch_gone e w w1 Hp Hb) as (Hb1 & Hl & Hu); [by intros f ->; destruct (Hs f); left|done|].
    destruct (IH w1 Hb1 ltac:(intros f Hf; apply (Hs f); by right) Hr) as [Hl' Hu'].
    split; [|auto]. revert Hl Hl'. unfold own_steps. rewrite filter_cons. destruct (is_own e) eqn:Eo; (destruct (decide _); [|]); try done; cbn; lia.
Qed.

(** ** What brought it down *)

(** The cause of a state, among the events that led to it. *)
Definition caused (es : list event) (brain : brain_file) (why : cause) : Prop :=
  match why with
  | BySignal => Signal ∈ es
  | ByStop => StopCalled ∈ es
  | BrainRemoved => codebookPath <> [] /\ (brain = Absent \/ BrainBecomes Absent ∈ es)
  end.

(** The history of a run: what it holds in its places and where it is going has been put there. *)
Record history (es : list event) (brain : brain_file) (w : SovereigntyWatcher) : Prop := {
  hi_signal : w_signal w = true -> Signal ∈ es;
  hi_brain : w_brain w = Absent -> brain = Absent \/ BrainBecomes Absent ∈ es;
  hi_checking : w_pc w = Checking -> codebookPath <> [];
  hi_cause : forall why, w_pc w = Unmounting why \/ w_pc w = Returned why -> caused es brain why;
  hi_mounted : w_mounted w = false -> exists why, w_pc w = Returned why;
}.

Lemma caused_snoc es e brain why : caused es brain why -> caused (es ++ [e]) brain why.
Proof. destruct why; unfold caused; rewrite ?elem_of_app; tauto. Qed.

Lemma tick_case_checking : tick_case = Checking -> codebookPath <> [].
Proof. unfold tick_case. by destruct codebookPath. Qed.

Lemma history_snoc es e brain w : history es brain w -> history (es ++ [e]) brain w.
Proof.
  intros [Hs Hb Hc Hca Hm]. split; [|..|done].
  - intros H. apply elem_of_app. left. by apply Hs.
  - intros H. rewrite elem_of_app. destruct (Hb H); auto.
  - done.
  - intros why H. by apply caused_snoc, Hca.
Qed.

Lemma history_goes es brain w pc :
  history es brain w -> (forall why, w_pc w <> Returned why) -> (pc = Checking -> codebookPath <> []) ->
  (forall why, pc = Unmounting why \/ pc = Returned why -> caused es brain why) -> history es brain (goes w pc).
Proof. intros [Hs Hb Hc Hca Hm] Hr Hpc Hwhy. split; try done. intros H. destruct (Hm H) as [why E]. by destruct (Hr why). Qed.

Lemma history_hold_signal es brain w held : history es brain w -> (held = true -> Signal ∈ es) -> history es brain (hold_signal w held).
Proof. intros [Hs Hb Hc Hca Hm] Hh. by split. Qed.

Lemma history_hold_tick es brain w held : history es brain w -> history es brain (hold_tick w held).
Proof. intros [Hs Hb Hc Hca Hm]. by split. Qed.

#[local] Hint Resolve history_snoc history_hold_signal history_hold_tick tick_case_checking : core.

(** The other goroutines: what they put into the places, and what wakes the watcher. *)
Lemma history_outside es brain e w w' : history es brain w -> from_outside e w = Some w' -> history (es ++ [e]) brain w'.
Proof.
  intros Hh Hw. assert (He : e ∈ es ++ [e]) by (apply elem_of_app; right; by left).
  assert (Htick : forall why, tick_case = Unmounting why \/ tick_case = Returned why -> caused (es ++ [e]) brain why)
    by (unfold tick_case; intros why; destruct (_ =? _); by intros [|]).
  destruct e; cbn [from_outside] in Hw; [| | | |by destruct (w_pc w)..].
  4: { injection Hw as <-. destruct (history_snoc es (BrainBecomes f) brain w Hh) as [Hs Hb Hc Hca Hm]. split; try done.
       cbn [w_brain]. intros ->. by right. }
  all: destruct (w_pc w) eqn:Epc; injection Hw as <-; auto.
  all: apply history_goes; auto; try done; try (by rewrite Epc). all: intros why [[= <-]|]; [exact He|done].
Qed.

(** The watcher: it acts on what it found. *)
Lemma history_own es brain e w w' : history es brain w -> of_watcher e w = Some w' -> history (es ++ [e]) brain w'.
Proof.
  intros Hh Hw. pose proof (history_snoc es e brain w Hh) as Hsn. destruct Hsn as [Hs Hb Hc Hca Hm].
  destruct e; cbn [of_watcher] in Hw; destruct (w_pc w) eqn:Epc; try done.
  - destruct (w_signal w) eqn:Es; [|done]. injection Hw as <-. apply history_goes; [auto|by cbn; rewrite Epc|done|].
    intros why [[= <-]|]; [by apply Hs|done].
  - destruct (w_tick w); [|done]. injection Hw as <-. apply history_goes; [auto|by cbn; rewrite Epc|auto|].
    unfold tick_case. intros why. destruct (_ =? _); by intros [|].
  - destruct (_ || _); [done|]. injection Hw as <-. apply history_goes; [auto|by rewrite Epc|done|by intros why [|]].
  - injection Hw as <-. apply history_goes; [auto|by rewrite Epc|by case_decide|].
    intros why Hwhy. case_decide; [|by destruct Hwhy]. destruct Hwhy as [[= <-]|]; [|done]. split; auto.
  - injection Hw as <-. split; cbn; try done; [|by eauto]. intros why' [|[= <-]]; [done|]. by apply Hca; left.
Qed.

Lemma history_watch es brain e w w' : history es brain w -> watch e w = Some w' -> history (es ++ [e]) brain w'.
Proof. unfold watch. destruct (is_own e); [apply history_own|apply history_outside]. Qed.

Lemma history_run es brain w : watch_run es (Start brain) = Some w -> history es brain w.
Proof.
  revert w; induction es as [|e es IH] using rev_ind; intros w.
  - intros [= <-]. split; cbn; naive_solver.
  - rewrite watch_run_app. destruct (watch_run es (Start brain)) as [w1|] eqn:E; [|done]. cbn.
    destruct (watch e w1) as [w2|] eqn:Ew; [|done]. intros [= <-]. eapply history_watch; [by apply IH|done].
Qed.

(** [C17] When a mount is taken down. Whatever happens around the watcher, and in whatever order: it unmounts only because a
    signal arrived, because it was told to stop, or because it looked and the file of the brain was not there. And
    when the file is gone and stays away, the next tick of the clock is the last: the watcher makes at most three
    more steps, and once it has nothing left to do it has called [Unmount] and returned. *)
Theorem watcher_unmounts es brain w :
  watch_run es (Start brain) = Some w ->
  (forall why, w_pc w = Returned why -> caused es brain why) /\
  (w_mounted w = false -> exists why, w_pc w = Returned why) /\
  (w_brain w = Absent -> codebookPath <> [] -> forall es' w', brain_stays es' -> watch_run (Tick :: es') w = Some w' ->
     (own_steps es' <= 3)%nat /\ (quiescent w' -> exists why, w_pc w' = Returned why)).
Proof.
  intros Hr. destruct (history_run _ _ _ Hr) as [_ _ _ Hca Hm]. split_and!; [by eauto|done|].
  intros Hb Hp es' w' Hs. cbn [watch_run]. destruct (watch Tick w) as [w1|] eqn:Ew; [|done]. cbn [mbind option_bind]. intros Hr'.
  destruct (watch_gone Tick w w1 Hp Hb ltac:(done) Ew) as (Hb1 & Hl1 & Hu1).
  destruct (watch_run_gone es' w1 w' Hp Hb1 Hs Hr') as [Hl Hu]. split.
  - assert (steps_left (w_pc w1) <= 3)%nat by (destruct (w_pc w1); cbn; lia). lia.
  - intros Hq. destruct (quiescent_pc w' Hq) as [E|?]; [|done]. specialize (Hu (Hu1 (or_intror eq_refl))).
    unfold under_way in Hu. by rewrite E in Hu.
Qed.

(** A call of [Stop] that does not find the watcher waiting is lost: nothing in the state remembers it. *)
Lemma Stop_lost w : w_pc w <> Parked -> watch StopCalled w = Some w.
Proof. unfold watch. cbn. by destruct (w_pc w). Qed.

(** The unmount is tried once: after the loop nothing takes the mount down, not even the loss of the brain. *)
Lemma returned_stays es w w' why :
  w_pc w = Returned why -> watch_run es w = Some w' -> w_pc w' = Returned why /\ w_mounted w' = w_mounted w.
Proof.
  revert w; induction es as [|e es IH]; intros w Hpc; cbn [watch_run]; [by intros [= <-]|].
  destruct (watch e w) as [w1|] eqn:Ew; [|done]. cbn [mbind option_bind]. intros Hr.
  assert (w_pc w1 = Returned why /\ w_mounted w1 = w_mounted w) as [Hpc1 <-]; [|by apply IH].
  watch_cases e w; done.
Qed.

(** A brain that is there but cannot be read does not matter, whatever the field's comment says. *)
Lemma inaccessible_checked w : w_pc w = Checking -> w_brain w = Inaccessible -> watch StatBrain w = Some (goes w Selecting).
Proof. unfold watch. cbn. intros -> ->. done. Qed.
End watcher.

(** ** Witness *)

(** The brain is removed while the watcher waits; [Stop] is called too late to be heard, and the unmount succeeds. *)
Definition sample_events : list event := [Park; BrainBecomes Absent].
Definition sample_rest : list event := [StopCalled; StatBrain; Unmount true].

Lemma watcher_unmounts_witness :
  exists w w', watch_run (str "brain.cromdb") sample_events (Start Present) = Some w /\
    watch_run (str "brain.cromdb") (Tick :: sample_rest) w = Some w' /\ w_mounted w' = false /\
    exists why, w_pc w' = Returned why.
Proof.
  destruct (watch_run (str "brain.cromdb") sample_events (Start Present)) as [w|] eqn:E; [|by vm_compute in E].
  destruct (watch_run (str "brain.cromdb") (Tick :: sample_rest) w) as [w'|] eqn:E'.
  2: { vm_compute in E. injection E as <-. by vm_compute in E'. }
  exists w, w'. split; [reflexivity|]. split; [exact E'|].
  destruct (watcher_unmounts (str "brain.cromdb") sample_events Present w E) as (_ & _ & Hgone).
  vm_compute in E. injection E as <-. assert (w_mounted w' = false) as Hm by (vm_compute in E'; by injection E' as <-).
  split; [exact Hm|]. refine (proj2 (Hgone eq_refl ltac:(discriminate) sample_rest w' _ E') _).
  - intros f Hf. by repeat (apply elem_of_cons in Hf as [Hf|Hf]; [discriminate|]); apply elem_of_nil in Hf.
  - vm_compute in E'. injection E' as <-. by intros [].
Defined.
