(* ===== verification/Daemon.v ===== *)
(** [cmd/crompressor/sys_commands.go] and the key of [internal/network/identity.go]: the daemon that holds a node, its
    announcements, its [/share] and the command that asks for it; the identity of the user. *)

From S2P Require Import Prelude Binary Sha256 Externals Crypto Format FormatIO Delta Chunker Codebook.
From S2P Require Import Fractal Entropy Search Unpack Pack ChunkCodec BlockCodec RoundTrip Archive Sync Bitswap Transfer Protocol AutoBrain.
From S2P Require Import Cli Gossip Identity.
Import codebook Format.

(** ** The identity of the user ([GenerateIdentity], [LoadIdentity]) *)

Record Identity := { id_PrivKeyBytes : bytes; id_PubKeyBytes : bytes; id_PeerID : bytes }.

(** [encoding/json] on it. *)
Class IdentityJSON := { marshal_identity : Identity -> bytes; unmarshal_identity : bytes -> option Identity }.

Class IdentityJSONLaws {J : IdentityJSON} := { unmarshal_marshal : forall i, unmarshal_identity (marshal_identity i) = Some i }.

Definition keys_dir (home : bytes) : bytes := Join (Join home (str ".crompressor")) (str "keys").
Definition getIdentityPath (home : bytes) : bytes := Join (keys_dir home) (str "identity.json").
Definition getTrustPath (home : bytes) : bytes := Join (keys_dir home) (str "trust.json").

Section identity.
Context {K U : Type} {J : IdentityJSON}.
Variables (public : K -> U) (IDFromPublicKey : U -> res bytes) (MarshalPrivateKey : K -> res bytes) (MarshalPublicKey : U -> res bytes).
Variables (UnmarshalPrivateKey : bytes -> res K).

(** What is made of a new key; [fresh] is what the generator gives. *)
Definition new_identity (fresh : res K) : res Identity :=
  priv ← fresh;
  pid ← IDFromPublicKey (public priv);
  privBytes ← MarshalPrivateKey priv;
  pubBytes ← MarshalPublicKey (public priv);
  Ok {| id_PrivKeyBytes := privBytes; id_PubKeyBytes := pubBytes; id_PeerID := pid |}.

(** The file is written whether there was one or not. *)
Definition GenerateIdentity (fresh : res K) (home : bytes) (d : disk) : disk * res unit :=
  match new_identity fresh with
  | Ok ident => (<[getIdentityPath home := marshal_identity ident]> d, Ok tt)
  | Err e => (d, Err e)
  | Panic p => (d, Panic p)
  end.

Definition LoadIdentity (home : bytes) (d : disk) : res K :=
  match d !! getIdentityPath home with
  | None => Err "identidade nao encontrada, rode 'crompressor keys --gen'"
  | Some data =>
      match unmarshal_identity data with
      | None => Err "json"
      | Some ident => UnmarshalPrivateKey (id_PrivKeyBytes ident)
      end
  end.

(** [keys] *)
Definition keys_RunE (gen : bool) (fresh : res K) (home : bytes) (d : disk) : disk * res unit :=
  if gen then GenerateIdentity fresh home d else (d, Err "use --gen para gerar uma nova identidade P2P").

Hypothesis Unmarshal_Marshal : forall k raw, MarshalPrivateKey k = Ok raw -> UnmarshalPrivateKey raw = Ok k.

(** The key that was generated is the key that is loaded, and no other file changes. *)
Lemma LoadIdentity_GenerateIdentity {JL : IdentityJSONLaws} fresh home d d' :
  keys_RunE true fresh home d = (d', Ok tt) ->
  exists k, fresh = Ok k /\ LoadIdentity home d' = Ok k /\ forall p, p <> getIdentityPath home -> d' !! p = d !! p.
Proof.
  cbn. unfold GenerateIdentity, new_identity. destruct fresh as [k| |]; [|done..]. cbn.
  destruct (IDFromPublicKey (public k)) as [pid| |]; [|done..]. cbn. destruct (MarshalPrivateKey k) as [raw| |] eqn:Er; [|done..]. cbn.
  destruct (MarshalPublicKey (public k)); [|done..]. cbn. intros [= <-]. exists k. split; [done|]. split.
  - unfold LoadIdentity. rewrite lookup_insert_eq, unmarshal_marshal. cbn. by apply Unmarshal_Marshal.
  - intros p Hp. by rewrite lookup_insert_ne.
Qed.
End identity.

(** [trust]: one argument. *)
Definition trust_RunE {J : TrustJSON} (peer_Decode : bytes -> bool) (peerID home : bytes) (d : disk) : disk * res unit :=
  let path := getTrustPath home in
  match TrustPeer peer_Decode peerID (d !! path) with
  | (Some file, r) => (<[path := file]> d, r)
  | (None, r) => (d, r)
  end.

(** ** The query of a URL (Go's [net/url] and [net/http])

    The client takes the fragment off, in which escapes must be right, and refuses control characters; the server wants no space in the
    request line; the query is split at [&], a part with [;] or a bad escape is skipped. *)

Definition hex_value (c : Z) : option Z :=
  if (48 <=? c) && (c <=? 57) then Some (c - 48)
  else if (97 <=? c) && (c <=? 102) then Some (c - 87)
  else if (65 <=? c) && (c <=? 70) then Some (c - 55) else None.

Fixpoint QueryUnescape (s : bytes) : option bytes :=
  match s with
  | [] => Some []
  | 37 :: a :: b :: s =>
      match hex_value a, hex_value b, QueryUnescape s with
      | Some a, Some b, Some s => Some (16 * a + b :: s)
      | _, _, _ => None
      end
  | 37 :: _ => None
  | 43 :: s => (32 ::.) <$> QueryUnescape s
  | c :: s => (c ::.) <$> QueryUnescape s
  end.

(** Every [%] has its two digits. *)
Fixpoint escapes_ok (s : bytes) : bool :=
  match s with
  | [] => true
  | 37 :: a :: b :: s => bool_decide (is_Some (hex_value a)) && bool_decide (is_Some (hex_value b)) && escapes_ok s
  | 37 :: _ => false
  | _ :: s => escapes_ok s
  end.

(** [strings.Cut] at one byte, and the parts between all of them. *)
Fixpoint cut_at (sep : Z) (s : bytes) : bytes * option bytes :=
  match s with
  | [] => ([], None)
  | c :: s => if c =? sep then ([], Some s) else let '(a, b) := cut_at sep s in (c :: a, b)
  end.

Fixpoint split_at (sep : Z) (s cur : bytes) : list bytes :=
  match s with
  | [] => [rev cur]
  | c :: s => if c =? sep then rev cur :: split_at sep s [] else split_at sep s (c :: cur)
  end.

Definition has_byte (c : Z) (s : bytes) : bool := existsb (Z.eqb c) s.

(** [Query().Get(key)] *)
Fixpoint query_get (key : bytes) (parts : list bytes) : bytes :=
  match parts with
  | [] => []
  | part :: parts =>
      if has_byte 59 part then query_get key parts else
      let '(k, v) := cut_at 61 part in
      match QueryUnescape k, QueryUnescape (default [] v) with
      | Some k, Some v => if bytes_eqb k key then v else query_get key parts
      | _, _ => query_get key parts
      end
  end.

Inductive sent_request := NotSent | BadRequest | Request (fileParam : bytes).

Definition request_share (filePath : bytes) : sent_request :=
  let '(query, fragment) := cut_at 35 (str "file=" ++ filePath) in
  if negb (escapes_ok (default [] fragment)) then NotSent
  else if existsb (fun c => (c <? 32) || (c =? 127)) query then NotSent
  else if has_byte 32 query then BadRequest
  else Request (query_get (str "file") (split_at 38 query [])).

(** ** The daemon *)

Record daemon_flags := { df_codebookPath : bytes; df_dataDir : bytes; df_encKey : bytes }.

Section daemon.
Context {K P : Type} {PS : PubSub P} {J : GossipJSON}.
Variables (MarshalPrivateKey : K -> res bytes) (UnmarshalPrivateKey : bytes -> res K) (peer_ID : K -> bytes).

Record daemon := { dm_node : CromNode; dm_gossip : GossipNode P }.

(** Up to the handlers of HTTP. [host] and [router] are what libp2p and its gossip give; the identity of the user is only
    looked at for a message, and so is an error of the DHT. *)
Definition daemon_start (fresh : res K) (host : bool) (router : res P) (fl : daemon_flags) (d : disk) : disk * res daemon :=
  if zlen (df_codebookPath fl) =? 0 then (d, Err "--codebook é obrigatório") else
  let dataDir := if zlen (df_dataDir fl) =? 0 then str "./crom-data" else df_dataDir fl in
  match NewCromNode MarshalPrivateKey UnmarshalPrivateKey peer_ID fresh host (df_codebookPath fl) dataDir (df_encKey fl) d with
  | (d, Ok node) =>
      match setupGossipSub router {| gn_ID := n_ID node; gn_CodebookHash := n_CodebookHash node; gn_PubSub := None |} with
      | (g, Ok _) => (d, Ok {| dm_node := node; dm_gossip := g |})
      | (_, Err _) => (d, Err "network: setup gossip")
      | (_, Panic p) => (d, Panic p)
      end
  | (d, Err e) => (d, Err e)
  | (d, Panic p) => (d, Panic p)
  end.

(** Announcing a file of a size: the size goes where the number of chunks belongs, in MiB. *)
Definition announce (file : bytes) (size : Z) (g : GossipNode P) : GossipNode P * res unit :=
  AnnounceFile (Base file) 0 (u32 (Z.quot (Z.quot size 1024) 1024)) g.

(** Two seconds later: the files [Glob] finds, each with its size unless [Stat] fails. *)
Definition announce_all (files : list (bytes * option Z)) (g : GossipNode P) : GossipNode P :=
  foldl (fun g f => match f.2 with Some size => (announce f.1 size g).1 | None => g end) g files.

(** [/share]: the status of the answer. *)
Definition share_handler (stat : bytes -> option Z) (fileParam : bytes) (g : GossipNode P) : GossipNode P * res Z :=
  if zlen fileParam =? 0 then (g, Ok 400) else
  match stat fileParam with
  | None => (g, Ok 404)
  | Some size =>
      match announce fileParam size g with
      | (g, Ok _) => (g, Ok 200)
      | (g, Err _) => (g, Ok 500)
      | (g, Panic p) => (g, Panic p)
      end
  end.

(** [share] against a daemon that listens; a handler that panics closes the connection. *)
Definition share_RunE (stat : bytes -> option Z) (filePath : bytes) (g : GossipNode P) : GossipNode P * res unit :=
  match request_share filePath with
  | NotSent => (g, Err "falha ao contactar daemon")
  | BadRequest => (g, Err "daemon retornou erro")
  | Request fileParam =>
      match share_handler stat fileParam g with
      | (g, Ok status) => (g, if status =? 200 then Ok tt else Err "daemon retornou erro")
      | (g, _) => (g, Err "falha ao contactar daemon")
      end
  end.

(** Commands one after the other. *)
Definition share_all (stat : bytes -> option Z) (paths : list bytes) (g : GossipNode P) : GossipNode P * list (res unit) :=
  foldl (fun st path => let '(g, r) := share_RunE stat path st.1 in (g, st.2 ++ [r])) (g, []) paths.

(** ** Nothing is shared *)

Lemma announce_fails {PL : PubSubLaws P} g ps file size :
  gn_PubSub g = Some ps -> ps_joined ps (topicName g) -> exists e, announce file size g = (g, Err e).
Proof. intros. unfold announce, AnnounceFile. by eapply join_publish_joined. Qed.

Lemma share_RunE_fails {PL : PubSubLaws P} stat path g ps :
  gn_PubSub g = Some ps -> ps_joined ps (topicName g) ->
  exists e, share_RunE stat path g = (g, Err e) /\
    forall fileParam, request_share path = Request fileParam -> fileParam <> [] -> is_Some (stat fileParam) ->
      share_handler stat fileParam g = (g, Ok 500).
Proof.
  intros Hps Hj. assert (Hh : forall p, exists status, share_handler stat p g = (g, Ok status) /\ (status =? 200) = false /\
    (p <> [] -> is_Some (stat p) -> status = 500)).
  { intros p. unfold share_handler. destruct (Z.eqb_spec (zlen p) 0) as [E|E].
    - exists 400. split_and!; [done..|]. intros Hp. by destruct p.
    - destruct (stat p) as [size|]; [|exists 404; split_and!; [done..|by intros _ []]].
      destruct (announce_fails g ps p size Hps Hj) as [e ->]. by exists 500. }
  unfold share_RunE. destruct (request_share path) as [| |p]; [by eexists..|]. destruct (Hh p) as (status & E & E200 & E500). rewrite E, E200.
  eexists. split; [done|]. intros q [= <-] Hq Hs. by rewrite E, (E500 Hq Hs).
Qed.

(** The daemon shares nothing. Once a daemon is up, it announces none of the files of its directory, however many there
    are, and every [crompressor share], in whatever sequence, exits with an error: a file that is there makes the
    daemon answer 500. The node itself works, and the same as if it had not tried. *)
Theorem daemon_shares_nothing {PL : PubSubLaws P} fresh host router fl d d' dm :
  daemon_start fresh host router fl d = (d', Ok dm) ->
  (forall files, announce_all files (dm_gossip dm) = dm_gossip dm) /\
  (forall stat paths, exists rs, share_all stat paths (dm_gossip dm) = (dm_gossip dm, rs) /\
     length rs = length paths /\ Forall (fun r => exists e, r = Err e) rs) /\
  (forall stat path fileParam, request_share path = Request fileParam -> fileParam <> [] -> is_Some (stat fileParam) ->
     share_handler stat fileParam (dm_gossip dm) = (dm_gossip dm, Ok 500)).
Proof.
  unfold daemon_start. destruct (_ =? 0); [done|]. destruct (NewCromNode _ _ _ _ _ _ _ _ _) as [d1 [node| |]]; [|done..].
  destruct (setupGossipSub _ _) as [g [[]| |]] eqn:Eg; [|done..]. intros [= <- <-]. cbn [dm_gossip].
  destruct (setupGossipSub_joined _ _ _ Eg) as (ps & Hps & Hj). split_and!.
  - intros files. unfold announce_all. induction files as [|[f [size|]] files IH]; [done|cbn..].
    + by destruct (announce_fails g ps f size Hps Hj) as [e ->].
    + done.
  - intros stat paths. unfold share_all. induction paths as [|path paths IH] using rev_ind; [by exists []|].
    destruct IH as (rs & E & Hl & Hrs). rewrite foldl_snoc, E. cbn. destruct (share_RunE_fails stat path g ps Hps Hj) as (e & -> & _).
    eexists. split; [done|]. rewrite !length_app, Hl. split; [done|]. apply Forall_app. split; [done|]. constructor; [by exists e|done].
  - intros stat path p Hr Hp Hs. destruct (share_RunE_fails stat path g ps Hps Hj) as (_ & _ & H). by apply H.
Qed.
End daemon.

Arguments daemon P : clear implicits.

(** The daemon's node has the key of its data directory, whatever identity the user generated. *)
Lemma daemon_ignores_identity {K P U} {PS : PubSub P} {JI : IdentityJSON} (Marshal : K -> res bytes) (Unmarshal : bytes -> res K) pid
    (public : K -> U) IDFromPublicKey MarshalPublicKey fresh host (router : res P) fl key home d :
  let d' := (keys_RunE public IDFromPublicKey Marshal MarshalPublicKey true key home d).1 in
  let dataDir := if zlen (df_dataDir fl) =? 0 then str "./crom-data" else df_dataDir fl in
  getIdentityPath home <> df_codebookPath fl -> getIdentityPath home <> Join dataDir (str "peer.key") ->
  forall dm dm' s s',
    daemon_start Marshal Unmarshal pid fresh host router fl d = (s, Ok dm) ->
    daemon_start Marshal Unmarshal pid fresh host router fl d' = (s', Ok dm') ->
    n_ID (dm_node dm') = n_ID (dm_node dm).
Proof.
  intros d' dataDir Hc Hk dm dm' s s'. assert (Hd : forall p, p <> getIdentityPath home -> d' !! p = d !! p).
  { intros p Hp. unfold d', keys_RunE, GenerateIdentity. destruct (new_identity _ _ _ _ _); cbn; [by rewrite lookup_insert_ne|done..]. }
  unfold daemon_start. cbv zeta. fold dataDir. destruct (zlen (df_codebookPath fl) =? 0); [done|]. unfold NewCromNode, Open, read_file. rewrite (Hd (df_codebookPath fl)) by done.
  destruct (d !! df_codebookPath fl) as [data|]; [|done]. destruct (_ <? _); [done|].
  destruct (wrap_err "codebook: parse header" (codebook.ParseHeader data)) as [h| |]; cbn [mbind res_bind]; [|done..]. destruct (_ <? _); [done|].
  unfold loadOrGenerateKey. rewrite (Hd (Join dataDir (str "peer.key"))) by done.
  destruct (d !! Join dataDir (str "peer.key")) as [raw|].
  - destruct (wrap_err "unmarshal key" (Unmarshal raw)) as [k| |]; [|done..]. destruct host; [|done].
    destruct (setupGossipSub router _) as [g [[]| |]]; [|done..]. by intros [= _ <-] [= _ <-].
  - destruct fresh as [k| |]; [|done..]. destruct (Marshal k) as [raw| |]; [|done..]. destruct host; [|done].
    destruct (setupGossipSub router _) as [g [[]| |]]; [|done..]. by intros [= _ <-] [= _ <-].
Qed.

(** A path that means nothing to a URL arrives as it is: it is printable and has no space and none of [#%&+;]. *)
Definition plain_byte (c : Z) : bool := (33 <=? c) && (c <=? 126) && negb (has_byte c [35; 37; 38; 43; 59]).

Lemma plain_no_byte sep s : plain_byte sep = false -> forallb plain_byte s = true -> has_byte sep s = false.
Proof.
  intros Hsep Hs. induction s as [|c s IH]; [done|]. cbn in Hs. apply andb_true_iff in Hs as [Hc Hs].
  unfold has_byte in *. cbn [existsb]. rewrite IH by done. rewrite orb_false_r. apply Z.eqb_neq. congruence.
Qed.

Lemma cut_at_plain sep s : has_byte sep s = false -> cut_at sep s = (s, None).
Proof.
  unfold has_byte. induction s as [|c s IH]; cbn [existsb cut_at]; [done|]. intros [H1 H2]%orb_false_iff.
  rewrite Z.eqb_sym, H1. by rewrite IH.
Qed.

Lemma split_at_plain sep s cur : has_byte sep s = false -> split_at sep s cur = [rev cur ++ s].
Proof.
  unfold has_byte. revert cur; induction s as [|c s IH]; intros cur; cbn [existsb split_at]; [by rewrite app_nil_r|].
  intros [H1 H2]%orb_false_iff. rewrite Z.eqb_sym, H1, IH by done. cbn [rev]. by rewrite <-app_assoc.
Qed.

Lemma QueryUnescape_plain s : forallb plain_byte s = true -> QueryUnescape s = Some s.
Proof.
  induction s as [|c s IH]; [done|]. cbn [forallb]. intros [Hc Hs]%andb_true_iff. specialize (IH Hs). cbn [QueryUnescape]. rewrite IH.
  destruct c as [|p|p]; [done| |done]. do 6 (destruct p as [p|p|]; try done).
Qed.

Theorem request_share_plain path : forallb plain_byte path = true -> request_share path = Request path.
Proof.
  intros Hp. assert (Hno : forall sep, plain_byte sep = false -> has_byte sep (str "file=") = false -> has_byte sep (str "file=" ++ path) = false).
  { intros sep H1 H2. unfold has_byte in *. rewrite existsb_app, H2. by apply plain_no_byte. }
  unfold request_share. rewrite cut_at_plain by by apply Hno. cbn [from_option escapes_ok negb].
  assert (existsb (fun c => (c <? 32) || (c =? 127)) (str "file=" ++ path) = false) as ->.
  { rewrite existsb_app. apply orb_false_iff. split; [done|]. apply not_true_is_false. intros (c & Hin & Hc)%existsb_exists.
    rewrite forallb_forall in Hp. specialize (Hp c Hin). unfold plain_byte in Hp. lia. }
  rewrite (Hno 32) by done. rewrite split_at_plain by by apply Hno. cbn [rev app query_get]. rewrite (Hno 59) by done.
  change (cut_at 61 (str "file=" ++ path)) with (str "file", Some path). cbn [from_option id]. by rewrite (QueryUnescape_plain _ Hp).
Qed.

(** What a file is called decides whether it can be asked for. *)
Example share_param_space : request_share (str "a b.crom") = BadRequest. Proof. reflexivity. Qed.
Example share_param_plus : request_share (str "a+b.crom") = Request (str "a b.crom"). Proof. reflexivity. Qed.
Example share_param_amp : request_share (str "a&b.crom") = Request (str "a"). Proof. reflexivity. Qed.
Example share_param_hash : request_share (str "a#b.crom") = Request (str "a"). Proof. reflexivity. Qed.
Example share_param_semicolon : request_share (str "a;b.crom") = Request []. Proof. reflexivity. Qed.

(** ** Witness *)

Definition sample_daemon : daemon_flags := {| df_codebookPath := str "brain"; df_dataDir := []; df_encKey := [] |}.

Definition started : disk * res (daemon Topics) :=
  daemon_start Ok Ok id (Ok [1; 2]) true (Ok no_topics) sample_daemon {[str "brain" := sample_brain]}.

(** The daemon is up, and a plain file of its disk cannot be shared. *)
Lemma daemon_shares_nothing_witness :
  exists d dm, started = (d, Ok dm) /\ request_share (str "a.crom") = Request (str "a.crom") /\
    share_handler (fun _ => Some 5) (str "a.crom") (dm_gossip dm) = (dm_gossip dm, Ok 500).
Proof.
  assert (Hup : is_ok started.2 = true) by (vm_compute; reflexivity).
  destruct started as [d [dm|e|p]] eqn:E; [|discriminate Hup..]. exists d, dm. split; [reflexivity|]. split; [reflexivity|].
  refine (proj2 (proj2 (daemon_shares_nothing Ok Ok id (Ok [1; 2]) true (Ok no_topics) sample_daemon
    {[str "brain" := sample_brain]} d dm E)) _ (str "a.crom") (str "a.crom") eq_refl _ _).
  - discriminate.
  - exists 5. reflexivity.
Defined.
