(* ===== verification/SharedBrain.v ===== *)
(** [internal/autobrain/daemon.go] and the command [shared-daemon]: a socket on disk, the goroutine that accepts, and
    the answer every client gets. The world around it - files, sockets, listeners - is part of the state; what the
    clients do and when the goroutine runs is a sequence of events. *)

From S2P Require Import Prelude Binary Externals Chunker Cli.

(** ** The state *)

Record SharedBrain := {
  sb_SocketPath : bytes;
  sb_listener : option nat;
  sb_stopped : bool;
}.

(** The goroutine that accepts: before it reads [b.listener], in [Accept] on a listener, returned. *)
Inductive accept_loop := Looping | Accepting (l : nat) | Ended.

(** [ipc_bound]: the sockets on disk and who listens on them; [ipc_open]: the listeners that were not closed;
    [ipc_pending]: who waits to be accepted, and where; [ipc_sent]: what was written to whom. *)
Record ipc := {
  ipc_brain : SharedBrain;
  ipc_files : disk;
  ipc_bound : gmap bytes nat;
  ipc_open : gset nat;
  ipc_next : nat;
  ipc_pending : list (nat * nat);
  ipc_sent : list (nat * bytes);
  ipc_loops : list accept_loop;
}.

Definition NewSharedBrain (socketPath : bytes) : SharedBrain :=
  {| sb_SocketPath := if zlen socketPath =? 0 then str "/tmp/crompressor.sock" else socketPath;
     sb_listener := None; sb_stopped := false |}.

(** What is written to a connection, whoever it is. *)
Definition handleConnection : bytes := str "ACK_CROM_DAEMON_V21" ++ [10].

(** ** The file system *)

(** [os.RemoveAll]: the path and everything below it; [stuck] says what cannot be removed. *)
Definition under (path p : bytes) : bool := bytes_eqb p path || has_prefix p (path ++ str "/").

Definition keeps (stuck : bytes -> bool) (path p : bytes) : bool := negb (under path p) || stuck p.

Definition RemoveAll (stuck : bytes -> bool) (path : bytes) (st : ipc) : ipc * bool :=
  let files := filter (fun x => keeps stuck path x.1 = true) (ipc_files st) in
  let bound := filter (fun x => keeps stuck path x.1 = true) (ipc_bound st) in
  let left (p : bytes) := under path p && stuck p in
  ({| ipc_brain := ipc_brain st; ipc_files := files; ipc_bound := bound; ipc_open := ipc_open st; ipc_next := ipc_next st;
      ipc_pending := ipc_pending st; ipc_sent := ipc_sent st; ipc_loops := ipc_loops st |},
   negb (existsb left (map fst (map_to_list files)) || existsb left (map fst (map_to_list bound)))).

(** ** The operations *)

Section daemon.
Variable stuck : bytes -> bool.

(** [listens]: whether [net.Listen] succeeds. *)
Definition Start (listens : bool) (st : ipc) : ipc * res unit :=
  let path := sb_SocketPath (ipc_brain st) in
  let '(st, removed) := RemoveAll stuck path st in
  if negb removed then (st, Err "remove")
  else if negb listens then (st, Err "listen")
  else
    let l := ipc_next st in
    ({| ipc_brain := {| sb_SocketPath := path; sb_listener := Some l; sb_stopped := sb_stopped (ipc_brain st) |};
        ipc_files := ipc_files st; ipc_bound := <[path := l]> (ipc_bound st); ipc_open := {[l]} ∪ ipc_open st;
        ipc_next := S l; ipc_pending := ipc_pending st; ipc_sent := ipc_sent st; ipc_loops := ipc_loops st ++ [Looping] |}, Ok tt).

(** Closing a listener resets who waits at it. *)
Definition close_listener (l : nat) (st : ipc) : ipc :=
  {| ipc_brain := ipc_brain st; ipc_files := ipc_files st; ipc_bound := ipc_bound st; ipc_open := ipc_open st ∖ {[l]};
     ipc_next := ipc_next st; ipc_pending := filter (fun x => x.1 <> l) (ipc_pending st); ipc_sent := ipc_sent st;
     ipc_loops := ipc_loops st |}.

Definition Stop (st : ipc) : ipc * res unit :=
  let b := ipc_brain st in
  if sb_stopped b then (st, Panic CloseOfClosedChannel) else
  let st := {| ipc_brain := {| sb_SocketPath := sb_SocketPath b; sb_listener := sb_listener b; sb_stopped := true |};
               ipc_files := ipc_files st; ipc_bound := ipc_bound st; ipc_open := ipc_open st; ipc_next := ipc_next st;
               ipc_pending := ipc_pending st; ipc_sent := ipc_sent st; ipc_loops := ipc_loops st |} in
  let st := match sb_listener b with Some l => close_listener l st | None => st end in
  ((RemoveAll stuck (sb_SocketPath b) st).1, Ok tt).

(** ** The goroutine *)

Definition with_loop (i : nat) (loop : accept_loop) (st : ipc) : ipc :=
  {| ipc_brain := ipc_brain st; ipc_files := ipc_files st; ipc_bound := ipc_bound st; ipc_open := ipc_open st;
     ipc_next := ipc_next st; ipc_pending := ipc_pending st; ipc_sent := ipc_sent st; ipc_loops := <[i := loop]> (ipc_loops st) |}.

(** The first in the queue of a listener. *)
Fixpoint dequeue (l : nat) (pending : list (nat * nat)) : option (nat * list (nat * nat)) :=
  match pending with
  | [] => None
  | (l', c) :: pending =>
      if bool_decide (l' = l) then Some (c, pending)
      else '(c', rest) ← dequeue l pending; Some (c', (l', c) :: rest)
  end.

(** A connection is handled by a goroutine of its own, which shares nothing: it is part of the step. *)
Definition answer (i c : nat) (pending : list (nat * nat)) (st : ipc) : ipc :=
  {| ipc_brain := ipc_brain st; ipc_files := ipc_files st; ipc_bound := ipc_bound st; ipc_open := ipc_open st;
     ipc_next := ipc_next st; ipc_pending := pending; ipc_sent := ipc_sent st ++ [(c, handleConnection)];
     ipc_loops := <[i := Looping]> (ipc_loops st) |}.

(** A step of the [i]-th goroutine: [None] when it waits or is gone. [Accept] fails on a closed listener. *)
Definition accept_step (i : nat) (st : ipc) : option ipc :=
  match ipc_loops st !! i with
  | Some Looping =>
      match sb_listener (ipc_brain st) with
      | Some l => Some (with_loop i (Accepting l) st)
      | None => None
      end
  | Some (Accepting l) =>
      if bool_decide (l ∈ ipc_open st) then
        '(c, pending) ← dequeue l (ipc_pending st);
        Some (answer i c pending st)
      else if sb_stopped (ipc_brain st) then Some (with_loop i Ended st)
      else Some (with_loop i Looping st)
  | _ => None
  end.

(** ** The world *)

Inductive event := Connect (client : nat) | Accept (i : nat).

(** A client that finds no listener is refused. *)
Definition connect (path : bytes) (client : nat) (st : ipc) : ipc :=
  match ipc_bound st !! path with
  | Some l =>
      if bool_decide (l ∈ ipc_open st) then
        {| ipc_brain := ipc_brain st; ipc_files := ipc_files st; ipc_bound := ipc_bound st; ipc_open := ipc_open st;
           ipc_next := ipc_next st; ipc_pending := ipc_pending st ++ [(l, client)]; ipc_sent := ipc_sent st;
           ipc_loops := ipc_loops st |}
      else st
  | None => st
  end.

Definition happens (e : event) (st : ipc) : option ipc :=
  match e with
  | Connect c => Some (connect (sb_SocketPath (ipc_brain st)) c st)
  | Accept i => accept_step i st
  end.

Fixpoint happen (es : list event) (st : ipc) : option ipc :=
  match es with
  | [] => Some st
  | e :: es => st ← happens e st; happen es st
  end.

Definition fresh_world (socketPath : bytes) (files : disk) : ipc :=
  {| ipc_brain := NewSharedBrain socketPath; ipc_files := files; ipc_bound := ∅; ipc_open := ∅; ipc_next := 0;
     ipc_pending := []; ipc_sent := []; ipc_loops := [] |}.

(** [shared-daemon]: started, used until a signal arrives, stopped. *)
Definition shared_daemon_RunE (socketPath : bytes) (listens : bool) (files : disk) (es : list event) : option (ipc * res unit) :=
  match Start listens (fresh_world socketPath files) with
  | (st, Ok _) => st ← happen es st; Some (Stop st)
  | (st, r) => Some (st, r)
  end.
End daemon.

(** ** Serving *)

Definition clients_of (es : list event) : list nat := omap (fun e => match e with Connect c => Some c | Accept _ => None end) es.

Definition answered (c : nat) : nat * bytes := (c, handleConnection).

Section serving.
Variable stuck : bytes -> bool.
Variables (path : bytes) (files : disk).

(** Between [Start] and [Stop], after the clients [cs] have connected: those that were answered, then those that wait. *)
Record serving (cs : list nat) (st : ipc) : Prop := {
  sv_brain : ipc_brain st = {| sb_SocketPath := path; sb_listener := Some 0%nat; sb_stopped := false |};
  sv_files : ipc_files st = files;
  sv_bound : ipc_bound st = {[path := 0%nat]};
  sv_open : ipc_open st = {[0%nat]};
  sv_loops : ipc_loops st = [Looping] \/ ipc_loops st = [Accepting 0];
  sv_clients : exists done_ waiting, cs = done_ ++ waiting /\ ipc_sent st = map answered done_ /\ ipc_pending st = map (pair 0%nat) waiting;
}.

Lemma dequeue_own l c waiting : dequeue l (map (pair l) (c :: waiting)) = Some (c, map (pair l) waiting).
Proof. cbn. by rewrite bool_decide_eq_true_2. Qed.

Lemma happens_serving cs e st st' :
  serving cs st -> happens e st = Some st' -> serving (cs ++ clients_of [e]) st'.
Proof.
  intros [Hb Hf Hbd Ho Hl (done_ & waiting & Hcs & Hs & Hp)]. destruct e as [c|i]; cbn [happens].
  - intros [= <-]. unfold connect. rewrite Hb, Hbd, Ho. cbn. rewrite lookup_singleton_eq, bool_decide_eq_true_2 by set_solver.
    constructor; try done. exists done_, (waiting ++ [c]). cbn. by rewrite Hcs, Hp, map_app, app_assoc.
  - rewrite app_nil_r. unfold accept_step. destruct i as [|i]; [|by destruct Hl as [-> | ->]].
    destruct Hl as [Hl|Hl]; rewrite Hl, Hb; cbn.
    + intros [= <-]. constructor; try done; [cbn; rewrite Hl; by right|by exists done_, waiting].
    + rewrite bool_decide_eq_true_2 by (rewrite Ho; set_solver). rewrite Hp. destruct waiting as [|c waiting]; [done|].
      rewrite dequeue_own. cbn. intros [= <-]. constructor; try done; [cbn; rewrite Hl; by left|].
      exists (done_ ++ [c]), waiting. cbn. by rewrite Hcs, Hs, map_app, <-app_assoc.
Qed.

Lemma happen_serving cs es st st' : serving cs st -> happen es st = Some st' -> serving (cs ++ clients_of es) st'.
Proof.
  revert cs st; induction es as [|e es IH]; intros cs st Hsv; cbn [happen].
  - intros [= <-]. by rewrite app_nil_r.
  - destruct (happens e st) as [st1|] eqn:E; [|done]. cbn. intros Hr. pose proof (IH _ st1 (happens_serving cs e st st1 Hsv E) Hr) as H.
    rewrite <-app_assoc in H. unfold clients_of in *. cbn [omap list_omap] in *. by destruct e.
Qed.

(** What is in the queue is served by the goroutine alone. *)
Lemma queue_served cs st :
  serving cs st -> exists n st', happen (replicate n (Accept 0)) st = Some st' /\ serving cs st' /\
    ipc_sent st' = map answered cs /\ ipc_pending st' = [].
Proof.
  intros Hsv. destruct (sv_clients _ _ Hsv) as (done_ & waiting & Hcs & Hs & Hp).
  revert done_ st Hsv Hcs Hs Hp; induction waiting as [|c waiting IH]; intros done_ st Hsv Hcs Hs Hp.
  { exists 0%nat, st. rewrite app_nil_r in Hcs. by subst. }
  assert (Hgo : exists k st1, happen (replicate k (Accept 0)) st = Some st1 /\ ipc_sent st1 = map answered (done_ ++ [c]) /\
    ipc_pending st1 = map (pair 0%nat) waiting).
  { assert (Hacc : forall st1, serving cs st1 -> ipc_loops st1 = [Accepting 0] -> ipc_sent st1 = map answered done_ ->
      ipc_pending st1 = map (pair 0%nat) (c :: waiting) -> exists st2, accept_step 0 st1 = Some st2 /\
      ipc_sent st2 = map answered (done_ ++ [c]) /\ ipc_pending st2 = map (pair 0%nat) waiting).
    { intros st1 H1 Hl1 Hs1 Hp1. unfold accept_step. rewrite Hl1. cbn [lookup list_lookup].
      rewrite bool_decide_eq_true_2 by (rewrite (sv_open _ _ H1); set_solver). rewrite Hp1, dequeue_own. cbn.
      eexists. split; [done|]. cbn. by rewrite Hs1, map_app. }
    destruct (sv_loops _ _ Hsv) as [Hl|Hl].
    - assert (E : accept_step 0 st = Some (with_loop 0 (Accepting 0) st)).
      { unfold accept_step. by rewrite Hl, (sv_brain _ _ Hsv). }
      pose proof (happens_serving cs (Accept 0) st _ Hsv E) as H1. rewrite app_nil_r in H1.
      destruct (Hacc _ H1) as (st2 & E2 & H2); [cbn; by rewrite Hl|done|done|].
      exists 2%nat, st2. cbn [replicate happen happens]. rewrite E. cbn [mbind option_bind]. by rewrite E2.
    - destruct (Hacc st Hsv Hl Hs Hp) as (st2 & E2 & H2). exists 1%nat, st2. cbn [replicate happen happens]. by rewrite E2. }
  destruct Hgo as (k & st1 & E1 & Hs1 & Hp1). pose proof (happen_serving cs _ st st1 Hsv E1) as Hsv1.
  assert (Hc0 : clients_of (replicate k (Accept 0)) = []) by (clear; by induction k). rewrite Hc0, app_nil_r in Hsv1.
  destruct (IH (done_ ++ [c]) st1 Hsv1 ltac:(by rewrite <-app_assoc) Hs1 Hp1) as (n & st' & E' & H').
  exists (k + n)%nat, st'. split; [|done]. rewrite replicate_add. revert E1. generalize (replicate k (Accept 0)) as es. clear -E'.
  intros es. revert st; induction es as [|e es IH]; intros st; cbn; [by intros [= ->]|]. destruct (happens e st); [apply IH|done].
Qed.
End serving.

(** ** A whole session *)

Section session.
Variables (stuck : bytes -> bool) (path : bytes).
Hypothesis Hfree : forall p, under path p = true -> stuck p = false.

Lemma keeps_free p : keeps stuck path p = negb (under path p).
Proof. unfold keeps. destruct (under path p) eqn:E; [by rewrite Hfree|done]. Qed.

Lemma nothing_left {V} (m : gmap bytes V) :
  existsb (fun p => under path p && stuck p) (map fst (map_to_list m)) = false.
Proof.
  apply not_true_iff_false. rewrite existsb_exists. intros (p & _ & [H1 H2]%andb_true_iff). by rewrite Hfree in H2.
Qed.

Lemma RemoveAll_free st :
  RemoveAll stuck path st =
    ({| ipc_brain := ipc_brain st; ipc_files := filter (fun x => under path x.1 = false) (ipc_files st);
        ipc_bound := filter (fun x => under path x.1 = false) (ipc_bound st); ipc_open := ipc_open st; ipc_next := ipc_next st;
        ipc_pending := ipc_pending st; ipc_sent := ipc_sent st; ipc_loops := ipc_loops st |}, true).
Proof.
  unfold RemoveAll. rewrite !nothing_left. cbn. do 2 f_equal; apply map_filter_ext; intros p x _; cbn;
    rewrite keeps_free; by destruct (under path p).
Qed.

Lemma under_self : under path path = true.
Proof. unfold under. by rewrite bytes_eqb_refl. Qed.
End session.

(** [C40] What the shared daemon gives its clients, and what it leaves. If nothing under the socket's path resists removal,
    it starts - having removed whatever was at the path and below, a socket or not. Then, however connections and
    the accepting goroutine interleave, the clients are answered in the order in which they came, each with the same
    greeting, and none is forgotten: left alone, the goroutine serves everyone who waits. Stopped at any moment, no socket and no
    listener are left, later clients are refused, the other files are as they were, and two steps end the goroutine; to stop it a second time panics. *)
Theorem shared_daemon_session stuck socketPath files :
  let path := sb_SocketPath (NewSharedBrain socketPath) in
  (forall p, under path p = true -> stuck p = false) ->
  exists st0, Start stuck true (fresh_world socketPath files) = (st0, Ok tt) /\
    ipc_files st0 = filter (fun x => under path x.1 = false) files /\
    forall es st1, happen es st0 = Some st1 ->
      (exists done_ waiting, clients_of es = done_ ++ waiting /\ ipc_sent st1 = map answered done_) /\
      (exists n st2, happen (replicate n (Accept 0)) st1 = Some st2 /\ ipc_sent st2 = map answered (clients_of es)) /\
      exists st3, Stop stuck st1 = (st3, Ok tt) /\ ipc_files st3 = ipc_files st0 /\ ipc_bound st3 = ∅ /\ ipc_open st3 = ∅ /\
        (forall c, happens (Connect c) st3 = Some st3) /\
        (exists n st4, (n <= 2)%nat /\ happen (replicate n (Accept 0)) st3 = Some st4 /\ ipc_loops st4 = [Ended]) /\
        Stop stuck st3 = (st3, Panic CloseOfClosedChannel).
Proof.
  intros path Hfree. eexists. split.
  { unfold Start. cbn [fresh_world ipc_brain]. fold path. rewrite (RemoveAll_free stuck path Hfree). cbn. reflexivity. }
  split; [done|]. set (st0 := {| ipc_brain := _; ipc_files := _ |}). intros es st1 Hes.
  assert (H0 : serving path (filter (fun x => under path x.1 = false) files) [] st0).
  { constructor; cbn; try done; [by left|by exists [], []]. }
  pose proof (happen_serving path _ [] es st0 st1 H0 Hes) as H1. cbn [app] in H1. split_and!.
  - destruct (sv_clients _ _ _ _ H1) as (done_ & waiting & ? & ? & _). by exists done_, waiting.
  - destruct (queue_served path _ _ st1 H1) as (n & st2 & E & _ & Hs & _). by exists n, st2.
  - destruct H1 as [Hb Hf Hbd Ho Hl _]. unfold Stop at 1. rewrite Hb. cbn [sb_stopped sb_listener sb_SocketPath].
    rewrite (RemoveAll_free stuck path Hfree). eexists. split; [done|]. cbn [fst].
    set (st3 := {| ipc_brain := _; ipc_files := _ |}). cbn [close_listener ipc_files ipc_bound ipc_open] in st3.
    assert (Hbd3 : ipc_bound st3 = ∅).
    { cbn. rewrite Hbd. apply map_eq. intros p. rewrite lookup_empty. apply map_lookup_filter_None.
      right. intros x [<- <-]%lookup_singleton_Some. cbn. by rewrite under_self. }
    assert (Ho3 : ipc_open st3 = ∅) by (cbn; rewrite Ho; set_solver).
    split_and!; [|exact Hbd3|exact Ho3| | |done].
    + cbn. rewrite Hf. apply map_filter_id. intros p x Hp%map_lookup_filter_Some. apply Hp.
    + intros c. cbn [happens]. unfold connect. rewrite Hbd3. by rewrite lookup_empty.
    + assert (Hend : forall st, ipc_loops st = [Accepting 0] -> ipc_open st = ∅ -> sb_stopped (ipc_brain st) = true ->
        accept_step 0 st = Some (with_loop 0 Ended st)).
      { intros st Hl' Ho' Hst. unfold accept_step. rewrite Hl'. cbn [lookup list_lookup]. rewrite Ho'.
        rewrite bool_decide_eq_false_2 by set_solver. by rewrite Hst. }
      destruct Hl as [Hl|Hl].
      * exists 2%nat, (with_loop 0 Ended (with_loop 0 (Accepting 0) st3)). split; [lia|]. split; [|cbn; by rewrite Hl].
        cbn [replicate happen happens]. assert (E : accept_step 0 st3 = Some (with_loop 0 (Accepting 0) st3)) by (unfold accept_step; cbn; by rewrite Hl).
        rewrite E. cbn [mbind option_bind]. rewrite Hend; [done|cbn; by rewrite Hl|exact Ho3|done].
      * exists 1%nat, (with_loop 0 Ended st3). split; [lia|]. split; [|cbn; by rewrite Hl].
        cbn [replicate happen happens]. by rewrite (Hend st3) by done.
Qed.

(** Over a directory with files in it, which are gone. *)
Definition busy_disk : disk := <[str "/data/sock/a" := [1]]> (<[str "/data/sock/b/c" := [2]]> (<[str "/data/other" := [3]]> ∅)).

Lemma shared_daemon_session_witness :
  exists st0, Start (fun _ => false) true (fresh_world (str "/data/sock") busy_disk) = (st0, Ok tt) /\
    map_to_list (ipc_files st0) = [(str "/data/other", [3])] /\
    exists st3, Stop (fun _ => false) st0 = (st3, Ok tt) /\ Stop (fun _ => false) st3 = (st3, Panic CloseOfClosedChannel).
Proof.
  destruct (shared_daemon_session (fun _ => false) (str "/data/sock") busy_disk) as (st0 & E & Hf & H).
  - intros p _. reflexivity.
  - exists st0. split; [exact E|]. split; [rewrite Hf; vm_compute; reflexivity|].
    destruct (H [] st0 eq_refl) as (_ & _ & st3 & Hs & _ & _ & _ & _ & _ & Hp). exists st3. split; [exact Hs|exact Hp].
Defined.

(** A second [Start] leaves the first goroutine behind: it waits at a listener that no path leads to and that [Stop] does not close. *)
Example second_start_leaks :
  match accept_step 0 (Start (fun _ => false) true (fresh_world (str "/s") ∅)).1 with
  | Some st =>
      let st := (Stop (fun _ => false) (Start (fun _ => false) true st).1).1 in
      ipc_loops st !! 0%nat = Some (Accepting 0) /\ 0%nat ∈ ipc_open st /\ ipc_bound st = ∅ /\ accept_step 0 st = None
  | None => False
  end.
Proof. vm_compute. split_and!; try reflexivity. Qed.
