(* ===== verification/Pager.v ===== *)
(** [pkg/cromlib/vfs]: the demonstration mount of made-up models - a directory of two names, and pages that are made when
    they are asked for and kept. *)

From S2P Require Import Prelude.

(** ** The directory ([fuse_server.go]) *)

(** Inode and name, of the root and of its files. *)
Record Dirent := { de_Inode : Z; de_Name : bytes }.

Definition ReadDirAll : list Dirent := [
  {| de_Inode := 2; de_Name := str "deepseek-v3.gguf" |};
  {| de_Inode := 3; de_Name := str "llama-70b.gguf" |}].

(** [None] is [ENOENT]. *)
Definition Lookup (name : bytes) : option Dirent :=
  if bytes_eqb name (str "deepseek-v3.gguf") || bytes_eqb name (str "llama-70b.gguf") then
    Some {| de_Inode := if bytes_eqb name (str "llama-70b.gguf") then 3 else 2; de_Name := name |}
  else None.

Record Attr := { at_Inode : Z; at_dir : bool; at_Mode : Z; at_Size : Z }.

Definition Dir_Attr : Attr := {| at_Inode := 1; at_dir := true; at_Mode := 365; at_Size := 0 |}.

Definition File_Attr (f : Dirent) : Attr := {| at_Inode := de_Inode f; at_dir := false; at_Mode := 292; at_Size := 75161927680 |}.

(** What is listed is what can be looked up. *)
Lemma Lookup_ReadDirAll name f : Lookup name = Some f <-> f ∈ ReadDirAll /\ de_Name f = name.
Proof.
  unfold Lookup, ReadDirAll. destruct (bytes_eqb name (str "deepseek-v3.gguf")) eqn:E1; [apply bytes_eqb_true in E1 as ->|].
  - cbn. split; [by intros [= <-]; split; [left|]|]. by intros [[->|[->|[]%elem_of_nil]%elem_of_cons]%elem_of_cons H].
  - destruct (bytes_eqb name (str "llama-70b.gguf")) eqn:E2; [apply bytes_eqb_true in E2 as ->|]; cbn.
    + split; [by intros [= <-]; split; [right; left|]|]. by intros [[->|[->|[]%elem_of_nil]%elem_of_cons]%elem_of_cons H].
    + split; [done|]. intros [[->|[->|[]%elem_of_nil]%elem_of_cons]%elem_of_cons <-]; cbn in *; by rewrite bytes_eqb_refl in *.
Qed.

(** [MountServer], which creates the mount point, mounts and serves until the end, and the [llm-vfs] command
    in front of it. *)
Definition MountServer (creates mounts serves : bool) : res unit :=
  if negb creates then Err "falha ao criar ponto de montagem"
  else if negb mounts then Err "falha no mnt fuse"
  else if serves then Ok tt else Err "serve".

Definition llm_vfs_RunE (mountPoint : bytes) (creates mounts serves : bool) : res unit :=
  if zlen mountPoint =? 0 then Err "flag --mountpoint obrigatória" else MountServer creates mounts serves.

(** ** Pages ([jit_pager.go]) *)

(** The key of the cache is offset and size, printed with a dash between. *)
Abbreviation pageCache := (gmap (Z * Z) bytes).

(** The header of a GGUF file: its magic number, and version 3. *)
Definition gguf_header : bytes := [71; 71; 85; 70; 3; 0; 0; 0].

Definition make_page (offset size : Z) : res bytes :=
  if size <? 0 then Panic SliceBounds
  else if (offset =? 0) && (size >=? 8) then Ok (gguf_header ++ replicate (Z.to_nat (size - 8)) 0)
  else Ok (replicate (Z.to_nat size) 0).

Definition FetchPage (offset size : Z) (cache : pageCache) : res (bytes * pageCache) :=
  match cache !! (offset, size) with
  | Some data => Ok (data, cache)
  | None => data ← make_page offset size; Ok (data, <[(offset, size) := data]> cache)
  end.

(** [File.Read]; fetching gives no error, so that the page of zeros is never sent. *)
Definition File_Read (offset size : Z) (cache : pageCache) : res (bytes * pageCache) :=
  match FetchPage offset size cache with
  | Err _ => Ok (replicate (Z.to_nat size) 0, cache)
  | r => r
  end.

Definition ClearCache (cache : pageCache) : pageCache := ∅.

(** Reads and clearings in any order: what the reads return. *)
Inductive pager_op := OpRead (offset size : Z) | OpClear.

Fixpoint pager_run (ops : list pager_op) (cache : pageCache) : res (list bytes) :=
  match ops with
  | [] => Ok []
  | OpClear :: ops => pager_run ops (ClearCache cache)
  | OpRead offset size :: ops => '(data, cache) ← File_Read offset size cache; rest ← pager_run ops cache; Ok (data :: rest)
  end.

Definition pages_read (ops : list pager_op) : res (list bytes) :=
  foldr (fun op acc => match op with OpClear => acc | OpRead offset size => data ← make_page offset size; rest ← acc; Ok (data :: rest) end) (Ok []) ops.

(** Every page in the cache is the page that would be made. *)
Definition cache_wf (cache : pageCache) : Prop := forall offset size data, cache !! (offset, size) = Some data -> make_page offset size = Ok data.

Lemma make_page_len offset size data : make_page offset size = Ok data -> zlen data = size.
Proof.
  unfold make_page. destruct (Z.ltb_spec size 0); [done|]. destruct (_ && _) eqn:E; intros [= <-].
  - apply andb_true_iff in E as [_ E%Z.geb_le]. rewrite !zlen_cons. unfold zlen. rewrite length_replicate. lia.
  - unfold zlen. rewrite length_replicate. lia.
Qed.

Lemma File_Read_page offset size cache :
  cache_wf cache ->
  match File_Read offset size cache with
  | Ok (data, cache') => make_page offset size = Ok data /\ cache_wf cache'
  | Err _ => False
  | Panic p => make_page offset size = Panic p
  end.
Proof.
  intros Hc. unfold File_Read, FetchPage. destruct (cache !! (offset, size)) as [data|] eqn:E; [by split; [apply Hc|]|].
  destruct (make_page offset size) as [data|e|p] eqn:Em; cbn [mbind res_bind].
  - split; [done|]. intros o s d. destruct (decide ((o, s) = (offset, size))) as [[= -> ->]|Hne].
    + rewrite lookup_insert_eq. by intros [= <-].
    + rewrite lookup_insert_ne by done. apply Hc.
  - unfold make_page in Em. destruct (_ <? _); [done|]. by destruct (_ && _).
  - done.
Qed.

(** The cache is invisible: whatever is read and cleared, in whatever order, the reads return the pages that are made for
    them, and each has the size that was asked for. *)
Theorem pager_transparent ops : pager_run ops ∅ = pages_read ops.
Proof.
  assert (Hc : cache_wf ∅) by (intros o s d; by rewrite lookup_empty). revert Hc. generalize (∅ : pageCache).
  induction ops as [|[offset size|] ops IH]; intros cache Hc; cbn [pager_run pages_read foldr]; [done| |].
  - pose proof (File_Read_page offset size cache Hc) as H. destruct (File_Read offset size cache) as [[data cache']|e|p]; cbn [mbind res_bind].
    + destruct H as [-> Hc']. cbn. rewrite (IH cache' Hc'). unfold pages_read. by destruct (foldr _ _ ops).
    + done.
    + by rewrite H.
  - apply IH. intros o s d. unfold ClearCache. by rewrite lookup_empty.
Qed.

(** The pages are not those of a file: no content has all of them as its parts. Eight bytes from the start are the
    header, the first four of them alone are zeros. *)
Lemma pages_of_no_file content : 8 <= zlen content -> ~ (forall offset size,
  0 <= offset -> 0 <= size -> offset + size <= zlen content -> make_page offset size = Ok (ztake size (zdrop offset content))).
Proof.
  intros Hl H. pose proof (H 0 8 ltac:(lia) ltac:(lia) ltac:(lia)) as E8. pose proof (H 0 4 ltac:(lia) ltac:(lia) ltac:(lia)) as E4.
  destruct content as [|a content]; [done|]. cbn in E8, E4. injection E8 as E8 _. injection E4 as E4 _. congruence.
Qed.
