(* ===== verification/Relay.v ===== *)
(** Files that travel: what a node has pulled it serves to the next, under its own passphrase, and what the last one has
    unpacks and mounts. Composes [internal/network], [internal/vfs] and [pkg/cromlib]. *)

From S2P Require Import Prelude Binary Sha256 Externals Crypto Format FormatIO Delta Chunker Codebook.
From S2P Require Import Fractal Merkle Entropy Search Unpack Pack ChunkCodec BlockCodec RoundTrip PackFile Archive.
From S2P Require Import VfsCache VfsReader VfsRead VfsMount Sync Bitswap Transfer Protocol SyncRun TreeFS.
Import codebook Format.

(** ** The name a file is served under is the one it was saved under *)

Lemma HasSuffix_spec s x : HasSuffix s x = true <-> exists p, s = p ++ x.
Proof.
  unfold HasSuffix. split.
  - intros [Hl%Z.leb_le Hb%bytes_eqb_true]%andb_true_iff. exists (ztake (zlen s - zlen x) s).
    pose proof (ztake_zdrop (zlen s - zlen x) s) as E. by rewrite Hb in E.
  - intros [p ->]. rewrite zlen_app. pose proof (zlen_nonneg p). apply andb_true_iff. split; [apply Z.leb_le; lia|].
    replace (zlen p + zlen x - zlen x) with (zlen p) by lia. by rewrite zdrop_app, bytes_eqb_refl.
Qed.

(** A suffix without a slash is one of the last element. *)
Lemma HasSuffix_last pre f x :
  pre = [] \/ (exists q, pre = q ++ [slash]) -> slash ∉ x -> HasSuffix (pre ++ f) x = HasSuffix f x.
Proof.
  intros Hpre Hx. apply eq_true_iff_eq. rewrite !HasSuffix_spec. split; [|intros [p ->]; exists (pre ++ p); by rewrite app_assoc].
  intros [p E]. apply app_eq_inv in E as [(k & Ep & ->)|(k & Ef & ->)].
  - destruct k as [|c k _] using rev_ind; [by exists []|]. destruct Hpre as [->|[q ->]]; [by destruct p, k|].
    rewrite app_assoc in Ep. apply app_inj_tail in Ep as [_ <-]. destruct Hx. set_solver.
  - by exists k.
Qed.

Lemma join_slash_snoc elems f : elems <> [] -> join_slash (elems ++ [f]) = join_slash elems ++ slash :: f.
Proof.
  intros Hne. induction elems as [|e elems IH]; [done|]. destruct elems as [|e' elems]; [done|].
  change (join_slash ((e :: e' :: elems) ++ [f])) with (e ++ slash :: join_slash ((e' :: elems) ++ [f])).
  rewrite IH by done. cbn [join_slash]. by rewrite <-app_assoc.
Qed.

Lemma split_path_snoc dir f cur : slash ∉ f -> split_path (dir ++ slash :: f) cur = split_path dir cur ++ [f].
Proof.
  intros Hf. revert cur; induction dir as [|c dir IH]; intros cur; cbn [app split_path].
  - rewrite Z.eqb_refl. by rewrite split_path_last.
  - destruct (c =? slash); [cbn [app]; by rewrite IH|apply IH].
Qed.

(** Joining puts the same before every name. *)
Lemma Join_prefix dir :
  exists pre, (pre = [] \/ exists q, pre = q ++ [slash]) /\ forall f, plain_name f -> Join dir f = pre ++ f.
Proof.
  destruct dir as [|c dir].
  { exists []. split; [by left|]. intros f Hf. unfold Join. change (zlen (@nil Z)) with 0. cbn [Z.eqb].
    assert ((zlen f =? 0) = false) as ->.
    { destruct f; [by destruct Hf|]. rewrite zlen_cons. pose proof (zlen_nonneg f). lia. }
    apply (Clean_plain [f]); [done|by constructor]. }
  set (rooted := c =? slash). set (stack := fold_left (clean_element rooted) (split_path (c :: dir) []) []).
  assert (Hj : forall f, plain_name f -> Join (c :: dir) f =
    if rooted then slash :: join_slash (rev stack ++ [f]) else join_slash (rev stack ++ [f])).
  { intros f Hf. unfold Join. rewrite zlen_cons, (proj2 (Z.eqb_neq _ _)) by (pose proof (zlen_nonneg dir); lia).
    unfold Clean. cbn [app]. fold rooted. change (c :: dir ++ slash :: f) with ((c :: dir) ++ slash :: f).
    rewrite split_path_snoc by apply Hf. rewrite fold_left_app. fold stack. rewrite (clean_plain rooted [f] stack) by by constructor.
    cbn [rev app]. destruct rooted; [done|].
    assert ((zlen (join_slash (rev stack ++ [f])) =? 0) = false) as ->; [|done]. destruct Hf as (Hf & _).
    destruct f as [|x f]; [done|]. destruct (decide (rev stack = [])) as [->|Hs].
    - cbn [app join_slash]. rewrite zlen_cons. pose proof (zlen_nonneg f). lia.
    - rewrite join_slash_snoc by done. rewrite zlen_app, !zlen_cons. pose proof (zlen_nonneg f).
      pose proof (zlen_nonneg (join_slash (rev stack))). lia. }
  destruct (decide (rev stack = [])) as [Es|Hs].
  - exists (if rooted then [slash] else []). split; [destruct rooted; [right; by exists []|by left]|].
    intros f Hf. rewrite Hj, Es by done. by destruct rooted.
  - exists ((if rooted then [slash] else []) ++ join_slash (rev stack) ++ [slash]). split.
    + right. eexists. by rewrite app_assoc.
    + intros f Hf. rewrite Hj, join_slash_snoc by done. destruct rooted; cbn [app]; by rewrite <-app_assoc.
Qed.

Lemma Base_plain f : plain_name f -> Base f = f.
Proof.
  intros (Hf & _ & _ & Hs). assert (Hl : forall r acc, slash ∉ r -> last_element r acc = rev r ++ acc).
  { induction r as [|c r IH]; intros acc Hr; [done|]. apply not_elem_of_cons in Hr as [Hc Hr]. cbn [last_element rev].
    rewrite (proj2 (Z.eqb_neq _ _)) by done. rewrite IH by done. by rewrite <-app_assoc. }
  assert (Hst : strip_slashes (rev f) = rev f).
  { destruct f as [|c f _] using rev_ind; [done|]. rewrite rev_app_distr. cbn [rev app strip_slashes].
    rewrite (proj2 (Z.eqb_neq _ _)); [done|]. intros ->. apply Hs. set_solver. }
  unfold Base. rewrite Hst, Hl by (intros Hin; apply Hs; by apply list_elem_of_In, in_rev, list_elem_of_In).
  rewrite rev_involutive, app_nil_r. assert ((zlen f =? 0) = false) as ->; [|done].
  destruct f; [done|]. rewrite zlen_cons. pose proof (zlen_nonneg f). lia.
Qed.

Lemma crom_no_slash : slash ∉ str ".crom".
Proof. apply (bool_decide_unpack _). vm_compute. exact I. Qed.

Lemma dest_served n f : plain_name f -> dest_path n f = served_path n f.
Proof.
  intros Hf. unfold dest_path, served_path. rewrite Base_plain by done. destruct (Join_prefix (n_DataDir n)) as (pre & Hpre & Hj).
  rewrite !Hj by done. rewrite HasSuffix_last by (done || apply crom_no_slash). destruct (HasSuffix f (str ".crom")); [by rewrite Hj|].
  rewrite Hj; [by rewrite app_assoc|]. destruct Hf as (H0 & _ & _ & Hs). split_and!.
  - by destruct f.
  - intros E%(f_equal length). rewrite length_app in E. change (length (str ".crom")) with 5%nat in E. change (length (str ".")) with 1%nat in E. lia.
  - intros E%(f_equal length). rewrite length_app in E. change (length (str ".crom")) with 5%nat in E. change (length (str "..")) with 2%nat in E. lia.
  - intros [?|?%crom_no_slash]%elem_of_app; done.
Qed.

(** ** From node to node *)

Section relay.
Context {Z0 : Zstd} {W0 : ZstdWire} {C0 : Cipher} {F0 : Files} {hash64 : XXHash}.

(** A node that pulls, with the randomness of its pull. *)
Record puller := { pu_node : CromNode; pu_salt : bytes; pu_nonce : Z -> bytes }.

Definition with_disk (n : CromNode) (d : gmap bytes bytes) : CromNode :=
  {| n_ID := n_ID n; n_CodebookHash := n_CodebookHash n; n_DataDir := n_DataDir n; n_EncKey := n_EncKey n;
     n_CodebookPath := n_CodebookPath n; n_authenticated := n_authenticated n; n_disk := d |}.

(** Each node pulls from the one before it: the last node afterwards. *)
Fixpoint relay (server : CromNode) (pullers : list puller) (filename : bytes) : res CromNode :=
  match pullers with
  | [] => Ok server
  | p :: pullers =>
      match RequestSync (pu_node p) (answers_of server (n_ID (pu_node p))) filename (pu_salt p) (pu_nonce p) with
      | (d, Ok _) => relay (with_disk (pu_node p) d) pullers filename
      | (_, Err e) => Err e
      | (_, Panic e) => Panic e
      end
  end.

(** Each node has the brain, is authenticated by the one before it, and has no file of that name yet. *)
Fixpoint chain (r : Reader) (filename : bytes) (server : CromNode) (pullers : list puller) : Prop :=
  match pullers with
  | [] => True
  | p :: pullers =>
      brain_at (n_CodebookPath (pu_node p)) (Some r) /\ IsAuthenticated server (n_ID (pu_node p)) = true /\
      n_disk (pu_node p) !! dest_path (pu_node p) (Base filename) = None /\
      zlen (pu_salt p) = 16 /\ (forall i, zlen (pu_nonce p i) = gcmNonceSize) /\ chain r filename (pu_node p) pullers
  end.

Lemma chain_with_disk r filename server d pullers : chain r filename server pullers -> chain r filename (with_disk server d) pullers.
Proof. by destruct pullers. Qed.

Context {ZL : ZstdLaws Z0} {WL : ZstdWireLaws W0} {CL : CipherLaws C0} {HW : XXHashWidth hash64}.

Lemma archived_chunks r passphrase input file chunks : archived r passphrase input file chunks -> exists p, p ∈ chunks.
Proof.
  intros (cb & dict & h & pss & frames & metadata & tail & _ & Har & _ & -> & _).
  destruct (archive_blocks _ _ _ _ _ _ _ _ Har) as (_ & _ & _ & Hne & _). rewrite concat_entries_of in Hne.
  destruct (concat pss) as [|p l]; [done|]. exists p. left.
Qed.

(** What was synchronised mounts with the brain. *)
Lemma synced_mounts {F} {R : ReaderAt F} (ok : F -> Prop) r passphrase input file chunks path f maxMB :
  synced r passphrase input file chunks -> Open path = Ok r -> path <> [] -> ReaderAtLaws R file ok -> ok f -> maxMB < 2 ^ 42 ->
  exists rr, open_mount file f path passphrase maxMB = Ok rr /\ mounted input rr.
Proof.
  intros (dict & salt & pss & frames & metadata & -> & Har & _) Ho Hp RL Hf Hmax.
  assert (Hfile : metadata ++ concat frames = metadata ++ concat frames ++ []) by by rewrite app_nil_r.
  rewrite Hfile in *. apply (open_mount_archive ok _ _ _ _ _ _ _ _ [] Har); [done..|].
  intros r' [= <-]. by apply open_brain_path, Har.
Qed.

(** One hop: the file is where the node serves it from. *)
Lemma hop r server p input file chunks filename :
  plain_name (Base filename) -> zlen (Base filename) + 6 < 2 ^ 16 -> zlen chunks <= 2 ^ 22 ->
  brain_at (n_CodebookPath server) (Some r) -> n_disk server !! served_path server (Base filename) = Some file ->
  archived r (n_EncKey server) input file chunks -> chain r filename server [p] ->
  exists d file', RequestSync (pu_node p) (answers_of server (n_ID (pu_node p))) filename (pu_salt p) (pu_nonce p) = (d, Ok tt) /\
    d !! served_path (pu_node p) (Base filename) = Some file' /\ synced r (n_EncKey (pu_node p)) input file' chunks.
Proof.
  intros Hplain Hname Hn Hs Hfile Ha (Hp & Hauth & Hnone & Hsalt & Hnonce & _).
  destruct (RequestSync_archive server (pu_node p) r input file chunks [] filename (pu_salt p) (pu_nonce p)) as (file' & Hsync & Hsy); try done.
  - unfold local_version. by rewrite Hnone.
  - destruct (archived_chunks _ _ _ _ _ Ha) as [q Hq]. exists q. split; [done|]. by intros ? ?%elem_of_nil.
  - by intros ? ? _ ?%elem_of_nil.
  - eexists _, file'. split; [exact Hsync|]. split; [|done]. rewrite <-dest_served by done. apply lookup_insert_eq.
Qed.

End relay.

(** ** Witness: three nodes, each with another passphrase *)

Definition relay_node (id dir key : bytes) (peers : gset bytes) (d : gmap bytes bytes) : CromNode := {|
  n_ID := id; n_CodebookHash := BuildHash (header sample_reader); n_DataDir := dir; n_EncKey := key;
  n_CodebookPath := str "brain"; n_authenticated := peers; n_disk := d |}.

Definition relay_server : CromNode := relay_node (str "A") (str "/a") [] {[str "B"]} {[str "/a/x.crom" := packed_sample new_input]}.

Definition relay_pullers : list puller := [
  {| pu_node := relay_node (str "B") (str "data/b") (str "key") {[str "C"]} ∅; pu_salt := make_bytes 16; pu_nonce := fun _ => make_bytes 12 |};
  {| pu_node := relay_node (str "C") (str "./c/") [] ∅ ∅; pu_salt := make_bytes 16; pu_nonce := fun _ => make_bytes 12 |}].

