(* ===== verification/Counters.v ===== *)
(** [internal/metrics]: the counters that the daemon publishes. The instruments of the Prometheus client are an interface;
    the one global set of them, the names registered for it, and the two functions that feed it are the model. *)

From S2P Require Import Prelude Binary Sha256 Externals Crypto Format FormatIO Delta Chunker Codebook.
From S2P Require Import Fractal Merkle Entropy Search Unpack Pack ChunkCodec BlockCodec RoundTrip PackFile Metrics.

(** ** The instruments *)

(** A counter and a histogram of the client library. [Add n] is [Add(float64(n))] for a number that is not negative. *)
Class Instruments (C H : Type) := {
  NewCounter : string -> C;
  Inc : C -> C;
  Add : Z -> C -> C;
  NewHistogram : string -> list float64 -> H;
  Observe : float64 -> H -> H;
  counted : C -> Z;
  observed : H -> list float64;
}.

(** A counter is exact while it is below 2^53; a histogram has seen what it was shown. *)
Class InstrumentsLaws {C H} (I : Instruments C H) := {
  counted_new name : counted (NewCounter name) = 0;
  counted_Inc c : 0 <= counted c -> counted c + 1 < 2 ^ 53 -> counted (Inc c) = counted c + 1;
  counted_Add n c : 0 <= n -> 0 <= counted c -> counted c + n < 2 ^ 53 -> counted (Add n c) = counted c + n;
  observed_new name buckets : observed (NewHistogram name buckets) = [];
  observed_Observe v h : observed (Observe v h) = observed h ++ [v];
}.

Section metrics.
Context {C H : Type} {I : Instruments C H}.

(** ** The global set *)

Record CromMetrics := {
  BytesSavedTotal : C;
  PackOpsTotal : C;
  UnpackOpsTotal : C;
  PackDuration : H;
  CorruptBlocksRecovered : C;
}.

(** The variable, and the names in the default registry. *)
Record process := {
  GlobalMetrics : option CromMetrics;
  registered : gset string;
}.

Definition started : process := {| GlobalMetrics := None; registered := ∅ |}.

(** What [promauto] does with the names of new instruments; [None] is its panic on a name that is taken. *)
Fixpoint register (names : list string) (taken : gset string) : option (gset string) :=
  match names with
  | [] => Some taken
  | name :: names => if bool_decide (name ∈ taken) then None else register names ({[name]} ∪ taken)
  end.

Definition metric_names : list string :=
  ["crom_bytes_saved_total"; "crom_pack_operations_total"; "crom_unpack_operations_total"; "crom_pack_duration_seconds";
   "crom_corrupt_blocks_recovered_total"]%string.

Definition duration_buckets : list float64 :=
  [f64_lit 1 10; f64_lit 5 10; f64_of_int 1; f64_of_int 5; f64_of_int 10; f64_of_int 30; f64_of_int 60].

Definition new_metrics : CromMetrics := {|
  BytesSavedTotal := NewCounter "crom_bytes_saved_total";
  PackOpsTotal := NewCounter "crom_pack_operations_total";
  UnpackOpsTotal := NewCounter "crom_unpack_operations_total";
  PackDuration := NewHistogram "crom_pack_duration_seconds" duration_buckets;
  CorruptBlocksRecovered := NewCounter "crom_corrupt_blocks_recovered_total" |}.

Definition InitCromMetrics (p : process) : option process :=
  match GlobalMetrics p with
  | Some _ => Some p
  | None => taken ← register metric_names (registered p); Some {| GlobalMetrics := Some new_metrics; registered := taken |}
  end.

(** The sizes are unsigned, and their difference is taken when the first is the larger one. *)
Definition RecordPack (originalSize packedSize : Z) (seconds : float64) (p : process) : process :=
  match GlobalMetrics p with
  | None => p
  | Some m => {| registered := registered p; GlobalMetrics := Some {|
      BytesSavedTotal := if originalSize >? packedSize then Add (u64 (originalSize - packedSize)) (BytesSavedTotal m)
                         else BytesSavedTotal m;
      PackOpsTotal := Inc (PackOpsTotal m);
      UnpackOpsTotal := UnpackOpsTotal m;
      PackDuration := Observe seconds (PackDuration m);
      CorruptBlocksRecovered := CorruptBlocksRecovered m |} |}
  end.

Definition RecordUnpack (corruptBlocks : Z) (p : process) : process :=
  match GlobalMetrics p with
  | None => p
  | Some m => {| registered := registered p; GlobalMetrics := Some {|
      BytesSavedTotal := BytesSavedTotal m;
      PackOpsTotal := PackOpsTotal m;
      UnpackOpsTotal := Inc (UnpackOpsTotal m);
      PackDuration := PackDuration m;
      CorruptBlocksRecovered := if corruptBlocks >? 0 then Add corruptBlocks (CorruptBlocksRecovered m)
                                else CorruptBlocksRecovered m |} |}
  end.

(** ** What happens in a process *)

Inductive record :=
  | Init
  | Packed (originalSize packedSize : Z) (seconds : float64)
  | Unpacked (corruptBlocks : Z).

Definition recording (r : record) (p : process) : option process :=
  match r with
  | Init => InitCromMetrics p
  | Packed o k s => Some (RecordPack o k s p)
  | Unpacked n => Some (RecordUnpack n p)
  end.

Fixpoint recordings (rs : list record) (p : process) : option process :=
  match rs with [] => Some p | r :: rs => p ← recording r p; recordings rs p end.

(** What the pages should say after a sequence of records. *)
Definition saved (rs : list record) : Z :=
  foldr (fun r n => match r with Packed o k _ => Z.max 0 (o - k) + n | _ => n end) 0 rs.
Definition packs_done (rs : list record) : Z := foldr (fun r n => match r with Packed _ _ _ => 1 + n | _ => n end) 0 rs.
Definition unpacks_done (rs : list record) : Z := foldr (fun r n => match r with Unpacked _ => 1 + n | _ => n end) 0 rs.
Definition recovered (rs : list record) : Z := foldr (fun r n => match r with Unpacked c => Z.max 0 c + n | _ => n end) 0 rs.
Definition durations (rs : list record) : list float64 := omap (fun r => match r with Packed _ _ s => Some s | _ => None end) rs.

Record says (rs : list record) (m : CromMetrics) : Prop := {
  sy_saved : counted (BytesSavedTotal m) = saved rs;
  sy_packs : counted (PackOpsTotal m) = packs_done rs;
  sy_unpacks : counted (UnpackOpsTotal m) = unpacks_done rs;
  sy_durations : observed (PackDuration m) = durations rs;
  sy_recovered : counted (CorruptBlocksRecovered m) = recovered rs;
}.

(** Sizes are 64-bit, and no counter reaches 2^53. *)
Record small_records (rs : list record) : Prop := {
  sr_sizes : Forall (fun r => match r with Packed o k _ => is_u64 o /\ is_u64 k | _ => True end) rs;
  sr_saved : saved rs < 2 ^ 53;
  sr_recovered : recovered rs < 2 ^ 53;
  sr_count : zlen rs < 2 ^ 53;
}.

Lemma saved_app rs rs' : saved (rs ++ rs') = saved rs + saved rs'.
Proof. unfold saved. induction rs as [|[|o k s|n] rs IH]; cbn [foldr app]; rewrite ?IH; lia. Qed.
Lemma packs_app rs rs' : packs_done (rs ++ rs') = packs_done rs + packs_done rs'.
Proof. unfold packs_done. induction rs as [|[|o k s|n] rs IH]; cbn [foldr app]; rewrite ?IH; lia. Qed.
Lemma unpacks_app rs rs' : unpacks_done (rs ++ rs') = unpacks_done rs + unpacks_done rs'.
Proof. unfold unpacks_done. induction rs as [|[|o k s|n] rs IH]; cbn [foldr app]; rewrite ?IH; lia. Qed.
Lemma recovered_app rs rs' : recovered (rs ++ rs') = recovered rs + recovered rs'.
Proof. unfold recovered. induction rs as [|[|o k s|n] rs IH]; cbn [foldr app]; rewrite ?IH; lia. Qed.
Lemma durations_app rs rs' : durations (rs ++ rs') = durations rs ++ durations rs'.
Proof. apply omap_app. Qed.

Lemma tallies_nonneg rs :
  0 <= saved rs /\ 0 <= packs_done rs <= zlen rs /\ 0 <= unpacks_done rs <= zlen rs /\ 0 <= recovered rs.
Proof.
  unfold saved, packs_done, unpacks_done, recovered.
  induction rs as [|[|o k s|n] rs IH]; cbn [foldr]; rewrite ?zlen_cons; change (zlen (@nil record)) with 0; lia.
Qed.

Lemma small_prefix rs rs' : small_records (rs ++ rs') -> small_records rs.
Proof.
  intros [Hs H1 H2 H3]. rewrite saved_app in H1. rewrite recovered_app in H2. rewrite zlen_app in H3.
  pose proof (tallies_nonneg rs'). pose proof (zlen_nonneg rs'). apply Forall_app in Hs as [? _]. split; [done|lia..].
Qed.

Context {IL : InstrumentsLaws I}.

(** ** One record *)

Lemma RecordPack_says rs m o k s taken :
  says rs m -> small_records (rs ++ [Packed o k s]) ->
  exists m', RecordPack o k s {| GlobalMetrics := Some m; registered := taken |} = {| GlobalMetrics := Some m'; registered := taken |} /\
    says (rs ++ [Packed o k s]) m'.
Proof.
  intros [E1 E2 E3 E4 E5] [Hs H1 H2 H3]. eexists. split; [reflexivity|].
  rewrite saved_app in H1. rewrite zlen_app in H3. change (zlen [Packed o k s]) with 1 in H3.
  change (saved [Packed o k s]) with (Z.max 0 (o - k) + 0) in H1.
  pose proof (tallies_nonneg rs) as (? & ? & ? & ?). apply Forall_app in Hs as [_ [[Ho Hk] _]%Forall_cons]. unfold is_u64 in *.
  split; cbn [BytesSavedTotal PackOpsTotal UnpackOpsTotal PackDuration CorruptBlocksRecovered].
  - rewrite saved_app, <-E1. change (saved [Packed o k s]) with (Z.max 0 (o - k) + 0).
    destruct (Z.gtb_spec o k); [|lia]. rewrite u64_small by (unfold is_u64; lia). rewrite counted_Add by lia. lia.
  - rewrite packs_app, <-E2. change (packs_done [Packed o k s]) with 1. apply counted_Inc; lia.
  - rewrite unpacks_app, <-E3. change (unpacks_done [Packed o k s]) with 0. lia.
  - by rewrite durations_app, <-E4, observed_Observe.
  - rewrite recovered_app, <-E5. change (recovered [Packed o k s]) with 0. lia.
Qed.

Lemma RecordUnpack_says rs m n taken :
  says rs m -> small_records (rs ++ [Unpacked n]) ->
  exists m', RecordUnpack n {| GlobalMetrics := Some m; registered := taken |} = {| GlobalMetrics := Some m'; registered := taken |} /\
    says (rs ++ [Unpacked n]) m'.
Proof.
  intros [E1 E2 E3 E4 E5] [_ H1 H2 H3]. eexists. split; [reflexivity|].
  rewrite recovered_app in H2. rewrite zlen_app in H3. change (zlen [Unpacked n]) with 1 in H3.
  change (recovered [Unpacked n]) with (Z.max 0 n + 0) in H2. pose proof (tallies_nonneg rs) as (? & ? & ? & ?).
  split; cbn [BytesSavedTotal PackOpsTotal UnpackOpsTotal PackDuration CorruptBlocksRecovered].
  - rewrite saved_app, <-E1. change (saved [Unpacked n]) with 0. lia.
  - rewrite packs_app, <-E2. change (packs_done [Unpacked n]) with 0. lia.
  - rewrite unpacks_app, <-E3. change (unpacks_done [Unpacked n]) with 1. apply counted_Inc; lia.
  - by rewrite durations_app, <-E4, app_nil_r.
  - rewrite recovered_app, <-E5. change (recovered [Unpacked n]) with (Z.max 0 n + 0).
    destruct (Z.gtb_spec n 0); [|lia]. rewrite counted_Add by lia. lia.
Qed.

Lemma init_says rs m : says rs m -> says (rs ++ [Init]) m.
Proof.
  intros [E1 E2 E3 E4 E5].
  split; rewrite ?saved_app, ?packs_app, ?unpacks_app, ?recovered_app, ?durations_app, ?E1, ?E2, ?E3, ?E4, ?E5; cbn; rewrite ?app_nil_r; lia || done.
Qed.

(** ** A whole process *)

Lemma register_fresh names taken : NoDup names -> (forall n, n ∈ names -> n ∉ taken) -> is_Some (register names taken).
Proof.
  revert taken; induction names as [|name names IH]; intros taken Hd Hf; [by eexists|]. apply NoDup_cons in Hd as [Hn Hd].
  cbn [register]. rewrite bool_decide_eq_false_2 by (apply Hf; by left). apply IH; [done|].
  intros n Hin [->%elem_of_singleton|Ht]%elem_of_union; [done|]. revert Ht. apply Hf. by right.
Qed.

Lemma InitCromMetrics_started : exists taken, InitCromMetrics started = Some {| GlobalMetrics := Some new_metrics; registered := taken |}.
Proof.
  destruct (register_fresh metric_names ∅) as [taken E].
  - apply (bool_decide_unpack (NoDup metric_names)). by vm_compute.
  - intros n _. apply not_elem_of_empty.
  - exists taken. unfold InitCromMetrics, started. cbn [GlobalMetrics registered]. by rewrite E.
Qed.

Lemma recordings_on taken rs done m :
  says done m -> small_records (done ++ rs) ->
  exists m', recordings rs {| GlobalMetrics := Some m; registered := taken |} = Some {| GlobalMetrics := Some m'; registered := taken |} /\
    says (done ++ rs) m'.
Proof.
  revert done m; induction rs as [|r rs IH]; intros done m Hm Hs; [exists m; by rewrite app_nil_r|].
  replace (done ++ r :: rs) with ((done ++ [r]) ++ rs) in * by by rewrite <-app_assoc.
  pose proof (small_prefix _ _ Hs) as Hs1. destruct r as [|o k s|n]; cbn [recordings recording].
  - cbn. apply IH; [by apply init_says|done].
  - destruct (RecordPack_says done m o k s taken Hm Hs1) as (m' & -> & Hm'). cbn. by apply IH.
  - destruct (RecordUnpack_says done m n taken Hm Hs1) as (m' & -> & Hm'). cbn. by apply IH.
Qed.

Lemma recordings_off rs : Init ∉ rs -> recordings rs started = Some started.
Proof.
  induction rs as [|[|o k s|n] rs IH]; intros Hn; [done|by destruct Hn; left|..]; cbn; apply IH; intros ?; by apply Hn; right.
Qed.

(** Until the first call of [InitCromMetrics] nothing is counted, and what was done before is lost. From then on, whatever is
    called in whatever order, [InitCromMetrics] again included, nothing panics on a name registered
    twice, and the counters hold the number of packs and unpacks, the bytes saved by the packs that
    shrank their input, the blocks recovered, and every duration once, in order. *)
Theorem counters_of_process before rs :
  Init ∉ before -> small_records rs ->
  recordings before started = Some started /\
  exists m taken, recordings (before ++ Init :: rs) started = Some {| GlobalMetrics := Some m; registered := taken |} /\ says rs m.
Proof.
  intros Hb Hs. pose proof (recordings_off before Hb) as Hoff. split; [done|].
  assert (Hnew : says [] new_metrics) by (split; cbn; apply counted_new || apply observed_new).
  assert (Happ : recordings (before ++ Init :: rs) started = recordings (Init :: rs) started).
  { clear Hs Hoff. induction before as [|[|o k s|n] before IH]; [done|by destruct Hb; left|..]; cbn; apply IH; intros ?; by apply Hb; right. }
  rewrite Happ. cbn [recordings recording]. destruct InitCromMetrics_started as [taken ->]. cbn [mbind option_bind].
  destruct (recordings_on taken rs [] new_metrics Hnew Hs) as (m & Hr & Hm). by exists m, taken.
Qed.

(** A process of [crompressor pack] or [unpack] never calls [InitCromMetrics], and the daemon records nothing. *)
Corollary commands_count_nothing rs : Init ∉ rs -> recordings rs started = Some started.
Proof. apply recordings_off. Qed.

End metrics.
Arguments CromMetrics : clear implicits.
Arguments process : clear implicits.

(** ** What [Pack] records *)

Section packs.
Context {Z0 : Zstd} {C0 : Cipher} {F0 : Files} {hash64 : XXHash} {log2 : MathLog2} {order : MapOrder}.
Variable hasSIMD : bool.

(** [Pack] records the sizes of its report, on each of its three ways to the end. *)
Definition pack_record (seconds : float64) (m : Metrics) : record := Packed (mt_OriginalSize m) (mt_PackedSize m) seconds.

Lemma Pack_metrics_sizes rnd schedule input path opts file m seconds :
  Pack_metrics hasSIMD rnd schedule input path opts = Ok (file, m) ->
  pack_record seconds m = Packed (zlen input) (zlen file) seconds.
Proof.
  unfold Pack_metrics. destruct (make_plan _ _ _ _) as [pl| |]; [|done..]. cbn [mbind res_bind].
  destruct (pl_passthrough pl).
  - destruct (pack_passthrough _ _ _ _ _); [|done..]. by intros [= <- <-].
  - destruct (pack_pool _ _ _ _ _ _) as [pb| |]; [|done..]. cbn [mbind res_bind].
    destruct (finish_file _ _ _ _ _ _) as [[f []]| |]; [| |done..]; intros [= <- <-]; [done|].
    unfold file_metrics. by destruct (most_frequent _).
Qed.
End packs.

(** Counters as numbers. *)
#[export] Instance plain_instruments : Instruments Z (list float64) := {|
  NewCounter _ := 0; Inc c := c + 1; Add n c := c + n; NewHistogram _ _ := []; Observe v h := h ++ [v];
  counted c := c; observed h := h |}.

#[export] Instance plain_instruments_laws : InstrumentsLaws plain_instruments.
Proof. split; cbn; done || lia. Qed.

Lemma counters_of_process_witness :
  let rs := [Packed 1000 200 (f64_of_int 2); Unpacked 5; Init; Packed 300 469 (f64_of_int 1); Unpacked 0] in
  exists m taken, recordings ([Packed 9 1 (f64_of_int 1)] ++ Init :: rs) started = Some {| GlobalMetrics := Some m; registered := taken |} /\
    BytesSavedTotal m = 800 /\ PackOpsTotal m = 2 /\ UnpackOpsTotal m = 2 /\ CorruptBlocksRecovered m = 5.
Proof.
  intros rs. destruct (counters_of_process (I := plain_instruments) [Packed 9 1 (f64_of_int 1)] rs) as (_ & m & taken & Hr & [E1 E2 E3 _ E5]).
  - intros [H|H]%elem_of_cons; [discriminate H|by apply elem_of_nil in H].
  - split; [|reflexivity..]. repeat constructor; discriminate.
  - exists m, taken. split; [exact Hr|]. split; [exact E1|]. split; [exact E2|]. split; [exact E3|exact E5].
Defined.
