(* ===== verification/Scripts.v ===== *)
(** [scripts/]: the two generators of test data. One writes a brain of random codewords; the other writes five kinds of
    repetitive files, which are meant for training. [math/rand] is a parameter, and writing a file succeeds. *)

From S2P Require Import Prelude Binary Sha256 Externals Crypto Format Delta Chunker Codebook Entropy Search Pack BlockCodec.
From S2P Require Import Protocol Trainer Training TrainRun Cli.
Import codebook.
#[local] Set Warnings "-clear-no-such-hyp".

(** ** A brain of random codewords ([gen_mini_codebook.go]) *)

Definition codewordSize : Z := 128.
Definition codewordCount : Z := 8192.

Definition mini_file (codewordData : bytes) : bytes :=
  let buildHash := Sum256 codewordData in
  let header := make_bytes HeaderSize in
  let header := blit header 0 MagicString in
  let header := blit header 6 (le_put 2 1) in
  let header := blit header 8 (le_put 2 codewordSize) in
  let header := blit header 10 (le_put 8 codewordCount) in
  let header := blit header 18 (le_put 8 HeaderSize) in
  let header := blit header 26 buildHash in
  header ++ codewordData.

(** [args] without the name of the program; [random n] are the first [n] bytes of the generator with seed 42. *)
Definition outputPath (args : list bytes) : bytes := match args with path :: _ => path | [] => str "testdata/mini.cromdb" end.

Definition gen_mini_codebook (random : Z -> bytes) (args : list bytes) (d : disk) : disk :=
  <[outputPath args := mini_file (random (codewordSize * codewordCount))]> d.

Definition mini_header (codewordData : bytes) : Header :=
  {| Magic := MagicString; Version := Version1; CodewordSize := codewordSize; CodewordCount := codewordCount;
     DataOffset := HeaderSize; BuildHash := Sum256 codewordData |}.

(** What the script writes is a brain: it opens as 8192 codewords of 128 bytes, codeword [i] is the [i]th
    piece of the random bytes, and the build hash is theirs. *)
Theorem gen_mini_codebook_opens random args d :
  (forall n, 0 <= n -> zlen (random n) = n /\ bytes_ok (random n)) ->
  let words := random (codewordSize * codewordCount) in
  exists file r, gen_mini_codebook random args d = <[outputPath args := file]> d /\ OpenFromBytes file = Ok r /\ good_brain r /\
    count r = codewordCount /\ size r = codewordSize /\ BuildHash (header r) = Sum256 words /\
    forall i, 0 <= i < codewordCount -> Lookup r i = Ok (sub (i * codewordSize) (i * codewordSize + codewordSize) words).
Proof.
  intros Hr words. destruct (Hr (codewordSize * codewordCount)) as [Hl Hok]; [done|]. fold words in Hl, Hok.
  exists (mini_file words), {| data := mini_file words; header := mini_header words |}. split; [reflexivity|].
  assert (E : mini_file words = Serialize (mini_header words) ++ words).
  { unfold mini_file, Serialize. cbn [mini_header Magic Version CodewordSize CodewordCount DataOffset BuildHash].
    by rewrite (ztake_ge 32) by (rewrite zlen_Sum256; lia). }
  destruct (Open_image (mini_header words) words) as (Ho & Hg & Hlook).
  - by constructor.
  - apply bytes_ok_Sum256.
  - done.
  - by rewrite Hl.
  - done.
  - by rewrite Hl.
  - rewrite E. by split_and!.
Qed.

(** ** Text *)

(** A string literal of the source: [\n], [\t], and [\q] for a double quote. *)
Fixpoint unescape (s : bytes) : bytes :=
  match s with
  | 92 :: c :: s => (if c =? 110 then 10 else if c =? 116 then 9 else if c =? 113 then 34 else c) :: unescape s
  | c :: s => c :: unescape s
  | [] => []
  end.

Definition lit (s : string) : bytes := unescape (str s).

(** [%d] and [%03d] of a number that is not negative. *)
Fixpoint digits (fuel : nat) (n : Z) : bytes :=
  match fuel with
  | O => []
  | S fuel => (if n <? 10 then [] else digits fuel (n / 10)) ++ [48 + n mod 10]
  end.

Definition fmt_d (n : Z) : bytes := digits (S (Z.to_nat (Z.log2 n))) n.
Definition fmt_03d (n : Z) : bytes := let s := fmt_d n in replicate (3 - length s) 48 ++ s.

(** ** Repetitive data ([gen_real_world.go]) *)

Definition outputDir : bytes := str "testdata/real_world".

Definition data_size : Z := 2 * 1024 * 1024.

(** The loops of the generators: pieces are written while the buffer is shorter than [limit]. *)
Fixpoint fill {T} (fuel : nat) (limit : Z) (step : T -> res (bytes * T)) (st : T) (buf : bytes) : res bytes :=
  match fuel with
  | O => Err "scripts: out of fuel"
  | S fuel =>
      if zlen buf <? limit then '(piece, st) ← step st; fill fuel limit step st (buf ++ piece) else Ok buf
  end.

(** Every piece has a byte at least. *)
Definition generate {T} (step : T -> res (bytes * T)) (st : T) : res bytes := fill (S (Z.to_nat data_size)) data_size step st [].

Section random.
(** What [rand.Intn] answers: the number of the call and its argument. *)
Variable intn : nat -> Z -> Z.

Definition pick (k : nat) (l : list bytes) : res bytes := index l (intn k (zlen l)).

Definition go_templates : list bytes := map lit [
  "package main\n\nimport (\n\t\qfmt\q\n\t\qos\q\n)\n\nfunc main() {\n\tfmt.Println(\qHello, World!\q)\n\tos.Exit(0)\n}\n";
  "func handler(w http.ResponseWriter, r *http.Request) {\n\tw.Header().Set(\qContent-Type\q, \qapplication/json\q)\n\tw.WriteHeader(http.StatusOK)\n\tjson.NewEncoder(w).Encode(response)\n}\n";
  "type Config struct {\n\tHost     string `json:\qhost\q`\n\tPort     int    `json:\qport\q`\n\tDatabase string `json:\qdatabase\q`\n\tTimeout  int    `json:\qtimeout\q`\n}\n";
  "if err != nil {\n\tlog.Printf(\qerror: %v\q, err)\n\treturn nil, fmt.Errorf(\qfailed to process: %w\q, err)\n}\n";
  "for i := 0; i < len(items); i++ {\n\tresult = append(result, process(items[i]))\n}\nreturn result, nil\n";
  "func TestHandler(t *testing.T) {\n\treq := httptest.NewRequest(\qGET\q, \q/api/v1/data\q, nil)\n\trec := httptest.NewRecorder()\n\thandler(rec, req)\n\tif rec.Code != 200 {\n\t\tt.Errorf(\qexpected 200, got %d\q, rec.Code)\n\t}\n}\n"]%string.

Definition genGoSource : res bytes := generate (fun k => t ← pick k go_templates; Ok (t, S k)) O.

Definition ips : list bytes := map lit ["192.168.1.100"; "10.0.0.42"; "172.16.0.1"; "192.168.1.200"]%string.
Definition paths : list bytes := map lit ["/api/v1/users"; "/api/v1/data"; "/health"; "/api/v2/products"; "/login"]%string.
Definition methods : list bytes := map lit ["GET"; "POST"; "PUT"; "DELETE"]%string.
Definition codes : list bytes := map lit ["200"; "201"; "404"; "500"; "302"]%string.

Definition log_line (ip method path code : bytes) : bytes :=
  lit "[2024-01-15 12:34:56] " ++ ip ++ lit " " ++ method ++ lit " " ++ path ++ lit " " ++ code ++ lit " 128ms \qMozilla/5.0\q\n".

Definition genServerLogs : res bytes :=
  generate (fun k => ip ← pick k ips; path ← pick (k + 1) paths; method ← pick (k + 2) methods; code ← pick (k + 3) codes;
                     Ok (log_line ip method path code, (k + 4)%nat)) O.

Definition config_templates : list bytes := map lit [
  "[server]\nhost = \q0.0.0.0\q\nport = 8080\nread_timeout = 30\nwrite_timeout = 30\nmax_connections = 1000\n\n";
  "[database]\ndriver = \qpostgres\q\nhost = \qlocalhost\q\nport = 5432\nname = \qproduction\q\nuser = \qadmin\q\npassword = \qsecret\q\nmax_idle = 10\nmax_open = 100\n\n";
  "[logging]\nlevel = \qinfo\q\nformat = \qjson\q\noutput = \qstdout\q\nrotate = true\nmax_size = 100\nmax_backups = 5\n\n";
  "[cache]\ndriver = \qredis\q\nhost = \qlocalhost\q\nport = 6379\nttl = 3600\nmax_memory = \q256mb\q\neviction = \qlru\q\n\n"]%string.

Definition genConfigFiles : res bytes := generate (fun k => t ← pick k config_templates; Ok (t, S k)) O.
End random.

Definition json_line (id : Z) : bytes :=
  lit "{\qid\q:" ++ fmt_d id ++ lit ",\qname\q:\quser_" ++ fmt_d id ++ lit "\q,\qemail\q:\quser" ++ fmt_d id ++
  lit "@example.com\q,\qrole\q:\qadmin\q,\qactive\q:true,\qcreated_at\q:\q2024-01-15T12:00:00Z\q,\qmetadata\q:{\qlogin_count\q:42,\qlast_ip\q:\q192.168.1.100\q}}\n".

Definition genJSONData : res bytes :=
  generate (fun id => Ok (json_line id, if id + 1 >? 100 then 1 else id + 1)) 1.

Definition elf_piece : bytes := [127; 69; 76; 70; 2; 1; 1; 0; 0; 0; 0; 0; 0; 0; 0; 0] ++ make_bytes 112.

Definition genBinaryHeaders : res bytes := generate (fun st : unit => Ok (elf_piece, st)) tt.

(** The five generators, each with calls of [rand.Intn] of its own. *)
Definition generators (intn : nat -> nat -> Z -> Z) : list (bytes * res bytes) := [
  (str "go_source", genGoSource (intn 0%nat));
  (str "server_logs", genServerLogs (intn 1%nat));
  (str "config_files", genConfigFiles (intn 2%nat));
  (str "json_data", genJSONData);
  (str "binary_headers", genBinaryHeaders)].

(** The data is cut into five files, the last of them with what the division leaves over. *)
Definition part (data : bytes) (i : Z) : res bytes :=
  let chunkSize := Z.quot (zlen data) 5 in
  let start := i * chunkSize in
  let end_ := if i =? 4 then zlen data else start + chunkSize in
  slice data start end_.

Definition part_path (name : bytes) (i : Z) : bytes :=
  Join (Join outputDir name) (str "part_" ++ fmt_03d i ++ str ".dat").

Fixpoint write_parts (name data : bytes) (numbers : list Z) (d : disk) : res disk :=
  match numbers with
  | [] => Ok d
  | i :: numbers => p ← part data i; write_parts name data numbers (<[part_path name i := p]> d)
  end.

Fixpoint write_generated (gs : list (bytes * res bytes)) (d : disk) : res disk :=
  match gs with
  | [] => Ok d
  | (name, fn) :: gs => data ← fn; d ← write_parts name data [0; 1; 2; 3; 4] d; write_generated gs d
  end.

Definition gen_real_world (intn : nat -> nat -> Z -> Z) (d : disk) : res disk := write_generated (generators intn) d.

(** ** The generators end *)

(** What a generator may write at once, and what it leaves. *)
Definition good_piece (p : bytes) : Prop := 0 < zlen p <= 256 /\ bytes_ok p.
Definition good_data (data : bytes) : Prop := data_size <= zlen data < data_size + 256 /\ bytes_ok data.

Lemma good_piece_dec p : (0 <? zlen p) && (zlen p <=? 256) && forallb (fun b => (0 <=? b) && (b <? 256)) p = true -> good_piece p.
Proof. intros [[?%Z.ltb_lt ?%Z.leb_le]%andb_true_iff Hb]%andb_true_iff. split; [done|by apply bytes_ok_dec]. Qed.

Lemma good_pieces_dec l :
  forallb (fun p => (0 <? zlen p) && (zlen p <=? 256) && forallb (fun b => (0 <=? b) && (b <? 256)) p) l = true -> Forall good_piece l.
Proof. rewrite forallb_forall. intros H. apply Forall_forall. intros p Hp. apply good_piece_dec, H. by apply list_elem_of_In. Qed.

(** The invariant of a loop of this kind: each step writes a good piece. The fuel is the bytes that are missing. *)
Lemma fill_ok {T} (P : T -> Prop) (step : T -> res (bytes * T)) limit :
  (forall st, P st -> exists piece st', step st = Ok (piece, st') /\ good_piece piece /\ P st') ->
  forall fuel st buf, P st -> bytes_ok buf -> zlen buf < limit + 256 -> Z.max 0 (limit - zlen buf) < Z.of_nat fuel ->
    exists data, fill fuel limit step st buf = Ok data /\ limit <= zlen data < limit + 256 /\ bytes_ok data.
Proof.
  intros Hstep fuel; induction fuel as [|fuel IH]; intros st buf Hst Hok Hmax Hfuel; cbn [fill]; [lia|].
  destruct (Z.ltb_spec (zlen buf) limit) as [Hlt|Hge]; [|by exists buf].
  destruct (Hstep st Hst) as (piece & st' & -> & [Hp Hpok] & Hst'). cbn [mbind res_bind].
  apply IH; [done|by apply Forall_app|rewrite zlen_app; lia..].
Qed.

Lemma generate_ok {T} (P : T -> Prop) (step : T -> res (bytes * T)) st :
  (forall st, P st -> exists piece st', step st = Ok (piece, st') /\ good_piece piece /\ P st') -> P st ->
  exists data, generate step st = Ok data /\ good_data data.
Proof.
  intros Hstep Hst. unfold generate, good_data. assert (Hd : 0 < data_size) by done. revert Hd. generalize data_size as limit. intros limit Hd.
  assert (Hz : zlen (@nil Z) = 0) by done.
  apply (fill_ok P step limit Hstep); [done|by apply Forall_nil|lia|lia].
Qed.

Section calls.
Variable intn : nat -> Z -> Z.
Hypothesis intn_range : forall k n, 0 < n -> 0 <= intn k n < n.

Lemma pick_elem k l : l <> [] -> exists t, pick intn k l = Ok t /\ t ∈ l.
Proof.
  intros Hl. assert (Hz : 0 < zlen l) by (destruct l as [|x l]; [done|rewrite zlen_cons; pose proof (zlen_nonneg l); lia]).
  unfold pick. pose proof (intn_range k (zlen l) Hz) as Hk. revert Hk. generalize (intn k (zlen l)) as i. intros i Hk.
  destruct (index_ok l i Hk) as [t Ht]. exists t. split; [done|]. unfold index in Ht. destruct (0 <=? i); [|done].
  rewrite <-(ztake_zdrop i l). destruct (zdrop i l) as [|x rest]; [done|]. injection Ht as ->. apply elem_of_app. right. by left.
Qed.

Lemma templates_ok l : Forall good_piece l -> l <> [] -> exists data, generate (fun k => t ← pick intn k l; Ok (t, S k)) O = Ok data /\ good_data data.
Proof.
  intros Hall Hl. apply (generate_ok (fun _ => True)); [|done]. intros k _. destruct (pick_elem k l Hl) as (t & -> & Ht).
  exists t, (S k). split; [done|]. split; [|done]. by apply (proj1 (Forall_forall _ _) Hall).
Qed.

Lemma log_line_ok ip method path code :
  ip ∈ ips -> method ∈ methods -> path ∈ paths -> code ∈ codes -> good_piece (log_line ip method path code).
Proof.
  assert (H : Forall (fun ip => Forall (fun method => Forall (fun path => Forall (fun code => good_piece (log_line ip method path code)) codes) paths) methods) ips).
  { repeat match goal with |- Forall _ _ => apply Forall_cons; split | |- Forall _ [] => constructor end.
    all: apply good_piece_dec; by vm_compute. }
  intros Hi Hm Hp Hc. rewrite Forall_forall in H. specialize (H ip Hi). rewrite Forall_forall in H. specialize (H method Hm).
  rewrite Forall_forall in H. specialize (H path Hp). rewrite Forall_forall in H. by apply H.
Qed.

Lemma genServerLogs_ok : exists data, genServerLogs intn = Ok data /\ good_data data.
Proof.
  unfold genServerLogs.
  apply (generate_ok (fun _ => True)); [|done]. intros k _.
  destruct (pick_elem k ips) as (ip & -> & Hi); [done|]. destruct (pick_elem (k + 1) paths) as (path & -> & Hp); [done|].
  destruct (pick_elem (k + 2) methods) as (method & -> & Hm); [done|]. destruct (pick_elem (k + 3) codes) as (code & -> & Hc); [done|].
  do 2 eexists. split; [reflexivity|]. split; [by apply log_line_ok|done].
Qed.
End calls.

Lemma json_line_ok id : 1 <= id <= 100 -> good_piece (json_line id).
Proof.
  intros Hid. assert (H : Forall good_piece (map json_line (seqZ 1 100))) by (apply good_pieces_dec; by vm_compute).
  rewrite Forall_forall in H. apply H, list_elem_of_fmap_2, elem_of_seqZ. lia.
Qed.

Lemma genJSONData_ok : exists data, genJSONData = Ok data /\ good_data data.
Proof.
  unfold genJSONData.
  apply (generate_ok (fun id => 1 <= id <= 100)); [|done]. intros id Hid. do 2 eexists. split; [reflexivity|].
  split; [by apply json_line_ok|]. destruct (Z.gtb_spec (id + 1) 100); lia.
Qed.

Lemma genBinaryHeaders_ok : exists data, genBinaryHeaders = Ok data /\ good_data data.
Proof.
  unfold genBinaryHeaders.
  apply (generate_ok (fun _ => True)); [|done]. intros [] _. do 2 eexists. split; [reflexivity|]. split; [|done].
  apply good_piece_dec. by vm_compute.
Qed.

Lemma generators_ok intn : (forall g k n, 0 < n -> 0 <= intn g k n < n) ->
  exists datas, Forall2 (fun g data => g.2 = Ok data /\ good_data data) (generators intn) datas.
Proof.
  intros Hr. assert (Hgo : Forall good_piece go_templates) by (apply good_pieces_dec; by vm_compute).
  assert (Hcfg : Forall good_piece config_templates) by (apply good_pieces_dec; by vm_compute).
  destruct (templates_ok (intn 0%nat) (Hr 0%nat) go_templates Hgo) as (d0 & H0); [done|].
  destruct (genServerLogs_ok (intn 1%nat) (Hr 1%nat)) as (d1 & H1).
  destruct (templates_ok (intn 2%nat) (Hr 2%nat) config_templates Hcfg) as (d2 & H2); [done|].
  destruct genJSONData_ok as (d3 & H3). destruct genBinaryHeaders_ok as (d4 & H4).
  exists [d0; d1; d2; d3; d4]. repeat (apply Forall2_cons; split); [exact H0|exact H1|exact H2|exact H3|exact H4|apply Forall2_nil; done].
Qed.

(** ** The files *)

Definition numbers : list Z := [0; 1; 2; 3; 4].

(** What the script writes for one generator, path and contents. *)
Definition part_of (data : bytes) (i : Z) : bytes :=
  let chunkSize := Z.quot (zlen data) 5 in
  sub (i * chunkSize) (if i =? 4 then zlen data else i * chunkSize + chunkSize) data.

Definition files_of (name data : bytes) : list (bytes * bytes) := map (fun i => (part_path name i, part_of data i)) numbers.

Definition write_files (files : list (bytes * bytes)) (d : disk) : disk := foldl (fun d kv => <[kv.1 := kv.2]> d) d files.

Lemma fifth {A} (data : list A) : 0 <= Z.quot (zlen data) 5 /\ 5 * Z.quot (zlen data) 5 <= zlen data < 5 * Z.quot (zlen data) 5 + 5.
Proof. pose proof (zlen_nonneg data). rewrite Z.quot_div_nonneg by lia. Z.div_mod_to_equations. lia. Qed.

Lemma numbers_range i : i ∈ numbers -> 0 <= i <= 4.
Proof. unfold numbers. intros H. repeat (apply elem_of_cons in H as [->|H]; [lia|]). by apply elem_of_nil in H. Qed.

Lemma part_ok data i : i ∈ numbers -> part data i = Ok (part_of data i).
Proof.
  intros Hi%numbers_range. pose proof (zlen_nonneg data). pose proof (fifth data). unfold part, part_of.
  destruct (Z.eqb_spec i 4); apply slice_ok; nia.
Qed.

Lemma parts_concat data : concat (map (part_of data) numbers) = data.
Proof.
  pose proof (zlen_nonneg data). pose proof (fifth data) as Hc. unfold numbers, part_of. revert Hc.
  generalize (Z.quot (zlen data) 5) as c. intros c Hc. cbn [map concat]. rewrite app_nil_r. change (0 =? 4) with false. change (1 =? 4) with false.
  change (2 =? 4) with false. change (3 =? 4) with false. change (4 =? 4) with true. cbv iota.
  assert (E : forall lo hi, 0 <= lo <= hi -> zdrop lo data = sub lo hi data ++ zdrop hi data) by (intros; by apply zdrop_sub_zdrop).
  transitivity (zdrop 0 data); [|apply zdrop_0]. rewrite (E 0 (0 * c + c)) by lia. rewrite (E (0 * c + c) (1 * c + c)) by lia. rewrite (E (1 * c + c) (2 * c + c)) by lia.
  rewrite (E (2 * c + c) (3 * c + c)) by lia. rewrite (E (3 * c + c) (zlen data)) by lia.
  rewrite (zlen_0_nil (zdrop (zlen data) data)) by (rewrite zlen_zdrop; lia). rewrite app_nil_r. repeat f_equal; lia.
Qed.

(** Each part has a fifth of the data at least. *)
Lemma zlen_part_of data i : i ∈ numbers -> Z.quot (zlen data) 5 <= zlen (part_of data i) <= zlen data.
Proof.
  intros Hi%numbers_range. pose proof (zlen_nonneg data). pose proof (fifth data). unfold part_of.
  destruct (Z.eqb_spec i 4) as [->|]; rewrite zlen_sub; nia.
Qed.

Lemma write_files_app l l' d : write_files (l ++ l') d = write_files l' (write_files l d).
Proof. apply foldl_app. Qed.

Lemma write_parts_ok name data d : write_parts name data numbers d = Ok (write_files (files_of name data) d).
Proof.
  unfold files_of. assert (H : Forall (fun i => i ∈ numbers) numbers) by by apply Forall_forall.
  revert H d. generalize numbers at 2 3 4 as ns. intros ns H. induction H as [|i ns Hi _ IH]; intros d; [done|].
  cbn [write_parts map]. rewrite part_ok by done. cbn [mbind res_bind]. by rewrite IH.
Qed.

(** The generators with their data. *)
Definition all_files (names : list bytes) (datas : list bytes) : list (bytes * bytes) := concat (zip_with files_of names datas).

Lemma write_generated_ok (gs : list (bytes * res bytes)) datas d :
  Forall2 (fun g data => g.2 = Ok data /\ good_data data) gs datas ->
  write_generated gs d = Ok (write_files (all_files (map fst gs) datas) d).
Proof.
  intros H. revert d. induction H as [|[name fn] data gs datas [Hfn _] _ IH]; intros d; [done|]. cbn [snd] in Hfn. subst fn.
  cbn [write_generated mbind res_bind]. change [0; 1; 2; 3; 4] with numbers. rewrite write_parts_ok. cbn [mbind res_bind].
  rewrite IH. unfold all_files. cbn [map fst zip_with concat]. by rewrite write_files_app.
Qed.

Lemma write_files_other files d k : k ∉ map fst files -> write_files files d !! k = d !! k.
Proof.
  revert d; induction files as [|[p v] files IH]; intros d Hk; [done|]. cbn [map fst] in Hk. apply not_elem_of_cons in Hk as [Hne Hk].
  change (write_files ((p, v) :: files) d) with (write_files files (<[p := v]> d)). rewrite IH by done. by rewrite lookup_insert_ne.
Qed.

Lemma write_files_lookup files d p v : NoDup (map fst files) -> (p, v) ∈ files -> write_files files d !! p = Some v.
Proof.
  revert d; induction files as [|[q w] files IH]; intros d Hd Hin; [by apply elem_of_nil in Hin|].
  cbn [map fst] in Hd. apply NoDup_cons in Hd as [Hq Hd].
  change (write_files ((q, w) :: files) d) with (write_files files (<[q := w]> d)). apply elem_of_cons in Hin as [[= -> ->]|Hin].
  - rewrite write_files_other by done. by rewrite lookup_insert_eq.
  - by apply IH.
Qed.

Definition names : list bytes := map str ["go_source"; "server_logs"; "config_files"; "json_data"; "binary_headers"]%string.

Definition all_paths : list bytes := concat (map (fun name => map (part_path name) numbers) names).

Lemma all_files_paths datas : length datas = 5%nat -> map fst (all_files names datas) = all_paths.
Proof. destruct datas as [|d0 [|d1 [|d2 [|d3 [|d4 [|]]]]]]; try done. Qed.

Lemma all_paths_distinct : NoDup all_paths.
Proof. apply (bool_decide_unpack (NoDup all_paths)). by vm_compute. Qed.

Lemma elem_all_files name data i datas k :
  names !! k = Some name -> datas !! k = Some data -> i ∈ numbers -> (part_path name i, part_of data i) ∈ all_files names datas.
Proof.
  intros Hn Hd Hi. unfold all_files. apply elem_of_concat. exists (files_of name data). split.
  - by apply (list_elem_of_fmap_2 (fun i => (part_path name i, part_of data i))).
  - apply elem_of_lookup_zip_with. by exists k, name, data.
Qed.

(** The script always ends, and writes five files for each of its five kinds of data: together they are the data of the
    kind, between 2 MiB and 256 bytes more, byte for byte and in order, and none is shorter than a fifth of it; nothing else on the disk changes. *)
Theorem gen_real_world_ok intn d :
  (forall g k n, 0 < n -> 0 <= intn g k n < n) ->
  exists datas d', gen_real_world intn d = Ok d' /\
    Forall2 (fun name data => good_data data /\
      exists parts, concat parts = data /\ Forall (fun p => Z.quot (zlen data) 5 <= zlen p) parts /\
        Forall2 (fun i p => d' !! part_path name i = Some p) numbers parts) names datas /\
    (forall path, path ∉ all_paths -> d' !! path = d !! path).
Proof.
  intros Hr. destruct (generators_ok intn Hr) as (datas & Hds). pose proof (Forall2_length _ _ _ Hds) as Hl. cbn in Hl.
  exists datas, (write_files (all_files names datas) d). split; [unfold gen_real_world; by rewrite (write_generated_ok _ datas)|].
  pose proof (all_files_paths datas (eq_sym Hl)) as Hp. split.
  - apply Forall2_same_length_lookup_2; [done|]. intros k name data Hn Hd.
    assert (Hg : exists g, generators intn !! k = Some g) by (apply lookup_lt_is_Some_2; apply lookup_lt_Some in Hd; cbn; lia).
    destruct Hg as [g Hg]. destruct (Forall2_lookup_lr _ _ _ _ _ _ Hds Hg Hd) as [_ Hgood]. split; [done|].
    exists (map (part_of data) numbers). split; [apply parts_concat|]. split.
    { apply Forall_forall. intros p (i & -> & Hi)%list_elem_of_fmap. by apply zlen_part_of. }
    apply Forall2_fmap_r, Forall_Forall2_diag, Forall_forall. intros i Hi.
    apply write_files_lookup; [rewrite Hp; apply all_paths_distinct|by apply (elem_all_files name data i datas k)].
  - intros path Hpath. apply write_files_other. by rewrite Hp.
Qed.

(** ** Training on them *)

Section training.
Context {hash64 : XXHash}.

(** A file with a chunk's worth of bytes has a whole chunk. *)
Lemma full_chunks_of cs files data :
  Some data ∈ files -> 0 < cs <= zlen data -> cs <= BlockSize -> full_chunks cs files <> [].
Proof.
  intros Hin Hcs Hblock Hnil. assert (Hmem : ztake cs data ∈ full_chunks cs files); [|rewrite Hnil in Hmem; by apply elem_of_nil in Hmem].
  unfold full_chunks. apply list_elem_of_filter. split; [rewrite zlen_ztake; lia|].
  apply (list_elem_of_fmap_2' c_Data _ (makeChunk (ztake BlockSize data) 0 cs)).
  - apply elem_of_concat. exists (FixedChunker_Split (NewFixedChunker cs) (ztake BlockSize data)). split.
    + unfold FixedChunker_Split. assert (Hl : (0 < length (ztake BlockSize data))%nat).
      { pose proof (zlen_ztake BlockSize data) as Hz. unfold zlen in *. lia. }
      destruct (length (ztake BlockSize data)) as [|fuel] eqn:El; [lia|]. cbn [fixed_loop].
      assert (Hz : zlen (ztake BlockSize data) = Z.min BlockSize (zlen data)) by (rewrite zlen_ztake; lia). rewrite Hz.
      rewrite (proj2 (Z.ltb_lt _ _)) by lia. assert (NewFixedChunker cs = cs) as -> by (unfold NewFixedChunker; destruct (Z.leb_spec cs 0); lia).
      rewrite Z.gtb_ltb, (proj2 (Z.ltb_ge _ _)) by lia. by left.
    + apply list_elem_of_fmap. exists (ztake BlockSize data). split; [done|]. unfold corpus_blocks. apply elem_of_concat.
      exists (file_blocks (Some data)). split; [|by apply list_elem_of_fmap_2].
      cbn. destruct data as [|x data]; [unfold zlen in Hcs; cbn [length] in Hcs; lia|]. cbn [length read_blocks]. by left.
  - cbn [makeChunk c_Data]. unfold sub. rewrite zdrop_0, Z.sub_0_r, !ztake_take, take_take. f_equal. lia.
Qed.

Context {CO : CountOrder} {COL : CountOrderLaws CO} {IL : Interleave} {ILL : InterleaveLaws IL}.

(** The files are what they were made for. A standard training on the directory - its 25 files in whatever order the walk
    finds them - with chunks of up to 64 KiB that the hash tells apart, writes a brain whose codewords are chunks of
    the files. *)
Theorem generated_brain {F0 : Files} intn d d' corpus opts :
  (forall g k n, 0 < n -> 0 <= intn g k n < n) -> gen_real_world intn d = Ok d' ->
  corpus ≡ₚ map (fun path => d' !! path) all_paths ->
  standard opts -> let cs := t_ChunkSize (train_defaults opts) in let maxCodewords := t_MaxCodewords (train_defaults opts) in
  cs < 2 ^ 16 -> maxCodewords < 2 ^ 40 -> distinct_hashes cs corpus ->
  exists file res r, Train corpus opts = Ok (file, res) /\ OpenFromBytes file = Ok r /\ good_brain r /\ size r = cs /\
    count r = r_SelectedElite res /\ 0 < count r <= maxCodewords.
Proof.
  intros Hr Hgen Hperm Hstd cs maxCodewords Hcs Hmax Hdist.
  destruct (gen_real_world_ok intn d Hr) as (datas & d0 & Hgen' & Hfiles & _). rewrite Hgen in Hgen'. injection Hgen' as <-.
  assert (Hpos : 0 < cs) by (unfold cs; cbn; destruct (Z.leb_spec (t_ChunkSize opts) 0); unfold DefaultChunkSize; lia).
  assert (Hpaths : forall path, path ∈ all_paths -> exists p, d' !! path = Some p /\ bytes_ok p /\ 2 ^ 16 <= zlen p).
  { intros path (ps & Hp & (name & -> & Hname)%list_elem_of_fmap)%elem_of_concat.
    apply list_elem_of_fmap in Hp as (i & -> & Hi). apply list_elem_of_lookup_1 in Hname as [k Hk].
    destruct (Forall2_lookup_l _ _ _ _ _ Hfiles Hk) as (data & _ & [Hlen Hok] & parts & Hcat & Hfifth & Hparts).
    pose proof (list_elem_of_lookup_1 _ _ Hi) as [j Hj]. destruct (Forall2_lookup_l _ _ _ _ _ Hparts Hj) as (p & Hpj & Hdp).
    apply list_elem_of_lookup_2 in Hpj. exists p. split; [done|]. split.
    - rewrite <-Hcat in Hok. apply Forall_concat in Hok. by apply (proj1 (Forall_forall _ _) Hok).
    - pose proof (proj1 (Forall_forall _ _) Hfifth p Hpj) as Hp5. cbv beta in Hp5. unfold data_size in Hlen. rewrite Z.quot_div_nonneg in Hp5 by lia.
      Z.div_mod_to_equations. lia. }
  destruct (Train_brain corpus opts Hstd) as (file & res & r & Ht & Ho & Hg & Hs & Hc & Hb & _); try done.
  - apply Forall_forall. intros f Hf. rewrite Hperm in Hf. apply list_elem_of_fmap in Hf as (path & -> & Hp).
    by destruct (Hpaths path Hp) as (p & -> & ? & _).
  - assert (Hin : part_path (str "go_source") 0 ∈ all_paths) by (apply (bool_decide_unpack (_ ∈ all_paths)); by vm_compute).
    destruct (Hpaths _ Hin) as (p & Hp & _ & Hl). apply (full_chunks_of cs corpus p); [|lia|change BlockSize with (2 ^ 24); lia].
    rewrite Hperm, <-Hp. by apply (list_elem_of_fmap_2 (fun path => d' !! path)).
  - by exists file, res, r.
Qed.
End training.

(** A source of random numbers that always answers 0, and one of zero bytes. *)
Lemma gen_real_world_ok_witness : exists d', gen_real_world (fun _ _ _ => 0) ∅ = Ok d' /\ forall path, path ∉ all_paths -> d' !! path = None.
Proof.
  destruct (gen_real_world_ok (fun _ _ _ => 0) ∅) as (datas & d' & E & _ & H); [intros; lia|].
  exists d'. split; [exact E|]. intros path Hp. rewrite (H path Hp). apply lookup_empty.
Defined.

Lemma gen_mini_codebook_opens_witness :
  exists file r, gen_mini_codebook (fun n => replicate (Z.to_nat n) 0) [] ∅ = {[str "testdata/mini.cromdb" := file]} /\ OpenFromBytes file = Ok r /\ count r = 8192.
Proof.
  destruct (gen_mini_codebook_opens (fun n => replicate (Z.to_nat n) 0) [] ∅) as (file & r & E & Ho & _ & Hc & _).
  - intros n Hn. split; [rewrite zlen_replicate; lia|]. apply Forall_replicate. unfold is_byte, is_u8. lia.
  - exists file, r. split; [exact E|]. split; [exact Ho|exact Hc].
Defined.
