(* ===== verification/Examples.v ===== *)
(** [examples/]: the three programs that show how the library is used - training a brain, a lossless archive that is checked
    against its input, and a lossy one. A program ends with an error where it calls [log.Fatalf] or [os.Exit]. *)

From S2P Require Import Prelude Binary Sha256 Externals Crypto Format FormatIO Delta Chunker Codebook.
From S2P Require Import Fractal Merkle Entropy Search Unpack Pack ChunkCodec BlockCodec RoundTrip PackFile.
From S2P Require Import Integrity VfsReader VfsRead VfsMount Edge Trainer Training TrainRun AutoBrain Cli CliRun.
Import codebook Format.
#[local] Open Scope Z_scope.

(** [args] are the arguments without the name of the program. *)
Definition usage (n : nat) (args : list bytes) : bool := (length args <? n)%nat.

(** ** [codebook_train] *)

Definition DefaultTrainOptions : TrainOptions := {|
  t_InputDir := []; t_OutputPath := []; t_MaxCodewords := 8192; t_MaxPerBucket := 64; t_ChunkSize := DefaultChunkSize;
  t_DataAugmentation := false; t_UseBPE := false; t_UpdatePath := []; t_BasePath := [] |}.

Definition example_train_options (inputDir outputPath : bytes) : TrainOptions := {|
  t_InputDir := inputDir; t_OutputPath := outputPath; t_MaxCodewords := 4096; t_MaxPerBucket := t_MaxPerBucket DefaultTrainOptions;
  t_ChunkSize := t_ChunkSize DefaultTrainOptions; t_DataAugmentation := t_DataAugmentation DefaultTrainOptions;
  t_UseBPE := t_UseBPE DefaultTrainOptions; t_UpdatePath := t_UpdatePath DefaultTrainOptions;
  t_BasePath := t_BasePath DefaultTrainOptions |}.

Section examples.
Context {Z0 : Zstd} {C0 : Cipher} {hash64 : XXHash} {log2 : MathLog2} {order : MapOrder}.
Context {CO : CountOrder} {IL : Interleave} {PO : PairOrder}.
Variable hasSIMD : bool.

(** [corpus] is what the walk over the directory finds. *)
Definition codebook_train_main (corpus : Corpus) (args : list bytes) (d : disk) : res (disk * TrainResult) :=
  if usage 2 args then Err "usage" else
  let inputDir := default [] (args !! 0%nat) in
  let outputPath := default [] (args !! 1%nat) in
  '(file, result) ← wrap_err "Training failed" (Train (F0 := on_disk d) corpus (example_train_options inputDir outputPath));
  Ok (<[outputPath := file]> d, result).

(** ** [archive_mode] *)

Definition with_mode (mode : string) (opts : PackOptions) : PackOptions := {|
  o_Mode := mode; o_CodebookPaths := o_CodebookPaths opts; o_EncryptionKey := o_EncryptionKey opts;
  o_UseConvergentEncryption := o_UseConvergentEncryption opts; o_GlobalSecret := o_GlobalSecret opts;
  o_ChunkSize := o_ChunkSize opts; o_UseCDC := o_UseCDC opts; o_UseACAC := o_UseACAC opts;
  o_ACACDelimiter := o_ACACDelimiter opts; o_MultiPass := o_MultiPass opts; o_MaxCompression := o_MaxCompression opts;
  o_EmbedBrain := o_EmbedBrain opts |}.

Definition sha256File (path : bytes) (d : disk) : res bytes :=
  match d !! path with Some data => Ok (Sum256 data) | None => Err "Cannot open" end.

(** The disk at the end, and whether the digests agree; the restored file is gone again. *)
Definition archive_mode_main (rnd : Randomness) (schedule : Z -> nat -> list nat) (intn : Z -> Z) (partial : bytes)
    (args : list bytes) (d : disk) : res (disk * bool) :=
  if usage 3 args then Err "usage" else
  let input := default [] (args !! 0%nat) in
  let codebook := default [] (args !! 1%nat) in
  let output := default [] (args !! 2%nat) in
  let restored := output ++ str ".restored" in
  d ← wrap_err "Pack failed" (Pack_to hasSIMD rnd schedule input output codebook (with_mode "archive" DefaultPackOptions) d);
  match Unpack_to intn partial output restored codebook DefaultUnpackOptions d with
  | (d, Ok _) =>
      hashOrig ← sha256File input d;
      hashRestored ← sha256File restored d;
      Ok (delete restored d, bytes_eqb hashOrig hashRestored)
  | (_, Err _) => Err "Unpack failed"
  | (_, Panic p) => Panic p
  end.

(** ** [edge_mode] *)

Definition edge_mode_main (rnd : Randomness) (schedule : Z -> nat -> list nat) (args : list bytes) (d : disk) : res disk :=
  if usage 3 args then Err "usage" else
  let input := default [] (args !! 0%nat) in
  let codebook := default [] (args !! 1%nat) in
  let output := default [] (args !! 2%nat) in
  wrap_err "Pack failed" (Pack_to hasSIMD rnd schedule input output codebook (with_mode "edge" DefaultPackOptions) d).

Context {ZL : ZstdLaws Z0} {CL : CipherLaws C0} {OL : MapOrderLaws order}.
Context {COL : CountOrderLaws CO} {ILL : InterleaveLaws IL}.

Lemma train_example corpus inputDir brain d :
  inputDir <> [] -> brain <> [] ->
  Forall (fun f => match f with Some d => bytes_ok d | None => True end) corpus ->
  full_chunks DefaultChunkSize corpus <> [] -> distinct_hashes DefaultChunkSize corpus ->
  exists file res r, codebook_train_main corpus [inputDir; brain] d = Ok (<[brain := file]> d, res) /\
    OpenFromBytes file = Ok r /\ fit_brain (Some r) /\ size r = DefaultChunkSize /\ count r = r_SelectedElite res /\ count r <= 4096.
Proof.
  intros Hin Hout Hbytes Hfull Hdist.
  destruct (Train_brain (F0 := on_disk d) corpus (example_train_options inputDir brain)) as (file & res & r & E & Ho & Hg & Hs & Hc & [Hpos Hmax] & _); try done.
  exists file, res, r. split_and!; try done. unfold codebook_train_main. cbn. by rewrite E.
Qed.

Lemma archive_example rnd schedule intn partial input brain output data r d :
  rnd_ok rnd -> (forall i n, schedule i n ≡ₚ seq 0 n) -> d !! input = Some data -> bytes_ok data -> zlen data <= 2 ^ 27 ->
  session_paths input output (output ++ str ".restored") brain -> fit_brain (Some r) -> brain <> [] -> Open (H := on_disk d) brain = Ok r ->
  exists file, archive_mode_main rnd schedule intn partial [input; brain; output] d =
      Ok (delete (output ++ str ".restored") (publish (output ++ str ".restored") data (publish output file d)), true) /\
    forall F1 intn, read_file (Files := F1) brain = d !! brain -> Unpack (F0 := F1) intn file brain DefaultUnpackOptions = Ok data.
Proof.
  intros Hrnd Hsched Hin Hok Hlen [_ _ _ [Hio Hiot] [Hir Hirt] [Hbo Hbot]] Hfit Hb Hopen.
  pose proof (Pack_to_round_trip hasSIMD rnd schedule (default_flags input output brain) data brain false d Hrnd Hsched Hin Hok
    ltac:(lia) ltac:(done) ltac:(by exists r)) as H.
  specialize (H (few_chunks (F0 := on_disk _) rnd data brain (used_options (default_flags input output brain) false) (Some r)
    ltac:(by split) eq_refl Hlen)).
  change (used_options (default_flags input output brain) false) with (with_mode "archive" DefaultPackOptions) in H.
  cbn [pf_input pf_output default_flags] in H. unfold archive_mode_main. cbn [usage length Nat.ltb Nat.leb lookup list_lookup default from_option id].
  destruct (Pack_to _ _ _ _ _ _ _ _) as [d1|e|p]; cbn [wrap_err mbind res_bind]; [|by destruct H|done].
  destruct H as (file & -> & Hun). exists file. rewrite (Unpack_to_ok _ _ _ _ _ _ _ file data).
  - unfold sha256File. rewrite publish_lookup, !publish_other, Hin by done. cbn [mbind res_bind]. rewrite bytes_eqb_refl.
    split; [done|]. intros F1 intn' HF. by apply Hun.
  - apply publish_lookup.
  - apply Hun; [by apply publish_other|done|done].
Qed.

Lemma edge_example rnd schedule intn input brain output data r d :
  rnd_ok rnd -> (forall i n, schedule i n ≡ₚ seq 0 n) -> d !! input = Some data -> bytes_ok data -> zlen data <= 2 ^ 27 ->
  fit_brain (Some r) -> brain <> [] -> Open (H := on_disk d) brain = Ok r ->
  exists file out split, edge_mode_main rnd schedule [input; brain; output] d = Ok (publish output file d) /\
    Unpack (F0 := on_disk d) intn file brain DefaultUnpackOptions = Ok out /\
    approximated (resembles (Some r)) split data out /\ zlen out = zlen data.
Proof.
  intros Hrnd Hsched Hin Hok Hlen Hfit Hb Hopen. set (opts := with_mode "edge" DefaultPackOptions).
  assert (Hat : brain_at (F0 := on_disk d) brain (Some r)) by done.
  pose proof (Pack_edge_file (F0 := on_disk d) hasSIMD rnd schedule data brain (Some r) opts Hrnd Hsched Hat eq_refl ltac:(done)
    ltac:(done) eq_refl eq_refl Hok ltac:(lia) (few_chunks (F0 := on_disk d) rnd data brain opts (Some r) Hat eq_refl Hlen)) as H.
  unfold edge_mode_main. cbn [usage length Nat.ltb Nat.leb lookup list_lookup default from_option id]. unfold Pack_to. fold opts. rewrite Hin.
  destruct (Pack _ _ _ _ _ _) as [file|e|p]; [|by destruct H|done].
  destruct H as (pl & split & out & _ & _ & Happ & _ & Hfile). exists file, out, split. split; [done|]. split.
  - by apply (edge_file_unpacks (F0 := on_disk d) intn data out brain (Some r) opts).
  - split; [done|]. by apply (approximated_len _ _ _ _ Happ).
Qed.

(** The programs in a row. Trained on a corpus in which some file has a whole chunk, with a hash that tells the chunks
    apart, the brain serves both modes for every other input of up to 128 MiB: the archive example reports a match, for an archive
    that unpacks to the input, and leaves nothing else; the archive of the edge example unpacks to as many bytes, every
    chunk of 128 the same or the beginning of a codeword. *)
Theorem examples_session corpus inputDir brain d rnd schedule intn partial input output edgeOutput data :
  inputDir <> [] -> Forall (fun f => match f with Some d => bytes_ok d | None => True end) corpus ->
  full_chunks DefaultChunkSize corpus <> [] -> distinct_hashes DefaultChunkSize corpus ->
  rnd_ok rnd -> (forall i n, schedule i n ≡ₚ seq 0 n) -> d !! input = Some data -> bytes_ok data -> zlen data <= 2 ^ 27 ->
  session_paths input output (output ++ str ".restored") brain -> input <> brain -> brain <> [] ->
  exists d1 res r, codebook_train_main corpus [inputDir; brain] d = Ok (d1, res) /\ Open (H := on_disk d1) brain = Ok r /\
    (exists file, archive_mode_main rnd schedule intn partial [input; brain; output] d1 =
        Ok (delete (output ++ str ".restored") (publish (output ++ str ".restored") data (publish output file d1)), true) /\
      Unpack (F0 := on_disk d1) intn file brain DefaultUnpackOptions = Ok data) /\
    (exists file out split, edge_mode_main rnd schedule [input; brain; edgeOutput] d1 = Ok (publish edgeOutput file d1) /\
      Unpack (F0 := on_disk d1) intn file brain DefaultUnpackOptions = Ok out /\
      approximated (resembles (Some r)) split data out /\ zlen out = zlen data).
Proof.
  intros Hdir Hbytes Hfull Hdist Hrnd Hsched Hin Hok Hlen Hpaths Hne Hb.
  destruct (train_example corpus inputDir brain d Hdir Hb Hbytes Hfull Hdist) as (brainFile & res & r & E & Ho & Hfit & _).
  exists (<[brain := brainFile]> d), res, r. split; [done|].
  assert (Hopen : Open (H := on_disk (<[brain := brainFile]> d)) brain = Ok r).
  { apply (Open_file _ brainFile); [unfold on_disk; apply lookup_insert_eq|done]. }
  assert (Hin1 : <[brain := brainFile]> d !! input = Some data) by by rewrite lookup_insert_ne.
  split; [done|]. split.
  - destruct (archive_example rnd schedule intn partial input brain output data r _ Hrnd Hsched Hin1 Hok Hlen Hpaths Hfit Hb Hopen)
      as (file & Hrun & Hun). exists file. split; [done|by apply Hun].
  - by apply edge_example.
Qed.
End examples.

Lemma examples_session_witness :
  let d := {[str "in" := long_input]} : disk in
  exists d1 res r file, codebook_train_main [Some (replicate 128 3 ++ [1; 2])] [str "corpus"; str "brain"] d = Ok (d1, res) /\
    Open (H := on_disk d1) (str "brain") = Ok r /\
    archive_mode_main (log2 := log2_zero) (order := key_order) true sample_rnd (fun _ n => seq 0 n) (fun _ => 0) [] [str "in"; str "brain"; str "out"] d1 =
      Ok (delete (str "out.restored") (publish (str "out.restored") long_input (publish (str "out") file d1)), true).
Proof.
  intros d. destruct (examples_session (log2 := log2_zero) (order := key_order) true [Some (replicate 128 3 ++ [1; 2])] (str "corpus") (str "brain") d sample_rnd
    (fun _ n => seq 0 n) (fun _ => 0) [] (str "in") (str "out") (str "edge") long_input)
    as (d1 & res & r & H0 & H1 & (file & H2 & _) & _).
  - discriminate.
  - repeat constructor; discriminate.
  - vm_compute. discriminate.
  - apply distinct_hashes_dec_ok. vm_compute. reflexivity.
  - constructor; reflexivity.
  - intros i n. reflexivity.
  - reflexivity.
  - apply bytes_ok_dec. vm_compute. reflexivity.
  - vm_compute. congruence.
  - split; try split; discriminate.
  - discriminate.
  - discriminate.
  - exists d1, res, r, file. split; [exact H0|]. split; [exact H1|exact H2].
Defined.
